(** * The reliverse configuration engine: a shallow embedding

    This development models the configuration module of the reliverse CLI
    (the file that defines [deepMerge], [mergeWithDefaults], [fixLineByLine],
    [writeReliverseConfig], [readReliverseConfig], [parseAndFixConfig],
    [updateReliverseConfig] and [migrateReliverseConfig]) and proves
    properties of it.

    Conventions of the embedding.
    - JavaScript values are the inductive [value]: the values a JSON or
      JSONC parser produces, and [undefined].  An object is a plain object
      (its prototype is [Object.prototype]), given as an association list
      in property-insertion order; the engine's rule that puts
      array-index-like keys first is not modelled.
    - A property read [o[k]] and the test [k in o] see the own properties
      only.  The members that every object inherits from
      [Object.prototype] are listed in [inherited_names]; the statements
      whose truth depends on them say that no declared property has such a
      name.
    - Numbers are integers (the configuration only holds integers), strings
      are sequences of 8-bit code units.
    - Asynchronous file-system code is a state-and-exception monad over a
      [World]: the files plus a plan saying which of the coming file
      operations fail.  Logging through [relinka] has no effect on files or
      results and is left out.
    - What the module imports from files that are not part of the sources
      (the constants, the schema, the JSONC parser) is collected in the
      class [Externals]. *)

From Stdlib Require Import String Ascii List ZArith Bool Lia DecimalString.
From Stdlib Require DecimalPos.
From stdpp Require Import gmap strings.
Import ListNotations.
Open Scope string_scope.
Open Scope list_scope.
Set Warnings "-register-all".

(* ================================================================== *)
(** * Part I: definitions                                              *)
(* ================================================================== *)

(** ** JavaScript values *)

Inductive value : Type :=
| VUndefined
| VNull
| VBool (b : bool)
| VNum (n : Z)
| VStr (s : string)
| VArr (elems : list value)
| VObj (props : list (string * value)).

(** A plain object: own enumerable properties in insertion order. *)
Definition obj : Type := list (string * value).

Fixpoint lookup_prop (o : obj) (k : string) : option value :=
  match o with
  | [] => None
  | (k', v) :: rest => if String.eqb k' k then Some v else lookup_prop rest k
  end.

(** [o[k]] on a plain object: [undefined] when the key is absent. *)
Definition get (o : obj) (k : string) : value :=
  match lookup_prop o k with
  | Some v => v
  | None => VUndefined
  end.

(** [Object.prototype.hasOwnProperty.call(o, k)], also [k in o]. *)
Definition hasOwn (o : obj) (k : string) : bool :=
  match lookup_prop o k with
  | Some _ => true
  | None => false
  end.

(** [o[k] = v]: an existing key keeps its place, a new key goes last. *)
Fixpoint set (o : obj) (k : string) (v : value) : obj :=
  match o with
  | [] => [(k, v)]
  | (k', v') :: rest =>
      if String.eqb k' k then (k, v) :: rest else (k', v') :: set rest k v
  end.

(** [{...a, ...b}] *)
Definition assign (a b : obj) : obj :=
  fold_left (fun acc kv => set acc (fst kv) (snd kv)) b a.

Definition keys (o : obj) : list string := map fst o.

Definition is_undefined (v : value) : bool :=
  match v with VUndefined => true | _ => false end.

Definition is_nullish (v : value) : bool :=
  match v with VUndefined | VNull => true | _ => false end.

Definition is_array (v : value) : bool :=
  match v with VArr _ => true | _ => false end.

Definition typeof (v : value) : string :=
  match v with
  | VUndefined => "undefined"
  | VNull => "object"
  | VBool _ => "boolean"
  | VNum _ => "number"
  | VStr _ => "string"
  | VArr _ => "object"
  | VObj _ => "object"
  end.

(** [typeof v === "object" && v !== null] *)
Definition is_object_like (v : value) : bool :=
  String.eqb (typeof v) "object" && negb (match v with VNull => true | _ => false end).

(** JavaScript truthiness, as tested by [!parsed]. *)
Definition truthy (v : value) : bool :=
  match v with
  | VUndefined | VNull => false
  | VBool b => b
  | VNum n => negb (Z.eqb n 0)
  | VStr s => negb (String.eqb s "")
  | VArr _ | VObj _ => true
  end.

(** [a ?? b] *)
Definition nullish_or (a b : value) : value :=
  if is_nullish a then b else a.

(** Decimal text of an array index and of an integer. *)
Definition idx_key (i : nat) : string := NilEmpty.string_of_uint (Nat.to_uint i).
Definition decimal (n : Z) : string := NilEmpty.string_of_int (Z.to_int n).

Fixpoint index_from (i : nat) (l : list value) : obj :=
  match l with
  | [] => []
  | v :: rest => (idx_key i, v) :: index_from (S i) rest
  end.

(** The own enumerable properties of an array: its elements by index. *)
Definition index_props (l : list value) : obj := index_from 0 l.

Fixpoint chars_of (s : string) : list value :=
  match s with
  | EmptyString => []
  | String c rest => VStr (String c EmptyString) :: chars_of rest
  end.

(** The own enumerable properties of any value, as the spread [{...v}]
    and [for (k in v)] see them. *)
Definition own_props (v : value) : obj :=
  match v with
  | VObj o => o
  | VArr l => index_props l
  | VStr s => index_props (chars_of s)
  | _ => []
  end.

(** [v[k]] for an arbitrary value, own members only: [None] is the
    [TypeError] raised on [undefined] and [null]. *)
Definition get_member (v : value) (k : string) : option value :=
  match v with
  | VUndefined | VNull => None
  | VObj o => Some (get o k)
  | VArr l =>
      Some (if String.eqb k "length" then VNum (Z.of_nat (List.length l))
            else get (index_props l) k)
  | VStr s =>
      Some (if String.eqb k "length" then VNum (Z.of_nat (String.length s))
            else get (index_props (chars_of s)) k)
  | VBool _ | VNum _ => Some VUndefined
  end.

(** [k in v], for an object or an array, own members only. *)
Definition has_member (v : value) (k : string) : bool :=
  match v with
  | VObj o => hasOwn o k
  | VArr l => String.eqb k "length" || hasOwn (index_props l) k
  | _ => false
  end.

Definition own_elems (v : value) : list value :=
  match v with VArr l => l | _ => [] end.

(** Structural equality.  It stands for [===]: exact on primitives; on
    objects and arrays [===] compares references, and the only place the
    module uses it compares a value with itself. *)
Fixpoint value_eqb (a b : value) {struct a} : bool :=
  match a, b with
  | VUndefined, VUndefined => true
  | VNull, VNull => true
  | VBool x, VBool y => Bool.eqb x y
  | VNum x, VNum y => Z.eqb x y
  | VStr x, VStr y => String.eqb x y
  | VArr xs, VArr ys =>
      (fix go (xs ys : list value) {struct xs} : bool :=
         match xs, ys with
         | [], [] => true
         | x :: xs', y :: ys' => value_eqb x y && go xs' ys'
         | _, _ => false
         end) xs ys
  | VObj xs, VObj ys =>
      (fix go (xs ys : list (string * value)) {struct xs} : bool :=
         match xs, ys with
         | [], [] => true
         | (k, x) :: xs', (k', y) :: ys' =>
             String.eqb k k' && value_eqb x y && go xs' ys'
         | _, _ => false
         end) xs ys
  | _, _ => false
  end.

Definition join (sep : string) (l : list string) : string :=
  match l with
  | [] => ""
  | x :: rest => fold_left (fun acc y => acc +:+ sep +:+ y) rest x
  end.

(** [String(v)]: [None] is the [TypeError] of a value that cannot be
    converted to a primitive.  An object is converted by its [toString]
    member: the one it inherits gives ["[object Object]"]; an own
    [toString] key hides it, and since no value of a parsed document is
    callable the conversion then falls back to [valueOf], which never
    gives a primitive, and raises.  An array is converted by joining its
    elements, [null] and [undefined] giving the empty string. *)
Fixpoint js_String (v : value) : option string :=
  match v with
  | VUndefined => Some "undefined"
  | VNull => Some "null"
  | VBool true => Some "true"
  | VBool false => Some "false"
  | VNum n => Some (decimal n)
  | VStr s => Some s
  | VArr l =>
      match
        (fix each (l : list value) {struct l} : option (list string) :=
           match l with
           | [] => Some []
           | e :: rest =>
               match (if is_nullish e then Some "" else js_String e) with
               | Some s =>
                   match each rest with
                   | Some ss => Some (s :: ss)
                   | None => None
                   end
               | None => None
               end
           end) l
      with
      | Some parts => Some (join "," parts)
      | None => None
      end
  | VObj o => if hasOwn o "toString" then None else Some "[object Object]"
  end.

(** [String(v)] does not raise. *)
Definition convertible (v : value) : bool :=
  match js_String v with Some _ => true | None => false end.

(** The names of the members that every object inherits from
    [Object.prototype]. *)
Definition inherited_names : list string :=
  [ "constructor"; "hasOwnProperty"; "isPrototypeOf"; "propertyIsEnumerable";
    "toLocaleString"; "toString"; "valueOf";
    "__defineGetter__"; "__defineSetter__"; "__lookupGetter__"; "__lookupSetter__";
    "__proto__" ].

Definition is_inherited (k : string) : bool := existsb (String.eqb k) inherited_names.

(** ** Strings *)

(** The code units below 256 that [trim] and the regular expression
    class [\s] treat as white space. *)
Definition is_ws (c : ascii) : bool :=
  let n := nat_of_ascii c in
  (Nat.leb 9 n && Nat.leb n 13) || Nat.eqb n 32 || Nat.eqb n 160.

Definition char_lf : ascii := ascii_of_nat 10.
Definition char_quote : ascii := ascii_of_nat 34.
Definition str_lf : string := String char_lf EmptyString.
Definition str_quote : string := String char_quote EmptyString.

Fixpoint trim_start (s : string) : string :=
  match s with
  | String c rest => if is_ws c then trim_start rest else s
  | EmptyString => EmptyString
  end.

Fixpoint rev_string (acc s : string) : string :=
  match s with
  | EmptyString => acc
  | String c rest => rev_string (String c acc) rest
  end.

Definition trim_end (s : string) : string :=
  rev_string "" (trim_start (rev_string "" s)).

(** [s.trim()] *)
Definition js_trim (s : string) : string := trim_end (trim_start s).

Definition lower (c : ascii) : ascii :=
  let n := nat_of_ascii c in
  if Nat.leb 65 n && Nat.leb n 90 then ascii_of_nat (n + 32) else c.

(** [strip_prefix ci p s]: the rest of [s] after the prefix [p], compared
    exactly or, with [ci], ignoring the case of ASCII letters. *)
Fixpoint strip_prefix (ci : bool) (p s : string) : option string :=
  match p with
  | EmptyString => Some s
  | String a p' =>
      match s with
      | EmptyString => None
      | String b s' =>
          if Ascii.eqb (if ci then lower a else a) (if ci then lower b else b)
          then strip_prefix ci p' s'
          else None
      end
  end.

Definition or_self (r : option string) (s : string) : string :=
  match r with Some t => t | None => s end.

Definition strip_suffix (ci : bool) (p s : string) : option string :=
  match strip_prefix ci (rev_string "" p) (rev_string "" s) with
  | Some r => Some (rev_string "" r)
  | None => None
  end.

Definition git_hosts : list string :=
  ["github"; "gitlab"; "bitbucket"; "sourcehut"].

(** [(github|gitlab|bitbucket|sourcehut)\.com\/] at the start of [s],
    case-insensitive: the first alternative that matches. *)
Fixpoint strip_host (hosts : list string) (s : string) : option string :=
  match hosts with
  | [] => None
  | h :: rest =>
      match strip_prefix true (h +:+ ".com/") s with
      | Some r => Some r
      | None => strip_host rest s
      end
  end.

(** [^https?:\/\/(www\.)?(github|gitlab|bitbucket|sourcehut)\.com\/], flag [i] *)
Definition strip_web_host (s : string) : option string :=
  match strip_prefix true "http" s with
  | None => None
  | Some r =>
      match strip_prefix true "://" (or_self (strip_prefix true "s" r) r) with
      | None => None
      | Some r1 => strip_host git_hosts (or_self (strip_prefix true "www." r1) r1)
      end
  end.

(** [cleanGitHubUrl]: trim, then drop a leading [git+], a leading web
    address of a known host, a leading bare host, and a trailing [.git]. *)
Definition cleanGitHubUrl (url : string) : string :=
  let s0 := js_trim url in
  let s1 := or_self (strip_prefix false "git+" s0) s0 in
  let s2 := or_self (strip_web_host s1) s1 in
  let s3 := or_self (strip_host git_hosts s2) s2 in
  or_self (strip_suffix true ".git" s3) s3.

(** ** Schemas: the fragment of TypeBox the module relies on *)

Inductive literal : Type :=
| LStr (s : string)
| LNum (n : Z)
| LBool (b : bool).

(** A schema node.  [TObject] is [Type.Object(properties, { required,
    additionalProperties })]; [TRecord] is [Type.Record(Type.String(), T)],
    whose [type] is ["object"] and which has no [properties]; the other
    nodes are leaves. *)
Inductive TSchema : Type :=
| TAny
| TString
| TNumber
| TBoolean
| TNull
| TLiteral (c : literal)
| TUnion (anyOf : list TSchema)
| TArray (items : TSchema)
| TRecord (values : TSchema)
| TObject (properties : list (string * TSchema)) (required : list string)
          (additionalProperties : bool).

Definition mem_string (k : string) (l : list string) : bool :=
  existsb (String.eqb k) l.

Definition literal_matches (c : literal) (v : value) : bool :=
  match c, v with
  | LStr s, VStr t => String.eqb s t
  | LNum n, VNum m => Z.eqb n m
  | LBool b, VBool d => Bool.eqb b d
  | _, _ => false
  end.

Definition is_any (schema : TSchema) : bool :=
  match schema with TAny => true | _ => false end.

(** [Value.Check(schema, v)].  For an object node: the value is a plain
    object; the value under a required property validates, and the key is
    present when the property's schema is [Any] (for the other schemas of
    this fragment [undefined] does not validate, so the key is present as
    well); an optional property is checked when its value is not
    [undefined]; with [additionalProperties: false] every own key is
    declared. *)
Fixpoint Check (schema : TSchema) (v : value) {struct schema} : bool :=
  match schema with
  | TAny => true
  | TString => match v with VStr _ => true | _ => false end
  | TNumber => match v with VNum _ => true | _ => false end
  | TBoolean => match v with VBool _ => true | _ => false end
  | TNull => match v with VNull => true | _ => false end
  | TLiteral c => literal_matches c v
  | TUnion anyOf => existsb (fun s => Check s v) anyOf
  | TArray items =>
      match v with
      | VArr l => forallb (Check items) l
      | _ => false
      end
  | TRecord values =>
      match v with
      | VObj o => forallb (fun kv => Check values (snd kv)) o
      | _ => false
      end
  | TObject properties required additionalProperties =>
      match v with
      | VObj o =>
          forallb
            (fun p =>
               if mem_string (fst p) required
               then Check (snd p) (get o (fst p))
                    && (negb (is_any (snd p)) || hasOwn o (fst p))
               else is_undefined (get o (fst p)) || Check (snd p) (get o (fst p)))
            properties
          && (additionalProperties
              || forallb (fun kv => mem_string (fst kv) (map fst properties)) o)
      | _ => false
      end
  end.

(** [schema.type], when the node has one. *)
Definition schema_type (schema : TSchema) : option string :=
  match schema with
  | TString => Some "string"
  | TNumber => Some "number"
  | TBoolean => Some "boolean"
  | TNull => Some "null"
  | TArray _ => Some "array"
  | TRecord _ | TObject _ _ _ => Some "object"
  | TLiteral (LStr _) => Some "string"
  | TLiteral (LNum _) => Some "number"
  | TLiteral (LBool _) => Some "boolean"
  | TAny | TUnion _ => None
  end.

(** [subSchema["type"] === "object"] *)
Definition has_object_type (schema : TSchema) : bool :=
  match schema_type schema with
  | Some t => String.eqb t "object"
  | None => false
  end.

(** ** deepMerge *)

(** [deepMerge(target, source)], by recursion on the source.  The loop is
    the [for (const key in source)] loop with [result] as its state; an
    own key whose value is [undefined] is skipped. *)
Fixpoint deepMerge_rec (target : obj) (source : value) {struct source} : obj :=
  match source with
  | VObj props =>
      (fix loop (result : obj) (src : list (string * value)) {struct src} : obj :=
         match src with
         | [] => result
         | (key, sourceValue) :: rest =>
             let targetValue := get target key in
             match sourceValue with
             | VUndefined => loop result rest
             | VObj _ =>
                 match targetValue with
                 | VObj t => loop (set result key (VObj (deepMerge_rec t sourceValue))) rest
                 | _ => loop (set result key sourceValue) rest
                 end
             | _ => loop (set result key sourceValue) rest
             end
         end) target props
  | _ => target
  end.

Definition deepMerge (target source : obj) : obj :=
  deepMerge_rec target (VObj source).

(** ** fixLineByLine *)

(** [createSinglePropertySchema(key, subSchema)] *)
Definition createSinglePropertySchema (key : string) (subSchema : TSchema) : TSchema :=
  TObject [(key, subSchema)] [key] false.

(** [fixSingleProperty(schema, propName, userValue, defaultValue)] *)
Definition fixSingleProperty (schema : TSchema) (propName : string)
    (userValue defaultValue : value) : value :=
  let singlePropertySchema := createSinglePropertySchema propName schema in
  let testObject := VObj [(propName, userValue)] in
  let isValid := Check singlePropertySchema testObject in
  if isValid then userValue else defaultValue.

Definition is_repo_prop (propName : string) : bool :=
  String.eqb propName "customUserFocusedRepos"
  || String.eqb propName "customDevsFocusedRepos".

(** [l.map((url) => String(url))], which raises with the first element
    that cannot be converted. *)
Fixpoint strings_of (l : list value) : option (list string) :=
  match l with
  | [] => Some []
  | url :: rest =>
      match js_String url with
      | Some s =>
          match strings_of rest with
          | Some ss => Some (s :: ss)
          | None => None
          end
      | None => None
      end
  end.

(** [userValue.map((url) => cleanGitHubUrl(String(url)))] *)
Definition clean_repos (l : list value) : option value :=
  match strings_of l with
  | Some urls => Some (VArr (map (fun s => VStr (cleanGitHubUrl s)) urls))
  | None => None
  end.

(** [schema.type === "object" && schema.properties] *)
Definition isObjectSchema (schema : TSchema) : bool :=
  match schema with
  | TObject _ _ _ => true
  | _ => false
  end.

(** The first [return] of [fixLineByLine]: the node as a whole. *)
Definition fix_whole (userConfig defaultConfig : value) (schema : TSchema)
  : value * list string :=
  let isValid := Check schema userConfig in
  (if isValid then userConfig else defaultConfig,
   if isValid then [] else ["<entire_object>"]).

(** [fixLineByLine(userConfig, defaultConfig, schema)]: the pair
    [(fixedConfig, changedKeys)], or [None] when the call raises a
    [TypeError]: that of reading a property of a [null] or [undefined]
    default, or that of [String(url)] on an element of a repository list.
    [loop] is the [for (const propName of Object.keys(properties))] loop
    with [result] and [changedKeys] as its state. *)
Fixpoint fixLineByLine (userConfig defaultConfig : value) (schema : TSchema)
    {struct schema} : option (value * list string) :=
  match schema with
  | TObject properties _ _ =>
      if negb (is_object_like userConfig)
      then Some (fix_whole userConfig defaultConfig schema)
      else
        (fix loop (props : list (string * TSchema)) (result : obj)
             (changedKeys : list string) {struct props}
           : option (value * list string) :=
           match props with
           | [] => Some (VObj result, changedKeys)
           | (propName, subSchema) :: rest =>
               match get_member userConfig propName, get_member defaultConfig propName with
               | Some userValue, Some defaultValue =>
                   if is_undefined userValue && negb (has_member userConfig propName)
                   then loop rest (set result propName defaultValue) changedKeys
                   else if is_repo_prop propName && is_array userValue
                   then
                     match clean_repos (own_elems userValue) with
                     | Some cleaned => loop rest (set result propName cleaned) changedKeys
                     | None => None
                     end
                   else if negb (Check (createSinglePropertySchema propName subSchema)
                                   (VObj [(propName, userValue)]))
                   then loop rest (set result propName defaultValue)
                          (changedKeys ++ [propName])
                   else if has_object_type subSchema
                   then
                     match fixLineByLine userValue defaultValue subSchema with
                     | Some (fixedConfig, nestedChanges) =>
                         loop rest (set result propName fixedConfig)
                           (changedKeys
                            ++ map (fun nc => propName +:+ "." +:+ nc) nestedChanges)
                     | None => None
                     end
                   else
                     let originalValue := userValue in
                     let validatedValue :=
                       fixSingleProperty subSchema propName userValue defaultValue in
                     loop rest (set result propName validatedValue)
                       (if negb (is_undefined originalValue)
                           && negb (value_eqb validatedValue originalValue)
                        then changedKeys ++ [propName] else changedKeys)
               | _, _ => None
               end
           end) properties (own_props (nullish_or defaultConfig (VObj []))) []
  | _ => Some (fix_whole userConfig defaultConfig schema)
  end.

(** ** JSON.stringify(value, null, 2) *)

Definition hex_digit (n : nat) : ascii :=
  if Nat.ltb n 10 then ascii_of_nat (48 + n) else ascii_of_nat (87 + n).

Definition escape_char (c : ascii) : string :=
  let n := nat_of_ascii c in
  let bs := String (ascii_of_nat 92) EmptyString in
  if Nat.eqb n 34 then bs +:+ str_quote
  else if Nat.eqb n 92 then bs +:+ bs
  else if Nat.eqb n 8 then bs +:+ "b"
  else if Nat.eqb n 12 then bs +:+ "f"
  else if Nat.eqb n 10 then bs +:+ "n"
  else if Nat.eqb n 13 then bs +:+ "r"
  else if Nat.eqb n 9 then bs +:+ "t"
  else if Nat.ltb n 32
  then bs +:+ "u00" +:+ String (hex_digit (n / 16)) (String (hex_digit (n mod 16)) EmptyString)
  else String c EmptyString.

Fixpoint escape_string (s : string) : string :=
  match s with
  | EmptyString => EmptyString
  | String c rest => escape_char c +:+ escape_string rest
  end.

Definition quote_json (s : string) : string :=
  str_quote +:+ escape_string s +:+ str_quote.

(** One level of the serializer's output: the items on lines of their own
    between the brackets. *)
Definition bracketed (open close indent : string) (items : list string) : string :=
  let inner := indent +:+ "  " in
  match items with
  | [] => open +:+ close
  | _ =>
      open +:+ str_lf +:+ inner
      +:+ join ("," +:+ str_lf +:+ inner) items
      +:+ str_lf +:+ indent +:+ close
  end.

(** [JSON.stringify(v, null, 2)] at the indentation [indent]; [None] is
    the [undefined] it returns for [undefined].  A property whose value is
    [undefined] is left out, an [undefined] array element prints as
    [null]. *)
Fixpoint stringify (indent : string) (v : value) {struct v} : option string :=
  match v with
  | VUndefined => None
  | VNull => Some "null"
  | VBool b => Some (if b then "true" else "false")
  | VNum n => Some (decimal n)
  | VStr s => Some (quote_json s)
  | VArr l =>
      Some (bracketed "[" "]" indent
              (map (fun e =>
                      match stringify (indent +:+ "  ") e with
                      | Some t => t
                      | None => "null"
                      end) l))
  | VObj o =>
      Some (bracketed "{" "}" indent
              ((fix members (ps : list (string * value)) {struct ps} : list string :=
                  match ps with
                  | [] => []
                  | (k, x) :: rest =>
                      match stringify (indent +:+ "  ") x with
                      | Some t => (quote_json k +:+ ": " +:+ t) :: members rest
                      | None => members rest
                      end
                  end) o))
  end.

Definition JSON_stringify (v : value) : option string := stringify "" v.

(** ** Text replacement, as the regular expressions of the module do it *)

Fixpoint skip_ws (s : string) : string :=
  match s with
  | String c rest => if is_ws c then skip_ws rest else s
  | EmptyString => EmptyString
  end.

Fixpoint count_ws (s : string) : nat :=
  match s with
  | String c rest => if is_ws c then S (count_ws rest) else 0
  | EmptyString => 0
  end.

Definition starts_with (p s : string) : bool :=
  match strip_prefix false p s with Some _ => true | None => false end.

(** [s.replace(/(\s+)PAT/g, repl)] for a literal [pat]: a match is a
    maximal run of white space followed by [pat]; [skip] counts the code
    units of the current match still to be dropped. *)
Fixpoint replace_ws_then (pat repl : string) (skip : nat) (s : string) : string :=
  match s with
  | EmptyString => EmptyString
  | String c rest =>
      match skip with
      | S k => replace_ws_then pat repl k rest
      | O =>
          if is_ws c && starts_with pat (skip_ws rest)
          then repl +:+ replace_ws_then pat repl (count_ws rest + String.length pat) rest
          else String c (replace_ws_then pat repl 0 rest)
      end
  end.

(** [s.replace(/PAT/g, repl)] for a literal, non-empty [pat]. *)
Fixpoint replace_all (pat repl : string) (skip : nat) (s : string) : string :=
  match s with
  | EmptyString => EmptyString
  | String c rest =>
      match skip with
      | S k => replace_all pat repl k rest
      | O =>
          if starts_with pat s
          then repl +:+ replace_all pat repl (String.length pat - 1) rest
          else String c (replace_all pat repl 0 rest)
      end
  end.

(** [s.replace(/\n{3,}/g, "\n\n")]: of a run of line feeds the first two
    stay; [seen] counts the line feeds just passed. *)
Fixpoint collapse_blank_lines (seen : nat) (s : string) : string :=
  match s with
  | EmptyString => EmptyString
  | String c rest =>
      if Ascii.eqb c char_lf
      then if Nat.leb 2 seen
           then collapse_blank_lines (S seen) rest
           else String c (collapse_blank_lines (S seen) rest)
      else String c (collapse_blank_lines 0 rest)
  end.

(** ** The file system and the monad of asynchronous code *)

Inductive error : Type :=
| InvalidConfigError   (* new Error("Invalid reliverse.jsonc config: ...") *)
| InvalidJSONCError    (* new Error("Invalid JSONC format in reliverse-tmp.jsonc") *)
| TypeError            (* a property read on undefined or null *)
| SyntaxError          (* thrown by the JSONC parser *)
| ENOENT (path : string)
| IOFailure (code : nat).

(** A planned failure of one file operation: the code of the error it
    raises and, for an operation that writes, what a partial write leaves
    at the destination. *)
Record fault : Type := { fault_code : nat; fault_residue : option string }.

(** The files (path to content) and the plan: the next file operation
    takes the head of the plan, [None] for success; past the end of the
    plan every operation succeeds. *)
Record World : Type := mkWorld { files : gmap string string; plan : list (option fault) }.

Inductive outcome (A : Type) : Type :=
| Returned (a : A)
| Thrown (e : error).
Arguments Returned {A} a.
Arguments Thrown {A} e.

Definition M (A : Type) : Type := World -> outcome A * World.

Definition ret {A : Type} (a : A) : M A := fun w => (Returned a, w).

Definition throw {A : Type} (e : error) : M A := fun w => (Thrown e, w).

Definition bind {A B : Type} (m : M A) (k : A -> M B) : M B :=
  fun w =>
    match m w with
    | (Returned a, w1) => k a w1
    | (Thrown e, w1) => (Thrown e, w1)
    end.

(** [try { body } catch (e) { handler(e) }] *)
Definition try_catch {A : Type} (body : M A) (handler : error -> M A) : M A :=
  fun w =>
    match body w with
    | (Returned a, w1) => (Returned a, w1)
    | (Thrown e, w1) => handler e w1
    end.

Notation "'let*' x <- m 'in' k" := (bind m (fun x => k))
  (at level 10, x name, m at level 100, k at level 200).
Notation "m ;; k" := (bind m (fun _ => k))
  (at level 100, k at level 200, right associativity).

(** [if (c) { m }] *)
Definition when (c : bool) (m : M unit) : M unit := if c then m else ret tt.

(** A file operation: it takes its entry of the plan, fails as planned
    (leaving the residue at [dst] when there is one), or runs [act]. *)
Definition file_op {A : Type} (dst : option string)
    (act : gmap string string -> outcome A * gmap string string) : M A :=
  fun w =>
    match plan w with
    | Some f :: rest =>
        (Thrown (IOFailure (fault_code f)),
         mkWorld
           (match dst, fault_residue f with
            | Some d, Some r => <[d := r]> (files w)
            | _, _ => files w
            end) rest)
    | None :: rest => let (r, fs) := act (files w) in (r, mkWorld fs rest)
    | [] => let (r, fs) := act (files w) in (r, mkWorld fs [])
    end.

(** [fs.pathExists(p)]: it never rejects. *)
Definition pathExists (p : string) : M bool :=
  fun w => (Returned (match files w !! p with Some _ => true | None => false end), w).

(** [fs.readFile(p, "utf-8")] *)
Definition readFile (p : string) : M string :=
  file_op None (fun fs =>
    match fs !! p with
    | Some c => (Returned c, fs)
    | None => (Thrown (ENOENT p), fs)
    end).

(** [fs.writeFile(p, content)] *)
Definition writeFile (p content : string) : M unit :=
  file_op (Some p) (fun fs => (Returned tt, <[p := content]> fs)).

(** [fs.copy(src, dst)] *)
Definition copy (src dst : string) : M unit :=
  file_op (Some dst) (fun fs =>
    match fs !! src with
    | Some c => (Returned tt, <[dst := c]> fs)
    | None => (Thrown (ENOENT src), fs)
    end).

(** [fs.rename(src, dst)] *)
Definition rename (src dst : string) : M unit :=
  file_op None (fun fs =>
    match fs !! src with
    | Some c => (Returned tt, <[dst := c]> (delete src fs))
    | None => (Thrown (ENOENT src), fs)
    end).

(** [fs.remove(p)] *)
Definition remove (p : string) : M unit :=
  file_op None (fun fs => (Returned tt, delete p fs)).

(** [path.join(a, b)] for two plain segments. *)
Definition path_join (a b : string) : string := a +:+ "/" +:+ b.

Definition BACKUP_EXTENSION : string := ".backup".
Definition TEMP_EXTENSION : string := ".tmp".

(** ** What the module imports *)

(** The constants of [~/app/constants.js], the two values computed from
    [@reliverse/runtime] when the module loads, the schema of
    [./schemaConfig.js] (a [Type.Object], given by its three parts) and
    the JSONC parser of [confbox] ([None]: the parser throws).  The
    constants that end up in comments hold no [$]. *)
Class Externals : Type := {
  DEFAULT_DOMAIN : string;
  UNKNOWN_VALUE : string;
  RELIVERSE_SCHEMA_URL : string;
  cliName : string;
  cliDomainDocs : string;
  cliConfigJsonc : string;
  isBunPM : bool;
  runtimeInfo_name : string;
  schemaProperties : list (string * TSchema);
  schemaRequired : list string;
  schemaAdditionalProperties : bool;
  parseJSONC : string -> option value
}.

Section Engine.

Context `{Externals}.

Definition reliverseConfigSchema : TSchema :=
  TObject schemaProperties schemaRequired schemaAdditionalProperties.

(** ** The default document and mergeWithDefaults *)

Definition DEFAULT_preferredLibraries : obj :=
  [ ("stateManagement", VStr "zustand");
    ("formManagement", VStr "react-hook-form");
    ("styling", VStr "tailwind");
    ("uiComponents", VStr "shadcn-ui");
    ("testing", VStr "bun");
    ("authentication", VStr "clerk");
    ("database", VStr "drizzle");
    ("api", VStr "trpc") ].

Definition DEFAULT_monorepo : obj :=
  [ ("type", VStr "none"); ("packages", VArr []); ("sharedPackages", VArr []) ].

Definition DEFAULT_customRules : obj := [].

Definition DEFAULT_features : obj :=
  [ ("i18n", VBool false);
    ("analytics", VBool false);
    ("themeMode", VStr "dark-light");
    ("authentication", VBool true);
    ("api", VBool true);
    ("database", VBool true);
    ("testing", VBool false);
    ("docker", VBool false);
    ("ci", VBool false);
    ("commands", VArr []);
    ("webview", VArr []);
    ("language", VArr []);
    ("themes", VArr []) ].

Definition DEFAULT_modernize : obj :=
  [ ("replaceFs", VBool false);
    ("replacePath", VBool false);
    ("replaceHttp", VBool false);
    ("replaceProcess", VBool false);
    ("replaceConsole", VBool false);
    ("replaceEvents", VBool false) ].

Definition DEFAULT_codeStyle : obj :=
  [ ("dontRemoveComments", VBool true);
    ("shouldAddComments", VBool true);
    ("typeOrInterface", VStr "type");
    ("importOrRequire", VStr "import");
    ("quoteMark", VStr "double");
    ("semicolons", VBool true);
    ("lineWidth", VNum 80);
    ("indentStyle", VStr "space");
    ("indentSize", VNum 2);
    ("importSymbol", VStr "~");
    ("trailingComma", VStr "all");
    ("bracketSpacing", VBool true);
    ("arrowParens", VStr "always");
    ("tabWidth", VNum 2);
    ("jsToTs", VBool false);
    ("cjsToEsm", VBool false);
    ("modernize", VObj DEFAULT_modernize) ].

Definition DEFAULT_ignoreDependencies : value := VArr [].

Definition DEFAULT_CONFIG : obj :=
  [ ("$schema", VStr RELIVERSE_SCHEMA_URL);
    ("projectName", VStr UNKNOWN_VALUE);
    ("projectAuthor", VStr UNKNOWN_VALUE);
    ("projectDescription", VStr UNKNOWN_VALUE);
    ("version", VStr "0.1.0");
    ("projectLicense", VStr "MIT");
    ("projectState", VStr "creating");
    ("projectRepository", VStr DEFAULT_DOMAIN);
    ("projectDomain", VStr DEFAULT_DOMAIN);
    ("projectCategory", VStr UNKNOWN_VALUE);
    ("projectSubcategory", VStr UNKNOWN_VALUE);
    ("projectTemplate", VStr UNKNOWN_VALUE);
    ("projectArchitecture", VStr UNKNOWN_VALUE);
    ("repoPrivacy", VStr UNKNOWN_VALUE);
    ("projectGitService", VStr "github");
    ("projectDeployService", VStr "vercel");
    ("repoBranch", VStr "main");
    ("projectFramework", VStr "nextjs");
    ("projectPackageManager", VStr (if isBunPM then "bun" else "npm"));
    ("projectRuntime",
      VStr (if String.eqb runtimeInfo_name "" then "node" else runtimeInfo_name));
    ("preferredLibraries", VObj DEFAULT_preferredLibraries);
    ("monorepo", VObj DEFAULT_monorepo);
    ("ignoreDependencies", DEFAULT_ignoreDependencies);
    ("customRules", VObj DEFAULT_customRules);
    ("features", VObj DEFAULT_features);
    ("codeStyle", VObj DEFAULT_codeStyle);
    ("multipleRepoCloneMode", VBool false);
    ("customUserFocusedRepos", VArr []);
    ("customDevsFocusedRepos", VArr []);
    ("hideRepoSuggestions", VBool false);
    ("customReposOnNewProject", VBool false);
    ("envComposerOpenBrowser", VBool true);
    ("skipPromptsUseAutoBehavior", VBool false);
    ("deployBehavior", VStr "prompt");
    ("depsBehavior", VStr "prompt");
    ("gitBehavior", VStr "prompt");
    ("i18nBehavior", VStr "prompt");
    ("scriptsBehavior", VStr "prompt");
    ("existingRepoBehavior", VStr "prompt") ].

(** [x?.k]: [undefined] when [x] is [null] or [undefined]. *)
Definition opt_member (x : value) (k : string) : value :=
  match get_member x k with
  | Some v => v
  | None => VUndefined
  end.

(** [{ ...base, ...(x ?? {}) }] *)
Definition spread_over (base : obj) (x : value) : obj :=
  assign base (own_props (nullish_or x (VObj []))).

(** [mergeWithDefaults(partial)].  The object literal is built left to
    right: the two spreads, then the six named properties. *)
Definition mergeWithDefaults (partial : obj) : obj :=
  let r0 := assign DEFAULT_CONFIG partial in
  let r1 := set r0 "features" (VObj (spread_over DEFAULT_features (get partial "features"))) in
  let r2 :=
    set r1 "codeStyle"
      (VObj (set (spread_over DEFAULT_codeStyle (get partial "codeStyle"))
               "modernize"
               (VObj (spread_over DEFAULT_modernize
                        (opt_member (get partial "codeStyle") "modernize"))))) in
  let r3 :=
    set r2 "preferredLibraries"
      (VObj (spread_over DEFAULT_preferredLibraries (get partial "preferredLibraries"))) in
  let r4 := set r3 "monorepo" (VObj (spread_over DEFAULT_monorepo (get partial "monorepo"))) in
  let r5 :=
    set r4 "customRules" (VObj (spread_over DEFAULT_customRules (get partial "customRules"))) in
  set r5 "ignoreDependencies"
    (nullish_or (get partial "ignoreDependencies") DEFAULT_ignoreDependencies).


(** ** injectSectionComments *)

Definition comment (text : string) : string :=
  if String.eqb text "" then "" else "// " +:+ text.

Definition commentSections : list (string * list string) :=
  [ ("$schema",
      [ comment ("RELIVERSE CONFIG (" +:+ cliDomainDocs +:+ ")");
        comment ("This jsonc file is generated by " +:+ cliName);
        comment "Restart the CLI to apply your config changes" ]);
    ("projectName", [ comment "General project information" ]);
    ("skipPromptsUseAutoBehavior",
      [ comment "Enable auto-answering for prompts to skip manual confirmations.";
        comment "Make sure you have unknown values configured above." ]);
    ("features", [ comment "Project features" ]);
    ("projectFramework", [ comment "Primary tech stack/framework" ]);
    ("codeStyle", [ comment "Code style preferences" ]);
    ("multipleRepoCloneMode", [ comment "Settings for cloning an existing repo" ]);
    ("envComposerOpenBrowser",
      [ comment "Set to false to disable opening the browser during env composing" ]);
    ("ignoreDependencies", [ comment "List dependencies to exclude from checks" ]);
    ("customRules", [ comment "Custom rules for Reliverse AI" ]);
    ("deployBehavior",
      [ comment "Prompt behavior for deployment";
        comment "Options: prompt | autoYes | autoNo" ]);
    ("existingRepoBehavior",
      [ comment "Behavior for existing GitHub repos during project creation";
        comment "Options: prompt | autoYes | autoYesSkipCommit | autoNo" ]) ].

(** [lines.map((line, idx) => (idx === 0 ? line : `  ${line}`)).join("\n")] *)
Definition combinedComments (lines : list string) : string :=
  match lines with
  | [] => ""
  | first :: others => join str_lf (first :: map (fun line => "  " +:+ line) others)
  end.

(** One turn of the loop over [Object.entries(commentSections)]. *)
Definition inject_section (fileContent : string) (entry : string * list string) : string :=
  let (section, lines) := entry in
  match lines with
  | [] => fileContent
  | _ =>
      replace_ws_then
        (str_quote +:+ section +:+ str_quote +:+ ":")
        (str_lf +:+ str_lf +:+ "  " +:+ combinedComments lines +:+ str_lf
         +:+ "  " +:+ str_quote +:+ section +:+ str_quote +:+ ":")
        0 fileContent
  end.

Definition injectSectionComments (fileContent : string) : string :=
  let c0 := fold_left inject_section commentSections fileContent in
  let c1 := collapse_blank_lines 0 c0 in
  let c2 := replace_all ("{" +:+ str_lf +:+ str_lf) ("{" +:+ str_lf) 0 c1 in
  let c3 := replace_all (str_lf +:+ str_lf +:+ "}") (str_lf +:+ "}") 0 c2 in
  js_trim c3 +:+ str_lf.

(** ** Writing and reading the configuration file *)

(** The [try] block of [writeReliverseConfig]. *)
Definition writeReliverseConfig_try (configPath : string) (config : value) : M unit :=
  let backupPath := configPath +:+ BACKUP_EXTENSION in
  let tempPath := configPath +:+ TEMP_EXTENSION in
  if negb (Check reliverseConfigSchema config) then throw InvalidConfigError
  else
    match JSON_stringify config with
    | None => throw TypeError
    | Some text =>
        let fileContent := injectSectionComments text in
        let* present <- pathExists configPath in
        (when present (copy configPath backupPath) ;;
         writeFile tempPath fileContent ;;
         rename tempPath configPath ;;
         let* kept <- pathExists backupPath in
         when kept (remove backupPath))
    end.

(** The [catch (error)] block of [writeReliverseConfig]. *)
Definition writeReliverseConfig_catch (configPath : string) (e : error) : M unit :=
  let backupPath := configPath +:+ BACKUP_EXTENSION in
  let tempPath := configPath +:+ TEMP_EXTENSION in
  let* hasBackup <- pathExists backupPath in
  let* hasConfig <- pathExists configPath in
  (when (hasBackup && negb hasConfig) (copy backupPath configPath) ;;
   let* hasTemp <- pathExists tempPath in
   (when hasTemp (remove tempPath) ;;
    throw e)).

Definition writeReliverseConfig (configPath : string) (config : value) : M unit :=
  try_catch (writeReliverseConfig_try configPath config)
            (writeReliverseConfig_catch configPath).

(** The result of [parseReliverseFile]: [errors] is [true] for the
    iterable of validation errors, [false] for [null]. *)
Record ParseResult : Type := { parsed : value; errors : bool }.

Definition parseReliverseFile (configPath : string) : M (option ParseResult) :=
  try_catch
    (let* raw <- readFile configPath in
     let content := js_trim raw in
     if String.eqb content "" || String.eqb content "{}" then ret None
     else
       match parseJSONC content with
       | None => throw SyntaxError
       | Some parsed =>
           if negb (truthy parsed) || negb (String.eqb (typeof parsed) "object")
           then ret None
           else if negb (Check reliverseConfigSchema parsed)
           then ret (Some {| parsed := parsed; errors := true |})
           else ret (Some {| parsed := parsed; errors := false |})
       end)
    (fun _ => ret None).

Definition readReliverseConfig (configPath : string) : M (option value) :=
  let* present <- pathExists configPath in
  if negb present then ret None
  else
    let backupPath := configPath +:+ BACKUP_EXTENSION in
    let* parseResult <- parseReliverseFile configPath in
    match parseResult with
    | None => ret None
    | Some pr =>
        if negb (errors pr) then ret (Some (parsed pr))
        else
          let merged := VObj (mergeWithDefaults (own_props (parsed pr))) in
          if Check reliverseConfigSchema merged
          then (writeReliverseConfig configPath merged ;; ret (Some merged))
          else
            let* hasBackup <- pathExists backupPath in
            if hasBackup
            then
              let* backupResult <- parseReliverseFile backupPath in
              match backupResult with
              | Some br =>
                  if negb (errors br)
                  then (copy backupPath configPath ;; ret (Some (parsed br)))
                  else ret None
              | None => ret None
              end
            else ret None
    end.

Definition parseAndFixConfig (configPath : string) : M (option value) :=
  try_catch
    (let* raw <- readFile configPath in
     match parseJSONC raw with
     | None => throw SyntaxError
     | Some parsed =>
         if truthy parsed && String.eqb (typeof parsed) "object"
         then
           if Check reliverseConfigSchema parsed then ret (Some parsed)
           else
             match fixLineByLine parsed (VObj DEFAULT_CONFIG) reliverseConfigSchema with
             | None => throw TypeError
             | Some (fixedConfig, changedKeys) =>
                 if Check reliverseConfigSchema fixedConfig
                 then (writeReliverseConfig configPath fixedConfig ;; ret (Some fixedConfig))
                 else ret None
             end
         else ret None
     end)
    (fun _ => ret None).

(** [let config = await readReliverseConfig(p); if (!config) config =
    await parseAndFixConfig(p);]: the sequence of [reReadReliverseConfig],
    of the per-file callback of [readReliverseConfigsInReliFolder] and of
    [getReliverseConfig]. *)
Definition read_then_fix (configPath : string) : M (option value) :=
  let* config <- readReliverseConfig configPath in
  match config with
  | Some c => ret (Some c)
  | None => parseAndFixConfig configPath
  end.

(** [reReadReliverseConfig()], with the working directory as argument. *)
Definition reReadReliverseConfig (cwd : string) : M (option value) :=
  read_then_fix (path_join cwd cliConfigJsonc).

(** ** Updating and migrating *)

Definition updateReliverseConfig (projectPath : string) (updates : obj) : M bool :=
  let configPath := path_join projectPath cliConfigJsonc in
  let backupPath := configPath +:+ BACKUP_EXTENSION in
  let tempPath := configPath +:+ TEMP_EXTENSION in
  try_catch
    (let* present <- pathExists configPath in
     let* existingConfig <-
       (if present
        then
          let* existingContent <- readFile configPath in
          match parseJSONC existingContent with
          | None => throw SyntaxError
          | Some parsed =>
              if Check reliverseConfigSchema parsed then ret (own_props parsed) else ret []
          end
        else ret []) in
     let mergedConfig := deepMerge existingConfig updates in
     if negb (Check reliverseConfigSchema (VObj mergedConfig)) then ret false
     else
       let* stillPresent <- pathExists configPath in
       (when stillPresent (copy configPath backupPath) ;;
        match JSON_stringify (VObj mergedConfig) with
        | None => throw TypeError
        | Some text =>
            (writeFile tempPath (injectSectionComments text) ;;
             rename tempPath configPath ;;
             let* kept <- pathExists backupPath in
             (when kept (remove backupPath) ;;
              ret true))
        end))
    (fun _ =>
       let* hasBackup <- pathExists backupPath in
       let* hasConfig <- pathExists configPath in
       (when (hasBackup && negb hasConfig)
          (try_catch (copy backupPath configPath) (fun _ => ret tt)) ;;
        let* hasTemp <- pathExists tempPath in
        (when hasTemp (remove tempPath) ;;
         ret false))).

Definition keysToMigrate : list string :=
  [ "projectDescription"; "version"; "projectLicense"; "projectRepository";
    "projectCategory"; "projectSubcategory"; "projectFramework"; "projectTemplate";
    "projectArchitecture"; "deployBehavior"; "depsBehavior"; "gitBehavior";
    "i18nBehavior"; "scriptsBehavior"; "existingRepoBehavior"; "repoPrivacy";
    "features"; "preferredLibraries"; "codeStyle"; "monorepo";
    "ignoreDependencies"; "customRules"; "skipPromptsUseAutoBehavior" ].

(** The loop of [migrateReliverseConfig] that fills [validConfig]. *)
Definition pick_migrated (tempConfig : value) : obj :=
  fold_left
    (fun validConfig key =>
       if negb (is_undefined (opt_member tempConfig key))
       then set validConfig key (opt_member tempConfig key)
       else validConfig)
    keysToMigrate [].

Definition migrateReliverseConfig (externalReliverseFilePath projectPath : string)
  : M unit :=
  try_catch
    (let* content <- readFile externalReliverseFilePath in
     match parseJSONC content with
     | None => throw SyntaxError
     | Some parsed =>
         if negb (truthy parsed) || negb (String.eqb (typeof parsed) "object")
         then throw InvalidJSONCError
         else
           let validConfig := pick_migrated parsed in
           let* success <- updateReliverseConfig projectPath validConfig in
           remove externalReliverseFilePath
     end)
    (fun _ => ret tt).

End Engine.

(** ** A reference JSONC reader

    The parser of [confbox] is not part of the sources; the theorems
    below hold for any parser.  This reader (JSON with [//] and [/* */]
    comments and trailing commas, integers only) instantiates
    [parseJSONC] in the worked examples. *)

Inductive scan_mode : Type :=
| InCode | AfterSlash | InString | InEscape | InLine | InBlock | InBlockStar.

Fixpoint strip_comments (mode : scan_mode) (s : string) : string :=
  match s with
  | EmptyString => match mode with AfterSlash => "/" | _ => EmptyString end
  | String c rest =>
      let n := nat_of_ascii c in
      match mode with
      | InCode =>
          if Nat.eqb n 34 then String c (strip_comments InString rest)
          else if Nat.eqb n 47 then strip_comments AfterSlash rest
          else String c (strip_comments InCode rest)
      | AfterSlash =>
          if Nat.eqb n 47 then strip_comments InLine rest
          else if Nat.eqb n 42 then strip_comments InBlock rest
          else if Nat.eqb n 34 then "/" +:+ String c (strip_comments InString rest)
          else "/" +:+ String c (strip_comments InCode rest)
      | InString =>
          if Nat.eqb n 92 then String c (strip_comments InEscape rest)
          else if Nat.eqb n 34 then String c (strip_comments InCode rest)
          else String c (strip_comments InString rest)
      | InEscape => String c (strip_comments InString rest)
      | InLine =>
          if Nat.eqb n 10 then String c (strip_comments InCode rest)
          else strip_comments InLine rest
      | InBlock =>
          if Nat.eqb n 42 then strip_comments InBlockStar rest
          else strip_comments InBlock rest
      | InBlockStar =>
          if Nat.eqb n 47 then String " " (strip_comments InCode rest)
          else if Nat.eqb n 42 then strip_comments InBlockStar rest
          else strip_comments InBlock rest
      end
  end.

Definition hex_value (c : ascii) : option nat :=
  let n := nat_of_ascii c in
  if Nat.leb 48 n && Nat.leb n 57 then Some (n - 48)
  else if Nat.leb 97 n && Nat.leb n 102 then Some (n - 87)
  else if Nat.leb 65 n && Nat.leb n 70 then Some (n - 55)
  else None.

(** The characters of a string literal after its opening quote, and the
    rest of the input after the closing one. *)
Fixpoint read_string (s : string) : option (string * string) :=
  match s with
  | EmptyString => None
  | String c rest =>
      let n := nat_of_ascii c in
      if Nat.eqb n 34 then Some (EmptyString, rest)
      else if Nat.eqb n 92
      then
        match rest with
        | String e rest' =>
            let k := nat_of_ascii e in
            let plain (d : ascii) :=
              match read_string rest' with
              | Some (t, r) => Some (String d t, r)
              | None => None
              end in
            if Nat.eqb k 110 then plain (ascii_of_nat 10)
            else if Nat.eqb k 116 then plain (ascii_of_nat 9)
            else if Nat.eqb k 114 then plain (ascii_of_nat 13)
            else if Nat.eqb k 98 then plain (ascii_of_nat 8)
            else if Nat.eqb k 102 then plain (ascii_of_nat 12)
            else if Nat.eqb k 117
            then
              match rest' with
              | String h1 (String h2 (String h3 (String h4 rest''))) =>
                  match hex_value h1, hex_value h2, hex_value h3, hex_value h4 with
                  | Some 0, Some 0, Some a, Some b =>
                      match read_string rest'' with
                      | Some (t, r) => Some (String (ascii_of_nat (16 * a + b)) t, r)
                      | None => None
                      end
                  | _, _, _, _ => None
                  end
              | _ => None
              end
            else plain e
        | EmptyString => None
        end
      else
        match read_string rest with
        | Some (t, r) => Some (String c t, r)
        | None => None
        end
  end.

Fixpoint read_digits (acc : Z) (any : bool) (s : string) : option (Z * string) :=
  match s with
  | String c rest =>
      let n := nat_of_ascii c in
      if Nat.leb 48 n && Nat.leb n 57
      then read_digits (10 * acc + Z.of_nat (n - 48)) true rest
      else if any then Some (acc, s) else None
  | EmptyString => if any then Some (acc, s) else None
  end.

(** The items of an array after its bracket, and the members of an
    object after its brace; [read] reads one value. *)
Fixpoint read_items (read : string -> option (value * string))
    (budget : nat) (acc : list value) (s : string) : option (value * string) :=
  match budget with
  | O => None
  | S budget' =>
      match skip_ws s with
      | String c rest =>
          if Nat.eqb (nat_of_ascii c) 93 then Some (VArr (rev acc), rest)
          else if Nat.eqb (nat_of_ascii c) 44 then read_items read budget' acc rest
          else
            match read (String c rest) with
            | Some (v, r) => read_items read budget' (v :: acc) r
            | None => None
            end
      | EmptyString => None
      end
  end.

Fixpoint read_members (read : string -> option (value * string))
    (budget : nat) (acc : obj) (s : string) : option (value * string) :=
  match budget with
  | O => None
  | S budget' =>
      match skip_ws s with
      | String c rest =>
          if Nat.eqb (nat_of_ascii c) 125 then Some (VObj acc, rest)
          else if Nat.eqb (nat_of_ascii c) 44 then read_members read budget' acc rest
          else if Nat.eqb (nat_of_ascii c) 34
          then
            match read_string rest with
            | Some (k, r) =>
                match skip_ws r with
                | String colon r' =>
                    if Nat.eqb (nat_of_ascii colon) 58
                    then
                      match read r' with
                      | Some (v, r'') => read_members read budget' (set acc k v) r''
                      | None => None
                      end
                    else None
                | EmptyString => None
                end
            | None => None
            end
          else None
      | EmptyString => None
      end
  end.

(** One value at the head of a text that does not start with white
    space; [read] reads a nested value. *)
Definition read_token (read : string -> option (value * string))
    (budget : nat) (s : string) : option (value * string) :=
  match s with
  | EmptyString => None
  | String c rest =>
      let n := nat_of_ascii c in
      if Nat.eqb n 123 then read_members read budget [] rest
      else if Nat.eqb n 91 then read_items read budget [] rest
      else if Nat.eqb n 34
      then match read_string rest with
           | Some (t, r) => Some (VStr t, r)
           | None => None
           end
      else if Nat.eqb n 45
      then match read_digits 0 false rest with
           | Some (z, r) => Some (VNum (- z), r)
           | None => None
           end
      else if Nat.leb 48 n && Nat.leb n 57
      then match read_digits 0 false (String c rest) with
           | Some (z, r) => Some (VNum z, r)
           | None => None
           end
      else
        match strip_prefix false "true" (String c rest),
              strip_prefix false "false" (String c rest),
              strip_prefix false "null" (String c rest) with
        | Some r, _, _ => Some (VBool true, r)
        | _, Some r, _ => Some (VBool false, r)
        | _, _, Some r => Some (VNull, r)
        | _, _, _ => None
        end
  end.

Fixpoint read_value (fuel : nat) (s : string) : option (value * string) :=
  match fuel with
  | O => None
  | S fuel' => read_token (read_value fuel') (String.length s) (skip_ws s)
  end.

(** The reference reader: [undefined] for an empty text, [None] for a
    malformed one. *)
Definition jsonc_read (text : string) : option value :=
  let code := strip_comments InCode text in
  match skip_ws code with
  | EmptyString => Some VUndefined
  | _ =>
      match read_value (String.length code) code with
      | Some (v, r) =>
          match skip_ws r with
          | EmptyString => Some v
          | _ => None
          end
      | None => None
      end
  end.

(** ** Auxiliary definitions for the statements and proofs *)

(** The loop of [deepMerge], on its own. *)
Fixpoint merge_loop (target result : obj) (src : list (string * value)) : obj :=
  match src with
  | [] => result
  | (key, sourceValue) :: rest =>
      match sourceValue with
      | VUndefined => merge_loop target result rest
      | VObj s =>
          match get target key with
          | VObj t => merge_loop target (set result key (VObj (deepMerge t s))) rest
          | _ => merge_loop target (set result key sourceValue) rest
          end
      | _ => merge_loop target (set result key sourceValue) rest
      end
  end.

(** What the merge stores under a key, given the two values there. *)
Definition merged_value (targetValue sourceValue : value) : value :=
  match sourceValue with
  | VUndefined => targetValue
  | VObj s =>
      match targetValue with
      | VObj t => VObj (deepMerge t s)
      | _ => sourceValue
      end
  | _ => sourceValue
  end.


(** One turn of the loop of [fixLineByLine]: the value stored under
    [propName] and the entries added to [changedKeys]. *)
Definition fix_prop (userConfig defaultConfig : value) (propName : string)
    (subSchema : TSchema) : option (value * list string) :=
  match get_member userConfig propName, get_member defaultConfig propName with
  | Some userValue, Some defaultValue =>
      if is_undefined userValue && negb (has_member userConfig propName)
      then Some (defaultValue, [])
      else if is_repo_prop propName && is_array userValue
      then
        match clean_repos (own_elems userValue) with
        | Some cleaned => Some (cleaned, [])
        | None => None
        end
      else if negb (Check (createSinglePropertySchema propName subSchema)
                      (VObj [(propName, userValue)]))
      then Some (defaultValue, [propName])
      else if has_object_type subSchema
      then
        match fixLineByLine userValue defaultValue subSchema with
        | Some (fixedConfig, nestedChanges) =>
            Some (fixedConfig, map (fun nc => propName +:+ "." +:+ nc) nestedChanges)
        | None => None
        end
      else
        Some (fixSingleProperty subSchema propName userValue defaultValue,
              if negb (is_undefined userValue)
                 && negb (value_eqb
                            (fixSingleProperty subSchema propName userValue defaultValue)
                            userValue)
              then [propName] else [])
  | _, _ => None
  end.

(** The loop of [fixLineByLine], on its own. *)
Fixpoint fix_props (userConfig defaultConfig : value) (props : list (string * TSchema))
    (result : obj) (changedKeys : list string) : option (value * list string) :=
  match props with
  | [] => Some (VObj result, changedKeys)
  | (propName, subSchema) :: rest =>
      match fix_prop userConfig defaultConfig propName subSchema with
      | Some (v, changes) =>
          fix_props userConfig defaultConfig rest (set result propName v)
            (changedKeys ++ changes)
      | None => None
      end
  end.

(** What the specification says of an array whose schema describes its
    elements: the invalid elements are dropped. *)
Definition spec_drop_invalid_elements (items : TSchema) (l : list value) : value :=
  VArr (filter (Check items) l).

Fixpoint has_dot (s : string) : bool :=
  match s with
  | EmptyString => false
  | String c rest => Ascii.eqb c "."%char || has_dot rest
  end.

Fixpoint distinct (l : list string) : bool :=
  match l with
  | [] => true
  | x :: rest => negb (mem_string x rest) && distinct rest
  end.

(** An object node declares each property once, at every depth the
    repair reaches. *)
Fixpoint wf_schema (schema : TSchema) : bool :=
  match schema with
  | TObject properties _ _ =>
      distinct (map fst properties) && forallb (fun p => wf_schema (snd p)) properties
  | _ => true
  end.

(** A complete default: at every object node the default is an object
    that holds each declared property with a defined value. *)
Fixpoint complete (schema : TSchema) (defaultConfig : value) : bool :=
  match schema with
  | TObject properties _ _ =>
      match defaultConfig with
      | VObj d =>
          forallb
            (fun p =>
               hasOwn d (fst p) && negb (is_undefined (get d (fst p)))
               && complete (snd p) (get d (fst p)))
            properties
      | _ => false
      end
  | _ => true
  end.

(** The schema accepts every array of strings. *)
Definition accepts_string_arrays (schema : TSchema) : Prop :=
  forall l : list string, Check schema (VArr (map VStr l)) = true.

(** From this node down, a property named like one of the two repository
    lists accepts every array of strings. *)
Fixpoint repo_safe (schema : TSchema) : Prop :=
  match schema with
  | TObject properties _ _ =>
      (fix all (ps : list (string * TSchema)) : Prop :=
         match ps with
         | [] => True
         | p :: rest =>
             (is_repo_prop (fst p) = true -> accepts_string_arrays (snd p))
             /\ repo_safe (snd p) /\ all rest
         end) properties
  | _ => True
  end.

(** The same, below the root only. *)
Definition repo_safe_below (schema : TSchema) : Prop :=
  match schema with
  | TObject properties _ _ => Forall (fun p => repo_safe (snd p)) properties
  | _ => True
  end.

(** The repository lists that a repair pass over the document converts
    hold only elements that [String] converts: the pass follows the loop
    of [fixLineByLine], into the object-typed properties whose value
    validates. *)
Fixpoint repos_convertible (schema : TSchema) (userConfig : value) : bool :=
  match schema with
  | TObject properties _ _ =>
      negb (is_object_like userConfig)
      || forallb
           (fun p =>
              match get_member userConfig (fst p) with
              | Some userValue =>
                  if is_undefined userValue && negb (has_member userConfig (fst p))
                  then true
                  else if is_repo_prop (fst p) && is_array userValue
                  then forallb convertible (own_elems userValue)
                  else if negb (Check (createSinglePropertySchema (fst p) (snd p))
                                  (VObj [(fst p, userValue)]))
                  then true
                  else if has_object_type (snd p)
                  then repos_convertible (snd p) userValue
                  else true
              | None => true
              end)
           properties
  | _ => true
  end.

(** No property that the schema declares, at any depth, is named like a
    member that objects inherit. *)
Fixpoint own_names (schema : TSchema) : bool :=
  match schema with
  | TObject properties _ _ =>
      forallb (fun p => negb (is_inherited (fst p)) && own_names (snd p)) properties
  | TUnion anyOf => forallb own_names anyOf
  | TArray items => own_names items
  | TRecord values => own_names values
  | _ => true
  end.

(** A document on which a repair pass changes nothing. *)
Fixpoint settled (schema : TSchema) (v : value) : bool :=
  match schema with
  | TObject properties _ _ =>
      match v with
      | VObj o =>
          forallb
            (fun p =>
               hasOwn o (fst p)
               && ((is_repo_prop (fst p) && is_array (get o (fst p))
                    && forallb convertible (own_elems (get o (fst p))))
                   || (negb (is_repo_prop (fst p) && is_array (get o (fst p)))
                       && Check (snd p) (get o (fst p))
                       && (negb (has_object_type (snd p))
                           || settled (snd p) (get o (fst p))))))
            properties
      | _ => false
      end
  | _ => Check schema v
  end.

(** What one property of a settled object satisfies. *)
Definition settled_at (p : string) (sub : TSchema) (v : value) : bool :=
  (is_repo_prop p && is_array v && forallb convertible (own_elems v))
  || (negb (is_repo_prop p && is_array v)
      && Check sub v && (negb (has_object_type sub) || settled sub v)).

(** ** Sample schemas and documents for the worked examples *)

Definition sample_properties : list (string * TSchema) :=
  [ ("projectName", TString);
    ("customUserFocusedRepos", TArray TString);
    ("codeStyle",
      TObject
        [ ("lineWidth", TNumber);
          ("quoteMark", TUnion [TLiteral (LStr "single"); TLiteral (LStr "double")]) ]
        ["lineWidth"; "quoteMark"] false);
    ("ignoreDependencies", TArray TString) ].

Definition sample_required : list string := ["projectName"; "codeStyle"].

Definition sample_schema : TSchema := TObject sample_properties sample_required false.

Definition sample_default : value :=
  VObj [ ("projectName", VStr "unknown");
         ("customUserFocusedRepos", VArr []);
         ("codeStyle", VObj [("lineWidth", VNum 80); ("quoteMark", VStr "double")]);
         ("ignoreDependencies", VArr []) ].

Definition sample_candidate : obj :=
  [ ("projectName", VNum 5);
    ("customUserFocusedRepos", VArr [VStr "git+https://github.com/blefnk/relivator.git"; VNum 7]);
    ("codeStyle", VObj [("lineWidth", VStr "wide"); ("quoteMark", VStr "single")]);
    ("ignoreDependencies", VArr [VStr "eslint"; VNum 5; VStr "vitest"]);
    ("legacy", VBool true) ].

(** A schema that declares a repository list of numbers below the root. *)
Definition nested_repo_schema : TSchema :=
  TObject
    [ ("a", TObject [("customUserFocusedRepos", TArray TNumber)]
              ["customUserFocusedRepos"] false) ]
    ["a"] false.

Definition nested_repo_default : value :=
  VObj [("a", VObj [("customUserFocusedRepos", VArr [])])].

Definition nested_repo_candidate : value :=
  VObj [("a", VObj [("customUserFocusedRepos", VArr [VNum 1])])].

(** A value as a JSON parser produces it: no [undefined], and distinct
    keys in every object. *)
Fixpoint json_value (v : value) : bool :=
  match v with
  | VUndefined => false
  | VArr l => forallb json_value l
  | VObj o => distinct (map fst o) && forallb (fun kv => json_value (snd kv)) o
  | _ => true
  end.

(** The value is absent or a plain (non-null, non-array) object. *)
Definition plain_or_absent (v : value) : bool :=
  match v with
  | VUndefined | VObj _ => true
  | _ => false
  end.

(** The sections that [mergeWithDefaults] spreads are plain objects where
    the document has them, and [ignoreDependencies] is not [null]. *)
Definition sections_are_objects (partial : obj) : bool :=
  plain_or_absent (get partial "features")
  && plain_or_absent (get partial "codeStyle")
  && plain_or_absent (opt_member (get partial "codeStyle") "modernize")
  && plain_or_absent (get partial "preferredLibraries")
  && plain_or_absent (get partial "monorepo")
  && plain_or_absent (get partial "customRules")
  && negb (is_nullish (get partial "ignoreDependencies")
           && negb (is_undefined (get partial "ignoreDependencies"))).

(** No property of the object is itself a plain object. *)
Definition flat (o : obj) : bool :=
  forallb (fun kv => match snd kv with VObj _ => false | _ => true end) o.

(** ** The reader as layers

    Pure descriptions of what the reader does on a disk without failures,
    layer by layer.  A layer yields the document it settles on and the
    files it leaves, or [None] when it does not apply. *)

Section Layers.

Context `{Externals}.

(** The content of the primary path after a successful write; the backup
    and the staging file are gone. *)
Definition written (fs : gmap string string) (configPath text : string)
  : gmap string string :=
  <[configPath := injectSectionComments text]>
    (delete (configPath +:+ BACKUP_EXTENSION)
       (delete (configPath +:+ TEMP_EXTENSION) fs)).

Definition text_of (config : value) : string :=
  match JSON_stringify config with
  | Some text => text
  | None => ""
  end.

(** Parsing and validating a file's content, as [parseReliverseFile]
    does after reading it. *)
Definition accept (raw : string) : option ParseResult :=
  let content := js_trim raw in
  if String.eqb content "" || String.eqb content "{}" then None
  else
    match parseJSONC content with
    | None => None
    | Some v =>
        if negb (truthy v) || negb (String.eqb (typeof v) "object") then None
        else Some {| parsed := v; errors := negb (Check reliverseConfigSchema v) |}
    end.

(** Merge under the defaults, persist when valid. *)
Definition merge_layer (v : value) (fs : gmap string string) (configPath : string)
  : option (value * gmap string string) :=
  let merged := VObj (mergeWithDefaults (own_props v)) in
  if Check reliverseConfigSchema merged
  then Some (merged, written fs configPath (text_of merged))
  else None.

(** Restore the backup when it parses to a valid document. *)
Definition restore_layer (fs : gmap string string) (configPath : string)
  : option (value * gmap string string) :=
  match fs !! (configPath +:+ BACKUP_EXTENSION) with
  | Some raw =>
      match accept raw with
      | Some pr =>
          if errors pr then None else Some (parsed pr, <[configPath := raw]> fs)
      | None => None
      end
  | None => None
  end.

(** Repair field by field, persist when valid. *)
Definition repair_layer (fs : gmap string string) (configPath : string)
  : option (value * gmap string string) :=
  match fs !! configPath with
  | None => None
  | Some raw =>
      match parseJSONC raw with
      | None => None
      | Some v =>
          if truthy v && String.eqb (typeof v) "object"
          then
            if Check reliverseConfigSchema v then Some (v, fs)
            else
              match fixLineByLine v (VObj DEFAULT_CONFIG) reliverseConfigSchema with
              | Some (fixedConfig, _) =>
                  if Check reliverseConfigSchema fixedConfig
                  then Some (fixedConfig, written fs configPath (text_of fixedConfig))
                  else None
              | None => None
              end
          else None
      end
  end.

Definition first_of {A : Type} (a b : option A) : option A :=
  match a with
  | Some x => Some x
  | None => b
  end.

(** The order of the code: accept, merge defaults, restore the backup,
    repair; a file that is empty, [{}] or not an object goes straight to
    the repair. *)
Definition layered_read (fs : gmap string string) (configPath : string)
  : option (value * gmap string string) :=
  match fs !! configPath with
  | None => None
  | Some raw =>
      match accept raw with
      | Some pr =>
          if errors pr
          then first_of (merge_layer (parsed pr) fs configPath)
                 (first_of (restore_layer fs configPath) (repair_layer fs configPath))
          else Some (parsed pr, fs)
      | None => repair_layer fs configPath
      end
  end.

(** The order of the specification: accept (nothing for an absent, empty
    or [{}] file), merge defaults, repair, restore the backup. *)
Definition spec_layered_read (fs : gmap string string) (configPath : string)
  : option (value * gmap string string) :=
  match fs !! configPath with
  | None => None
  | Some raw =>
      match accept raw with
      | Some pr =>
          if errors pr
          then first_of (merge_layer (parsed pr) fs configPath)
                 (first_of (repair_layer fs configPath) (restore_layer fs configPath))
          else Some (parsed pr, fs)
      | None => None
      end
  end.

(** The outcome of a reader that settles as the layers say. *)
Definition settle (fs : gmap string string) (r : option (value * gmap string string))
  : outcome (option value) * World :=
  match r with
  | Some (v, fs') => (Returned (Some v), mkWorld fs' [])
  | None => (Returned None, mkWorld fs [])
  end.

End Layers.

(** A sample of what the module imports: constants, a small schema (the
    project name, required or not, other properties allowed) and the
    reference reader. *)
Definition sample_externals (required : list string) : Externals := {|
  DEFAULT_DOMAIN := "https://example.com";
  UNKNOWN_VALUE := "unknown";
  RELIVERSE_SCHEMA_URL := "https://reliverse.org/schema.json";
  cliName := "@reliverse/cli";
  cliDomainDocs := "https://docs.reliverse.org";
  cliConfigJsonc := "reliverse.jsonc";
  isBunPM := true;
  runtimeInfo_name := "bun";
  schemaProperties := [("projectName", TString)];
  schemaRequired := required;
  schemaAdditionalProperties := true;
  parseJSONC := jsonc_read
|}.

Definition strict_externals : Externals := sample_externals ["projectName"].
Definition lenient_externals : Externals := sample_externals [].

(** The strict sample, with a line break in the name of the tool. *)
Definition two_line_externals : Externals := {|
  DEFAULT_DOMAIN := "https://example.com";
  UNKNOWN_VALUE := "unknown";
  RELIVERSE_SCHEMA_URL := "https://reliverse.org/schema.json";
  cliName := "@reliverse" +:+ String (ascii_of_nat 10) "cli";
  cliDomainDocs := "https://docs.reliverse.org";
  cliConfigJsonc := "reliverse.jsonc";
  isBunPM := true;
  runtimeInfo_name := "bun";
  schemaProperties := [("projectName", TString)];
  schemaRequired := ["projectName"];
  schemaAdditionalProperties := true;
  parseJSONC := jsonc_read
|}.

Definition sample_partial : obj :=
  [ ("projectName", VStr "demo");
    ("features", VObj [("i18n", VBool true); ("themes", VArr [VStr "default"])]);
    ("codeStyle", VObj [("lineWidth", VNum 100); ("modernize", VObj [("replaceFs", VBool true)])]);
    ("ignoreDependencies", VArr [VStr "eslint"]);
    ("monorepo", VObj [("type", VStr "turborepo")]);
    ("legacy", VNull) ].

(** A world for the worked examples of a failing write: a stale backup and
    a stale staging file, no configuration file; the staging write fails
    half-way, and so can the restore. *)
Definition stale_files : gmap string string :=
  <["reliverse.jsonc.backup" := "{}"]> (<["reliverse.jsonc.tmp" := "old"]> ∅).

Definition failing_write : option fault :=
  Some {| fault_code := 1; fault_residue := Some "{ half" |}.

Definition failing_restore : option fault :=
  Some {| fault_code := 2; fault_residue := None |}.

Definition failing_removal : option fault :=
  Some {| fault_code := 3; fault_residue := None |}.

(** A world for the worked example of a migration: the external document
    only, with a field the schema knows and one it does not. *)
Definition migration_text : string :=
  "{ // legacy" +:+ str_lf
  +:+ quote_json "version" +:+ ": " +:+ quote_json "2.0.0" +:+ ", "
  +:+ quote_json "unknownField" +:+ ": 1 }".

Definition migration_files : gmap string string :=
  <["reliverse-tmp.jsonc" := migration_text]> ∅.

(** Worlds for the worked examples of the reader: a primary file whose
    project name is a number, beside a backup with a valid document. *)
Definition invalid_text : string := "{ " +:+ quote_json "projectName" +:+ ": 5 }".

Definition backup_text : string :=
  "{ " +:+ quote_json "projectName" +:+ ": " +:+ quote_json "old" +:+ " }".

Definition reader_files : gmap string string :=
  <["reliverse.jsonc" := invalid_text]> (<["reliverse.jsonc.backup" := backup_text]> ∅).

Definition sample_document : obj :=
  [ ("projectName", VStr "demo");
    ("features", VObj [("i18n", VBool true); ("themes", VArr [VStr "default"; VStr "dark"])]);
    ("version", VStr "1.2.3") ].

Fixpoint contains (c : ascii) (s : string) : bool :=
  match s with
  | EmptyString => false
  | String d rest => Ascii.eqb d c || contains c rest
  end.

Fixpoint drop_chars (n : nat) (s : string) : string :=
  match n, s with
  | S k, String _ rest => drop_chars k rest
  | _, _ => s
  end.

(** The members that [JSON.stringify] prints for an object. *)
Fixpoint members_of (indent : string) (ps : list (string * value)) : list string :=
  match ps with
  | [] => []
  | (k, x) :: rest =>
      match stringify (indent +:+ "  ") x with
      | Some t => (quote_json k +:+ ": " +:+ t) :: members_of indent rest
      | None => members_of indent rest
      end
  end.

(** ** Tactics *)

(** A lookup in a literal object under a variable key [k], by cases on
    [k] being each of the literal keys in turn. *)
Ltac scan_keys k :=
  repeat (match goal with
          | |- context [String.eqb ?a k] =>
              destruct (String.eqb_spec a k) as [<-|_]
          end; [first [discriminate | tauto | intros _; tauto] |]).

(** Lookups through inserts and deletes, by cases on the keys. *)
Ltac lookup_cases :=
  repeat (rewrite lookup_delete || rewrite lookup_insert);
  repeat case_decide; subst; congruence.


(** ** Detecting the project framework *)

(** [PROJECT_FRAMEWORK_FILES], in the order of its keys. *)
Definition PROJECT_FRAMEWORK_FILES : list (string * list string) :=
  [ ("unknown", []);
    ("npm-jsr", ["jsr.json"; "jsr.jsonc"; "build.publish.ts"]);
    ("astro", ["astro.config.js"; "astro.config.ts"; "astro.config.mjs"]);
    ("nextjs", ["next.config.js"; "next.config.ts"; "next.config.mjs"]);
    ("vite", ["vite.config.js"; "vite.config.ts"; "react.config.js"]);
    ("svelte", ["svelte.config.js"; "svelte.config.ts"]);
    ("vue", ["vue.config.js"; "vite.config.ts"]);
    ("wxt", ["wxt.config.js"; "wxt.config.ts"]);
    ("vscode", ["vscode.config.js"; "vscode.config.ts"]) ].

(** The two nested loops of [detectProjectFramework] over a table: the
    outer one over the entries, the inner one over the files of an entry;
    the first file that exists ends both. *)
Fixpoint detect_in (cwd : string) (table : list (string * list string))
  : M (option string) :=
  match table with
  | [] => ret None
  | (type, markers) :: rest =>
      (fix each (l : list string) : M (option string) :=
         match l with
         | [] => detect_in cwd rest
         | file :: more =>
             let* found <- pathExists (path_join cwd file) in
             if found then ret (Some type) else each more
         end) markers
  end.

Definition detectProjectFramework (cwd : string) : M (option string) :=
  detect_in cwd PROJECT_FRAMEWORK_FILES.

(** A directory for the worked example: a Vue project that also has the
    configuration file of its test runner. *)
Definition vue_project_files : gmap string string :=
  <["app/vue.config.js" := "module.exports = {}"]>
    (<["app/vitest.config.ts" := "export default {}"]> ∅).

(** ** Updating on a disk without failures *)

Section Updating.

Context `{Externals}.

(** The document that [updateReliverseConfig] merges the updates into:
    the one of the primary file when the file exists and validates, the
    empty object when the file is absent or does not validate; [None]
    when the parser throws. *)
Definition existing_config (fs : gmap string string) (configPath : string) : option obj :=
  match fs !! configPath with
  | None => Some []
  | Some existingContent =>
      match parseJSONC existingContent with
      | None => None
      | Some parsed =>
          Some (if Check reliverseConfigSchema parsed then own_props parsed else [])
      end
  end.

End Updating.

(** Worlds for the worked examples of an update: a project whose
    configuration file holds a number as project name, and one whose
    file is valid. *)
Definition invalid_project_files : gmap string string :=
  <["project/reliverse.jsonc" := invalid_text]> ∅.

Definition valid_project_files : gmap string string :=
  <["project/reliverse.jsonc" := backup_text]> ∅.

(** A world for the worked example of a migration that cannot start: the
    external document is a number. *)
Definition unusable_migration_files : gmap string string :=
  <["reliverse-tmp.jsonc" := "5"]> (<["project/reliverse.jsonc" := backup_text]> ∅).

(** A disk without any file. *)
Definition empty_disk : gmap string string := ∅.

(** ** The content of a text *)

(** The text without its white space. *)
Fixpoint non_ws (s : string) : string :=
  match s with
  | EmptyString => EmptyString
  | String c rest => if is_ws c then non_ws rest else String c (non_ws rest)
  end.

(** [Subseq a b]: the characters of [a] are in [b], in the same order
    ([b] is [a] with characters inserted). *)
Inductive Subseq : string -> string -> Prop :=
| Subseq_nil : forall b, Subseq EmptyString b
| Subseq_keep : forall c a b, Subseq a b -> Subseq (String c a) (String c b)
| Subseq_skip : forall c a b, Subseq a b -> Subseq a (String c b).

(** A world for the worked example of a migration that goes through: a
    valid project file and an external document with a listed field and
    an unlisted one. *)
Definition full_migration_files : gmap string string :=
  <["reliverse-tmp.jsonc" := migration_text]>
    (<["project/reliverse.jsonc" := backup_text]> ∅).
(** ** JSONC texts

    What a JSONC parser reads as a value: the tokens of the value, in
    order, with gaps (white space and line comments) before and between
    them and after the last one. *)

Definition char_bs : ascii := ascii_of_nat 92.
Definition char_slash : ascii := ascii_of_nat 47.
Definition char_cr : ascii := ascii_of_nat 13.

Fixpoint all_chars (f : ascii -> bool) (s : string) : bool :=
  match s with
  | EmptyString => true
  | String c rest => f c && all_chars f rest
  end.

(** The white space of JSON: tab, line feed, carriage return, space. *)
Definition json_ws (c : ascii) : bool :=
  let n := nat_of_ascii c in
  Nat.eqb n 9 || Nat.eqb n 10 || Nat.eqb n 13 || Nat.eqb n 32.

(** A character of a line comment: no line break, and no double quote. *)
Definition comment_char (c : ascii) : bool :=
  negb (Ascii.eqb c char_lf || Ascii.eqb c char_cr || Ascii.eqb c char_quote).

(** A gap: white space and line comments, each comment closed by its
    line feed. *)
Inductive Gap : string -> Prop :=
| Gap_nil : Gap EmptyString
| Gap_ws (c : ascii) (g : string) : json_ws c = true -> Gap g -> Gap (String c g)
| Gap_comment (body g : string) :
    all_chars comment_char body = true -> Gap g ->
    Gap ("//" +:+ body +:+ str_lf +:+ g).

(** A token: a string literal, given by the string it denotes, or a
    symbol, given by its text (a bracket, a comma, a colon, a number,
    [true], [false], [null]). *)
Inductive token : Type :=
| TSym (text : string)
| TStr (content : string).

Definition token_text (t : token) : string :=
  match t with
  | TSym a => a
  | TStr s => quote_json s
  end.

(** The tokens of a value, as JSON writes it. *)
Fixpoint tokens_of (v : value) : list token :=
  match v with
  | VUndefined | VNull => [TSym "null"]
  | VBool b => [TSym (if b then "true" else "false")]
  | VNum n => [TSym (decimal n)]
  | VStr s => [TStr s]
  | VArr l =>
      TSym "["
      :: (fix items (l : list value) {struct l} : list token :=
            match l with
            | [] => [TSym "]"]
            | e :: rest =>
                tokens_of e
                ++ match rest with
                   | [] => items rest
                   | _ :: _ => TSym "," :: items rest
                   end
            end) l
  | VObj o =>
      TSym "{"
      :: (fix members (ps : list (string * value)) {struct ps} : list token :=
            match ps with
            | [] => [TSym "}"]
            | (k, x) :: rest =>
                TStr k :: TSym ":" :: tokens_of x
                ++ match rest with
                   | [] => members rest
                   | _ :: _ => TSym "," :: members rest
                   end
            end) o
  end.

(** Tokens, each after its gap. *)
Fixpoint render (ts : list (string * token)) : string :=
  match ts with
  | [] => EmptyString
  | (g, t) :: rest => g +:+ token_text t +:+ render rest
  end.

(** [text] is a rendering of the token sequence [toks]. *)
Definition Rendering (toks : list token) (text : string) : Prop :=
  exists ts : list (string * token),
    map snd ts = toks /\ Forall (fun gt => Gap (fst gt)) ts /\ text = render ts.

(** [text] is a JSONC text of the parsed value [v]. *)
Definition Jsonc (v : value) (text : string) : Prop :=
  json_value v = true
  /\ exists body tail : string,
       Rendering (tokens_of v) body /\ Gap tail /\ text = body +:+ tail.

(** ** Auxiliary definitions for the round trip *)

(** The text of a string literal between its quotes: plain characters
    and two-character escapes. *)
Definition plain_char (c : ascii) : bool :=
  negb (Ascii.eqb c char_quote || Ascii.eqb c char_bs || Ascii.eqb c char_lf).

Inductive Escaped : string -> Prop :=
| Escaped_nil : Escaped EmptyString
| Escaped_plain (c : ascii) (s : string) :
    plain_char c = true -> Escaped s -> Escaped (String c s)
| Escaped_pair (e : ascii) (s : string) :
    Ascii.eqb e char_lf = false -> Escaped s -> Escaped (String char_bs (String e s)).

(** A character of a symbol: no white space, quote, slash or backslash. *)
Definition sym_char (c : ascii) : bool :=
  negb (is_ws c || Ascii.eqb c char_quote || Ascii.eqb c char_slash
        || Ascii.eqb c char_bs).

(** A character of a section name: a symbol character that is none of
    the delimiters that can follow a string literal. *)
Definition name_char (c : ascii) : bool :=
  sym_char c
  && negb (Ascii.eqb c ":" || Ascii.eqb c "," || Ascii.eqb c "]" || Ascii.eqb c "}").

Definition is_delimiter (a : string) : bool :=
  match a with
  | String c _ => Ascii.eqb c ":" || Ascii.eqb c "," || Ascii.eqb c "]" || Ascii.eqb c "}"
  | EmptyString => false
  end.

(** The symbols are well formed, and a string literal is followed by a
    delimiter or by nothing. *)
Definition good_sym (t : token) : bool :=
  match t with
  | TSym a => negb (String.eqb a "") && all_chars sym_char a
  | TStr _ => true
  end.

Fixpoint delimited (toks : list token) : bool :=
  match toks with
  | [] => true
  | TStr _ :: rest =>
      match rest with
      | [] => true
      | TSym a :: _ => is_delimiter a && delimited rest
      | TStr _ :: _ => false
      end
  | TSym _ :: rest => delimited rest
  end.

Definition good_tokens (toks : list token) : Prop :=
  forallb good_sym toks = true /\ delimited toks = true.

Fixpoint all_ws (s : string) : bool :=
  match s with
  | EmptyString => true
  | String c rest => is_ws c && all_ws rest
  end.

(** The string without its trailing white space, and whether it has
    any. *)
Fixpoint drop_trailing_ws (s : string) : string :=
  match s with
  | EmptyString => EmptyString
  | String c rest => if is_ws c && all_ws rest then EmptyString
                     else String c (drop_trailing_ws rest)
  end.

Fixpoint ends_ws (s : string) : bool :=
  match s with
  | EmptyString => false
  | String c EmptyString => is_ws c
  | String _ rest => ends_ws rest
  end.

(** A constant that can stand in a comment: no line break, no double
    quote, and no [$], which [replace] would take for a pattern. *)
Definition comment_safe (s : string) : bool :=
  all_chars (fun c => comment_char c && negb (Ascii.eqb c "$")) s.

(** A text that does not start with white space. *)
Definition tight (x : string) : Prop :=
  match x with
  | EmptyString => True
  | String c _ => is_ws c = false
  end.

Definition first_gap (ts : list (string * token)) : string :=
  match ts with
  | [] => EmptyString
  | (g, _) :: _ => g
  end.

(** What can follow a string literal: nothing, or a character that is
    not one of a section name. *)
Definition after_literal (x : string) : Prop :=
  match x with
  | EmptyString => True
  | String c _ => name_char c = false
  end.

(** A line of a comment block: white space, then a line comment. *)
Definition comment_line (l : string) : Prop :=
  exists w body,
    l = w +:+ "//" +:+ body
    /\ all_chars json_ws w = true /\ all_chars comment_char body = true.

(** An entry of [commentSections] whose key is a plain name and whose
    lines are comments. *)
Definition good_entry (entry : string * list string) : Prop :=
  all_chars name_char (fst entry) = true
  /\ fst entry <> EmptyString
  /\ Forall comment_line (snd entry).

Fixpoint ends_with_char (c : ascii) (s : string) : bool :=
  match s with
  | EmptyString => false
  | String d EmptyString => Ascii.eqb d c
  | String _ rest => ends_with_char c rest
  end.

(** A text that does not start with a line feed. *)
Definition no_lf_head (x : string) : Prop :=
  match x with
  | EmptyString => True
  | String c _ => Ascii.eqb c char_lf = false
  end.

(** The patterns and replacements that close [injectSectionComments]. *)
Definition brace_pat : string := "{" +:+ str_lf +:+ str_lf.
Definition brace_repl : string := "{" +:+ str_lf.
Definition close_pat : string := str_lf +:+ str_lf +:+ "}".
Definition close_repl : string := str_lf +:+ "}".

Definition is_digit (c : ascii) : bool :=
  let n := nat_of_ascii c in
  Nat.leb 48 n && Nat.leb n 57.

(** A text that does not start with a digit. *)
Definition no_digit_head (x : string) : Prop :=
  match x with
  | EmptyString => True
  | String c _ => is_digit c = false
  end.

(** The reader reads the value from every rendering of its tokens with
    white space between them, whatever follows. *)
Definition reads_tokens (v : value) : Prop :=
  forall (fuel : nat) (ts : list (string * token)) (r : string),
    json_value v = true ->
    map snd ts = tokens_of v ->
    Forall (fun gt => all_ws (fst gt) = true) ts ->
    String.length (render ts +:+ r) <= fuel ->
    no_digit_head r ->
    read_value fuel (render ts +:+ r) = Some (v, r).
(* ================================================================== *)
(** * Part II: properties                                              *)
(* ================================================================== *)

(** ** Objects as association lists *)

Lemma get_set_same (o : obj) (k : string) (v : value) : get (set o k v) k = v.
Proof.
  unfold get. induction o as [|[k' v'] o IH]; simpl.
  - now rewrite String.eqb_refl.
  - destruct (String.eqb k' k) eqn:E; simpl.
    + now rewrite String.eqb_refl.
    + now rewrite E.
Qed.

Lemma lookup_set_other (o : obj) (k k' : string) (v : value) :
  k <> k' -> lookup_prop (set o k v) k' = lookup_prop o k'.
Proof.
  intros Hne. induction o as [|[k0 v0] o IH]; simpl.
  - destruct (String.eqb_spec k k'); [contradiction | reflexivity].
  - destruct (String.eqb_spec k0 k) as [->|Hk]; simpl.
    + destruct (String.eqb_spec k k'); [contradiction | reflexivity].
    + now rewrite IH.
Qed.

Lemma get_set_other (o : obj) (k k' : string) (v : value) :
  k <> k' -> get (set o k v) k' = get o k'.
Proof. intros Hne. unfold get. now rewrite lookup_set_other. Qed.

Lemma hasOwn_set_same (o : obj) (k : string) (v : value) : hasOwn (set o k v) k = true.
Proof.
  unfold hasOwn. induction o as [|[k' v'] o IH]; simpl.
  - now rewrite String.eqb_refl.
  - destruct (String.eqb k' k) eqn:E; simpl.
    + now rewrite String.eqb_refl.
    + now rewrite E.
Qed.

Lemma hasOwn_set_other (o : obj) (k k' : string) (v : value) :
  k <> k' -> hasOwn (set o k v) k' = hasOwn o k'.
Proof. intros Hne. unfold hasOwn. now rewrite lookup_set_other. Qed.

Lemma hasOwn_set (o : obj) (k k' : string) (v : value) :
  hasOwn (set o k v) k' = String.eqb k k' || hasOwn o k'.
Proof.
  destruct (String.eqb_spec k k') as [->|Hne].
  - apply hasOwn_set_same.
  - now apply hasOwn_set_other.
Qed.

Lemma lookup_prop_None (o : obj) (k : string) :
  lookup_prop o k = None <-> ~ In k (keys o).
Proof.
  induction o as [|[k' v'] o IH]; simpl.
  - tauto.
  - destruct (String.eqb_spec k' k) as [->|Hne].
    + split; [discriminate | tauto].
    + rewrite IH. tauto.
Qed.

Lemma hasOwn_In (o : obj) (k : string) : hasOwn o k = true <-> In k (keys o).
Proof.
  unfold hasOwn. destruct (lookup_prop o k) eqn:E.
  - split; [intros _ | reflexivity].
    destruct (in_dec string_dec k (keys o)) as [Hin|Hn]; [assumption|].
    apply lookup_prop_None in Hn. congruence.
  - apply lookup_prop_None in E. split; [discriminate | contradiction].
Qed.

(** ** deepMerge *)

Lemma deepMerge_unfold (target source : obj) :
  deepMerge target source = merge_loop target target source.
Proof.
  unfold deepMerge. cbn [deepMerge_rec].
  match goal with
  | |- ?loop target source = _ =>
      enough (Hloop : forall result, loop result source = merge_loop target result source)
        by apply Hloop
  end.
  induction source as [|[k v] rest IH]; intros result; [reflexivity|].
  cbn [merge_loop]. destruct v; try apply IH.
  destruct (get target k); apply IH.
Qed.

Lemma merge_loop_get (target : obj) (src : list (string * value)) :
  forall (result : obj) (k : string),
    List.NoDup (keys src) ->
    get (merge_loop target result src) k =
      match lookup_prop src k with
      | Some v => if is_undefined v then get result k else merged_value (get target k) v
      | None => get result k
      end.
Proof.
  induction src as [|[k0 v0] rest IH]; intros result k Hnd; [reflexivity|].
  simpl in Hnd. apply NoDup_cons_iff in Hnd as [Hnotin Hnd].
  cbn [lookup_prop]. destruct (String.eqb_spec k0 k) as [->|Hne].
  - assert (Hrest : lookup_prop rest k = None) by now apply lookup_prop_None.
    cbn [merge_loop].
    destruct v0; cbn [is_undefined merged_value];
      try (rewrite IH, Hrest by assumption; now rewrite ?get_set_same).
    destruct (get target k); rewrite IH, Hrest by assumption; now rewrite get_set_same.
  - cbn [merge_loop].
    destruct v0; try (rewrite IH by assumption; now rewrite ?get_set_other by assumption).
    destruct (get target k0); rewrite IH by assumption;
      now rewrite get_set_other by assumption.
Qed.

Lemma merge_loop_hasOwn (target : obj) (src : list (string * value)) :
  forall (result : obj) (k : string),
    hasOwn (merge_loop target result src) k =
      hasOwn result k
      || existsb (fun kv => String.eqb (fst kv) k && negb (is_undefined (snd kv))) src.
Proof.
  induction src as [|[k0 v0] rest IH]; intros result k.
  - simpl. now rewrite orb_false_r.
  - cbn [merge_loop existsb fst snd].
    destruct v0; cbn [is_undefined negb];
      try (rewrite IH, hasOwn_set, andb_true_r;
           destruct (hasOwn result k), (String.eqb k0 k); reflexivity).
    + rewrite IH, andb_false_r. reflexivity.
    + destruct (get target k0); rewrite IH, hasOwn_set, andb_true_r;
        destruct (hasOwn result k), (String.eqb k0 k); reflexivity.
Qed.



(** ** fixLineByLine *)

Lemma fixLineByLine_object (userConfig defaultConfig : value)
    (props : list (string * TSchema)) (req : list string) (addl : bool) :
  fixLineByLine userConfig defaultConfig (TObject props req addl) =
    if negb (is_object_like userConfig)
    then Some (fix_whole userConfig defaultConfig (TObject props req addl))
    else fix_props userConfig defaultConfig props
           (own_props (nullish_or defaultConfig (VObj []))) [].
Proof.
  cbn [fixLineByLine]. destruct (negb (is_object_like userConfig)); [reflexivity|].
  match goal with
  | |- ?loop props ?r0 ?c0 = _ =>
      enough (Hloop : forall changedKeys result,
                 loop props result changedKeys
                 = fix_props userConfig defaultConfig props result changedKeys)
        by apply Hloop
  end.
  induction props as [|[propName subSchema] rest IH]; intros changedKeys result;
    [reflexivity|].
  cbn [fix_props]. unfold fix_prop.
  destruct (get_member userConfig propName) as [userValue|]; [|reflexivity].
  destruct (get_member defaultConfig propName) as [defaultValue|]; [|reflexivity].
  destruct (is_undefined userValue && negb (has_member userConfig propName)).
  { rewrite app_nil_r. apply IH. }
  destruct (is_repo_prop propName && is_array userValue).
  { destruct (clean_repos (own_elems userValue)) as [cleaned|]; [|reflexivity].
    rewrite app_nil_r. apply IH. }
  destruct (negb (Check (createSinglePropertySchema propName subSchema)
                    (VObj [(propName, userValue)]))).
  { apply IH. }
  destruct (has_object_type subSchema).
  { destruct (fixLineByLine userValue defaultValue subSchema) as [[fixedConfig nested]|];
      [apply IH | reflexivity]. }
  cbv zeta.
  destruct (negb (is_undefined userValue)
            && negb (value_eqb (fixSingleProperty subSchema propName userValue defaultValue)
                       userValue)).
  - apply IH.
  - rewrite app_nil_r. apply IH.
Qed.

Lemma fixLineByLine_leaf (userConfig defaultConfig : value) (schema : TSchema) :
  isObjectSchema schema = false ->
  fixLineByLine userConfig defaultConfig schema
  = Some (fix_whole userConfig defaultConfig schema).
Proof. destruct schema; try reflexivity. discriminate. Qed.

(** C5, as amended. When the schema is not an object node, or the
    candidate is neither an object nor an array ([typeof] is not
    ["object"], or it is [null]), the node is handled as a whole: a
    candidate that validates comes back unchanged with an empty
    [changedKeys]; otherwise the default comes back with [changedKeys]
    equal to [["<entire_object>"]].  An array candidate under an object
    node is not handled as a whole: it goes through the loop over the
    declared properties. *)
Theorem fixLineByLine_atomic (userConfig defaultConfig : value) (schema : TSchema) :
  isObjectSchema schema = false \/ is_object_like userConfig = false ->
  fixLineByLine userConfig defaultConfig schema =
    Some (if Check schema userConfig
          then (userConfig, [])
          else (defaultConfig, ["<entire_object>"])).
Proof.
  intros [Hschema|Hcandidate].
  - rewrite fixLineByLine_leaf by assumption. unfold fix_whole.
    now destruct (Check schema userConfig).
  - destruct schema as [| | | | | | | | |props req addl];
      try (rewrite fixLineByLine_leaf by reflexivity; unfold fix_whole;
           match goal with |- context [Check ?s ?u] => now destruct (Check s u) end).
    rewrite fixLineByLine_object, Hcandidate. cbn [negb]. unfold fix_whole.
    now destruct (Check (TObject props req addl) userConfig).
Qed.

(** The witness: a number where a string is expected, and a string where
    an object is expected. *)
Lemma fixLineByLine_atomic_witness :
  fixLineByLine (VNum 5) (VStr "main") TString = Some (VStr "main", ["<entire_object>"])
  /\ fixLineByLine (VStr "x") (VObj []) (TObject [("a", TString)] [] true)
     = Some (VObj [], ["<entire_object>"])
  /\ fixLineByLine (VStr "dev") (VStr "main") TString = Some (VStr "dev", []).
Proof.
  split; [|split].
  - exact (fixLineByLine_atomic (VNum 5) (VStr "main") TString (or_introl eq_refl)).
  - exact (fixLineByLine_atomic (VStr "x") (VObj []) (TObject [("a", TString)] [] true)
             (or_intror eq_refl)).
  - exact (fixLineByLine_atomic (VStr "dev") (VStr "main") TString (or_introl eq_refl)).
Defined.

(** What the loop leaves under each key, and where the entries of
    [changedKeys] come from. *)
Lemma fix_props_spec (userConfig defaultConfig : value) (props : list (string * TSchema)) :
  forall (result : obj) (changedKeys : list string) (fixed : value) (changed : list string),
    List.NoDup (map fst props) ->
    fix_props userConfig defaultConfig props result changedKeys = Some (fixed, changed) ->
    exists r,
      fixed = VObj r
      /\ (forall p sub, In (p, sub) props ->
            exists v c, fix_prop userConfig defaultConfig p sub = Some (v, c)
                        /\ get r p = v /\ hasOwn r p = true /\ incl c changed)
      /\ (forall k, ~ In k (map fst props) -> lookup_prop r k = lookup_prop result k)
      /\ (forall x, In x changed ->
            In x changedKeys
            \/ exists p sub v c, In (p, sub) props
                 /\ fix_prop userConfig defaultConfig p sub = Some (v, c) /\ In x c)
      /\ incl changedKeys changed.
Proof.
  induction props as [|[p0 sub0] rest IH]; intros result changedKeys fixed changed Hnd Hrun.
  - cbn in Hrun. injection Hrun as <- <-. exists result.
    split; [reflexivity|]. split; [intros ? ? []|]. split; [reflexivity|].
    split; [now left | apply incl_refl].
  - cbn [fix_props] in Hrun. cbn [map fst] in Hnd.
    apply NoDup_cons_iff in Hnd as [Hfresh Hnd].
    destruct (fix_prop userConfig defaultConfig p0 sub0) as [[v0 c0]|] eqn:Hstep;
      [|discriminate].
    destruct (IH _ _ _ _ Hnd Hrun) as (r & -> & Hprops & Hother & Hfrom & Hincl).
    exists r. split; [reflexivity|]. split; [|split; [|split]].
    + intros p sub [Heq|Hin].
      * injection Heq as <- <-. exists v0, c0. split; [assumption|].
        assert (Hl : lookup_prop r p0 = lookup_prop (set result p0 v0) p0)
          by now apply Hother.
        split; [unfold get; rewrite Hl; apply get_set_same|].
        split; [unfold hasOwn; rewrite Hl; apply hasOwn_set_same|].
        intros x Hx. apply Hincl, in_or_app. now right.
      * apply Hprops, Hin.
    + intros k Hk. cbn [map fst In] in Hk.
      rewrite Hother by tauto. apply lookup_set_other. tauto.
    + intros x Hx. destruct (Hfrom x Hx) as [Hold|(p & sub & v & c & Hin & Hp & Hxc)].
      * apply in_app_or in Hold as [Hold|Hnew]; [now left|].
        right. exists p0, sub0, v0, c0. split; [now left | now split].
      * right. exists p, sub, v, c. split; [now right | now split].
    + intros x Hx. apply Hincl, in_or_app. now left.
Qed.

Lemma has_dot_app (a b : string) : has_dot (a +:+ "." +:+ b) = true.
Proof.
  induction a as [|c a IH]; simpl in *; [reflexivity|].
  rewrite IH. apply orb_true_r.
Qed.

(** An entry that a turn of the loop adds is the property's name or a
    path below it. *)
Lemma fix_prop_changes (userConfig defaultConfig : value) (p : string) (sub : TSchema)
    (v : value) (c : list string) (x : string) :
  fix_prop userConfig defaultConfig p sub = Some (v, c) -> In x c ->
  x = p \/ exists nc, x = p +:+ "." +:+ nc.
Proof.
  unfold fix_prop. intros Hstep Hx.
  destruct (get_member userConfig p) as [userValue|]; [|discriminate].
  destruct (get_member defaultConfig p) as [defaultValue|]; [|discriminate].
  destruct (is_undefined userValue && negb (has_member userConfig p)).
  { injection Hstep as <- <-. destruct Hx. }
  destruct (is_repo_prop p && is_array userValue).
  { destruct (clean_repos (own_elems userValue)); [|discriminate].
    injection Hstep as <- <-. destruct Hx. }
  destruct (negb (Check (createSinglePropertySchema p sub) (VObj [(p, userValue)]))).
  { injection Hstep as <- <-. destruct Hx as [<-|[]]. now left. }
  destruct (has_object_type sub).
  { destruct (fixLineByLine userValue defaultValue sub) as [[f n]|]; [|discriminate].
    injection Hstep as <- <-. apply in_map_iff in Hx as (nc & <- & _).
    right. now exists nc. }
  injection Hstep as <- <-.
  destruct (negb (is_undefined userValue)
            && negb (value_eqb (fixSingleProperty sub p userValue defaultValue) userValue));
    [destruct Hx as [<-|[]]; now left | destruct Hx].
Qed.

Lemma is_repo_prop_no_dot (p : string) : is_repo_prop p = true -> has_dot p = false.
Proof.
  unfold is_repo_prop. intros Hp. apply orb_true_iff in Hp as [Hp|Hp];
    apply String.eqb_eq in Hp; subst; reflexivity.
Qed.

(** The turn of the loop for a repository array. *)
Lemma fix_prop_repo (u : obj) (defaultConfig : value) (p : string) (sub : TSchema)
    (l : list value) (v : value) (c : list string) :
  is_repo_prop p = true -> get u p = VArr l ->
  fix_prop (VObj u) defaultConfig p sub = Some (v, c) ->
  clean_repos l = Some v /\ c = [].
Proof.
  unfold fix_prop. cbn [get_member]. intros Hp Hl. rewrite Hl, Hp.
  cbn [is_undefined andb is_array own_elems].
  destruct (get_member defaultConfig p); [|discriminate].
  destruct (clean_repos l) as [cleaned|]; [|discriminate].
  intros Hstep. injection Hstep as <- <-. now split.
Qed.

(** A repository array with an element that [String] does not convert:
    the turn of the loop raises. *)
Lemma fix_prop_repo_raises (u : obj) (defaultConfig : value) (p : string) (sub : TSchema)
    (l : list value) :
  is_repo_prop p = true -> get u p = VArr l -> clean_repos l = None ->
  fix_prop (VObj u) defaultConfig p sub = None.
Proof.
  unfold fix_prop. cbn [get_member]. intros Hp Hl Hbad. rewrite Hl, Hp.
  cbn [is_undefined andb is_array own_elems]. rewrite Hbad.
  now destruct (get_member defaultConfig p).
Qed.

(** ** Induction over values and schemas *)

Lemma value_nested_ind (P : value -> Prop) :
  P VUndefined -> P VNull ->
  (forall b, P (VBool b)) -> (forall n, P (VNum n)) -> (forall s, P (VStr s)) ->
  (forall l, Forall P l -> P (VArr l)) ->
  (forall o, Forall (fun kv => P (snd kv)) o -> P (VObj o)) ->
  forall v, P v.
Proof.
  intros HU HN HB HZ HS HA HO.
  fix IH 1. intros [| |b|n|s|l|o];
    [exact HU | exact HN | apply HB | apply HZ | apply HS | | ].
  - apply HA. induction l as [|x l IHl]; constructor; [apply IH | exact IHl].
  - apply HO. induction o as [|[k x] o IHo]; constructor; [apply IH | exact IHo].
Qed.

Lemma schema_nested_ind (P : TSchema -> Prop) :
  (forall schema, isObjectSchema schema = false -> P schema) ->
  (forall props req addl,
      Forall (fun p => P (snd p)) props -> P (TObject props req addl)) ->
  forall schema, P schema.
Proof.
  intros Hleaf Hobj.
  fix IH 1. intros [| | | | |c|anyOf|items|vals|props req addl];
    try (apply Hleaf; reflexivity).
  apply Hobj. induction props as [|[k s] props IHp]; constructor; [apply IH | exact IHp].
Qed.

Lemma value_eqb_refl (v : value) : value_eqb v v = true.
Proof.
  induction v as [| |b|n|s|l IHl|o IHo] using value_nested_ind; cbn [value_eqb].
  - reflexivity.
  - reflexivity.
  - now destruct b.
  - apply Z.eqb_refl.
  - apply String.eqb_refl.
  - induction IHl as [|x l Hx _ IH]; [reflexivity|]. now rewrite Hx, IH.
  - induction IHo as [|[k x] o Hx _ IH]; [reflexivity|].
    cbn [snd] in Hx. now rewrite String.eqb_refl, Hx, IH.
Qed.

Lemma mem_string_In (k : string) (l : list string) : mem_string k l = true <-> In k l.
Proof.
  unfold mem_string. rewrite existsb_exists. split.
  - intros (x & Hin & Hx). apply String.eqb_eq in Hx. now subst.
  - intros Hin. exists k. split; [assumption | apply String.eqb_refl].
Qed.

Lemma distinct_NoDup (l : list string) : distinct l = true -> List.NoDup l.
Proof.
  induction l as [|x l IH]; cbn [distinct]; intros Hd; constructor.
  - apply andb_true_iff in Hd as [Hx _]. intros Hin. apply mem_string_In in Hin.
    now rewrite Hin in Hx.
  - apply IH. now apply andb_true_iff in Hd as [_ Hd].
Qed.

(** Validating a value wrapped as a one-property object is validating
    the value. *)
Lemma Check_single (propName : string) (subSchema : TSchema) (v : value) :
  Check (createSinglePropertySchema propName subSchema) (VObj [(propName, v)])
  = Check subSchema v.
Proof.
  unfold createSinglePropertySchema. cbn [Check forallb fst snd map].
  unfold mem_string, hasOwn, get. cbn [existsb lookup_prop].
  rewrite String.eqb_refl. cbn [orb andb].
  now rewrite orb_true_r, !andb_true_r.
Qed.

(** ** Repairing against a valid, complete default *)

Lemma Check_object_inv (props : list (string * TSchema)) (req : list string) (addl : bool)
    (v : value) :
  Check (TObject props req addl) v = true -> exists o, v = VObj o.
Proof. destruct v; try discriminate. intros _. now eexists. Qed.

Lemma Check_object_prop (props : list (string * TSchema)) (req : list string) (addl : bool)
    (o : obj) (p : string) (sub : TSchema) :
  Check (TObject props req addl) (VObj o) = true ->
  In (p, sub) props ->
  is_undefined (get o p) = false ->
  Check sub (get o p) = true.
Proof.
  cbn [Check]. intros Hc Hin Hdef. apply andb_true_iff in Hc as [Hc _].
  rewrite forallb_forall in Hc. specialize (Hc _ Hin). cbn [fst snd] in Hc.
  destruct (mem_string p req).
  - now apply andb_true_iff in Hc as [Hc _].
  - now rewrite Hdef in Hc.
Qed.

Lemma wf_schema_object (props : list (string * TSchema)) (req : list string) (addl : bool) :
  wf_schema (TObject props req addl) = true ->
  List.NoDup (map fst props)
  /\ forall p sub, In (p, sub) props -> wf_schema sub = true.
Proof.
  cbn [wf_schema]. intros Hwf. apply andb_true_iff in Hwf as [Hd Hall]. split.
  - now apply distinct_NoDup.
  - intros p sub Hin. rewrite forallb_forall in Hall. exact (Hall _ Hin).
Qed.

Lemma complete_object (props : list (string * TSchema)) (req : list string) (addl : bool)
    (d : obj) (p : string) (sub : TSchema) :
  complete (TObject props req addl) (VObj d) = true ->
  In (p, sub) props ->
  hasOwn d p = true /\ is_undefined (get d p) = false /\ complete sub (get d p) = true.
Proof.
  cbn [complete]. intros Hc Hin. rewrite forallb_forall in Hc. specialize (Hc _ Hin).
  cbn [fst snd] in Hc. apply andb_true_iff in Hc as [Hc H3].
  apply andb_true_iff in Hc as [H1 H2]. apply negb_true_iff in H2. now repeat split.
Qed.

Lemma repo_safe_object (props : list (string * TSchema)) (req : list string) (addl : bool)
    (p : string) (sub : TSchema) :
  repo_safe (TObject props req addl) ->
  In (p, sub) props ->
  (is_repo_prop p = true -> accepts_string_arrays sub) /\ repo_safe sub.
Proof.
  cbn [repo_safe]. induction props as [|q props IH]; intros Hs Hin; [destruct Hin|].
  destruct Hs as (Hq & Hsub & Hrest). destruct Hin as [->|Hin].
  - now split.
  - now apply IH.
Qed.

Lemma settled_leaf (schema : TSchema) (v : value) :
  isObjectSchema schema = false -> settled schema v = Check schema v.
Proof. destruct schema; try reflexivity. discriminate. Qed.

Lemma strings_of_convertible (l : list value) :
  strings_of l = None <-> forallb convertible l = false.
Proof.
  induction l as [|x l IH]; cbn [strings_of forallb]; [easy|].
  unfold convertible at 1. destruct (js_String x) as [s|]; cbn [andb]; [|easy].
  rewrite <- IH. now destruct (strings_of l).
Qed.

Lemma clean_repos_convertible (l : list value) :
  clean_repos l = None <-> forallb convertible l = false.
Proof.
  rewrite <- strings_of_convertible. unfold clean_repos.
  now destruct (strings_of l).
Qed.

Lemma clean_repos_returns (l : list value) :
  forallb convertible l = true -> exists cleaned, clean_repos l = Some cleaned.
Proof.
  intros Hl. destruct (clean_repos l) as [cleaned|] eqn:Hc; [now eexists|].
  apply clean_repos_convertible in Hc. congruence.
Qed.

(** What the cleaning returns is an array of strings, which [String]
    converts. *)
Lemma clean_repos_strings (l : list value) (cleaned : value) :
  clean_repos l = Some cleaned ->
  exists urls, cleaned = VArr (map VStr urls).
Proof.
  unfold clean_repos. destruct (strings_of l) as [urls|]; [|discriminate].
  intros [= <-]. exists (map cleanGitHubUrl urls). now rewrite map_map.
Qed.

Lemma strings_convertible (urls : list string) :
  forallb convertible (map VStr urls) = true.
Proof. induction urls as [|s urls IH]; [reflexivity | exact IH]. Qed.

(** What [repos_convertible] says of one declared property. *)
Lemma repos_convertible_object (props : list (string * TSchema)) (req : list string)
    (addl : bool) (u : value) (p : string) (sub : TSchema) (uv : value) :
  repos_convertible (TObject props req addl) u = true ->
  is_object_like u = true ->
  In (p, sub) props ->
  get_member u p = Some uv ->
  is_undefined uv && negb (has_member u p) = false ->
  (is_repo_prop p && is_array uv = true -> forallb convertible (own_elems uv) = true)
  /\ (is_repo_prop p && is_array uv = false -> Check sub uv = true ->
      has_object_type sub = true -> repos_convertible sub uv = true).
Proof.
  cbn [repos_convertible]. intros Hc Hlike Hin Hget Hpresent.
  rewrite Hlike in Hc. cbn [negb orb] in Hc. rewrite forallb_forall in Hc.
  specialize (Hc _ Hin). cbn [fst snd] in Hc. rewrite Hget, Hpresent in Hc.
  split.
  - intros Hrepo. now rewrite Hrepo in Hc.
  - intros Hrepo Hcheck Hobj. now rewrite Hrepo, Check_single, Hcheck, Hobj in Hc.
Qed.

(** A valid, complete default whose repository lists can be converted is
    itself settled. *)
Lemma default_settled (schema : TSchema) :
  forall d, Check schema d = true -> complete schema d = true ->
            repos_convertible schema d = true -> settled schema d = true.
Proof.
  induction schema as [schema Hleaf|props req addl IH] using schema_nested_ind;
    intros d Hvalid Hcomplete Hconv.
  - now rewrite settled_leaf.
  - destruct (Check_object_inv _ _ _ _ Hvalid) as [o ->].
    cbn [settled]. apply forallb_forall. intros [p sub] Hin. cbn [fst snd].
    destruct (complete_object _ _ _ _ _ _ Hcomplete Hin) as (Hown & Hdef & Hsub).
    assert (Hcheck : Check sub (get o p) = true)
      by exact (Check_object_prop _ _ _ _ _ _ Hvalid Hin Hdef).
    destruct (repos_convertible_object _ _ _ _ _ _ (get o p) Hconv eq_refl Hin eq_refl)
      as [Hlist Hbelow]; [now rewrite Hdef|].
    rewrite Hown. cbn [andb].
    destruct (is_repo_prop p && is_array (get o p)) eqn:Hrepo.
    + now rewrite (Hlist eq_refl).
    + cbn [negb andb orb]. rewrite Hcheck. cbn [andb].
      destruct (has_object_type sub) eqn:Hobj; [|reflexivity].
      cbn [negb orb]. rewrite List.Forall_forall in IH.
      exact (IH _ Hin (get o p) Hcheck Hsub (Hbelow eq_refl Hcheck eq_refl)).
Qed.

Lemma fix_props_total (userConfig defaultConfig : value) (props : list (string * TSchema)) :
  (forall p sub, In (p, sub) props ->
     exists v c, fix_prop userConfig defaultConfig p sub = Some (v, c)) ->
  forall result changedKeys,
    exists fixed changed,
      fix_props userConfig defaultConfig props result changedKeys = Some (fixed, changed).
Proof.
  induction props as [|[p sub] rest IH]; intros Hall result changedKeys.
  - now eexists _, _.
  - cbn [fix_props]. destruct (Hall p sub (or_introl eq_refl)) as (v & c & ->).
    apply IH. intros q sq Hin. apply Hall. now right.
Qed.

(** The loop raises as soon as one of its turns does. *)
Lemma fix_props_raises (userConfig defaultConfig : value) (props : list (string * TSchema))
    (p : string) (sub : TSchema) :
  In (p, sub) props ->
  fix_prop userConfig defaultConfig p sub = None ->
  forall result changedKeys,
    fix_props userConfig defaultConfig props result changedKeys = None.
Proof.
  induction props as [|[q sq] rest IH]; intros Hin Hbad result changedKeys;
    [destruct Hin|].
  cbn [fix_props]. destruct Hin as [Heq|Hin].
  - injection Heq as -> ->. now rewrite Hbad.
  - destruct (fix_prop userConfig defaultConfig q sq) as [[v c]|]; [|reflexivity].
    now apply IH.
Qed.

Lemma fix_props_quiet (userConfig defaultConfig : value) (props : list (string * TSchema)) :
  (forall p sub, In (p, sub) props ->
     exists v, fix_prop userConfig defaultConfig p sub = Some (v, [])) ->
  forall result changedKeys,
    exists fixed,
      fix_props userConfig defaultConfig props result changedKeys
      = Some (fixed, changedKeys).
Proof.
  induction props as [|[p sub] rest IH]; intros Hall result changedKeys.
  - now eexists.
  - cbn [fix_props]. destruct (Hall p sub (or_introl eq_refl)) as (v & ->).
    rewrite app_nil_r. apply IH. intros q sq Hin. apply Hall. now right.
Qed.

(** A repair pass over a settled document changes nothing. *)
Lemma settled_stable (schema : TSchema) :
  forall v d,
    complete schema d = true -> settled schema v = true ->
    exists fixed, fixLineByLine v d schema = Some (fixed, []).
Proof.
  induction schema as [schema Hleaf|props req addl IH] using schema_nested_ind;
    intros v d Hcomplete Hsettled.
  - rewrite fixLineByLine_leaf by assumption. rewrite settled_leaf in Hsettled by assumption.
    unfold fix_whole. rewrite Hsettled. now eexists.
  - destruct v as [| | | | | |o]; try discriminate.
    destruct d as [| | | | | |dflt]; try discriminate.
    rewrite fixLineByLine_object. cbn [is_object_like typeof negb andb String.eqb].
    change (String.eqb "object" "object") with true. cbn [negb andb].
    apply fix_props_quiet. intros p sub Hin.
    cbn [settled] in Hsettled. rewrite forallb_forall in Hsettled.
    specialize (Hsettled _ Hin). cbn [fst snd] in Hsettled.
    apply andb_true_iff in Hsettled as [Hown Hgood].
    destruct (complete_object _ _ _ _ _ _ Hcomplete Hin) as (_ & _ & Hsub).
    unfold fix_prop. cbn [get_member has_member]. rewrite Hown, andb_false_r.
    destruct (is_repo_prop p && is_array (get o p)).
    { cbn [andb negb orb] in Hgood. rewrite orb_false_r in Hgood.
      destruct (clean_repos_returns _ Hgood) as [cleaned ->]. now eexists. }
    cbn [andb negb orb] in Hgood. apply andb_true_iff in Hgood as [Hcheck Hnested].
    rewrite Check_single, Hcheck. cbn [negb].
    destruct (has_object_type sub) eqn:Hobj.
    + cbn [negb orb] in Hnested. rewrite List.Forall_forall in IH.
      destruct (IH _ Hin (get o p) (get dflt p) Hsub Hnested) as [fixed Hrec].
      cbn [snd] in Hrec. rewrite Hrec. now eexists.
    + unfold fixSingleProperty. rewrite Check_single, Hcheck, value_eqb_refl.
      cbn [negb]. rewrite andb_false_r. now eexists.
Qed.

Lemma get_member_object_like (u : value) (p : string) :
  is_object_like u = true -> exists uv, get_member u p = Some uv.
Proof. destruct u; try discriminate; intros _; cbn [get_member]; now eexists. Qed.

Lemma Check_object_not_object_like (props : list (string * TSchema)) (req : list string)
    (addl : bool) (u : value) :
  is_object_like u = false -> Check (TObject props req addl) u = false.
Proof. destruct u; try reflexivity. discriminate. Qed.

Lemma In_keys (o : obj) (k : string) (v : value) : In (k, v) o -> In k (keys o).
Proof. intros Hin. unfold keys. apply in_map_iff. now exists (k, v). Qed.

Lemma object_type_not_array (sub : TSchema) (v : value) :
  has_object_type sub = true -> Check sub v = true -> is_array v = false.
Proof.
  destruct sub as [| | | | |[]| | | |]; try discriminate;
    intros _; destruct v; try discriminate; reflexivity.
Qed.

(** What one property of a settled object satisfies. *)
Lemma settled_object (props : list (string * TSchema)) (req : list string) (addl : bool)
    (o : obj) (p : string) (sub : TSchema) :
  settled (TObject props req addl) (VObj o) = true ->
  In (p, sub) props ->
  settled_at p sub (get o p) = true.
Proof.
  cbn [settled]. intros Hs Hin. rewrite forallb_forall in Hs.
  specialize (Hs _ Hin). cbn [fst snd] in Hs.
  now apply andb_true_iff in Hs as [_ Hs].
Qed.

(** The first pass over a candidate whose repository lists can be
    converted: it returns; its result is settled when the default is; and
    its result is valid when the two repository properties accept string
    arrays wherever they are declared. *)
Lemma fix_settles (schema : TSchema) :
  forall u d,
    wf_schema schema = true -> Check schema d = true -> complete schema d = true ->
    repo_safe_below schema ->
    repos_convertible schema u = true ->
    exists fixed changed,
      fixLineByLine u d schema = Some (fixed, changed)
      /\ (settled schema d = true -> settled schema fixed = true)
      /\ (repo_safe schema -> Check schema fixed = true).
Proof.
  induction schema as [schema Hleaf|props req addl IH] using schema_nested_ind;
    intros u d Hwf Hvalid Hcomplete Hbelow Hconv.
  - rewrite fixLineByLine_leaf by assumption. unfold fix_whole.
    destruct (Check schema u) eqn:Hu; eexists _, _; (split; [reflexivity|]);
      rewrite !settled_leaf by assumption; auto.
  - destruct (Check_object_inv _ _ _ _ Hvalid) as [dflt ->].
    rewrite fixLineByLine_object.
    destruct (is_object_like u) eqn:Hlike; cbn [negb].
    2:{ unfold fix_whole. rewrite Check_object_not_object_like by assumption.
        eexists _, _. split; [reflexivity|]. split; auto. }
    cbn [nullish_or is_nullish own_props].
    destruct (wf_schema_object _ _ _ Hwf) as [Hnd Hwfsub].
    cbn [repo_safe_below] in Hbelow. rewrite List.Forall_forall in Hbelow, IH.
    assert (Heach : forall p sub, In (p, sub) props ->
              exists v c,
                fix_prop u (VObj dflt) p sub = Some (v, c)
                /\ (settled (TObject props req addl) (VObj dflt) = true ->
                    settled_at p sub v = true)
                /\ (repo_safe (TObject props req addl) -> Check sub v = true)).
    { intros p sub Hin.
      destruct (complete_object _ _ _ _ _ _ Hcomplete Hin) as (Hown & Hdef & Hsubc).
      assert (Hcheck : Check sub (get dflt p) = true)
        by exact (Check_object_prop _ _ _ _ _ _ Hvalid Hin Hdef).
      unfold fix_prop. destruct (get_member_object_like u p Hlike) as [uv Huv].
      rewrite Huv. cbn [get_member].
      destruct (is_undefined uv && negb (has_member u p)) eqn:Hmissing.
      { eexists _, _. split; [reflexivity|]. split; [|auto].
        intros Hd. exact (settled_object _ _ _ _ _ _ Hd Hin). }
      destruct (repos_convertible_object _ _ _ _ _ _ _ Hconv Hlike Hin Huv Hmissing)
        as [Hlist Hnested].
      destruct (is_repo_prop p && is_array uv) eqn:Hrepo.
      { destruct (clean_repos_returns _ (Hlist eq_refl)) as [cleaned Hcleaned].
        rewrite Hcleaned. destruct (clean_repos_strings _ _ Hcleaned) as [urls ->].
        apply andb_true_iff in Hrepo as [Hrepo _].
        eexists _, _. split; [reflexivity|]. split.
        - intros _. unfold settled_at. rewrite Hrepo. cbn [is_array andb own_elems].
          now rewrite strings_convertible.
        - intros Hsafe. now apply (repo_safe_object _ _ _ _ _ Hsafe Hin). }
      rewrite Check_single.
      destruct (Check sub uv) eqn:Hcheckuv; cbn [negb].
      2:{ eexists _, _. split; [reflexivity|]. split; [|auto].
          intros Hd. exact (settled_object _ _ _ _ _ _ Hd Hin). }
      destruct (has_object_type sub) eqn:Hobj.
      - destruct (IH _ Hin uv (get dflt p) (Hwfsub _ _ Hin) Hcheck Hsubc)
          as (fixed & changed & Hrec & Hset & Hok).
        { specialize (Hbelow _ Hin). cbn [snd] in Hbelow.
          destruct sub; try exact I. cbn [repo_safe_below].
          apply List.Forall_forall. intros [q sq] Hq.
          now apply (repo_safe_object _ _ _ _ _ Hbelow Hq). }
        { exact (Hnested eq_refl eq_refl eq_refl). }
        cbn [snd] in Hrec, Hset, Hok. rewrite Hrec.
        specialize (Hok (Hbelow _ Hin)).
        eexists _, _. split; [reflexivity|]. split; [|auto].
        intros Hd. pose proof (settled_object _ _ _ _ _ _ Hd Hin) as Hdp.
        unfold settled_at in *.
        rewrite (object_type_not_array _ _ Hobj Hok), andb_false_r.
        rewrite (object_type_not_array _ _ Hobj Hcheck), andb_false_r in Hdp.
        cbn [negb andb orb] in *. rewrite Hok, Hobj. rewrite Hcheck, Hobj in Hdp.
        cbn [negb andb orb] in *. now apply Hset.
      - unfold fixSingleProperty. rewrite Check_single, Hcheckuv.
        eexists _, _. split; [reflexivity|]. split; [|auto].
        intros _. unfold settled_at. rewrite Hrepo, Hcheckuv, Hobj. reflexivity. }
    destruct (fix_props_total u (VObj dflt) props) with (result := dflt)
      (changedKeys := @nil string) as (fixed & changed & Hrun).
    { intros p sub Hin. destruct (Heach p sub Hin) as (v & c & Hstep & _).
      now exists v, c. }
    exists fixed, changed. split; [exact Hrun|].
    destruct (fix_props_spec _ _ _ _ _ _ _ Hnd Hrun) as (r & -> & Hprops & Hother & _ & _).
    split.
    + intros Hd. cbn [settled]. apply forallb_forall. intros [p sub] Hin. cbn [fst snd].
      destruct (Hprops p sub Hin) as (v & c & Hstep & Hget & Hhas & _).
      destruct (Heach p sub Hin) as (v' & c' & Hstep' & Hgood & _).
      rewrite Hstep in Hstep'. injection Hstep' as <- <-.
      rewrite Hhas, Hget. exact (Hgood Hd).
    + intros Hsafe. cbn [Check]. apply andb_true_iff. split.
      * apply forallb_forall. intros [p sub] Hin. cbn [fst snd].
        destruct (Hprops p sub Hin) as (v & c & Hstep & Hget & Hhas & _).
        destruct (Heach p sub Hin) as (v' & c' & Hstep' & _ & Hok).
        rewrite Hstep in Hstep'. injection Hstep' as <- <-.
        rewrite Hhas, Hget, (Hok Hsafe). cbn [andb]. rewrite !orb_true_r.
        now destruct (mem_string p req).
      * destruct addl; [reflexivity|]. cbn [orb].
        apply forallb_forall. intros [k x] Hkx. cbn [fst].
        destruct (in_dec string_dec k (map fst props)) as [Hk|Hk];
          [now apply mem_string_In|].
        exfalso. specialize (Hother k Hk).
        assert (Hr : lookup_prop r k <> None).
        { intros Hnone. apply lookup_prop_None in Hnone.
          apply Hnone. exact (In_keys _ _ _ Hkx). }
        rewrite Hother in Hr.
        assert (Hd : In k (keys dflt)).
        { destruct (in_dec string_dec k (keys dflt)) as [Hd|Hd]; [assumption|].
          apply lookup_prop_None in Hd. contradiction. }
        cbn [Check] in Hvalid. apply andb_true_iff in Hvalid as [_ Hextra].
        cbn [orb] in Hextra. rewrite forallb_forall in Hextra.
        unfold keys in Hd. apply in_map_iff in Hd as ([k' x'] & Hk' & Hin').
        cbn [fst] in Hk'. subst k'. specialize (Hextra _ Hin'). cbn [fst] in Hextra.
        apply mem_string_In in Hextra. contradiction.
Qed.

Lemma forallb_false_In {A : Type} (f : A -> bool) (l : list A) :
  forallb f l = false -> exists x, In x l /\ f x = false.
Proof.
  induction l as [|a l IH]; cbn [forallb]; [discriminate|].
  destruct (f a) eqn:Ha; cbn [andb].
  - intros Hl. destruct (IH Hl) as (x & Hin & Hx). exists x. split; [now right | exact Hx].
  - intros _. exists a. split; [now left | exact Ha].
Qed.

(** Against a complete default the repair returns exactly when every
    repository list that it converts can be converted: no default that it
    reads is [null] or [undefined], and the only other [TypeError] is
    that of [String]. *)
Lemma fixLineByLine_total (schema : TSchema) :
  forall u d, complete schema d = true ->
    if repos_convertible schema u
    then exists r, fixLineByLine u d schema = Some r
    else fixLineByLine u d schema = None.
Proof.
  induction schema as [schema Hleaf|props req addl IH] using schema_nested_ind;
    intros u d Hcomplete.
  - rewrite fixLineByLine_leaf by assumption.
    replace (repos_convertible schema u) with true by (now destruct schema).
    now eexists.
  - destruct d as [| | | | | |dflt]; try discriminate.
    rewrite fixLineByLine_object. cbn [repos_convertible].
    destruct (is_object_like u) eqn:Hlike; cbn [negb orb]; [|now eexists].
    cbn [nullish_or is_nullish own_props].
    rewrite List.Forall_forall in IH.
    assert (Heach : forall p sub, In (p, sub) props ->
              if match get_member u p with
                 | Some userValue =>
                     if is_undefined userValue && negb (has_member u p) then true
                     else if is_repo_prop p && is_array userValue
                     then forallb convertible (own_elems userValue)
                     else if negb (Check (createSinglePropertySchema p sub)
                                     (VObj [(p, userValue)]))
                     then true
                     else if has_object_type sub then repos_convertible sub userValue
                     else true
                 | None => true
                 end
              then exists v c, fix_prop u (VObj dflt) p sub = Some (v, c)
              else fix_prop u (VObj dflt) p sub = None).
    { intros p sub Hin. unfold fix_prop.
      destruct (get_member_object_like u p Hlike) as [uv ->]. cbn [get_member].
      destruct (is_undefined uv && negb (has_member u p)); [now eexists _, _|].
      destruct (is_repo_prop p && is_array uv).
      { destruct (forallb convertible (own_elems uv)) eqn:Hl.
        - destruct (clean_repos_returns _ Hl) as [cleaned ->]. now eexists _, _.
        - apply clean_repos_convertible in Hl. now rewrite Hl. }
      destruct (negb (Check (createSinglePropertySchema p sub) (VObj [(p, uv)])));
        [now eexists _, _|].
      destruct (has_object_type sub); [|now eexists _, _].
      specialize (IH _ Hin uv (get dflt p)
                    (proj2 (proj2 (complete_object _ _ _ _ _ _ Hcomplete Hin)))).
      cbn [snd] in IH. destruct (repos_convertible sub uv).
      - destruct IH as [[fixed changed] ->]. now eexists _, _.
      - now rewrite IH. }
    destruct (forallb _ props) eqn:Hall.
    + destruct (fix_props_total u (VObj dflt) props) with
        (result := dflt) (changedKeys := @nil string)
        as (fixed & changed & ->); [|now eexists].
      intros p sub Hin. rewrite forallb_forall in Hall.
      specialize (Hall _ Hin). cbn [fst snd] in Hall.
      specialize (Heach p sub Hin). now rewrite Hall in Heach.
    + apply forallb_false_In in Hall as ([p sub] & Hin & Hbad).
      cbn [fst snd] in Hbad. specialize (Heach p sub Hin). rewrite Hbad in Heach.
      exact (fix_props_raises _ _ _ _ _ Hin Heach _ _).
Qed.

Lemma fixLineByLine_returns (schema : TSchema) (u d : value) :
  complete schema d = true -> repos_convertible schema u = true ->
  exists r, fixLineByLine u d schema = Some r.
Proof.
  intros Hcomplete Hconv. pose proof (fixLineByLine_total schema u d Hcomplete) as Ht.
  now rewrite Hconv in Ht.
Qed.

Lemma fixLineByLine_raises (schema : TSchema) (u d : value) :
  complete schema d = true -> repos_convertible schema u = false ->
  fixLineByLine u d schema = None.
Proof.
  intros Hcomplete Hconv. pose proof (fixLineByLine_total schema u d Hcomplete) as Ht.
  now rewrite Hconv in Ht.
Qed.

(** C10, as amended. For a declared property named
    [customUserFocusedRepos] or [customDevsFocusedRepos] whose candidate
    value is an array, whatever the property's schema says: when the
    repair returns, [String] has converted every element, the result
    holds the array of the converted elements, each passed through
    [cleanGitHubUrl], and [changedKeys] does not name the property; when
    [String] raises for some element (an object with an own [toString]
    key, or an array that holds one), the repair raises.  Against a
    complete default, and with no declared property named like a member
    objects inherit, the repair returns as soon as every repository list
    that it converts can be converted. *)
Theorem fixLineByLine_repo_arrays (u : obj) (defaultConfig : value)
    (props : list (string * TSchema)) (req : list string) (addl : bool)
    (p : string) (sub : TSchema) (l : list value) :
  In (p, sub) props ->
  List.NoDup (map fst props) ->
  is_repo_prop p = true ->
  get u p = VArr l ->
  (forallb convertible l = false ->
   fixLineByLine (VObj u) defaultConfig (TObject props req addl) = None)
  /\ (complete (TObject props req addl) defaultConfig = true ->
      own_names (TObject props req addl) = true ->
      repos_convertible (TObject props req addl) (VObj u) = true ->
      exists r, fixLineByLine (VObj u) defaultConfig (TObject props req addl) = Some r)
  /\ forall fixedConfig changedKeys,
       fixLineByLine (VObj u) defaultConfig (TObject props req addl)
       = Some (fixedConfig, changedKeys) ->
       exists urls,
         strings_of l = Some urls
         /\ get_member fixedConfig p
            = Some (VArr (map (fun s => VStr (cleanGitHubUrl s)) urls))
         /\ ~ In p changedKeys.
Proof.
  intros Hin Hnd Hp Hl.
  split; [|split; [intros Hc _; now apply fixLineByLine_returns|]].
  - intros Hbad. rewrite fixLineByLine_object. cbn.
    apply (fix_props_raises _ _ _ _ _ Hin).
    apply (fix_prop_repo_raises _ _ _ _ _ Hp Hl).
    now apply clean_repos_convertible.
  - intros fixedConfig changedKeys Hrun.
    rewrite fixLineByLine_object in Hrun. cbn in Hrun.
    destruct (fix_props_spec _ _ _ _ _ _ _ Hnd Hrun) as (r & -> & Hprops & _ & Hfrom & _).
    destruct (Hprops p sub Hin) as (v & c & Hstep & Hget & _).
    destruct (fix_prop_repo _ _ _ _ _ _ _ Hp Hl Hstep) as [Hclean _].
    unfold clean_repos in Hclean. destruct (strings_of l) as [urls|]; [|discriminate].
    injection Hclean as <-. exists urls. split; [reflexivity|]. split.
    + cbn [get_member]. now rewrite Hget.
    + intros Hbad. destruct (Hfrom p Hbad) as [[]|(q & sq & v & c' & Hq & Hstep' & Hc)].
      destruct (fix_prop_changes _ _ _ _ _ _ _ Hstep' Hc) as [->|[nc Hpath]].
      * destruct (fix_prop_repo _ _ _ _ _ _ _ Hp Hl Hstep') as [_ ->]. destruct Hc.
      * apply is_repo_prop_no_dot in Hp. rewrite Hpath, has_dot_app in Hp. discriminate.
Qed.

Lemma sample_schema_props_NoDup : List.NoDup (map fst sample_properties).
Proof. apply distinct_NoDup. reflexivity. Qed.

Lemma sample_repair_run :
  fixLineByLine (VObj sample_candidate) sample_default sample_schema
  = Some (VObj [ ("projectName", VStr "unknown");
                 ("customUserFocusedRepos", VArr [VStr "blefnk/relivator"; VStr "7"]);
                 ("codeStyle", VObj [("lineWidth", VNum 80); ("quoteMark", VStr "double")]);
                 ("ignoreDependencies", VArr []) ],
           ["projectName"; "codeStyle"; "ignoreDependencies"]).
Proof. reflexivity. Qed.

(** The witness: an address is cleaned and a number becomes a string,
    and [changedKeys] names only the three fields that were invalid. *)
Lemma fixLineByLine_repo_arrays_witness :
  fixLineByLine (VObj sample_candidate) sample_default sample_schema
  = Some (VObj [ ("projectName", VStr "unknown");
                 ("customUserFocusedRepos", VArr [VStr "blefnk/relivator"; VStr "7"]);
                 ("codeStyle", VObj [("lineWidth", VNum 80); ("quoteMark", VStr "double")]);
                 ("ignoreDependencies", VArr []) ],
           ["projectName"; "codeStyle"; "ignoreDependencies"])
  /\ exists urls,
       strings_of [VStr "git+https://github.com/blefnk/relivator.git"; VNum 7] = Some urls
       /\ get_member
            (VObj [ ("projectName", VStr "unknown");
                    ("customUserFocusedRepos", VArr [VStr "blefnk/relivator"; VStr "7"]);
                    ("codeStyle",
                      VObj [("lineWidth", VNum 80); ("quoteMark", VStr "double")]);
                    ("ignoreDependencies", VArr []) ])
            "customUserFocusedRepos"
          = Some (VArr (map (fun s => VStr (cleanGitHubUrl s)) urls))
       /\ ~ In "customUserFocusedRepos"
              ["projectName"; "codeStyle"; "ignoreDependencies"].
Proof.
  split; [exact sample_repair_run|].
  exact (proj2 (proj2 (fixLineByLine_repo_arrays sample_candidate sample_default
                         sample_properties sample_required false
                         "customUserFocusedRepos" (TArray TString)
                         [VStr "git+https://github.com/blefnk/relivator.git"; VNum 7]
                         (or_intror (or_introl eq_refl)) sample_schema_props_NoDup
                         eq_refl eq_refl)) _ _ sample_repair_run).
Defined.

(** C10, as the claim words it (every array is accepted), fails: a
    repository list that holds an object with an own [toString] key makes
    [String] raise, and the repair with it, against a complete default. *)
Lemma fixLineByLine_repo_arrays_counterexample :
  complete sample_schema sample_default = true
  /\ js_String (VObj [("toString", VNum 0)]) = None
  /\ fixLineByLine
       (VObj [("customUserFocusedRepos", VArr [VObj [("toString", VNum 0)]])])
       sample_default sample_schema
     = None.
Proof. repeat split; reflexivity. Qed.

(** A declared property that is absent from the candidate, and whose
    name is not that of a member objects inherit (for such a name
    [propName in userConfig] holds of every object), takes the value the
    default object has under it and becomes an own key of the result. *)
Theorem fixLineByLine_missing_field (u d : obj)
    (props : list (string * TSchema)) (req : list string) (addl : bool)
    (p : string) (sub : TSchema)
    (fixedConfig : value) (changedKeys : list string) :
  In (p, sub) props ->
  List.NoDup (map fst props) ->
  is_inherited p = false ->
  lookup_prop u p = None ->
  fixLineByLine (VObj u) (VObj d) (TObject props req addl)
  = Some (fixedConfig, changedKeys) ->
  exists r, fixedConfig = VObj r /\ lookup_prop r p = Some (get d p).
Proof.
  intros Hin Hnd _ Hl Hrun.
  rewrite fixLineByLine_object in Hrun. cbn [is_object_like typeof negb andb] in Hrun.
  change (String.eqb "object" "object") with true in Hrun. cbn [negb andb] in Hrun.
  destruct (fix_props_spec _ _ _ _ _ _ _ Hnd Hrun) as (r & -> & Hprops & _ & _ & _).
  destruct (Hprops p _ Hin) as (v & c & Hstep & Hget & Hhas & _).
  unfold fix_prop in Hstep. cbn [get_member has_member] in Hstep.
  unfold get at 1, hasOwn in Hstep. rewrite Hl in Hstep.
  cbn [is_undefined negb andb] in Hstep.
  injection Hstep as <- _. exists r. split; [reflexivity|].
  unfold get, hasOwn in Hget, Hhas. destruct (lookup_prop r p); [|discriminate].
  now rewrite Hget.
Qed.

(** A declared property whose value does not validate (a nested object
    with one invalid field included) is replaced by the default's value as
    a whole and recorded under its own name, unless it is one of the two
    repository lists holding an array: such a list is never validated. *)
Theorem fixLineByLine_invalid_field (u : obj) (defaultConfig : value)
    (props : list (string * TSchema)) (req : list string) (addl : bool)
    (p : string) (sub : TSchema) (v : value)
    (fixedConfig : value) (changedKeys : list string) :
  In (p, sub) props ->
  List.NoDup (map fst props) ->
  lookup_prop u p = Some v ->
  is_repo_prop p && is_array v = false ->
  Check sub v = false ->
  fixLineByLine (VObj u) defaultConfig (TObject props req addl)
  = Some (fixedConfig, changedKeys) ->
  get_member fixedConfig p = get_member defaultConfig p /\ In p changedKeys.
Proof.
  intros Hin Hnd Hl Hrepo Hbad Hrun.
  rewrite fixLineByLine_object in Hrun. cbn [is_object_like typeof negb andb] in Hrun.
  change (String.eqb "object" "object") with true in Hrun. cbn [negb andb] in Hrun.
  destruct (fix_props_spec _ _ _ _ _ _ _ Hnd Hrun) as (r & -> & Hprops & _ & _ & _).
  destruct (Hprops p _ Hin) as (v' & c & Hstep & Hget & _ & Hincl).
  unfold fix_prop in Hstep. cbn [get_member has_member] in Hstep.
  assert (Hu : get u p = v) by (unfold get; now rewrite Hl).
  assert (Hh : hasOwn u p = true) by (unfold hasOwn; now rewrite Hl).
  rewrite Hu, Hh, Hrepo, Check_single, Hbad, andb_false_r in Hstep. cbn [negb] in Hstep.
  destruct (get_member defaultConfig p) as [dv|] eqn:Hd; [|discriminate].
  injection Hstep as <- <-. cbn [get_member]. rewrite Hget.
  split; [reflexivity|]. apply Hincl. now left.
Qed.

(** A key that the schema does not declare is in the result exactly when
    the default has it, with the default's value: what the candidate holds
    under such a key is dropped. *)
Theorem fixLineByLine_undeclared_key (u d : obj)
    (props : list (string * TSchema)) (req : list string) (addl : bool)
    (k : string) (fixedConfig : value) (changedKeys : list string) :
  List.NoDup (map fst props) ->
  ~ In k (map fst props) ->
  fixLineByLine (VObj u) (VObj d) (TObject props req addl)
  = Some (fixedConfig, changedKeys) ->
  exists r, fixedConfig = VObj r /\ lookup_prop r k = lookup_prop d k.
Proof.
  intros Hnd Hk Hrun.
  rewrite fixLineByLine_object in Hrun. cbn [is_object_like typeof negb andb] in Hrun.
  change (String.eqb "object" "object") with true in Hrun. cbn [negb andb] in Hrun.
  destruct (fix_props_spec _ _ _ _ _ _ _ Hnd Hrun) as (r & -> & _ & Hother & _ & _).
  exists r. split; [reflexivity|]. now apply Hother.
Qed.

(** The witness: the candidate's code style has a valid quote mark and an
    invalid line width; the whole section becomes the default's. *)
Lemma fixLineByLine_invalid_field_witness :
  get_member
    (VObj [ ("projectName", VStr "unknown");
            ("customUserFocusedRepos", VArr [VStr "blefnk/relivator"; VStr "7"]);
            ("codeStyle", VObj [("lineWidth", VNum 80); ("quoteMark", VStr "double")]);
            ("ignoreDependencies", VArr []) ])
    "codeStyle"
  = get_member sample_default "codeStyle"
  /\ In "codeStyle" ["projectName"; "codeStyle"; "ignoreDependencies"].
Proof.
  exact (fixLineByLine_invalid_field sample_candidate sample_default
           sample_properties sample_required false "codeStyle"
           (TObject
              [ ("lineWidth", TNumber);
                ("quoteMark", TUnion [TLiteral (LStr "single"); TLiteral (LStr "double")]) ]
              ["lineWidth"; "quoteMark"] false)
           (VObj [("lineWidth", VStr "wide"); ("quoteMark", VStr "single")])
           _ _
           (or_intror (or_intror (or_introl eq_refl))) sample_schema_props_NoDup
           eq_refl eq_refl eq_refl sample_repair_run).
Defined.

(** The witness: the candidate's [legacy] key, which the schema does not
    declare and the default does not have, is not in the result. *)
Lemma fixLineByLine_undeclared_key_witness :
  exists r,
    VObj [ ("projectName", VStr "unknown");
           ("customUserFocusedRepos", VArr [VStr "blefnk/relivator"; VStr "7"]);
           ("codeStyle", VObj [("lineWidth", VNum 80); ("quoteMark", VStr "double")]);
           ("ignoreDependencies", VArr []) ]
    = VObj r
    /\ lookup_prop r "legacy" = None.
Proof.
  refine (fixLineByLine_undeclared_key sample_candidate
            [ ("projectName", VStr "unknown");
              ("customUserFocusedRepos", VArr []);
              ("codeStyle", VObj [("lineWidth", VNum 80); ("quoteMark", VStr "double")]);
              ("ignoreDependencies", VArr []) ]
            sample_properties sample_required false "legacy" _ _
            sample_schema_props_NoDup _ sample_repair_run).
  cbn. intuition discriminate.
Defined.

(** The witness: a candidate without [projectName]. *)
Lemma fixLineByLine_missing_field_witness :
  exists r,
    VObj [ ("projectName", VStr "unknown");
           ("customUserFocusedRepos", VArr []);
           ("codeStyle", VObj [("lineWidth", VNum 80); ("quoteMark", VStr "double")]);
           ("ignoreDependencies", VArr []) ]
    = VObj r
    /\ lookup_prop r "projectName" = Some (VStr "unknown").
Proof.
  exact (fixLineByLine_missing_field
           [("codeStyle", VObj [("lineWidth", VNum 80); ("quoteMark", VStr "double")])]
           [ ("projectName", VStr "unknown");
             ("customUserFocusedRepos", VArr []);
             ("codeStyle", VObj [("lineWidth", VNum 80); ("quoteMark", VStr "double")]);
             ("ignoreDependencies", VArr []) ]
           sample_properties sample_required false "projectName" TString
           _ _ (or_introl eq_refl) sample_schema_props_NoDup eq_refl eq_refl eq_refl).
Defined.

(** C5, as the claim words it, fails for a candidate that is an array,
    which is not an object: under an object node it does not validate,
    and yet the loop runs, finds every declared property missing, and
    returns a copy of the default with an empty [changedKeys] instead of
    the marker. *)
Lemma fixLineByLine_atomic_counterexample :
  Check sample_schema (VArr [VNum 1; VNum 2]) = false
  /\ fixLineByLine (VArr [VNum 1; VNum 2]) sample_default sample_schema
     = Some (sample_default, []).
Proof. split; reflexivity. Qed.




(** C7, as amended. Repair is idempotent against a default document that
    is valid and complete for the schema, provided that every object node
    declares a property once, none of them named like a member objects
    inherit, that, below the root, a property named like one of the two
    repository lists accepts every array of strings, and that [String]
    converts the elements of the repository lists of the candidate and of
    the default that the repair reaches (it raises for an object with an
    own [toString] key, and the repair with it): the first pass returns,
    and a second pass over its [fixedConfig] returns an empty
    [changedKeys]. *)
Theorem fixLineByLine_idempotent (doc defaultConfig : value) (schema : TSchema) :
  wf_schema schema = true ->
  own_names schema = true ->
  Check schema defaultConfig = true ->
  complete schema defaultConfig = true ->
  repo_safe_below schema ->
  repos_convertible schema defaultConfig = true ->
  repos_convertible schema doc = true ->
  exists fixedConfig changedKeys,
    fixLineByLine doc defaultConfig schema = Some (fixedConfig, changedKeys)
    /\ exists again, fixLineByLine fixedConfig defaultConfig schema = Some (again, []).
Proof.
  intros Hwf _ Hvalid Hcomplete Hbelow Hdefault Hdoc.
  destruct (fix_settles schema doc defaultConfig Hwf Hvalid Hcomplete Hbelow Hdoc)
    as (fixedConfig & changedKeys & Hrun & Hsettled & _).
  exists fixedConfig, changedKeys. split; [exact Hrun|].
  apply settled_stable; [assumption|].
  apply Hsettled. now apply default_settled.
Qed.

Lemma sample_schema_repo_safe_below : repo_safe_below sample_schema.
Proof. repeat constructor; cbn; try discriminate; intuition discriminate. Qed.

(** The witness: the sample candidate, repaired twice. *)
Lemma fixLineByLine_idempotent_witness :
  exists fixedConfig changedKeys,
    fixLineByLine (VObj sample_candidate) sample_default sample_schema
    = Some (fixedConfig, changedKeys)
    /\ exists again, fixLineByLine fixedConfig sample_default sample_schema
                     = Some (again, []).
Proof.
  exact (fixLineByLine_idempotent (VObj sample_candidate) sample_default sample_schema
           eq_refl eq_refl eq_refl eq_refl sample_schema_repo_safe_below eq_refl eq_refl).
Defined.

(** C7, as the specification words it (for every schema), fails: below
    the root the repository list is cleaned into strings without being
    validated, the first pass reports no change, and the second pass
    finds the object invalid and reports it. The default is valid and
    complete. *)
Lemma fixLineByLine_idempotent_counterexample :
  Check nested_repo_schema nested_repo_default = true
  /\ complete nested_repo_schema nested_repo_default = true
  /\ fixLineByLine nested_repo_candidate nested_repo_default nested_repo_schema
     = Some (VObj [("a", VObj [("customUserFocusedRepos", VArr [VStr "1"])])], [])
  /\ fixLineByLine (VObj [("a", VObj [("customUserFocusedRepos", VArr [VStr "1"])])])
       nested_repo_default nested_repo_schema
     = Some (nested_repo_default, ["a"]).
Proof. repeat split; reflexivity. Qed.

(** ** mergeWithDefaults and deepMerge *)

Lemma get_set (o : obj) (k k' : string) (v : value) :
  get (set o k v) k' = if String.eqb k k' then v else get o k'.
Proof.
  destruct (String.eqb_spec k k') as [->|Hne].
  - apply get_set_same.
  - now apply get_set_other.
Qed.

Lemma keys_set (o : obj) (k : string) (v : value) :
  keys (set o k v) = if hasOwn o k then keys o else keys o ++ [k].
Proof.
  unfold hasOwn. induction o as [|[k0 v0] o IH]; cbn [set lookup_prop keys map fst app].
  - reflexivity.
  - destruct (String.eqb_spec k0 k) as [->|Hne]; cbn [keys map fst].
    + reflexivity.
    + fold (keys (set o k v)). rewrite IH. fold (keys o).
      now destruct (lookup_prop o k).
Qed.

Lemma keys_set_congr (a b : obj) (k : string) (v w : value) :
  keys a = keys b -> keys (set a k v) = keys (set b k w).
Proof.
  intros Hk. rewrite !keys_set.
  assert (Hh : hasOwn a k = hasOwn b k).
  { apply eq_true_iff_eq. rewrite !hasOwn_In. now rewrite Hk. }
  now rewrite Hh, Hk.
Qed.

Lemma keys_assign_congr (b b' : obj) :
  map fst b = map fst b' ->
  forall a a', keys a = keys a' -> keys (assign a b) = keys (assign a' b').
Proof.
  unfold assign. revert b'. induction b as [|[k v] b IH]; intros [|[k' v'] b'] Hb a a' Ha;
    try discriminate; [exact Ha|].
  cbn [map fst] in Hb. injection Hb as <- Hb. cbn [fold_left fst snd].
  apply IH; [assumption|]. now apply keys_set_congr.
Qed.

Lemma NoDup_keys_set (o : obj) (k : string) (v : value) :
  List.NoDup (keys o) -> List.NoDup (keys (set o k v)).
Proof.
  intros Hnd. rewrite keys_set. destruct (hasOwn o k) eqn:Hh; [assumption|].
  apply List.NoDup_app; [assumption | repeat constructor; intros [] |].
  intros x Hx [<-|[]]. apply hasOwn_In in Hx. congruence.
Qed.

Lemma assign_cons (a : obj) (k : string) (v : value) (b : obj) :
  assign a ((k, v) :: b) = assign (set a k v) b.
Proof. reflexivity. Qed.

Lemma NoDup_keys_assign (b a : obj) :
  List.NoDup (keys a) -> List.NoDup (keys (assign a b)).
Proof.
  revert a. induction b as [|[k v] b IH]; intros a Hnd; [exact Hnd|].
  rewrite assign_cons. apply IH. now apply NoDup_keys_set.
Qed.

Lemma hasOwn_assign (b a : obj) (k : string) :
  hasOwn a k = true -> hasOwn (assign a b) k = true.
Proof.
  revert a. induction b as [|[k0 v0] b IH]; intros a Hh; [exact Hh|].
  rewrite assign_cons. apply IH. rewrite hasOwn_set, Hh. apply orb_true_r.
Qed.

Lemma get_assign (b a : obj) (k : string) :
  List.NoDup (map fst b) ->
  get (assign a b) k = match lookup_prop b k with Some v => v | None => get a k end.
Proof.
  revert a. induction b as [|[k0 v0] b IH]; intros a Hnd; [reflexivity|].
  cbn [map fst] in Hnd. apply NoDup_cons_iff in Hnd as [Hfresh Hnd].
  rewrite assign_cons, IH by assumption. cbn [lookup_prop].
  destruct (String.eqb_spec k0 k) as [->|Hne].
  - assert (Hnone : lookup_prop b k = None) by now apply lookup_prop_None.
    rewrite Hnone. apply get_set_same.
  - destruct (lookup_prop b k); [reflexivity|]. now apply get_set_other.
Qed.

(** Two objects with the same keys in the same order and the same value
    under every key are equal. *)
Lemma obj_ext (a b : obj) :
  keys a = keys b -> List.NoDup (keys a) -> (forall k, get a k = get b k) -> a = b.
Proof.
  revert b. induction a as [|[k v] a IH]; intros [|[k' v'] b] Hk Hnd Hget;
    try discriminate; [reflexivity|].
  cbn [keys map fst] in Hk, Hnd. injection Hk as <- Hk.
  apply NoDup_cons_iff in Hnd as [Hfresh Hnd].
  assert (Hv : v = v').
  { specialize (Hget k). unfold get in Hget. cbn [lookup_prop] in Hget.
    now rewrite String.eqb_refl in Hget. }
  subst v'. f_equal. apply IH; [assumption|assumption|].
  intros k0. specialize (Hget k0). unfold get in Hget |- *. cbn [lookup_prop] in Hget.
  destruct (String.eqb_spec k k0) as [Heq|Hne]; [subst k0|exact Hget].
  assert (Ha : lookup_prop a k = None) by now apply lookup_prop_None.
  assert (Hb : lookup_prop b k = None).
  { apply lookup_prop_None. fold (keys b) in Hk. unfold keys in *. now rewrite <- Hk. }
  now rewrite Ha, Hb.
Qed.

Lemma merge_loop_assign (target : obj) (src : list (string * value)) :
  forallb (fun kv => negb (is_undefined (snd kv))) src = true ->
  forall result,
    merge_loop target result src
    = assign result
        (map (fun kv => (fst kv, merged_value (get target (fst kv)) (snd kv))) src).
Proof.
  induction src as [|[k v] src IH]; intros Hdef result; [reflexivity|].
  cbn [forallb snd] in Hdef. apply andb_true_iff in Hdef as [Hv Hdef].
  cbn [map fst snd]. rewrite assign_cons. cbn [merge_loop].
  destruct v; try discriminate; cbn [merged_value]; try now apply IH.
  destruct (get target k); now apply IH.
Qed.

Lemma flat_get (t : obj) (k : string) :
  flat t = true -> forall v, merged_value (get t k) v = if is_undefined v then get t k else v.
Proof.
  intros Hflat v. destruct v; try reflexivity. cbn [merged_value is_undefined].
  unfold get. induction t as [|[k0 v0] t IH]; [reflexivity|].
  cbn [flat forallb snd] in Hflat. apply andb_true_iff in Hflat as [Hv0 Hflat].
  cbn [lookup_prop]. destruct (String.eqb k0 k).
  - now destruct v0.
  - now apply IH.
Qed.

(** Over a base without nested objects the deep merge is the spread. *)
Lemma deepMerge_flat (t s : obj) :
  flat t = true ->
  forallb (fun kv => negb (is_undefined (snd kv))) s = true ->
  deepMerge t s = assign t s.
Proof.
  intros Hflat Hdef. rewrite deepMerge_unfold, merge_loop_assign by assumption.
  f_equal. rewrite forallb_forall in Hdef.
  rewrite <- (map_id s) at 2. apply map_ext_in. intros [k v] Hin. cbn [fst snd].
  rewrite flat_get by assumption. specialize (Hdef _ Hin). cbn [snd] in Hdef.
  apply negb_true_iff in Hdef. now rewrite Hdef.
Qed.

Lemma json_object (o : obj) :
  json_value (VObj o) = true ->
  List.NoDup (map fst o)
  /\ forallb (fun kv => negb (is_undefined (snd kv))) o = true
  /\ forall k v, lookup_prop o k = Some v -> json_value v = true.
Proof.
  cbn [json_value]. intros Hj. apply andb_true_iff in Hj as [Hd Hall].
  rewrite forallb_forall in Hall. split; [now apply distinct_NoDup|]. split.
  - apply forallb_forall. intros kv Hin. specialize (Hall _ Hin). now destruct (snd kv).
  - intros k v Hl. clear Hd. induction o as [|[k0 v0] o IH]; [discriminate|].
    cbn [lookup_prop] in Hl. destruct (String.eqb k0 k).
    + injection Hl as <-. exact (Hall (k0, v0) (or_introl eq_refl)).
    + apply IH; [|assumption]. intros kv Hin. apply Hall. now right.
Qed.

Lemma lookup_get (o : obj) (k : string) (v : value) :
  lookup_prop o k = Some v -> get o k = v.
Proof. unfold get. now intros ->. Qed.

Lemma lookup_none_get (o : obj) (k : string) :
  lookup_prop o k = None -> get o k = VUndefined.
Proof. unfold get. now intros ->. Qed.

Lemma keys_set_present (o : obj) (k : string) (v : value) :
  hasOwn o k = true -> keys (set o k v) = keys o.
Proof. intros Hh. now rewrite keys_set, Hh. Qed.

Lemma hasOwn_keys_eq (a b : obj) (k : string) :
  keys a = keys b -> hasOwn a k = hasOwn b k.
Proof. intros Hk. apply eq_true_iff_eq. rewrite !hasOwn_In. now rewrite Hk. Qed.

Lemma keys_deepMerge (t s : obj) :
  forallb (fun kv => negb (is_undefined (snd kv))) s = true ->
  keys (deepMerge t s) = keys (assign t s).
Proof.
  intros Hdef. rewrite deepMerge_unfold, merge_loop_assign by assumption.
  apply keys_assign_congr; [|reflexivity]. rewrite map_map. reflexivity.
Qed.

Lemma merged_value_replace (t v : value) :
  (forall o, t <> VObj o) -> is_undefined v = false -> merged_value t v = v.
Proof.
  intros Ht Hv. destruct v; try reflexivity; try discriminate.
  cbn [merged_value]. destruct t; try reflexivity. now destruct (Ht props0).
Qed.

Lemma json_defined (v : value) : json_value v = true -> is_undefined v = false.
Proof. now destruct v. Qed.

Lemma plain_defined (v : value) :
  plain_or_absent v = true -> is_undefined v = false -> exists o, v = VObj o.
Proof. destruct v; try discriminate; intros _ _. now eexists. Qed.

Section MergeWithDefaults.

Context `{Externals}.

Lemma DEFAULT_CONFIG_objects (k : string) (o : obj) :
  get DEFAULT_CONFIG k = VObj o ->
  k = "preferredLibraries" \/ k = "monorepo" \/ k = "customRules"
  \/ k = "features" \/ k = "codeStyle".
Proof.
  unfold get, DEFAULT_CONFIG, DEFAULT_ignoreDependencies. cbn [lookup_prop].
  scan_keys k. discriminate.
Qed.

Lemma DEFAULT_codeStyle_objects (k : string) (o : obj) :
  get DEFAULT_codeStyle k = VObj o -> k = "modernize".
Proof.
  unfold get, DEFAULT_codeStyle. cbn [lookup_prop].
  repeat (match goal with
          | |- context [String.eqb ?a k] =>
              destruct (String.eqb_spec a k) as [<-|_]
          end; [first [discriminate | reflexivity] |]).
  discriminate.
Qed.

(** A section without nested objects: the spread of [mergeWithDefaults]
    and the recursion of [deepMerge] store the same object. *)
Lemma flat_section (base : obj) (x : value) :
  flat base = true ->
  plain_or_absent x = true ->
  (is_undefined x = false -> json_value x = true) ->
  VObj (spread_over base x) = if is_undefined x then VObj base else merged_value (VObj base) x.
Proof.
  intros Hflat Hplain Hjson. destruct x; try discriminate; [reflexivity|].
  cbn [is_undefined merged_value]. unfold spread_over. cbn [nullish_or is_nullish own_props].
  specialize (Hjson eq_refl). apply json_object in Hjson as (_ & Hdef & _).
  now rewrite deepMerge_flat.
Qed.

Lemma codeStyle_section (x : value) :
  plain_or_absent x = true ->
  plain_or_absent (opt_member x "modernize") = true ->
  (is_undefined x = false -> json_value x = true) ->
  VObj (set (spread_over DEFAULT_codeStyle x) "modernize"
          (VObj (spread_over DEFAULT_modernize (opt_member x "modernize"))))
  = if is_undefined x then VObj DEFAULT_codeStyle
    else merged_value (VObj DEFAULT_codeStyle) x.
Proof.
  intros Hplain Hmod Hjson. destruct x as [| | | | | |s]; try discriminate; [reflexivity|].
  cbn [is_undefined merged_value]. unfold spread_over at 1.
  cbn [nullish_or is_nullish own_props opt_member get_member] in *.
  specialize (Hjson eq_refl). pose proof (json_object _ Hjson) as (Hnd & Hdef & Hvals).
  f_equal. apply obj_ext.
  - rewrite keys_set_present by (now apply hasOwn_assign).
    symmetry. now apply keys_deepMerge.
  - apply NoDup_keys_set, NoDup_keys_assign, distinct_NoDup. reflexivity.
  - intros k. rewrite get_set, deepMerge_unfold, merge_loop_get, get_assign by assumption.
    destruct (String.eqb_spec "modernize" k) as [<-|Hk].
    + change (get DEFAULT_codeStyle "modernize") with (VObj DEFAULT_modernize).
      destruct (lookup_prop s "modernize") as [m|] eqn:Hm.
      * rewrite (lookup_get _ _ _ Hm) in *.
        pose proof (Hvals _ _ Hm) as Hmj.
        rewrite (json_defined _ Hmj).
        rewrite flat_section; [|reflexivity|assumption|now intros _].
        now rewrite (json_defined _ Hmj).
      * now rewrite (lookup_none_get _ _ Hm).
    + destruct (lookup_prop s k) as [v|] eqn:Hv; [|reflexivity].
      rewrite (json_defined _ (Hvals _ _ Hv)).
      symmetry. apply merged_value_replace; [|exact (json_defined _ (Hvals _ _ Hv))].
      intros o Ho. apply DEFAULT_codeStyle_objects in Ho. congruence.
Qed.


End MergeWithDefaults.



(** ** The file system *)

Lemma append_self_nil (s t : string) : s +:+ t = s -> t = "".
Proof.
  induction s as [|c s IH]; cbn [String.append]; [trivial|].
  intros Heq. injection Heq as Heq. now apply IH.
Qed.

Lemma append_inj_r (s t t' : string) : s +:+ t = s +:+ t' -> t = t'.
Proof.
  induction s as [|c s IH]; cbn [String.append]; [trivial|].
  intros Heq. injection Heq as Heq. now apply IH.
Qed.

Lemma backup_ne_config (p : string) : p +:+ BACKUP_EXTENSION <> p.
Proof. intros Heq. apply append_self_nil in Heq. discriminate. Qed.

Lemma temp_ne_config (p : string) : p +:+ TEMP_EXTENSION <> p.
Proof. intros Heq. apply append_self_nil in Heq. discriminate. Qed.

Lemma temp_ne_backup (p : string) : p +:+ TEMP_EXTENSION <> p +:+ BACKUP_EXTENSION.
Proof. intros Heq. apply append_inj_r in Heq. discriminate. Qed.

(** A file operation that is not planned to fail. *)
Lemma file_op_quiet {A : Type} (dst : option string)
    (act : gmap string string -> outcome A * gmap string string) (w : World) :
  hd None (plan w) = None ->
  file_op dst act w = (fst (act (files w)), mkWorld (snd (act (files w))) (tl (plan w))).
Proof.
  unfold file_op. destruct (plan w) as [|[f|] rest]; cbn [hd tl]; intros Hq;
    try discriminate; now destruct (act (files w)).
Qed.

Section Persistence.

Context `{Externals}.

(** C1, as amended. When the [try] block of [writeReliverseConfig] throws
    (at any step, in particular after the backup step) and the cleanup's
    own file operations, at most two, are not themselves failing: the
    caller receives the original error; no staging file is left; the
    primary path, when it was missing while the backup existed, holds the
    backup's content, and is untouched otherwise; the backup is
    untouched. *)
Theorem writeReliverseConfig_failure (configPath : string) (config : value)
    (w w1 : World) (e : error) :
  writeReliverseConfig_try configPath config w = (Thrown e, w1) ->
  hd None (plan w1) = None ->
  hd None (tl (plan w1)) = None ->
  exists w2,
    writeReliverseConfig configPath config w = (Thrown e, w2)
    /\ files w2 !! (configPath +:+ TEMP_EXTENSION) = None
    /\ files w2 !! configPath
       = match files w1 !! configPath with
         | Some c => Some c
         | None => files w1 !! (configPath +:+ BACKUP_EXTENSION)
         end
    /\ files w2 !! (configPath +:+ BACKUP_EXTENSION)
       = files w1 !! (configPath +:+ BACKUP_EXTENSION).
Proof.
  intros Htry Hq1 Hq2.
  pose proof (backup_ne_config configPath) as Hbc.
  pose proof (temp_ne_config configPath) as Htc.
  pose proof (temp_ne_backup configPath) as Htb.
  unfold writeReliverseConfig, try_catch. rewrite Htry.
  unfold writeReliverseConfig_catch, bind, pathExists, when, throw, ret.
  destruct (files w1 !! (configPath +:+ BACKUP_EXTENSION)) as [cb|] eqn:Hb;
    destruct (files w1 !! configPath) as [cc|] eqn:Hc; cbn [andb negb].
  2:{ (* the backup exists, the primary path is missing: restore *)
      unfold copy. rewrite file_op_quiet by assumption. rewrite Hb. cbn [fst snd files plan].
      rewrite lookup_insert_ne by congruence.
      destruct (files w1 !! (configPath +:+ TEMP_EXTENSION)) eqn:Ht.
      - unfold remove. rewrite file_op_quiet by assumption. cbn [fst snd files plan].
        eexists. split; [reflexivity|]. cbn [files].
        rewrite lookup_delete_eq, !lookup_delete_ne, lookup_insert_eq,
          lookup_insert_ne by congruence.
        now rewrite Hb.
      - eexists. split; [reflexivity|]. cbn [files].
        rewrite lookup_insert_eq, !lookup_insert_ne by congruence.
        now rewrite Ht, Hb. }
  all: destruct (files w1 !! (configPath +:+ TEMP_EXTENSION)) eqn:Ht;
    [ unfold remove; rewrite file_op_quiet by assumption; cbn [fst snd files plan];
      eexists; split; [reflexivity|]; cbn [files];
      rewrite lookup_delete_eq, !lookup_delete_ne by congruence;
      now rewrite ?Hb, ?Hc
    | eexists; split; [reflexivity|]; now rewrite ?Ht, ?Hb, ?Hc ].
Qed.

End Persistence.

(** The witness: the staging write fails half-way with error 1 while a
    stale backup exists and the primary path is missing; the cleanup
    restores the primary path, removes the staging file and re-raises
    error 1. *)
Lemma writeReliverseConfig_failure_witness :
  exists w2,
    @writeReliverseConfig lenient_externals "reliverse.jsonc" (VObj [])
      (mkWorld stale_files [failing_write])
    = (Thrown (IOFailure 1), w2)
    /\ files w2 !! "reliverse.jsonc.tmp" = None
    /\ files w2 !! "reliverse.jsonc" = Some "{}"
    /\ files w2 !! "reliverse.jsonc.backup" = Some "{}".
Proof.
  exact (@writeReliverseConfig_failure lenient_externals "reliverse.jsonc" (VObj [])
           (mkWorld stale_files [failing_write])
           (mkWorld (<["reliverse.jsonc.tmp" := "{ half"]> stale_files) [])
           (IOFailure 1) eq_refl eq_refl eq_refl).
Defined.

(** C1, as the specification words it (for every write that throws),
    fails when the cleanup fails too: the staging write fails with error
    1, then the restore fails with error 2; the caller receives error 2,
    the staging file is still there and the primary path is still
    missing. *)
Lemma writeReliverseConfig_failure_counterexample :
  @writeReliverseConfig_try lenient_externals "reliverse.jsonc" (VObj [])
    (mkWorld stale_files [failing_write; failing_restore])
  = (Thrown (IOFailure 1),
     mkWorld (<["reliverse.jsonc.tmp" := "{ half"]> stale_files) [failing_restore])
  /\ @writeReliverseConfig lenient_externals "reliverse.jsonc" (VObj [])
       (mkWorld stale_files [failing_write; failing_restore])
     = (Thrown (IOFailure 2),
        mkWorld (<["reliverse.jsonc.tmp" := "{ half"]> stale_files) [])
  /\ (<["reliverse.jsonc.tmp" := "{ half"]> stale_files) !! "reliverse.jsonc.tmp"
     = Some "{ half"
  /\ (<["reliverse.jsonc.tmp" := "{ half"]> stale_files) !! "reliverse.jsonc" = None.
Proof. repeat split; reflexivity. Qed.

Section Migration.

Context `{Externals}.

(** C2, as amended. Once the external document has been read and parsed
    to an object, its deletion is attempted as soon as
    [updateReliverseConfig] returns, whether it reports success ([true])
    or failure ([false]), and the call returns normally: when the
    deletion succeeds the external document is gone; when the deletion
    itself fails the error is swallowed and the document stays.  Nothing
    else changes after the update. *)
Theorem migrateReliverseConfig_deletes (externalPath projectPath content : string)
    (parsedDoc : value) (success : bool) (w w1 w2 : World) :
  readFile externalPath w = (Returned content, w1) ->
  parseJSONC content = Some parsedDoc ->
  truthy parsedDoc && String.eqb (typeof parsedDoc) "object" = true ->
  updateReliverseConfig projectPath (pick_migrated parsedDoc) w1 = (Returned success, w2) ->
  migrateReliverseConfig externalPath projectPath w
  = (Returned tt,
     mkWorld (match hd None (plan w2) with
              | None => delete externalPath (files w2)
              | Some _ => files w2
              end)
             (tl (plan w2))).
Proof.
  intros Hread Hparse Hobj Hupdate.
  apply andb_true_iff in Hobj as [Htruthy Htype].
  unfold migrateReliverseConfig, try_catch, bind.
  rewrite Hread, Hparse, Htruthy, Htype. cbn [negb orb].
  rewrite Hupdate. unfold remove, file_op, ret.
  destruct w2 as [fs [|[f|] rest]]; reflexivity.
Qed.

End Migration.

(** The witness, and at the same time the failing case of the claim: the
    schema requires [projectName], the migrated fields lack it, the
    update reports failure, and the external document is deleted. *)
Lemma migrateReliverseConfig_deletes_witness :
  @migrateReliverseConfig strict_externals "reliverse-tmp.jsonc" "project"
    (mkWorld migration_files [])
  = (Returned tt, mkWorld (delete "reliverse-tmp.jsonc" migration_files) []).
Proof.
  exact (@migrateReliverseConfig_deletes strict_externals
           "reliverse-tmp.jsonc" "project" migration_text
           (VObj [("version", VStr "2.0.0"); ("unknownField", VNum 1)]) false
           (mkWorld migration_files []) (mkWorld migration_files [])
           (mkWorld migration_files [])
           eq_refl eq_refl eq_refl eq_refl).
Defined.

(** When the deletion is the operation that fails, the migration still
    returns normally and the external document stays where it was. *)
Lemma migrateReliverseConfig_failed_removal :
  @migrateReliverseConfig strict_externals "reliverse-tmp.jsonc" "project"
    (mkWorld migration_files [None; failing_removal])
  = (Returned tt, mkWorld migration_files []).
Proof. reflexivity. Qed.

(** C2, as the specification words it, fails: [updateReliverseConfig]
    returns [false] (the merged document lacks the required
    [projectName]; nothing is written), and the external document, which
    existed before, is gone after the migration. *)
Lemma migrateReliverseConfig_deletes_counterexample :
  migration_files !! "reliverse-tmp.jsonc" = Some migration_text
  /\ @updateReliverseConfig strict_externals "project" [("version", VStr "2.0.0")]
       (mkWorld migration_files [])
     = (Returned false, mkWorld migration_files [])
  /\ @pick_migrated (VObj [("version", VStr "2.0.0"); ("unknownField", VNum 1)])
     = [("version", VStr "2.0.0")]
  /\ files (snd (@migrateReliverseConfig strict_externals "reliverse-tmp.jsonc" "project"
                   (mkWorld migration_files [])))
       !! "reliverse-tmp.jsonc"
     = None.
Proof. repeat split; reflexivity. Qed.

(** ** The reader on a disk without failures *)

Lemma readFile_idle (p : string) (fs : gmap string string) :
  readFile p (mkWorld fs [])
  = (match fs !! p with Some c => Returned c | None => Thrown (ENOENT p) end,
     mkWorld fs []).
Proof. unfold readFile, file_op. cbn. now destruct (fs !! p). Qed.

Lemma copy_idle (src dst c : string) (fs : gmap string string) :
  fs !! src = Some c ->
  copy src dst (mkWorld fs []) = (Returned tt, mkWorld (<[dst := c]> fs) []).
Proof. intros Hc. unfold copy, file_op. cbn. now rewrite Hc. Qed.

Lemma writeFile_idle (p c : string) (fs : gmap string string) :
  writeFile p c (mkWorld fs []) = (Returned tt, mkWorld (<[p := c]> fs) []).
Proof. reflexivity. Qed.

Lemma rename_idle (src dst c : string) (fs : gmap string string) :
  fs !! src = Some c ->
  rename src dst (mkWorld fs [])
  = (Returned tt, mkWorld (<[dst := c]> (delete src fs)) []).
Proof. intros Hc. unfold rename, file_op. cbn. now rewrite Hc. Qed.

Lemma remove_idle (p : string) (fs : gmap string string) :
  remove p (mkWorld fs []) = (Returned tt, mkWorld (delete p fs) []).
Proof. reflexivity. Qed.

Section Reader.

Context `{Externals}.

Lemma written_eq_present (fs : gmap string string) (p c0 c : string) :
  delete (p +:+ BACKUP_EXTENSION)
    (<[p := c]> (delete (p +:+ TEMP_EXTENSION)
                   (<[p +:+ TEMP_EXTENSION := c]> (<[p +:+ BACKUP_EXTENSION := c0]> fs))))
  = <[p := c]> (delete (p +:+ BACKUP_EXTENSION) (delete (p +:+ TEMP_EXTENSION) fs)).
Proof.
  pose proof (backup_ne_config p) as Hbc.
  pose proof (temp_ne_config p) as Htc.
  pose proof (temp_ne_backup p) as Htb.
  apply map_eq. intros k. lookup_cases.
Qed.

Lemma written_eq_absent (fs : gmap string string) (p c : string) :
  delete (p +:+ BACKUP_EXTENSION)
    (<[p := c]> (delete (p +:+ TEMP_EXTENSION) (<[p +:+ TEMP_EXTENSION := c]> fs)))
  = <[p := c]> (delete (p +:+ BACKUP_EXTENSION) (delete (p +:+ TEMP_EXTENSION) fs)).
Proof.
  pose proof (backup_ne_config p) as Hbc.
  pose proof (temp_ne_config p) as Htc.
  pose proof (temp_ne_backup p) as Htb.
  apply map_eq. intros k. lookup_cases.
Qed.

(** A write of a valid document on a disk without failures. *)
Lemma writeReliverseConfig_idle (p : string) (config : value) (fs : gmap string string) :
  Check reliverseConfigSchema config = true ->
  writeReliverseConfig p config (mkWorld fs [])
  = (Returned tt, mkWorld (written fs p (text_of config)) []).
Proof.
  intros Hvalid.
  pose proof (backup_ne_config p) as Hbc.
  pose proof (temp_ne_config p) as Htc.
  pose proof (temp_ne_backup p) as Htb.
  destruct (Check_object_inv _ _ _ _ Hvalid) as [o ->].
  unfold writeReliverseConfig, try_catch, writeReliverseConfig_try, text_of, written.
  rewrite Hvalid. cbn [negb JSON_stringify stringify].
  unfold bind, pathExists, when. cbn [files].
  destruct (fs !! p) as [c0|] eqn:Hp.
  - rewrite (copy_idle _ _ c0) by assumption. rewrite writeFile_idle.
    rewrite (rename_idle _ _ _ _ (lookup_insert_eq _ _ _)). cbn [files].
    rewrite lookup_insert_ne, lookup_delete_ne, lookup_insert_ne, lookup_insert_eq
      by congruence.
    rewrite remove_idle. now rewrite written_eq_present.
  - unfold ret. rewrite writeFile_idle.
    rewrite (rename_idle _ _ _ _ (lookup_insert_eq _ _ _)). cbn [files].
    rewrite lookup_insert_ne, lookup_delete_ne, lookup_insert_ne by congruence.
    destruct (fs !! (p +:+ BACKUP_EXTENSION)) eqn:Hb.
    + rewrite remove_idle. now rewrite written_eq_absent.
    + unfold ret. f_equal. f_equal. rewrite <- written_eq_absent.
      symmetry. apply delete_id.
      now rewrite lookup_insert_ne, lookup_delete_ne, lookup_insert_ne by congruence.
Qed.

Lemma parseReliverseFile_idle (p : string) (fs : gmap string string) :
  parseReliverseFile p (mkWorld fs [])
  = (Returned (match fs !! p with Some raw => accept raw | None => None end),
     mkWorld fs []).
Proof.
  unfold parseReliverseFile, try_catch, bind. rewrite readFile_idle.
  destruct (fs !! p) as [raw|]; [|reflexivity].
  unfold accept. cbv zeta.
  destruct (String.eqb (js_trim raw) "" || String.eqb (js_trim raw) "{}"); [reflexivity|].
  destruct (parseJSONC (js_trim raw)) as [v|]; [|reflexivity].
  destruct (negb (truthy v) || negb (String.eqb (typeof v) "object")); [reflexivity|].
  now destruct (Check reliverseConfigSchema v).
Qed.

(** What [readReliverseConfig] settles on: the first three layers. *)
Lemma readReliverseConfig_idle (p : string) (fs : gmap string string) :
  readReliverseConfig p (mkWorld fs [])
  = settle fs
      (match fs !! p with
       | None => None
       | Some raw =>
           match accept raw with
           | Some pr =>
               if errors pr
               then first_of (merge_layer (parsed pr) fs p) (restore_layer fs p)
               else Some (parsed pr, fs)
           | None => None
           end
       end).
Proof.
  unfold readReliverseConfig, bind, pathExists. cbn [files].
  destruct (fs !! p) as [raw|] eqn:Hp; cbn [negb]; [|reflexivity].
  rewrite parseReliverseFile_idle, Hp.
  destruct (accept raw) as [[v [|]]|]; cbn [errors parsed negb]; try reflexivity.
  unfold merge_layer. cbv zeta.
  destruct (Check reliverseConfigSchema (VObj (mergeWithDefaults (own_props v)))) eqn:Hm.
  - rewrite writeReliverseConfig_idle by assumption. reflexivity.
  - cbn [first_of files]. unfold restore_layer.
    destruct (fs !! (p +:+ BACKUP_EXTENSION)) as [rawb|] eqn:Hb; [|reflexivity].
    rewrite parseReliverseFile_idle, Hb.
    destruct (accept rawb) as [[vb [|]]|]; cbn [errors parsed negb]; try reflexivity.
    rewrite (copy_idle _ _ rawb) by assumption. reflexivity.
Qed.

(** What [parseAndFixConfig] settles on: the repair layer. *)
Lemma parseAndFixConfig_idle (p : string) (fs : gmap string string) :
  parseAndFixConfig p (mkWorld fs []) = settle fs (repair_layer fs p).
Proof.
  unfold parseAndFixConfig, try_catch, bind, repair_layer. rewrite readFile_idle.
  destruct (fs !! p) as [raw|]; [|reflexivity].
  destruct (parseJSONC raw) as [v|]; [|reflexivity].
  destruct (truthy v && String.eqb (typeof v) "object"); [|reflexivity].
  destruct (Check reliverseConfigSchema v); [reflexivity|].
  destruct (fixLineByLine v (VObj DEFAULT_CONFIG) reliverseConfigSchema)
    as [[fixedConfig changedKeys]|]; [|reflexivity].
  destruct (Check reliverseConfigSchema fixedConfig) eqn:Hfixed; [|reflexivity].
  rewrite writeReliverseConfig_idle by assumption. reflexivity.
Qed.

(** A write of a valid document on a disk without failures returns and
    leaves the annotated serialization at the primary path, no backup and
    no staging file. *)
Theorem writeReliverseConfig_success (configPath : string) (config : value)
    (fs : gmap string string) :
  Check reliverseConfigSchema config = true ->
  exists fs',
    writeReliverseConfig configPath config (mkWorld fs []) = (Returned tt, mkWorld fs' [])
    /\ fs' !! configPath = Some (injectSectionComments (text_of config))
    /\ fs' !! (configPath +:+ BACKUP_EXTENSION) = None
    /\ fs' !! (configPath +:+ TEMP_EXTENSION) = None.
Proof.
  intros Hvalid. eexists. split; [now apply writeReliverseConfig_idle|].
  pose proof (backup_ne_config configPath) as Hbc.
  pose proof (temp_ne_config configPath) as Htc.
  pose proof (temp_ne_backup configPath) as Htb.
  unfold written. repeat split; lookup_cases.
Qed.

(** On a disk without failures [readReliverseConfig] alone settles on the
    first of: nothing for an absent, empty, [{}] or non-object file; the
    parsed document when valid; the merge under the defaults, persisted,
    when valid; the backup when it parses to a valid document; nothing. *)
Theorem readReliverseConfig_layers (configPath : string) (fs : gmap string string) :
  readReliverseConfig configPath (mkWorld fs [])
  = settle fs
      (match fs !! configPath with
       | None => None
       | Some raw =>
           match accept raw with
           | Some pr =>
               if errors pr
               then first_of (merge_layer (parsed pr) fs configPath)
                      (restore_layer fs configPath)
               else Some (parsed pr, fs)
           | None => None
           end
       end).
Proof. apply readReliverseConfig_idle. Qed.

(** C3, as amended. On a disk without failures, the reader followed by
    its repair fallback settles on the first layer that applies, in this
    order: (1) the parsed document as it is when it is valid; (2) the
    document merged under the defaults, persisted, when that is valid;
    (3) the backup, copied over the primary path, when it parses to a
    valid document; (4) the field-by-field repair, persisted, when that
    is valid; (5) otherwise nothing.  An absent file yields nothing; an
    empty file, a [{}] file or one that is not an object skips layers 1
    to 3 and goes to the repair. *)
Theorem read_then_fix_layers (configPath : string) (fs : gmap string string) :
  read_then_fix configPath (mkWorld fs []) = settle fs (layered_read fs configPath).
Proof.
  unfold read_then_fix, bind, layered_read. rewrite readReliverseConfig_idle.
  destruct (fs !! configPath) as [raw|] eqn:Hp.
  2:{ cbn [settle]. rewrite parseAndFixConfig_idle. unfold repair_layer. now rewrite Hp. }
  destruct (accept raw) as [[v [|]]|]; cbn [errors parsed].
  - destruct (merge_layer v fs configPath) as [[m fsm]|]; [reflexivity|].
    cbn [first_of]. destruct (restore_layer fs configPath) as [[b fsb]|]; [reflexivity|].
    cbn [settle first_of]. apply parseAndFixConfig_idle.
  - reflexivity.
  - cbn [settle]. apply parseAndFixConfig_idle.
Qed.

End Reader.

(** C3, as the specification words it (repair before the backup), fails:
    the primary file holds a number as project name, the merge with the
    defaults keeps it, a valid backup exists; the code restores the
    backup, where the specified order would return the repaired document
    (the defaults). *)
Lemma read_then_fix_layers_counterexample :
  @read_then_fix strict_externals "reliverse.jsonc" (mkWorld reader_files [])
  = (Returned (Some (VObj [("projectName", VStr "old")])),
     mkWorld (<["reliverse.jsonc" := backup_text]> reader_files) [])
  /\ option_map fst (@spec_layered_read strict_externals reader_files "reliverse.jsonc")
     = Some (VObj (@DEFAULT_CONFIG strict_externals)).
Proof. split; reflexivity. Qed.

(** ** Round trip *)

Lemma contains_app (c : ascii) (a b : string) :
  contains c (a +:+ b) = contains c a || contains c b.
Proof.
  induction a as [|d a IH]; simpl; [reflexivity|].
  now rewrite IH, orb_assoc.
Qed.

Lemma is_ws_not_quote (c : ascii) : is_ws c = true -> Ascii.eqb c char_quote = false.
Proof.
  intros Hws. destruct (Ascii.eqb_spec c char_quote) as [->|]; [|reflexivity].
  discriminate.
Qed.

Lemma replace_ws_then_keeps (pat repl : string) :
  contains char_quote repl = true ->
  forall s, contains char_quote s = true ->
            contains char_quote (replace_ws_then pat repl 0 s) = true.
Proof.
  intros Hrepl. induction s as [|c s IH]; [discriminate|].
  cbn [replace_ws_then contains]. intros Hs.
  destruct (is_ws c && starts_with pat (skip_ws s)) eqn:Hm.
  - now rewrite contains_app, Hrepl.
  - cbn [contains]. apply orb_true_iff in Hs as [Hc|Hs].
    + now rewrite Hc.
    + rewrite IH by assumption. apply orb_true_r.
Qed.

Lemma contains_fold_join (c : ascii) (sep : string) (l : list string) :
  forall acc, contains c acc = true ->
              contains c (fold_left (fun a y => a +:+ sep +:+ y) l acc) = true.
Proof.
  induction l as [|y l IH]; intros acc Hacc; [exact Hacc|].
  cbn [fold_left]. apply IH. now rewrite contains_app, Hacc.
Qed.

Lemma collapse_blank_lines_keeps (s : string) :
  forall seen, contains char_quote s = true ->
               contains char_quote (collapse_blank_lines seen s) = true.
Proof.
  induction s as [|c s IH]; intros seen Hs; [discriminate|].
  cbn [collapse_blank_lines contains] in *.
  destruct (Ascii.eqb_spec c char_lf) as [->|Hc].
  - cbn [orb] in Hs. destruct (Nat.leb 2 seen); [now apply IH|].
    cbn [contains]. rewrite IH by assumption. apply orb_true_r.
  - cbn [contains]. apply orb_true_iff in Hs as [Hq|Hs].
    + now rewrite Hq.
    + rewrite IH by assumption. apply orb_true_r.
Qed.

Lemma strip_prefix_exact (p s tail : string) :
  strip_prefix false p s = Some tail -> s = p +:+ tail.
Proof.
  revert s. induction p as [|a p IH]; intros s; cbn [strip_prefix String.append].
  - now intros [= ->].
  - destruct s as [|b s]; [discriminate|].
    destruct (Ascii.eqb_spec a b) as [->|]; [|discriminate].
    intros Hp. now rewrite (IH _ Hp).
Qed.

Lemma drop_chars_app (p tail : string) : drop_chars (String.length p) (p +:+ tail) = tail.
Proof.
  induction p as [|a p IH]; cbn [String.length String.append drop_chars].
  - now destruct tail.
  - exact IH.
Qed.

Lemma replace_all_keeps (a : ascii) (pat repl : string) :
  contains char_quote (String a pat) = false ->
  forall s skip,
    contains char_quote (drop_chars skip s) = true ->
    contains char_quote (replace_all (String a pat) repl skip s) = true.
Proof.
  intros Hpat. induction s as [|c s IH]; intros skip Hs.
  - now destruct skip.
  - cbn [replace_all]. destruct skip as [|k]; [|now apply IH].
    cbn [drop_chars] in Hs. unfold starts_with.
    destruct (strip_prefix false (String a pat) (String c s)) as [tail|] eqn:Hm.
    + rewrite contains_app. apply orb_true_iff. right. apply IH.
      apply strip_prefix_exact in Hm. cbn [String.append] in Hm.
      injection Hm as -> ->. cbn [String.length].
      replace (S (String.length pat) - 1) with (String.length pat) by lia.
      rewrite drop_chars_app.
      change (String a (pat +:+ tail)) with (String a pat +:+ tail) in Hs.
      now rewrite contains_app, Hpat in Hs.
    + cbn [contains] in *. apply orb_true_iff in Hs as [Hq|Hs].
      * now rewrite Hq.
      * rewrite (IH 0); [apply orb_true_r|]. now destruct s.
Qed.

Lemma replace_all_keeps0 (a : ascii) (pat repl s : string) :
  contains char_quote (String a pat) = false ->
  contains char_quote s = true ->
  contains char_quote (replace_all (String a pat) repl 0 s) = true.
Proof.
  intros Hpat Hs. apply replace_all_keeps; [assumption|]. now destruct s.
Qed.

Lemma trim_start_keeps (s : string) :
  contains char_quote (trim_start s) = contains char_quote s.
Proof.
  induction s as [|c s IH]; [reflexivity|]. cbn [trim_start].
  destruct (is_ws c) eqn:Hws; [|reflexivity].
  cbn [contains]. now rewrite (is_ws_not_quote _ Hws), IH.
Qed.

Lemma contains_rev (c : ascii) (s : string) :
  forall acc, contains c (rev_string acc s) = contains c acc || contains c s.
Proof.
  induction s as [|d s IH]; intros acc; cbn [rev_string contains].
  - now rewrite orb_false_r.
  - rewrite IH. cbn [contains]. destruct (Ascii.eqb d c), (contains c acc); reflexivity.
Qed.

Lemma js_trim_keeps (s : string) :
  contains char_quote (js_trim s) = contains char_quote s.
Proof.
  unfold js_trim, trim_end.
  now rewrite contains_rev, trim_start_keeps, contains_rev, trim_start_keeps.
Qed.

Lemma stringify_object (indent : string) (o : obj) :
  stringify indent (VObj o) = Some (bracketed "{" "}" indent (members_of indent o)).
Proof.
  cbn [stringify]. do 2 f_equal.
  induction o as [|[k x] o IH]; [reflexivity|].
  cbn [members_of]. now rewrite IH.
Qed.

Lemma members_of_defined (indent : string) (o : obj) :
  (exists k v, In (k, v) o /\ is_undefined v = false) ->
  exists m rest, members_of indent o = m :: rest /\ contains char_quote m = true.
Proof.
  induction o as [|[k x] o IH]; intros (k0 & v0 & Hin & Hdef); [destruct Hin|].
  cbn [members_of]. destruct (stringify (indent +:+ "  ") x) as [t|] eqn:Hx.
  - eexists _, _. split; [reflexivity|]. unfold quote_json.
    now rewrite !contains_app.
  - apply IH. destruct Hin as [Heq|Hin]; [|now exists k0, v0].
    injection Heq as <- <-. destruct x; try discriminate.
    all: cbn [stringify] in Hx; discriminate.
Qed.

Lemma stringify_has_quote (o : obj) :
  (exists k v, In (k, v) o /\ is_undefined v = false) ->
  contains char_quote (text_of (VObj o)) = true.
Proof.
  intros Hdef. unfold text_of, JSON_stringify. rewrite stringify_object.
  destruct (members_of_defined "" o Hdef) as (m & rest & -> & Hm).
  unfold bracketed. rewrite !contains_app. unfold join.
  rewrite contains_fold_join by assumption. cbn. now rewrite !orb_true_r.
Qed.

(** The witness: the sample document written to an empty disk. *)
Lemma writeReliverseConfig_success_witness :
  exists fs',
    @writeReliverseConfig strict_externals "reliverse.jsonc" (VObj sample_document)
      (mkWorld ∅ [])
    = (Returned tt, mkWorld fs' [])
    /\ fs' !! "reliverse.jsonc"
       = Some (@injectSectionComments strict_externals (text_of (VObj sample_document)))
    /\ fs' !! "reliverse.jsonc.backup" = None
    /\ fs' !! "reliverse.jsonc.tmp" = None.
Proof.
  exact (@writeReliverseConfig_success strict_externals "reliverse.jsonc"
           (VObj sample_document) ∅ eq_refl).
Defined.

(** ** cleanGitHubUrl *)

Lemma append_cons (c : ascii) (s t : string) : String c s +:+ t = String c (s +:+ t).
Proof. reflexivity. Qed.

Lemma append_nil_r (s : string) : s +:+ "" = s.
Proof. induction s as [|c s IH]; [reflexivity | now rewrite append_cons, IH]. Qed.

Lemma append_assoc (a b c : string) : (a +:+ b) +:+ c = a +:+ (b +:+ c).
Proof. induction a as [|x a IH]; [reflexivity | now rewrite !append_cons, IH]. Qed.

Lemma rev_string_acc (s : string) :
  forall acc, rev_string acc s = rev_string "" s +:+ acc.
Proof.
  induction s as [|c s IH]; intros acc; cbn [rev_string]; [reflexivity|].
  rewrite (IH (String c acc)), (IH (String c "")). now rewrite append_assoc.
Qed.

Lemma rev_string_append (a b : string) :
  rev_string "" (a +:+ b) = rev_string "" b +:+ rev_string "" a.
Proof.
  induction a as [|c a IH]; [symmetry; apply append_nil_r|].
  rewrite append_cons. cbn [rev_string].
  rewrite (rev_string_acc (a +:+ b)), (rev_string_acc a), IH. now rewrite append_assoc.
Qed.

Lemma rev_string_involutive (s : string) : rev_string "" (rev_string "" s) = s.
Proof.
  induction s as [|c s IH]; cbn [rev_string]; [reflexivity|].
  rewrite (rev_string_acc s (String c "")), rev_string_append, IH. reflexivity.
Qed.

Lemma trim_start_suffix (s : string) : exists p, s = p +:+ trim_start s.
Proof.
  induction s as [|c s [p IH]]; cbn [trim_start]; [now exists ""|].
  destruct (is_ws c).
  - exists (String c p). now rewrite append_cons, <- IH.
  - now exists "".
Qed.

Lemma trim_end_prefix (s : string) : exists q, s = trim_end s +:+ q.
Proof.
  unfold trim_end. destruct (trim_start_suffix (rev_string "" s)) as [p Hp].
  exists (rev_string "" p).
  rewrite <- rev_string_append, <- Hp. now rewrite rev_string_involutive.
Qed.

Lemma strip_prefix_suffix (ci : bool) (p : string) :
  forall s r, strip_prefix ci p s = Some r ->
    exists q, s = q +:+ r /\ String.length q = String.length p.
Proof.
  induction p as [|a p IH]; intros s r; cbn [strip_prefix].
  - intros Heq. injection Heq as <-. now exists "".
  - destruct s as [|b s]; [discriminate|].
    destruct (Ascii.eqb _ _); [|discriminate].
    intros Hr. destruct (IH _ _ Hr) as (q & -> & Hlen).
    exists (String b q). rewrite append_cons. cbn [String.length]. now rewrite Hlen.
Qed.

Lemma strip_suffix_prefix (ci : bool) (p s r : string) :
  strip_suffix ci p s = Some r -> exists q, s = r +:+ q.
Proof.
  unfold strip_suffix.
  destruct (strip_prefix ci (rev_string "" p) (rev_string "" s)) as [t|] eqn:Ht; [|discriminate].
  intros Heq. injection Heq as <-.
  destruct (strip_prefix_suffix _ _ _ _ Ht) as (q & Hq & _).
  exists (rev_string "" q).
  rewrite <- rev_string_append, <- Hq. now rewrite rev_string_involutive.
Qed.

Lemma strip_host_suffix (hosts : list string) (s r : string) :
  strip_host hosts s = Some r -> exists q, s = q +:+ r.
Proof.
  induction hosts as [|h hosts IH]; cbn [strip_host]; [discriminate|].
  destruct (strip_prefix true (h +:+ ".com/") s) as [t|] eqn:Ht; [|exact IH].
  intros Heq. injection Heq as <-.
  destruct (strip_prefix_suffix _ _ _ _ Ht) as (q & Hq & _). now exists q.
Qed.

Lemma or_self_suffix (f : string -> option string) (s : string) :
  (forall r, f s = Some r -> exists q, s = q +:+ r) ->
  exists q, s = q +:+ or_self (f s) s.
Proof.
  intros Hf. unfold or_self. destruct (f s) as [r|]; [now apply Hf | now exists ""].
Qed.

Lemma strip_web_host_suffix (s r : string) :
  strip_web_host s = Some r -> exists q, s = q +:+ r.
Proof.
  unfold strip_web_host.
  destruct (strip_prefix true "http" s) as [r0|] eqn:H0; [|discriminate].
  destruct (strip_prefix_suffix _ _ _ _ H0) as (q0 & -> & _).
  destruct (or_self_suffix (strip_prefix true "s") r0) as [q1 H1].
  { intros t Ht. destruct (strip_prefix_suffix _ _ _ _ Ht) as (q & Hq & _). now exists q. }
  destruct (strip_prefix true "://" (or_self (strip_prefix true "s" r0) r0)) as [r1|] eqn:H2;
    [|discriminate].
  destruct (strip_prefix_suffix _ _ _ _ H2) as (q2 & Hq2 & _).
  destruct (or_self_suffix (strip_prefix true "www.") r1) as [q3 H3].
  { intros t Ht. destruct (strip_prefix_suffix _ _ _ _ Ht) as (q & Hq & _). now exists q. }
  intros Hr. destruct (strip_host_suffix _ _ _ Hr) as [q4 H4].
  exists (q0 +:+ q1 +:+ q2 +:+ q3 +:+ q4).
  rewrite !append_assoc. rewrite <- H4, <- H3, <- Hq2, <- H1. reflexivity.
Qed.

(** [cleanGitHubUrl] only cuts: its result is a contiguous piece of the
    address it is given, in the same case and with nothing rewritten. *)
Theorem cleanGitHubUrl_infix (url : string) :
  exists before after, url = before +:+ cleanGitHubUrl url +:+ after.
Proof.
  unfold cleanGitHubUrl. cbv zeta.
  destruct (trim_start_suffix url) as [p0 Hp0].
  destruct (trim_end_prefix (trim_start url)) as [q0 Hq0]. fold (js_trim url) in Hq0.
  set (s0 := js_trim url) in *.
  destruct (or_self_suffix (strip_prefix false "git+") s0) as [p1 H1].
  { intros t Ht. destruct (strip_prefix_suffix _ _ _ _ Ht) as (q & Hq & _). now exists q. }
  set (s1 := or_self (strip_prefix false "git+" s0) s0) in *.
  destruct (or_self_suffix strip_web_host s1) as [p2 H2];
    [intros t; apply strip_web_host_suffix|].
  set (s2 := or_self (strip_web_host s1) s1) in *.
  destruct (or_self_suffix (strip_host git_hosts) s2) as [p3 H3];
    [intros t; apply strip_host_suffix|].
  set (s3 := or_self (strip_host git_hosts s2) s2) in *.
  assert (H4 : exists q, s3 = or_self (strip_suffix true ".git" s3) s3 +:+ q).
  { unfold or_self. destruct (strip_suffix true ".git" s3) as [r|] eqn:Hr.
    - now apply (strip_suffix_prefix true ".git").
    - exists "". now rewrite append_nil_r. }
  destruct H4 as [q4 H4].
  exists (p0 +:+ p1 +:+ p2 +:+ p3), (q4 +:+ q0).
  transitivity
    (p0 +:+ (p1 +:+ p2 +:+ p3 +:+ or_self (strip_suffix true ".git" s3) s3 +:+ q4) +:+ q0).
  - rewrite <- H4, <- H3, <- H2, <- H1, <- Hq0. exact Hp0.
  - now rewrite !append_assoc.
Qed.

Lemma strip_prefix_self (ci : bool) (p r : string) : strip_prefix ci p (p +:+ r) = Some r.
Proof.
  induction p as [|a p IH]; [reflexivity|].
  rewrite append_cons. cbn [strip_prefix]. now rewrite Ascii.eqb_refl.
Qed.

Lemma strip_suffix_self (ci : bool) (p s : string) : strip_suffix ci p (s +:+ p) = Some s.
Proof.
  unfold strip_suffix. now rewrite rev_string_append, strip_prefix_self, rev_string_involutive.
Qed.

Lemma trim_end_tight (m : string) (b : ascii) :
  is_ws b = false -> trim_end (m +:+ String b "") = m +:+ String b "".
Proof.
  intros Hb. unfold trim_end. rewrite rev_string_append.
  change (rev_string "" (String b "") +:+ rev_string "" m)
    with (String b (rev_string "" m)).
  cbn [trim_start]. rewrite Hb.
  change (String b (rev_string "" m)) with (rev_string "" (String b "") +:+ rev_string "" m).
  now rewrite <- rev_string_append, rev_string_involutive.
Qed.

Lemma strip_host_known (host r : string) :
  In host git_hosts -> strip_host git_hosts (host +:+ ".com/" +:+ r) = Some r.
Proof. intros [<-|[<-|[<-|[<-|[]]]]]; reflexivity. Qed.

(** An address of a repository on one of the four known hosts, as a
    package manifest holds it (with or without [git+], [https] or [http],
    with or without [www.], ending in [.git]), is cut down to the path of
    the repository, provided that the path does not itself start with a
    host. *)
Theorem cleanGitHubUrl_web_address (plus secure www : bool) (host repo : string) :
  In host git_hosts ->
  strip_host git_hosts (repo +:+ ".git") = None ->
  cleanGitHubUrl
    ((if plus then "git+" else "") +:+ "http" +:+ (if secure then "s" else "") +:+ "://"
     +:+ (if www then "www." else "") +:+ host +:+ ".com/" +:+ repo +:+ ".git")
  = repo.
Proof.
  intros Hhost Hbare.
  set (rest := (if secure then "s" else "") +:+ "://"
               +:+ (if www then "www." else "") +:+ host +:+ ".com/" +:+ repo +:+ ".git").
  set (url := (if plus then "git+" else "") +:+ "http" +:+ rest).
  assert (Htrim : js_trim url = url).
  { assert (Hshape : exists a m, is_ws a = false /\ url = String a (m +:+ "t")).
    { exists (if plus then "g" else "h")%char,
        ((if plus then "it+http" else "ttp")
         +:+ (if secure then "s" else "") +:+ "://"
         +:+ (if www then "www." else "") +:+ host +:+ ".com/" +:+ repo +:+ ".gi").
      split; [now destruct plus|]. subst url rest.
      rewrite !append_assoc. now destruct plus. }
    destruct Hshape as (a & m & Ha & ->).
    unfold js_trim. cbn [trim_start]. rewrite Ha.
    change (String a (m +:+ "t")) with (String a m +:+ "t").
    now apply trim_end_tight. }
  assert (Hplus : or_self (strip_prefix false "git+" url) url = "http" +:+ rest)
    by (subst url; now destruct plus).
  assert (Hweb : strip_web_host ("http" +:+ rest) = Some (repo +:+ ".git")).
  { subst rest. unfold strip_web_host. rewrite strip_prefix_self.
    assert (Hs : forall r,
               strip_prefix true "://"
                 (or_self (strip_prefix true "s" ((if secure then "s" else "") +:+ "://" +:+ r))
                    ((if secure then "s" else "") +:+ "://" +:+ r))
               = Some r) by (intros r; now destruct secure).
    rewrite Hs.
    assert (Hw : or_self (strip_prefix true "www."
                            ((if www then "www." else "") +:+ host +:+ ".com/" +:+ repo +:+ ".git"))
                   ((if www then "www." else "") +:+ host +:+ ".com/" +:+ repo +:+ ".git")
                 = host +:+ ".com/" +:+ repo +:+ ".git").
    { destruct www; [reflexivity|].
      destruct Hhost as [<-|[<-|[<-|[<-|[]]]]]; reflexivity. }
    rewrite Hw. now apply strip_host_known. }
  unfold cleanGitHubUrl. cbv zeta.
  rewrite Htrim, Hplus, Hweb. cbn [or_self]. rewrite Hbare. cbn [or_self].
  now rewrite strip_suffix_self.
Qed.

(** The witness: the address of the sample candidate. *)
Lemma cleanGitHubUrl_web_address_witness :
  cleanGitHubUrl "git+https://github.com/blefnk/relivator.git" = "blefnk/relivator".
Proof.
  exact (cleanGitHubUrl_web_address true true false "github" "blefnk/relivator"
           (or_introl eq_refl) eq_refl).
Defined.

(** ** detectProjectFramework *)

Lemma pathExists_run (p : string) (w : World) :
  pathExists p w = (Returned (match files w !! p with Some _ => true | None => false end), w).
Proof. reflexivity. Qed.

(** The inner loop over the files of one entry: it ends the search at
    the first file that exists, and goes on with the rest of the table
    when none does. *)
Lemma detect_markers (cwd type : string) (rest : list (string * list string))
    (w : World) (l : list string) :
  (exists file content,
      In file l /\ files w !! path_join cwd file = Some content
      /\ (fix each (l : list string) : M (option string) :=
            match l with
            | [] => detect_in cwd rest
            | file :: more =>
                let* found <- pathExists (path_join cwd file) in
                if found then ret (Some type) else each more
            end) l w = (Returned (Some type), w))
  \/ ((forall f, In f l -> files w !! path_join cwd f = None)
      /\ (fix each (l : list string) : M (option string) :=
            match l with
            | [] => detect_in cwd rest
            | file :: more =>
                let* found <- pathExists (path_join cwd file) in
                if found then ret (Some type) else each more
            end) l w = detect_in cwd rest w).
Proof.
  induction l as [|file more IHl].
  - right. split; [intros f []| reflexivity].
  - unfold bind at 1 3. rewrite pathExists_run.
    destruct (files w !! path_join cwd file) as [content|] eqn:Hfile.
    + left. exists file, content. split; [now left|]. split; [assumption|reflexivity].
    + destruct IHl as [(f & c & Hin & Hc & Hrun)|[Hnone Hrun]].
      * left. exists f, c. split; [now right|]. now split.
      * right. split; [|exact Hrun]. intros f [<-|Hin]; [assumption | now apply Hnone].
Qed.

(** [detectProjectFramework] reads the directory without changing
    anything and never fails. It returns the first framework of the table,
    in the table's order, one of whose files exists in the directory, and
    [null] exactly when none of the table's files exists. *)
Theorem detectProjectFramework_first (cwd : string) (w : World) :
  exists r,
    detectProjectFramework cwd w = (Returned r, w)
    /\ match r with
       | Some type =>
           exists before markers after file content,
             PROJECT_FRAMEWORK_FILES = before ++ (type, markers) :: after
             /\ In file markers
             /\ files w !! path_join cwd file = Some content
             /\ forall t l f, In (t, l) before -> In f l ->
                  files w !! path_join cwd f = None
       | None =>
           forall t l f, In (t, l) PROJECT_FRAMEWORK_FILES -> In f l ->
             files w !! path_join cwd f = None
       end.
Proof.
  unfold detectProjectFramework. generalize PROJECT_FRAMEWORK_FILES as table.
  induction table as [|[type markers] rest IH]; cbn [detect_in].
  - exists None. split; [reflexivity|]. intros t l f [].
  - destruct (detect_markers cwd type rest w markers)
      as [(file & content & Hin & Hc & Hrun)|[Hnone Hrun]].
    + exists (Some type). split; [exact Hrun|].
      exists [], markers, rest, file, content. repeat split; try assumption. intros t l f [].
    + destruct IH as (r & Hr & Hspec). exists r. split; [now rewrite Hrun|].
      destruct r as [found|].
      * destruct Hspec as (before & l & after & file & content & -> & Hin & Hc & Hbefore).
        exists ((type, markers) :: before), l, after, file, content.
        repeat split; try assumption.
        intros t l' f [Heq|Hb] Hf; [injection Heq as <- <-; now apply Hnone|].
        exact (Hbefore _ _ _ Hb Hf).
      * intros t l f [Heq|Hin] Hf; [injection Heq as <- <-; now apply Hnone|].
        exact (Hspec _ _ _ Hin Hf).
Qed.

(** Two consequences of the order of the table. The result is never
    ["unknown"], whose entry lists no file. And it is ["vue"] only when
    [vue.config.js] exists: the other file of that entry,
    [vite.config.ts], belongs to the earlier entry of ["vite"] as well,
    so a directory that has it is reported as ["vite"]. *)
Theorem detectProjectFramework_vue (cwd type : string) (w w' : World) :
  detectProjectFramework cwd w = (Returned (Some type), w') ->
  String.eqb type "unknown" = false
  /\ (String.eqb type "vue" = true ->
      (exists content, files w !! path_join cwd "vue.config.js" = Some content)
      /\ files w !! path_join cwd "vite.config.ts" = None).
Proof.
  intros Hrun.
  unfold detectProjectFramework, PROJECT_FRAMEWORK_FILES in Hrun.
  cbn [detect_in] in Hrun. unfold bind, pathExists, ret in Hrun.
  repeat match type of Hrun with
         | context [files w !! ?p] => destruct (files w !! p) eqn:?
         end;
    try discriminate; injection Hrun as <- <-;
    (split; [reflexivity|]); intros Hvue; try discriminate.
  split; [now eexists | reflexivity].
Qed.

(** The witness: a directory with [vue.config.js] and no
    [vite.config.ts]. *)
Lemma detectProjectFramework_vue_witness :
  detectProjectFramework "app" (mkWorld vue_project_files [])
  = (Returned (Some "vue"), mkWorld vue_project_files [])
  /\ (exists content, vue_project_files !! path_join "app" "vue.config.js" = Some content)
  /\ vue_project_files !! path_join "app" "vite.config.ts" = None.
Proof.
  split; [reflexivity|].
  exact (proj2 (detectProjectFramework_vue "app" "vue"
                  (mkWorld vue_project_files []) (mkWorld vue_project_files [])
                  eq_refl) eq_refl).
Defined.

(** ** updateReliverseConfig *)

Section Update.

Context `{Externals}.

(** What an update does on a disk without failures. *)
Lemma updateReliverseConfig_idle (projectPath : string) (updates : obj)
    (fs : gmap string string) :
  updateReliverseConfig projectPath updates (mkWorld fs [])
  = match existing_config fs (path_join projectPath cliConfigJsonc) with
    | Some existing =>
        if Check reliverseConfigSchema (VObj (deepMerge existing updates))
        then (Returned true,
              mkWorld (written fs (path_join projectPath cliConfigJsonc)
                         (text_of (VObj (deepMerge existing updates)))) [])
        else (Returned false, mkWorld fs [])
    | None =>
        (Returned false,
         mkWorld (delete (path_join projectPath cliConfigJsonc +:+ TEMP_EXTENSION) fs) [])
    end.
Proof.
  set (p := path_join projectPath cliConfigJsonc).
  pose proof (backup_ne_config p) as Hbc.
  pose proof (temp_ne_config p) as Htc.
  pose proof (temp_ne_backup p) as Htb.
  unfold updateReliverseConfig, existing_config. fold p.
  unfold try_catch, bind at 1, pathExists at 1. cbn [files].
  destruct (fs !! p) as [c0|] eqn:Hp.
  - unfold bind at 1 2. rewrite readFile_idle, Hp.
    destruct (parseJSONC c0) as [v|].
    + set (existing := if Check reliverseConfigSchema v then own_props v else []).
      assert (Hsame : (if Check reliverseConfigSchema v then ret (own_props v) else ret [])
                        (mkWorld fs [])
                      = (Returned existing, mkWorld fs []))
        by (subst existing; now destruct (Check reliverseConfigSchema v)).
      rewrite Hsame.
      destruct (Check reliverseConfigSchema (VObj (deepMerge existing updates)));
        cbn [negb]; [|reflexivity].
      unfold bind, pathExists, when, text_of, written. cbn [files JSON_stringify stringify].
      rewrite Hp, (copy_idle _ _ c0) by assumption. rewrite writeFile_idle.
      rewrite (rename_idle _ _ _ _ (lookup_insert_eq _ _ _)). cbn [files].
      rewrite lookup_insert_ne, lookup_delete_ne, lookup_insert_ne, lookup_insert_eq
        by congruence.
      rewrite remove_idle. unfold ret. now rewrite written_eq_present.
    + unfold bind, pathExists, when, throw. cbn [files].
      rewrite Hp. cbn [negb andb]. rewrite andb_false_r. unfold ret. cbn [files].
      destruct (fs !! (p +:+ TEMP_EXTENSION)) eqn:Ht; [now rewrite remove_idle|].
      now rewrite delete_id.
  - unfold bind at 1, ret at 1.
    destruct (Check reliverseConfigSchema (VObj (deepMerge [] updates)));
      cbn [negb]; [|reflexivity].
    unfold bind, pathExists, when, text_of, written. cbn [files JSON_stringify stringify].
    rewrite Hp. unfold ret. rewrite writeFile_idle.
    rewrite (rename_idle _ _ _ _ (lookup_insert_eq _ _ _)). cbn [files].
    rewrite lookup_insert_ne, lookup_delete_ne, lookup_insert_ne by congruence.
    destruct (fs !! (p +:+ BACKUP_EXTENSION)) eqn:Hb.
    + rewrite remove_idle. now rewrite written_eq_absent.
    + f_equal. f_equal. rewrite <- written_eq_absent.
      symmetry. apply delete_id.
      now rewrite lookup_insert_ne, lookup_delete_ne, lookup_insert_ne by congruence.
Qed.

(** On a disk without failures, an update whose merge validates returns
    [true] and leaves the annotated serialization of the merge at the
    primary path, no backup and no staging file (stale ones removed), and
    every other file as it was. The merge is [deepMerge] of the updates
    into the document of the primary file, or into the empty object when
    the file is absent or holds a document that does not validate: what
    such a file held is lost. *)
Theorem updateReliverseConfig_writes (projectPath : string) (updates existing : obj)
    (fs : gmap string string) :
  existing_config fs (path_join projectPath cliConfigJsonc) = Some existing ->
  Check reliverseConfigSchema (VObj (deepMerge existing updates)) = true ->
  exists fs',
    updateReliverseConfig projectPath updates (mkWorld fs []) = (Returned true, mkWorld fs' [])
    /\ fs' !! path_join projectPath cliConfigJsonc
       = Some (injectSectionComments (text_of (VObj (deepMerge existing updates))))
    /\ fs' !! (path_join projectPath cliConfigJsonc +:+ BACKUP_EXTENSION) = None
    /\ fs' !! (path_join projectPath cliConfigJsonc +:+ TEMP_EXTENSION) = None
    /\ forall q,
         q <> path_join projectPath cliConfigJsonc ->
         q <> path_join projectPath cliConfigJsonc +:+ BACKUP_EXTENSION ->
         q <> path_join projectPath cliConfigJsonc +:+ TEMP_EXTENSION ->
         fs' !! q = fs !! q.
Proof.
  intros Hexisting Hvalid. eexists. split.
  - rewrite updateReliverseConfig_idle, Hexisting, Hvalid. reflexivity.
  - set (p := path_join projectPath cliConfigJsonc).
    pose proof (backup_ne_config p) as Hbc.
    pose proof (temp_ne_config p) as Htc.
    pose proof (temp_ne_backup p) as Htb.
    unfold written. repeat split; try lookup_cases.
    intros q Hq Hqb Hqt. lookup_cases.
Qed.

(** On a disk without failures, an update that returns [false] has left
    every file but the staging file as it was, the primary file and its
    backup included. It returns [false] when the merge does not validate,
    and when the parser rejects the primary file. *)
Theorem updateReliverseConfig_refuses (projectPath : string) (updates : obj)
    (fs : gmap string string) (w' : World) :
  updateReliverseConfig projectPath updates (mkWorld fs []) = (Returned false, w') ->
  (forall q, q <> path_join projectPath cliConfigJsonc +:+ TEMP_EXTENSION ->
             files w' !! q = fs !! q)
  /\ match existing_config fs (path_join projectPath cliConfigJsonc) with
     | Some existing =>
         Check reliverseConfigSchema (VObj (deepMerge existing updates)) = false
     | None => True
     end.
Proof.
  rewrite updateReliverseConfig_idle.
  destruct (existing_config fs (path_join projectPath cliConfigJsonc)) as [existing|].
  - destruct (Check reliverseConfigSchema (VObj (deepMerge existing updates)));
      [discriminate|].
    intros Hrun. injection Hrun as <-. split; [reflexivity | reflexivity].
  - intros Hrun. injection Hrun as <-. split; [|exact I].
    intros q Hq. cbn [files]. now rewrite lookup_delete_ne.
Qed.

End Update.

(** The witness: the primary file holds a number as project name; the
    update starts from the empty object and what it writes is its own
    content only. *)
Lemma updateReliverseConfig_writes_witness :
  exists fs',
    @updateReliverseConfig strict_externals "project" [("projectName", VStr "demo")]
      (mkWorld invalid_project_files [])
    = (Returned true, mkWorld fs' [])
    /\ fs' !! "project/reliverse.jsonc"
       = Some (@injectSectionComments strict_externals
                 (text_of (VObj [("projectName", VStr "demo")])))
    /\ fs' !! "project/reliverse.jsonc.backup" = None
    /\ fs' !! "project/reliverse.jsonc.tmp" = None
    /\ forall q,
         q <> "project/reliverse.jsonc" ->
         q <> "project/reliverse.jsonc.backup" ->
         q <> "project/reliverse.jsonc.tmp" ->
         fs' !! q = invalid_project_files !! q.
Proof.
  exact (@updateReliverseConfig_writes strict_externals "project"
           [("projectName", VStr "demo")] [] invalid_project_files eq_refl eq_refl).
Defined.

(** The witness: an update that would store a number as project name is
    refused, and the valid file stays. *)
Lemma updateReliverseConfig_refuses_witness :
  @updateReliverseConfig strict_externals "project" [("projectName", VNum 5)]
    (mkWorld valid_project_files [])
  = (Returned false, mkWorld valid_project_files [])
  /\ files (mkWorld valid_project_files []) !! "project/reliverse.jsonc"
     = valid_project_files !! "project/reliverse.jsonc".
Proof.
  split; [reflexivity|].
  refine (proj1 (@updateReliverseConfig_refuses strict_externals "project"
                   [("projectName", VNum 5)] valid_project_files
                   (mkWorld valid_project_files []) eq_refl)
            "project/reliverse.jsonc" _).
  discriminate.
Defined.

(** ** migrateReliverseConfig *)

Lemma pick_loop (tempConfig : value) (l : list string) :
  forall (validConfig : obj) (k : string),
    hasOwn
      (fold_left
         (fun validConfig key =>
            if negb (is_undefined (opt_member tempConfig key))
            then set validConfig key (opt_member tempConfig key)
            else validConfig) l validConfig) k
    = hasOwn validConfig k
      || (mem_string k l && negb (is_undefined (opt_member tempConfig k)))
    /\ get
         (fold_left
            (fun validConfig key =>
               if negb (is_undefined (opt_member tempConfig key))
               then set validConfig key (opt_member tempConfig key)
               else validConfig) l validConfig) k
       = if mem_string k l && negb (is_undefined (opt_member tempConfig k))
         then opt_member tempConfig k
         else get validConfig k.
Proof.
  unfold mem_string.
  induction l as [|key l IH]; intros validConfig k; cbn [fold_left existsb].
  - cbn [andb]. now rewrite orb_false_r.
  - destruct (IH (if negb (is_undefined (opt_member tempConfig key))
                  then set validConfig key (opt_member tempConfig key)
                  else validConfig) k) as [Hhas Hget].
    rewrite Hhas, Hget. clear Hhas Hget.
    destruct (String.eqb_spec k key) as [->|Hne]; cbn [orb].
    + destruct (is_undefined (opt_member tempConfig key)) eqn:Hu; cbn [negb andb].
      * rewrite andb_false_r, orb_false_r. now split.
      * rewrite andb_true_r, hasOwn_set_same, get_set_same. cbn [orb].
        split; [now rewrite orb_true_r | now destruct (existsb (String.eqb key) l)].
    + destruct (negb (is_undefined (opt_member tempConfig key)));
        [rewrite hasOwn_set_other, get_set_other by congruence|]; now split.
Qed.

(** The fields that a migration hands to the update are the listed keys
    for which the external document holds a defined value, each with
    that value, and nothing else: whatever the external document says of
    [projectName], [projectAuthor], [$schema] or a key the list does not
    name never reaches the project's configuration. *)
Theorem pick_migrated_fields (tempConfig : value) (k : string) :
  hasOwn (pick_migrated tempConfig) k
  = mem_string k keysToMigrate && negb (is_undefined (opt_member tempConfig k))
  /\ get (pick_migrated tempConfig) k
     = (if mem_string k keysToMigrate then opt_member tempConfig k else VUndefined)
  /\ hasOwn (pick_migrated tempConfig) "projectName" = false
  /\ hasOwn (pick_migrated tempConfig) "projectAuthor" = false
  /\ hasOwn (pick_migrated tempConfig) "$schema" = false.
Proof.
  unfold pick_migrated.
  assert (Hkey : forall key,
             hasOwn
               (fold_left
                  (fun validConfig key =>
                     if negb (is_undefined (opt_member tempConfig key))
                     then set validConfig key (opt_member tempConfig key)
                     else validConfig) keysToMigrate []) key
             = mem_string key keysToMigrate
               && negb (is_undefined (opt_member tempConfig key)))
    by (intros key; now rewrite (proj1 (pick_loop tempConfig keysToMigrate [] key))).
  split; [apply Hkey|]. split; [|now rewrite !Hkey].
  rewrite (proj2 (pick_loop tempConfig keysToMigrate [] k)).
  destruct (mem_string k keysToMigrate); [|reflexivity]. cbn [andb].
  now destruct (opt_member tempConfig k).
Qed.

Section Migrating.

Context `{Externals}.

(** A migration whose external document is missing, is rejected by the
    parser or does not parse to an object changes no file, whatever
    fails meanwhile: the external document is not deleted and the
    project's configuration is not touched. The caller sees a normal
    return. *)
Theorem migrateReliverseConfig_unusable (externalPath projectPath : string) (w : World) :
  match files w !! externalPath with
  | Some content =>
      match parseJSONC content with
      | Some v => truthy v && String.eqb (typeof v) "object" = false
      | None => True
      end
  | None => True
  end ->
  exists w',
    migrateReliverseConfig externalPath projectPath w = (Returned tt, w')
    /\ files w' = files w.
Proof.
  intros Hbad. unfold migrateReliverseConfig, try_catch, bind, readFile, file_op.
  destruct (plan w) as [|[f|] rest]; cbn [files].
  - destruct (files w !! externalPath) as [content|]; [|now eexists].
    destruct (parseJSONC content) as [v|]; [|now eexists].
    apply andb_false_iff in Hbad.
    destruct (truthy v), (String.eqb (typeof v) "object");
      cbn [negb orb]; try (now eexists); destruct Hbad; discriminate.
  - now eexists.
  - destruct (files w !! externalPath) as [content|]; [|now eexists].
    destruct (parseJSONC content) as [v|]; [|now eexists].
    apply andb_false_iff in Hbad.
    destruct (truthy v), (String.eqb (typeof v) "object");
      cbn [negb orb]; try (now eexists); destruct Hbad; discriminate.
Qed.

End Migrating.

(** The witness: the external document is the number 5. *)
Lemma migrateReliverseConfig_unusable_witness :
  exists w',
    @migrateReliverseConfig strict_externals "reliverse-tmp.jsonc" "project"
      (mkWorld unusable_migration_files [])
    = (Returned tt, w')
    /\ files w' = unusable_migration_files.
Proof.
  exact (@migrateReliverseConfig_unusable strict_externals "reliverse-tmp.jsonc" "project"
           (mkWorld unusable_migration_files []) eq_refl).
Defined.

(** ** Atomicity of the write, under any plan of failures *)

(** What a file operation can do to a path that is not its
    destination. *)
Lemma file_op_elsewhere {A : Type} (dst : option string)
    (act : gmap string string -> outcome A * gmap string string)
    (p : string) (w w' : World) (r : outcome A) :
  dst <> Some p ->
  (forall fs, snd (act fs) !! p = fs !! p) ->
  file_op dst act w = (r, w') ->
  files w' !! p = files w !! p.
Proof.
  intros Hdst Hact. unfold file_op.
  destruct (plan w) as [|[f|] rest].
  - specialize (Hact (files w)). destruct (act (files w)) as [r0 fs0].
    intros Heq. injection Heq as <- <-. exact Hact.
  - intros Heq. injection Heq as <- <-. cbn [files].
    destruct dst as [d|]; [|reflexivity].
    destruct (fault_residue f); [|reflexivity].
    apply lookup_insert_ne. congruence.
  - specialize (Hact (files w)). destruct (act (files w)) as [r0 fs0].
    intros Heq. injection Heq as <- <-. exact Hact.
Qed.

Lemma copy_elsewhere (src dst p : string) (w w' : World) (r : outcome unit) :
  dst <> p -> copy src dst w = (r, w') -> files w' !! p = files w !! p.
Proof.
  intros Hne. apply file_op_elsewhere; [congruence|].
  intros fs. destruct (fs !! src); cbn [snd]; [now apply lookup_insert_ne | reflexivity].
Qed.

Lemma writeFile_elsewhere (q content p : string) (w w' : World) (r : outcome unit) :
  q <> p -> writeFile q content w = (r, w') -> files w' !! p = files w !! p.
Proof.
  intros Hne. apply file_op_elsewhere; [congruence|].
  intros fs. cbn [snd]. now apply lookup_insert_ne.
Qed.

Lemma remove_elsewhere (q p : string) (w w' : World) (r : outcome unit) :
  q <> p -> remove q w = (r, w') -> files w' !! p = files w !! p.
Proof.
  intros Hne. apply file_op_elsewhere; [congruence|].
  intros fs. cbn [snd]. now apply lookup_delete_ne.
Qed.

Lemma writeFile_returns (q content : string) (w w' : World) :
  writeFile q content w = (Returned tt, w') -> files w' !! q = Some content.
Proof.
  unfold writeFile, file_op. destruct (plan w) as [|[f|] rest]; intros Heq;
    try discriminate; injection Heq as <-; apply lookup_insert_eq.
Qed.

(** A rename either happens as a whole or not at all. *)
Lemma rename_cases (src dst : string) (w w' : World) (r : outcome unit) :
  src <> dst ->
  rename src dst w = (r, w') ->
  (r = Returned tt /\ files w' !! dst = files w !! src /\ files w !! src <> None)
  \/ ((exists e, r = Thrown e) /\ files w' = files w).
Proof.
  intros Hne. unfold rename, file_op.
  destruct (plan w) as [|[f|] rest]; intros Heq.
  - destruct (files w !! src) as [c|] eqn:Hsrc; injection Heq as <- <-.
    + left. cbn [files]. now rewrite lookup_insert_eq.
    + right. split; [now eexists | reflexivity].
  - injection Heq as <- <-. right. split; [now eexists | reflexivity].
  - destruct (files w !! src) as [c|] eqn:Hsrc; injection Heq as <- <-.
    + left. cbn [files]. now rewrite lookup_insert_eq.
    + right. split; [now eexists | reflexivity].
Qed.

Section Atomic.

Context `{Externals}.

(** The cleanup leaves an existing primary file alone. *)
Lemma writeReliverseConfig_catch_keeps (configPath content : string) (e : error)
    (w w' : World) (r : outcome unit) :
  files w !! configPath = Some content ->
  writeReliverseConfig_catch configPath e w = (r, w') ->
  files w' !! configPath = Some content /\ exists e', r = Thrown e'.
Proof.
  intros Hp. unfold writeReliverseConfig_catch, bind, pathExists, when.
  rewrite Hp. cbn [negb]. rewrite andb_false_r. unfold ret at 1.
  destruct (files w !! (configPath +:+ TEMP_EXTENSION)).
  - destruct (remove (configPath +:+ TEMP_EXTENSION) w) as [[[]|e1] w1] eqn:Hrm;
      intros Heq; injection Heq as <- <-;
      (split; [|now eexists]);
      rewrite (remove_elsewhere _ configPath _ _ _ (temp_ne_config configPath) Hrm);
      exact Hp.
  - unfold ret, throw. intros Heq. injection Heq as <- <-. split; [exact Hp | now eexists].
Qed.

(** The write is atomic for an existing primary file, whatever fails and
    wherever: when the call is over, by a return or by an exception, the
    primary path holds either the content it had before or the complete
    annotated serialization of the new document, never anything else;
    and after a normal return it holds the new one. Partial content can
    only be at the backup path or at the staging path. *)
Theorem writeReliverseConfig_atomic (configPath : string) (config : value)
    (w w' : World) (r : outcome unit) (old : string) :
  files w !! configPath = Some old ->
  writeReliverseConfig configPath config w = (r, w') ->
  (files w' !! configPath = Some old
   \/ files w' !! configPath = Some (injectSectionComments (text_of config)))
  /\ (r = Returned tt ->
      files w' !! configPath = Some (injectSectionComments (text_of config))).
Proof.
  intros Hold.
  pose proof (backup_ne_config configPath) as Hbc.
  pose proof (temp_ne_config configPath) as Htc.
  unfold writeReliverseConfig, try_catch.
  destruct (writeReliverseConfig_try configPath config w) as [[[]|e] w1] eqn:Htry.
  - (* the try block returned: every step succeeded *)
    intros Heq. injection Heq as <- <-.
    unfold writeReliverseConfig_try in Htry.
    destruct (negb (Check reliverseConfigSchema config)); [discriminate|].
    unfold text_of. destruct (JSON_stringify config) as [text|]; [|discriminate].
    unfold bind at 1, pathExists at 1 in Htry. rewrite Hold in Htry.
    unfold when at 1, bind at 1 in Htry.
    destruct (copy configPath (configPath +:+ BACKUP_EXTENSION) w) as [[[]|e1] w2] eqn:Hcopy;
      [|discriminate].
    unfold bind at 1 in Htry.
    destruct (writeFile (configPath +:+ TEMP_EXTENSION) (injectSectionComments text) w2)
      as [[[]|e2] w3] eqn:Hwrite; [|discriminate].
    unfold bind at 1 in Htry.
    destruct (rename (configPath +:+ TEMP_EXTENSION) configPath w3) as [[[]|e3] w4] eqn:Hren;
      [|discriminate].
    destruct (rename_cases _ _ _ _ _ Htc Hren) as [(_ & Hnew & _)|[[e4 He4] _]];
      [|discriminate].
    rewrite (writeFile_returns _ _ _ _ Hwrite) in Hnew.
    unfold bind, pathExists, when in Htry.
    assert (Hdone : files w1 !! configPath = Some (injectSectionComments text)).
    { destruct (files w4 !! (configPath +:+ BACKUP_EXTENSION)).
      - destruct (remove (configPath +:+ BACKUP_EXTENSION) w4) as [[[]|e5] w5] eqn:Hrm;
          [|discriminate].
        injection Htry as <-.
        now rewrite (remove_elsewhere _ configPath _ _ _ Hbc Hrm).
      - unfold ret in Htry. now injection Htry as <-. }
    split; [now right | now intros _].
  - (* the try block threw: the cleanup runs *)
    intros Hcatch.
    assert (Hmid : files w1 !! configPath = Some old
                   \/ files w1 !! configPath = Some (injectSectionComments (text_of config))).
    { unfold writeReliverseConfig_try in Htry.
      destruct (negb (Check reliverseConfigSchema config)).
      { unfold throw in Htry. injection Htry as _ <-. now left. }
      unfold text_of. destruct (JSON_stringify config) as [text|].
      2:{ unfold throw in Htry. injection Htry as _ <-. now left. }
      unfold bind at 1, pathExists at 1 in Htry. rewrite Hold in Htry.
      unfold when at 1, bind at 1 in Htry.
      destruct (copy configPath (configPath +:+ BACKUP_EXTENSION) w) as [[[]|e1] w2] eqn:Hcopy.
      2:{ injection Htry as _ <-. left.
          now rewrite (copy_elsewhere _ _ configPath _ _ _ Hbc Hcopy). }
      pose proof (copy_elsewhere _ _ configPath _ _ _ Hbc Hcopy) as H2. rewrite Hold in H2.
      unfold bind at 1 in Htry.
      destruct (writeFile (configPath +:+ TEMP_EXTENSION) (injectSectionComments text) w2)
        as [[[]|e2] w3] eqn:Hwrite.
      2:{ injection Htry as _ <-. left.
          now rewrite (writeFile_elsewhere _ _ configPath _ _ _ Htc Hwrite). }
      pose proof (writeFile_elsewhere _ _ configPath _ _ _ Htc Hwrite) as H3.
      rewrite H2 in H3.
      unfold bind at 1 in Htry.
      destruct (rename (configPath +:+ TEMP_EXTENSION) configPath w3) as [[[]|e3] w4] eqn:Hren.
      2:{ injection Htry as _ <-. left.
          destruct (rename_cases _ _ _ _ _ Htc Hren) as [(Hr & _)|[_ Hsame]];
            [discriminate|]. now rewrite Hsame. }
      destruct (rename_cases _ _ _ _ _ Htc Hren) as [(_ & Hnew & _)|[[e4 He4] _]];
        [|discriminate].
      rewrite (writeFile_returns _ _ _ _ Hwrite) in Hnew.
      unfold bind, pathExists, when in Htry. right.
      destruct (files w4 !! (configPath +:+ BACKUP_EXTENSION)).
      - destruct (remove (configPath +:+ BACKUP_EXTENSION) w4) as [[[]|e5] w5] eqn:Hrm;
          [discriminate|].
        injection Htry as _ <-.
        now rewrite (remove_elsewhere _ configPath _ _ _ Hbc Hrm).
      - discriminate. }
    destruct Hmid as [Hmid|Hmid];
      destruct (writeReliverseConfig_catch_keeps _ _ _ _ _ _ Hmid Hcatch) as [Hkeep [e' ->]];
      (split; [auto | discriminate]).
Qed.

(** The first write of a configuration (no primary file, no backup left
    over) is all or nothing as well: whatever fails, the primary path
    ends up absent or holding the complete annotated serialization, and
    no backup is left. *)
Theorem writeReliverseConfig_first_write (configPath : string) (config : value)
    (w w' : World) (r : outcome unit) :
  files w !! configPath = None ->
  files w !! (configPath +:+ BACKUP_EXTENSION) = None ->
  writeReliverseConfig configPath config w = (r, w') ->
  (files w' !! configPath = None
   \/ files w' !! configPath = Some (injectSectionComments (text_of config)))
  /\ files w' !! (configPath +:+ BACKUP_EXTENSION) = None
  /\ (r = Returned tt ->
      files w' !! configPath = Some (injectSectionComments (text_of config))).
Proof.
  intros Hnone Hnoback.
  pose proof (backup_ne_config configPath) as Hbc.
  pose proof (temp_ne_config configPath) as Htc.
  pose proof (temp_ne_backup configPath) as Htb.
  assert (Hcatch : forall e w1 r1 w2,
             files w1 !! (configPath +:+ BACKUP_EXTENSION) = None ->
             writeReliverseConfig_catch configPath e w1 = (r1, w2) ->
             files w2 !! configPath = files w1 !! configPath
             /\ files w2 !! (configPath +:+ BACKUP_EXTENSION) = None
             /\ exists e', r1 = Thrown e').
  { intros e w1 r1 w2 Hb. unfold writeReliverseConfig_catch, bind, pathExists, when.
    rewrite Hb. cbn [andb]. unfold ret at 1.
    destruct (files w1 !! (configPath +:+ TEMP_EXTENSION)).
    - destruct (remove (configPath +:+ TEMP_EXTENSION) w1) as [[[]|e1] w3] eqn:Hrm;
        intros Heq; injection Heq as <- <-;
        rewrite (remove_elsewhere _ configPath _ _ _ Htc Hrm),
          (remove_elsewhere _ (configPath +:+ BACKUP_EXTENSION) _ _ _ Htb Hrm);
        (split; [reflexivity|]); (split; [assumption | now eexists]).
    - unfold ret, throw. intros Heq. injection Heq as <- <-.
      split; [reflexivity|]. split; [assumption | now eexists]. }
  unfold writeReliverseConfig, try_catch.
  destruct (writeReliverseConfig_try configPath config w) as [[[]|e] w1] eqn:Htry.
  - intros Heq. injection Heq as <- <-.
    unfold writeReliverseConfig_try in Htry.
    destruct (negb (Check reliverseConfigSchema config)); [discriminate|].
    unfold text_of. destruct (JSON_stringify config) as [text|]; [|discriminate].
    unfold bind at 1, pathExists at 1 in Htry. rewrite Hnone in Htry.
    unfold when at 1, bind at 1, ret at 1 in Htry.
    unfold bind at 1 in Htry.
    destruct (writeFile (configPath +:+ TEMP_EXTENSION) (injectSectionComments text) w)
      as [[[]|e2] w3] eqn:Hwrite; [|discriminate].
    pose proof (writeFile_elsewhere _ _ (configPath +:+ BACKUP_EXTENSION) _ _ _ Htb Hwrite)
      as Hb3. rewrite Hnoback in Hb3.
    unfold bind at 1 in Htry.
    destruct (rename (configPath +:+ TEMP_EXTENSION) configPath w3) as [[[]|e3] w4] eqn:Hren;
      [|discriminate].
    destruct (rename_cases _ _ _ _ _ Htc Hren) as [(_ & Hnew & _)|[[e4 He4] _]];
      [|discriminate].
    rewrite (writeFile_returns _ _ _ _ Hwrite) in Hnew.
    assert (Hb4 : files w4 !! (configPath +:+ BACKUP_EXTENSION) = None).
    { revert Hren. unfold rename, file_op.
      destruct (plan w3) as [|[f|] rest];
        destruct (files w3 !! (configPath +:+ TEMP_EXTENSION));
        intros Heq; try discriminate; injection Heq as <-; cbn [files];
        rewrite ?lookup_insert_ne, ?lookup_delete_ne by congruence; assumption. }
    unfold bind, pathExists, when in Htry. rewrite Hb4 in Htry.
    unfold ret in Htry. injection Htry as <-.
    split; [now right|]. split; [assumption | now intros _].
  - intros Hrun.
    assert (Hmid : (files w1 !! configPath = None
                    \/ files w1 !! configPath
                       = Some (injectSectionComments (text_of config)))
                   /\ files w1 !! (configPath +:+ BACKUP_EXTENSION) = None).
    { unfold writeReliverseConfig_try in Htry.
      destruct (negb (Check reliverseConfigSchema config)).
      { unfold throw in Htry. injection Htry as _ <-. split; [now left | assumption]. }
      unfold text_of. destruct (JSON_stringify config) as [text|].
      2:{ unfold throw in Htry. injection Htry as _ <-. split; [now left | assumption]. }
      unfold bind at 1, pathExists at 1 in Htry. rewrite Hnone in Htry.
      unfold when at 1, bind at 1, ret at 1 in Htry.
      unfold bind at 1 in Htry.
      destruct (writeFile (configPath +:+ TEMP_EXTENSION) (injectSectionComments text) w)
        as [[[]|e2] w3] eqn:Hwrite.
      2:{ injection Htry as _ <-.
          rewrite (writeFile_elsewhere _ _ configPath _ _ _ Htc Hwrite),
            (writeFile_elsewhere _ _ (configPath +:+ BACKUP_EXTENSION) _ _ _ Htb Hwrite).
          split; [now left | assumption]. }
      pose proof (writeFile_elsewhere _ _ configPath _ _ _ Htc Hwrite) as H3.
      pose proof (writeFile_elsewhere _ _ (configPath +:+ BACKUP_EXTENSION) _ _ _ Htb Hwrite)
        as Hb3.
      rewrite Hnone in H3. rewrite Hnoback in Hb3.
      unfold bind at 1 in Htry.
      destruct (rename (configPath +:+ TEMP_EXTENSION) configPath w3) as [[[]|e3] w4] eqn:Hren.
      2:{ injection Htry as _ <-.
          destruct (rename_cases _ _ _ _ _ Htc Hren) as [(Hr & _)|[_ Hsame]];
            [discriminate|]. rewrite Hsame. split; [now left | assumption]. }
      assert (Hb4 : files w4 !! (configPath +:+ BACKUP_EXTENSION) = None).
      { revert Hren. unfold rename, file_op.
        destruct (plan w3) as [|[f|] rest];
          destruct (files w3 !! (configPath +:+ TEMP_EXTENSION));
          intros Heq; try discriminate; injection Heq as <-; cbn [files];
          rewrite ?lookup_insert_ne, ?lookup_delete_ne by congruence; assumption. }
      unfold bind, pathExists, when in Htry. rewrite Hb4 in Htry. discriminate. }
    destruct Hmid as [Hmid Hb1].
    destruct (Hcatch _ _ _ _ Hb1 Hrun) as (Hsame & Hb2 & e' & ->).
    rewrite Hsame. split; [exact Hmid|]. split; [exact Hb2 | discriminate].
Qed.

End Atomic.

(** The witness: the staging write of the very first configuration fails
    half-way; nothing is left at the primary path. *)
Lemma writeReliverseConfig_first_write_witness :
  @writeReliverseConfig lenient_externals "project/reliverse.jsonc" (VObj sample_document)
    (mkWorld empty_disk [failing_write])
  = (Thrown (IOFailure 1), mkWorld empty_disk [])
  /\ empty_disk !! "project/reliverse.jsonc" = None.
Proof.
  split; [reflexivity|].
  destruct (proj1 (@writeReliverseConfig_first_write lenient_externals
                     "project/reliverse.jsonc" (VObj sample_document)
                     (mkWorld empty_disk [failing_write]) (mkWorld empty_disk [])
                     (Thrown (IOFailure 1)) eq_refl eq_refl eq_refl))
    as [Hnone|Hnew]; [exact Hnone|].
  vm_compute in Hnew. discriminate Hnew.
Defined.

(** The witness: the backup is made, the staging write fails half-way;
    the cleanup removes the staging file and the primary file still holds
    what it held. *)
Lemma writeReliverseConfig_atomic_witness :
  @writeReliverseConfig lenient_externals "project/reliverse.jsonc" (VObj sample_document)
    (mkWorld valid_project_files [None; failing_write])
  = (Thrown (IOFailure 1),
     mkWorld (<["project/reliverse.jsonc.backup" := backup_text]> valid_project_files) [])
  /\ (<["project/reliverse.jsonc.backup" := backup_text]> valid_project_files)
       !! "project/reliverse.jsonc" = Some backup_text.
Proof.
  split; [reflexivity|].
  destruct (proj1 (@writeReliverseConfig_atomic lenient_externals "project/reliverse.jsonc"
                     (VObj sample_document)
                     (mkWorld valid_project_files [None; failing_write])
                     (mkWorld (<["project/reliverse.jsonc.backup" := backup_text]>
                                 valid_project_files) [])
                     (Thrown (IOFailure 1)) backup_text eq_refl eq_refl))
    as [Hold|Hnew]; [exact Hold|].
  vm_compute in Hnew. discriminate Hnew.
Defined.

Lemma readFile_cases (p : string) (w w' : World) (r : outcome string) :
  readFile p w = (r, w') ->
  files w' = files w /\ forall c, r = Returned c -> files w !! p = Some c.
Proof.
  unfold readFile, file_op. destruct (plan w) as [|[f|] rest];
    try (destruct (files w !! p) as [c0|]); intros Heq; injection Heq as <- <-;
    (split; [reflexivity|]); intros c Hc; congruence.
Qed.

Section AtomicUpdate.

Context `{Externals}.

(** The cleanup of [updateReliverseConfig] leaves an existing primary
    file alone. *)
Lemma updateReliverseConfig_catch_keeps (p content : string) (w w' : World)
    (r : outcome bool) :
  files w !! p = Some content ->
  (let* hasBackup <- pathExists (p +:+ BACKUP_EXTENSION) in
   let* hasConfig <- pathExists p in
   (when (hasBackup && negb hasConfig)
      (try_catch (copy (p +:+ BACKUP_EXTENSION) p) (fun _ => ret tt)) ;;
    let* hasTemp <- pathExists (p +:+ TEMP_EXTENSION) in
    (when hasTemp (remove (p +:+ TEMP_EXTENSION)) ;;
     ret false))) w = (r, w') ->
  files w' !! p = Some content /\ r <> Returned true.
Proof.
  intros Hp. unfold bind, pathExists, when.
  rewrite Hp. cbn [negb]. rewrite andb_false_r. unfold ret at 1.
  destruct (files w !! (p +:+ TEMP_EXTENSION)).
  - destruct (remove (p +:+ TEMP_EXTENSION) w) as [[[]|e1] w1] eqn:Hrm;
      intros Heq; injection Heq as <- <-;
      (split; [|discriminate]);
      rewrite (remove_elsewhere _ p _ _ _ (temp_ne_config p) Hrm);
      exact Hp.
  - unfold ret. intros Heq. injection Heq as <- <-. split; [exact Hp | discriminate].
Qed.

(** The update is atomic for an existing primary file, whatever fails
    and wherever: when the call is over the primary path holds either the
    content it had before or the complete annotated serialization of the
    merge, and after a return of [true] it holds the merge. *)
Theorem updateReliverseConfig_atomic (projectPath : string) (updates : obj)
    (w w' : World) (r : outcome bool) (old : string) :
  files w !! path_join projectPath cliConfigJsonc = Some old ->
  updateReliverseConfig projectPath updates w = (r, w') ->
  (files w' !! path_join projectPath cliConfigJsonc = Some old
   \/ exists existing,
        existing_config (files w) (path_join projectPath cliConfigJsonc) = Some existing
        /\ files w' !! path_join projectPath cliConfigJsonc
           = Some (injectSectionComments (text_of (VObj (deepMerge existing updates)))))
  /\ (r = Returned true ->
      exists existing,
        existing_config (files w) (path_join projectPath cliConfigJsonc) = Some existing
        /\ files w' !! path_join projectPath cliConfigJsonc
           = Some (injectSectionComments (text_of (VObj (deepMerge existing updates))))).
Proof.
  set (p := path_join projectPath cliConfigJsonc). intros Hold.
  pose proof (backup_ne_config p) as Hbc.
  pose proof (temp_ne_config p) as Htc.
  unfold updateReliverseConfig. fold p. unfold try_catch.
  match goal with
  | |- (match ?body w with _ => _ end) = _ -> _ =>
      destruct (body w) as [[b|e] w1] eqn:Htry
  end.
  - (* the try block returned *)
    intros Heq. injection Heq as <- <-.
    unfold bind at 1, pathExists at 1 in Htry. rewrite Hold in Htry.
    unfold bind at 1 2 in Htry.
    destruct (readFile p w) as [[c|e0] w0] eqn:Hread; [|discriminate].
    destruct (readFile_cases _ _ _ _ Hread) as [Hw0 Hc].
    specialize (Hc c eq_refl). rewrite Hold in Hc. injection Hc as <-.
    unfold existing_config. rewrite Hold.
    destruct (parseJSONC old) as [v|]; [|discriminate].
    set (existing := if Check reliverseConfigSchema v then own_props v else []).
    assert (Hsame : (if Check reliverseConfigSchema v then ret (own_props v) else ret []) w0
                    = (Returned existing, w0))
      by (subst existing; now destruct (Check reliverseConfigSchema v)).
    rewrite Hsame in Htry.
    destruct (Check reliverseConfigSchema (VObj (deepMerge existing updates))); cbn [negb] in Htry.
    2:{ unfold ret in Htry. injection Htry as <- <-.
        split; [left; now rewrite Hw0 | discriminate]. }
    unfold bind at 1, pathExists at 1 in Htry. rewrite Hw0, Hold in Htry.
    unfold when at 1, bind at 1 in Htry.
    destruct (copy p (p +:+ BACKUP_EXTENSION) w0) as [[[]|e1] w2] eqn:Hcopy; [|discriminate].
    unfold text_of. cbn [JSON_stringify stringify] in Htry |- *.
    unfold bind at 1 in Htry.
    match type of Htry with
    | context [writeFile (p +:+ TEMP_EXTENSION) ?text w2] =>
        destruct (writeFile (p +:+ TEMP_EXTENSION) text w2) as [[[]|e2] w3] eqn:Hwrite;
          [|discriminate]
    end.
    unfold bind at 1 in Htry.
    destruct (rename (p +:+ TEMP_EXTENSION) p w3) as [[[]|e3] w4] eqn:Hren; [|discriminate].
    destruct (rename_cases _ _ _ _ _ Htc Hren) as [(_ & Hnew & _)|[[e4 He4] _]];
      [|discriminate].
    rewrite (writeFile_returns _ _ _ _ Hwrite) in Hnew.
    unfold bind, pathExists, when in Htry.
    assert (Hdone : files w1 !! p = files w4 !! p /\ b = true).
    { destruct (files w4 !! (p +:+ BACKUP_EXTENSION)).
      - destruct (remove (p +:+ BACKUP_EXTENSION) w4) as [[[]|e5] w5] eqn:Hrm; [|discriminate].
        unfold ret in Htry. injection Htry as <- <-.
        now rewrite (remove_elsewhere _ p _ _ _ Hbc Hrm).
      - unfold ret in Htry. now injection Htry as <- <-. }
    destruct Hdone as [Hdone ->]. rewrite Hdone, Hnew.
    split; [right|intros _]; now exists existing.
  - (* the try block threw: the cleanup runs *)
    intros Hcatch.
    assert (Hmid : files w1 !! p = Some old
                   \/ exists existing,
                        existing_config (files w) p = Some existing
                        /\ files w1 !! p
                           = Some (injectSectionComments
                                     (text_of (VObj (deepMerge existing updates))))).
    { unfold bind at 1, pathExists at 1 in Htry. rewrite Hold in Htry.
      unfold bind at 1 2 in Htry.
      destruct (readFile p w) as [[c|e0] w0] eqn:Hread.
      2:{ injection Htry as _ <-. left.
          now rewrite (proj1 (readFile_cases _ _ _ _ Hread)). }
      destruct (readFile_cases _ _ _ _ Hread) as [Hw0 Hc].
      specialize (Hc c eq_refl). rewrite Hold in Hc. injection Hc as <-.
      unfold existing_config. rewrite Hold.
      destruct (parseJSONC old) as [v|].
      2:{ unfold throw in Htry. injection Htry as _ <-. left. now rewrite Hw0. }
      set (existing := if Check reliverseConfigSchema v then own_props v else []).
      assert (Hsame : (if Check reliverseConfigSchema v then ret (own_props v) else ret []) w0
                      = (Returned existing, w0))
        by (subst existing; now destruct (Check reliverseConfigSchema v)).
      rewrite Hsame in Htry.
      destruct (Check reliverseConfigSchema (VObj (deepMerge existing updates)));
        cbn [negb] in Htry; [|discriminate].
      unfold bind at 1, pathExists at 1 in Htry. rewrite Hw0, Hold in Htry.
      unfold when at 1, bind at 1 in Htry.
      destruct (copy p (p +:+ BACKUP_EXTENSION) w0) as [[[]|e1] w2] eqn:Hcopy.
      2:{ injection Htry as _ <-. left.
          now rewrite (copy_elsewhere _ _ p _ _ _ Hbc Hcopy), Hw0. }
      pose proof (copy_elsewhere _ _ p _ _ _ Hbc Hcopy) as H2. rewrite Hw0, Hold in H2.
      unfold text_of. cbn [JSON_stringify stringify] in Htry |- *.
      unfold bind at 1 in Htry.
      match type of Htry with
      | context [writeFile (p +:+ TEMP_EXTENSION) ?text w2] =>
          destruct (writeFile (p +:+ TEMP_EXTENSION) text w2) as [[[]|e2] w3] eqn:Hwrite
      end.
      2:{ injection Htry as _ <-. left.
          now rewrite (writeFile_elsewhere _ _ p _ _ _ Htc Hwrite). }
      pose proof (writeFile_elsewhere _ _ p _ _ _ Htc Hwrite) as H3. rewrite H2 in H3.
      unfold bind at 1 in Htry.
      destruct (rename (p +:+ TEMP_EXTENSION) p w3) as [[[]|e3] w4] eqn:Hren.
      2:{ injection Htry as _ <-. left.
          destruct (rename_cases _ _ _ _ _ Htc Hren) as [(Hr & _)|[_ Hsame']];
            [discriminate|]. now rewrite Hsame'. }
      destruct (rename_cases _ _ _ _ _ Htc Hren) as [(_ & Hnew & _)|[[e4 He4] _]];
        [|discriminate].
      rewrite (writeFile_returns _ _ _ _ Hwrite) in Hnew.
      unfold bind, pathExists, when in Htry. right. exists existing. split; [reflexivity|].
      destruct (files w4 !! (p +:+ BACKUP_EXTENSION)).
      - destruct (remove (p +:+ BACKUP_EXTENSION) w4) as [[[]|e5] w5] eqn:Hrm;
          [discriminate|].
        injection Htry as _ <-.
        now rewrite (remove_elsewhere _ p _ _ _ Hbc Hrm).
      - discriminate. }
    destruct Hmid as [Hmid|(existing & Hex & Hmid)];
      destruct (updateReliverseConfig_catch_keeps _ _ _ _ _ Hmid Hcatch) as [Hkeep Hr];
      (split; [|intros ->; now destruct Hr]).
    + now left.
    + right. now exists existing.
Qed.

End AtomicUpdate.

(** The witness: the file is read and backed up, the staging write fails
    half-way; the update returns [false] and the primary file still holds
    what it held. *)
Lemma updateReliverseConfig_atomic_witness :
  @updateReliverseConfig strict_externals "project" [("projectName", VStr "demo")]
    (mkWorld valid_project_files [None; None; failing_write])
  = (Returned false,
     mkWorld (<["project/reliverse.jsonc.backup" := backup_text]> valid_project_files) [])
  /\ (<["project/reliverse.jsonc.backup" := backup_text]> valid_project_files)
       !! "project/reliverse.jsonc" = Some backup_text.
Proof.
  split; [reflexivity|].
  destruct (proj1 (@updateReliverseConfig_atomic strict_externals "project"
                     [("projectName", VStr "demo")]
                     (mkWorld valid_project_files [None; None; failing_write])
                     (mkWorld (<["project/reliverse.jsonc.backup" := backup_text]>
                                 valid_project_files) [])
                     (Returned false) backup_text eq_refl eq_refl))
    as [Hold|(existing & Hexisting & Hnew)]; [exact Hold|].
  vm_compute in Hexisting. injection Hexisting as <-.
  vm_compute in Hnew. discriminate Hnew.
Defined.

(** ** More on fixLineByLine *)

Lemma repo_safe_below_of_safe (schema : TSchema) : repo_safe schema -> repo_safe_below schema.
Proof.
  destruct schema as [| | | | | | | | |props req addl]; try (intros _; exact I).
  intros Hsafe. cbn [repo_safe_below]. apply List.Forall_forall. intros [p sub] Hin.
  exact (proj2 (repo_safe_object _ _ _ _ _ Hsafe Hin)).
Qed.

Lemma string_arrays_accepted : accepts_string_arrays (TArray TString).
Proof. intros l. cbn [Check]. induction l as [|s l IH]; [reflexivity | exact IH]. Qed.

Lemma sample_schema_repo_safe : repo_safe sample_schema.
Proof.
  cbn. repeat split; try discriminate; intros _; apply string_arrays_accepted.
Qed.

(** The repair is sound against a default document that is valid and
    complete for the schema: provided that every object node declares a
    property once, none of them named like a member objects inherit, and
    that a property named like one of the two repository lists accepts
    every array of strings, the repair returns for every candidate whose
    repository lists [String] can convert, and what it returns
    validates.  For the other candidates it raises. *)
Theorem fixLineByLine_valid (doc defaultConfig : value) (schema : TSchema) :
  wf_schema schema = true ->
  own_names schema = true ->
  Check schema defaultConfig = true ->
  complete schema defaultConfig = true ->
  repo_safe schema ->
  if repos_convertible schema doc
  then exists fixedConfig changedKeys,
         fixLineByLine doc defaultConfig schema = Some (fixedConfig, changedKeys)
         /\ Check schema fixedConfig = true
  else fixLineByLine doc defaultConfig schema = None.
Proof.
  intros Hwf _ Hvalid Hcomplete Hsafe.
  destruct (repos_convertible schema doc) eqn:Hdoc.
  - destruct (fix_settles schema doc defaultConfig Hwf Hvalid Hcomplete
                (repo_safe_below_of_safe _ Hsafe) Hdoc)
      as (fixedConfig & changedKeys & Hrun & _ & Hcheck).
    exists fixedConfig, changedKeys. split; [exact Hrun | now apply Hcheck].
  - now apply fixLineByLine_raises.
Qed.

(** The witness: the sample candidate, three of whose fields are
    invalid. *)
Lemma fixLineByLine_valid_witness :
  exists fixedConfig changedKeys,
    fixLineByLine (VObj sample_candidate) sample_default sample_schema
    = Some (fixedConfig, changedKeys)
    /\ Check sample_schema fixedConfig = true.
Proof.
  exact (fixLineByLine_valid (VObj sample_candidate) sample_default sample_schema
           eq_refl eq_refl eq_refl eq_refl sample_schema_repo_safe).
Defined.

(** An object candidate against a default that is [null] or [undefined]:
    the spread of the default is guarded, the reads of its properties
    are not, so the repair raises a [TypeError] as soon as the schema
    declares a property; with no property declared it returns the empty
    object. *)
Theorem fixLineByLine_null_default (userConfig defaultConfig : value)
    (props : list (string * TSchema)) (req : list string) (addl : bool) :
  is_object_like userConfig = true ->
  is_nullish defaultConfig = true ->
  fixLineByLine userConfig defaultConfig (TObject props req addl)
  = match props with
    | [] => Some (VObj [], [])
    | _ :: _ => None
    end.
Proof.
  intros Hlike Hnull. rewrite fixLineByLine_object, Hlike. cbn [negb].
  unfold nullish_or. rewrite Hnull. cbn [own_props].
  destruct props as [|[p sub] rest]; [reflexivity|].
  cbn [fix_props]. unfold fix_prop.
  destruct (get_member_object_like userConfig p Hlike) as [uv ->].
  now destruct defaultConfig.
Qed.

(** The witness: a default without the section that the schema
    declares. *)
Lemma fixLineByLine_null_default_witness :
  fixLineByLine (VObj [("lineWidth", VNum 100)]) VUndefined
    (TObject [("lineWidth", TNumber)] [] false)
  = None.
Proof.
  exact (fixLineByLine_null_default (VObj [("lineWidth", VNum 100)]) VUndefined
           [("lineWidth", TNumber)] [] false eq_refl eq_refl).
Defined.

(** A declared property that is not an object node and whose value
    validates keeps that value, and [changedKeys] does not name it,
    unless it is one of the two repository lists holding an array: such a
    list is rewritten by [cleanGitHubUrl], valid or not. (The name is
    supposed to hold no dot, so that it cannot be taken for a path below
    another property.) *)
Theorem fixLineByLine_keeps_valid (u : obj) (defaultConfig : value)
    (props : list (string * TSchema)) (req : list string) (addl : bool)
    (p : string) (sub : TSchema) (v : value)
    (fixedConfig : value) (changedKeys : list string) :
  In (p, sub) props ->
  List.NoDup (map fst props) ->
  has_dot p = false ->
  lookup_prop u p = Some v ->
  is_repo_prop p && is_array v = false ->
  has_object_type sub = false ->
  Check sub v = true ->
  fixLineByLine (VObj u) defaultConfig (TObject props req addl)
  = Some (fixedConfig, changedKeys) ->
  get_member fixedConfig p = Some v /\ ~ In p changedKeys.
Proof.
  intros Hin Hnd Hdot Hl Hrepo Hleaf Hgood Hrun.
  rewrite fixLineByLine_object in Hrun. cbn [is_object_like typeof negb andb] in Hrun.
  change (String.eqb "object" "object") with true in Hrun. cbn [negb andb] in Hrun.
  destruct (fix_props_spec _ _ _ _ _ _ _ Hnd Hrun) as (r & -> & Hprops & _ & Hfrom & _).
  assert (Hu : get u p = v) by (unfold get; now rewrite Hl).
  assert (Hh : hasOwn u p = true) by (unfold hasOwn; now rewrite Hl).
  assert (Hstep : forall v' c, fix_prop (VObj u) defaultConfig p sub = Some (v', c) ->
                               v' = v /\ c = []).
  { intros v' c. unfold fix_prop, fixSingleProperty. cbn [get_member has_member].
    rewrite Hu, Hh, Hrepo, !Check_single, Hgood, Hleaf, value_eqb_refl, andb_false_r.
    cbn [negb]. rewrite andb_false_r.
    destruct (get_member defaultConfig p); [|discriminate].
    intros Heq. now injection Heq as <- <-. }
  split.
  - destruct (Hprops p sub Hin) as (v' & c & Hp & Hget & _).
    destruct (Hstep _ _ Hp) as [-> _]. cbn [get_member]. now rewrite Hget.
  - intros Hbad. destruct (Hfrom p Hbad) as [[]|(q & sq & v' & c & Hq & Hp & Hc)].
    destruct (fix_prop_changes _ _ _ _ _ _ _ Hp Hc) as [->|[nc Hpath]].
    + assert (Hsq : sq = sub).
      { clear - Hin Hq Hnd. induction props as [|[k s] props IH]; [destruct Hin|].
        cbn [map fst] in Hnd. apply NoDup_cons_iff in Hnd as [Hfresh Hnd].
        destruct Hin as [Heq|Hin], Hq as [Heq'|Hq'].
        - congruence.
        - injection Heq as -> ->. exfalso. apply Hfresh.
          apply in_map_iff. now exists (q, sq).
        - injection Heq' as -> ->. exfalso. apply Hfresh.
          apply in_map_iff. now exists (q, sub).
        - now apply IH. }
      subst sq. destruct (Hstep _ _ Hp) as [_ ->]. destruct Hc.
    + rewrite Hpath, has_dot_app in Hdot. discriminate.
Qed.

(** The witness: a candidate whose project name is a string. *)
Lemma fixLineByLine_keeps_valid_witness :
  get_member
    (VObj [ ("projectName", VStr "demo");
            ("customUserFocusedRepos", VArr []);
            ("codeStyle", VObj [("lineWidth", VNum 80); ("quoteMark", VStr "double")]);
            ("ignoreDependencies", VArr []) ])
    "projectName"
  = Some (VStr "demo")
  /\ ~ In "projectName" ["ignoreDependencies"].
Proof.
  exact (fixLineByLine_keeps_valid
           [("projectName", VStr "demo"); ("ignoreDependencies", VNum 1)]
           sample_default sample_properties sample_required false
           "projectName" TString (VStr "demo") _ _
           (or_introl eq_refl) sample_schema_props_NoDup
           eq_refl eq_refl eq_refl eq_refl eq_refl eq_refl).
Defined.

(** ** The repair fallback of the reader *)

Section Repairing.

Context `{Externals}.

(** On a disk without failures, when the schema and the default document
    fit together (each object node declares a property once, none of them
    named like a member objects inherit, the default validates and is
    complete, the repository lists accept string arrays), the repair
    fallback does not give up on a file that parses to
    an object whose repository lists [String] can convert: it returns a
    document that validates; a valid file is returned as it is and
    nothing is written, an invalid one is replaced on disk by the
    annotated serialization of the repaired document.  An invalid file
    with a repository list that cannot be converted makes the repair
    raise: the fallback returns nothing and writes nothing. *)
Theorem parseAndFixConfig_repairs (configPath raw : string) (v : value)
    (fs : gmap string string) :
  wf_schema reliverseConfigSchema = true ->
  own_names reliverseConfigSchema = true ->
  Check reliverseConfigSchema (VObj DEFAULT_CONFIG) = true ->
  complete reliverseConfigSchema (VObj DEFAULT_CONFIG) = true ->
  repo_safe reliverseConfigSchema ->
  fs !! configPath = Some raw ->
  parseJSONC raw = Some v ->
  truthy v && String.eqb (typeof v) "object" = true ->
  if Check reliverseConfigSchema v
  then parseAndFixConfig configPath (mkWorld fs []) = (Returned (Some v), mkWorld fs [])
  else if repos_convertible reliverseConfigSchema v
  then exists doc fs',
         parseAndFixConfig configPath (mkWorld fs [])
         = (Returned (Some doc), mkWorld fs' [])
         /\ Check reliverseConfigSchema doc = true
         /\ fs' !! configPath = Some (injectSectionComments (text_of doc))
  else parseAndFixConfig configPath (mkWorld fs []) = (Returned None, mkWorld fs []).
Proof.
  intros Hwf _ Hvalid Hcomplete Hsafe Hfile Hparse Hobject.
  rewrite parseAndFixConfig_idle. unfold repair_layer. rewrite Hfile, Hparse, Hobject.
  destruct (Check reliverseConfigSchema v) eqn:Hv; [reflexivity|].
  destruct (repos_convertible reliverseConfigSchema v) eqn:Hconv.
  - destruct (fix_settles reliverseConfigSchema v (VObj DEFAULT_CONFIG) Hwf Hvalid Hcomplete
                (repo_safe_below_of_safe _ Hsafe) Hconv)
      as (fixedConfig & changedKeys & Hrun & _ & Hcheck).
    specialize (Hcheck Hsafe). rewrite Hrun, Hcheck. cbn [settle].
    eexists _, _. split; [reflexivity|]. split; [assumption|].
    unfold written. apply lookup_insert_eq.
  - now rewrite (fixLineByLine_raises _ _ _ Hcomplete Hconv).
Qed.

End Repairing.

Lemma strict_schema_repo_safe : repo_safe (@reliverseConfigSchema strict_externals).
Proof. cbn. repeat split. discriminate. Qed.

(** The witness: the file whose project name is a number is repaired
    into the default document. *)
Lemma parseAndFixConfig_repairs_witness :
  exists doc fs',
    @parseAndFixConfig strict_externals "project/reliverse.jsonc"
      (mkWorld invalid_project_files [])
    = (Returned (Some doc), mkWorld fs' [])
    /\ Check (@reliverseConfigSchema strict_externals) doc = true
    /\ fs' !! "project/reliverse.jsonc"
       = Some (@injectSectionComments strict_externals (text_of doc)).
Proof.
  exact (@parseAndFixConfig_repairs strict_externals "project/reliverse.jsonc"
           invalid_text (VObj [("projectName", VNum 5)]) invalid_project_files
           eq_refl eq_refl eq_refl eq_refl strict_schema_repo_safe eq_refl eq_refl eq_refl).
Defined.

(** ** What the reader returns, under any plan of failures *)

Section Sound.

Context `{Externals}.

Lemma parseReliverseFile_sound (p : string) (w w' : World)
    (r : outcome (option ParseResult)) :
  parseReliverseFile p w = (r, w') ->
  exists o,
    r = Returned o
    /\ match o with
       | Some pr => errors pr = negb (Check reliverseConfigSchema (parsed pr))
       | None => True
       end.
Proof.
  unfold parseReliverseFile, try_catch, bind.
  destruct (readFile p w) as [[raw|e] w0].
  2:{ unfold ret. intros Heq. injection Heq as <- <-. now exists None. }
  destruct (String.eqb (js_trim raw) "" || String.eqb (js_trim raw) "{}").
  { unfold ret. intros Heq. injection Heq as <- <-. now exists None. }
  destruct (parseJSONC (js_trim raw)) as [v|].
  2:{ unfold throw, ret. intros Heq. injection Heq as <- <-. now exists None. }
  destruct (negb (truthy v) || negb (String.eqb (typeof v) "object")).
  { unfold ret. intros Heq. injection Heq as <- <-. now exists None. }
  destruct (Check reliverseConfigSchema v) eqn:Hv; cbn [negb]; unfold ret;
    intros Heq; injection Heq as <- <-; eexists; (split; [reflexivity|]);
    cbn [errors parsed]; now rewrite Hv.
Qed.

Lemma readReliverseConfig_sound (p : string) (w w' : World) (doc : value) :
  readReliverseConfig p w = (Returned (Some doc), w') ->
  Check reliverseConfigSchema doc = true.
Proof.
  unfold readReliverseConfig, bind at 1, pathExists at 1.
  destruct (files w !! p); cbn [negb]; [|discriminate].
  unfold bind at 1.
  destruct (parseReliverseFile p w) as [r w1] eqn:Hparse.
  destruct (parseReliverseFile_sound _ _ _ _ Hparse) as (o & -> & Ho).
  destruct o as [[v err]|]; [|discriminate]. cbn [errors parsed] in *.
  destruct err; cbn [negb].
  2:{ unfold ret. intros Heq. injection Heq as <- _.
      now destruct (Check reliverseConfigSchema v). }
  destruct (Check reliverseConfigSchema (VObj (mergeWithDefaults (own_props v)))) eqn:Hm.
  { unfold bind.
    destruct (writeReliverseConfig p (VObj (mergeWithDefaults (own_props v))) w1)
      as [[[]|e] w2]; [|discriminate].
    unfold ret. intros Heq. now injection Heq as <- _. }
  unfold bind at 1, pathExists at 1.
  destruct (files w1 !! (p +:+ BACKUP_EXTENSION)); [|discriminate].
  unfold bind at 1.
  destruct (parseReliverseFile (p +:+ BACKUP_EXTENSION) w1) as [rb w2] eqn:Hbackup.
  destruct (parseReliverseFile_sound _ _ _ _ Hbackup) as (ob & -> & Hob).
  destruct ob as [[vb errb]|]; [|discriminate]. cbn [errors parsed] in *.
  destruct errb; cbn [negb]; [discriminate|].
  unfold bind. destruct (copy (p +:+ BACKUP_EXTENSION) p w2) as [[[]|e] w3]; [|discriminate].
  unfold ret. intros Heq. injection Heq as <- _.
  now destruct (Check reliverseConfigSchema vb).
Qed.

Lemma parseAndFixConfig_sound (p : string) (w w' : World) (r : outcome (option value)) :
  parseAndFixConfig p w = (r, w') ->
  exists o,
    r = Returned o
    /\ match o with
       | Some doc => Check reliverseConfigSchema doc = true
       | None => True
       end.
Proof.
  unfold parseAndFixConfig, try_catch, bind at 1.
  destruct (readFile p w) as [[raw|e] w0].
  2:{ unfold ret. intros Heq. injection Heq as <- <-. now exists None. }
  destruct (parseJSONC raw) as [v|].
  2:{ unfold throw, ret. intros Heq. injection Heq as <- <-. now exists None. }
  destruct (truthy v && String.eqb (typeof v) "object").
  2:{ unfold ret. intros Heq. injection Heq as <- <-. now exists None. }
  destruct (Check reliverseConfigSchema v) eqn:Hv.
  { unfold ret. intros Heq. injection Heq as <- <-. now exists (Some v). }
  destruct (fixLineByLine v (VObj DEFAULT_CONFIG) reliverseConfigSchema)
    as [[fixedConfig changedKeys]|].
  2:{ unfold throw, ret. intros Heq. injection Heq as <- <-. now exists None. }
  destruct (Check reliverseConfigSchema fixedConfig) eqn:Hfixed.
  2:{ unfold ret. intros Heq. injection Heq as <- <-. now exists None. }
  unfold bind. destruct (writeReliverseConfig p fixedConfig w0) as [[[]|e] w1];
    unfold ret; intros Heq; injection Heq as <- <-.
  - now exists (Some fixedConfig).
  - now exists None.
Qed.

(** Whatever fails and wherever, a document that the reader hands to its
    caller validates against the schema: this holds for
    [readReliverseConfig], for [parseAndFixConfig] and for the one
    followed by the other. *)
Theorem readReliverseConfig_returns_valid (configPath : string) (w w' : World)
    (doc : value) :
  readReliverseConfig configPath w = (Returned (Some doc), w')
  \/ parseAndFixConfig configPath w = (Returned (Some doc), w')
  \/ read_then_fix configPath w = (Returned (Some doc), w') ->
  Check reliverseConfigSchema doc = true.
Proof.
  intros [Hread|[Hfix|Hboth]].
  - exact (readReliverseConfig_sound _ _ _ _ Hread).
  - destruct (parseAndFixConfig_sound _ _ _ _ Hfix) as (o & Ho & Hdoc).
    injection Ho as <-. exact Hdoc.
  - unfold read_then_fix, bind in Hboth.
    destruct (readReliverseConfig configPath w) as [[[c|]|e] w1] eqn:Hread;
      [| |discriminate].
    + unfold ret in Hboth. injection Hboth as <- _.
      exact (readReliverseConfig_sound _ _ _ _ Hread).
    + destruct (parseAndFixConfig_sound _ _ _ _ Hboth) as (o & Ho & Hdoc).
      injection Ho as <-. exact Hdoc.
Qed.

(** The three functions that wrap their whole body in a [try] with a
    handler that only logs never throw, whatever fails:
    [parseReliverseFile], [parseAndFixConfig] and
    [migrateReliverseConfig] always return to their caller. *)
Theorem catch_all_never_throws (p q : string) (w : World) :
  (exists r w', parseReliverseFile p w = (Returned r, w'))
  /\ (exists r w', parseAndFixConfig p w = (Returned r, w'))
  /\ (exists w', migrateReliverseConfig p q w = (Returned tt, w')).
Proof.
  split; [|split].
  - destruct (parseReliverseFile p w) as [r w'] eqn:Hrun.
    destruct (parseReliverseFile_sound _ _ _ _ Hrun) as (o & -> & _). now exists o, w'.
  - destruct (parseAndFixConfig p w) as [r w'] eqn:Hrun.
    destruct (parseAndFixConfig_sound _ _ _ _ Hrun) as (o & -> & _). now exists o, w'.
  - unfold migrateReliverseConfig, try_catch.
    match goal with
    | |- exists w', (match ?body w with _ => _ end) = _ =>
        destruct (body w) as [[[]|e] w1]
    end; now eexists.
Qed.

End Sound.

(** The witness: the reader restores the valid backup; what it returns
    validates. *)
Lemma readReliverseConfig_returns_valid_witness :
  @read_then_fix strict_externals "reliverse.jsonc" (mkWorld reader_files [])
  = (Returned (Some (VObj [("projectName", VStr "old")])),
     mkWorld (<["reliverse.jsonc" := backup_text]> reader_files) [])
  /\ Check (@reliverseConfigSchema strict_externals) (VObj [("projectName", VStr "old")])
     = true.
Proof.
  split; [reflexivity|].
  exact (@readReliverseConfig_returns_valid strict_externals "reliverse.jsonc"
           (mkWorld reader_files [])
           (mkWorld (<["reliverse.jsonc" := backup_text]> reader_files) [])
           (VObj [("projectName", VStr "old")])
           (or_intror (or_intror eq_refl))).
Defined.

(** ** More on mergeWithDefaults *)

Lemma assign_app (a b c : obj) : assign a (b ++ c) = assign (assign a b) c.
Proof. unfold assign. apply fold_left_app. Qed.

(** A spread keeps the keys of its base in front. *)
Lemma keys_assign_prefix (b a : obj) : exists e, keys (assign a b) = keys a ++ e.
Proof.
  revert a. induction b as [|[k v] b IH]; intros a.
  - exists []. now rewrite app_nil_r.
  - rewrite assign_cons. destruct (IH (set a k v)) as [e He]. rewrite He, keys_set.
    destruct (hasOwn a k); [now exists e|].
    exists (k :: e). now rewrite <- app_assoc.
Qed.

Lemma keys_assign_within (b a : obj) :
  (forall k, In k (keys b) -> hasOwn a k = true) -> keys (assign a b) = keys a.
Proof.
  revert a. induction b as [|[k v] b IH]; intros a Hsub; [reflexivity|].
  rewrite assign_cons, IH.
  - apply keys_set_present, Hsub. now left.
  - intros k0 Hk0. rewrite hasOwn_set. apply orb_true_iff. right. apply Hsub. now right.
Qed.

Lemma keys_assign_fresh (b a : obj) :
  List.NoDup (keys a ++ keys b) -> keys (assign a b) = keys a ++ keys b.
Proof.
  revert a. induction b as [|[k v] b IH]; intros a Hnd.
  - cbn [keys map]. now rewrite app_nil_r.
  - rewrite assign_cons. cbn [keys map fst] in *. fold (keys b) in *.
    assert (Hfresh : hasOwn a k = false).
    { apply not_true_is_false. intros Hk. apply hasOwn_In in Hk.
      apply NoDup_remove_2 in Hnd. apply Hnd, in_or_app. now left. }
    assert (Hset : keys (set a k v) = keys a ++ [k]) by now rewrite keys_set, Hfresh.
    rewrite IH; rewrite Hset, <- app_assoc; [reflexivity|exact Hnd].
Qed.

(** Spreading an object over a base whose keys it already starts with
    gives the object back. *)
Lemma assign_extends_id (a x : obj) (e : list string) :
  keys x = keys a ++ e -> List.NoDup (keys x) -> assign a x = x.
Proof.
  intros Hkeys Hnd.
  assert (Hk : keys (assign a x) = keys x).
  { unfold keys in Hkeys. apply map_eq_app in Hkeys as (x1 & x2 & -> & H1 & H2).
    assert (Hin1 : forall k, In k (keys x1) -> hasOwn a k = true).
    { intros k Hk. apply hasOwn_In. unfold keys in *. now rewrite <- H1. }
    rewrite assign_app, keys_assign_fresh; rewrite (keys_assign_within x1 a Hin1).
    - unfold keys. now rewrite map_app, H1.
    - unfold keys in *. rewrite map_app in Hnd. now rewrite <- H1. }
  apply obj_ext; [exact Hk | now rewrite Hk |].
  intros k. rewrite get_assign by exact Hnd.
  unfold get. destruct (lookup_prop x k) eqn:Hx; [reflexivity|].
  apply lookup_prop_None in Hx.
  assert (Ha : lookup_prop a k = None).
  { apply lookup_prop_None. intros Hin. apply Hx. rewrite Hkeys. apply in_or_app. now left. }
  now rewrite Ha.
Qed.

Lemma assign_absorb (a b : obj) :
  List.NoDup (keys a) -> assign a (assign a b) = assign a b.
Proof.
  intros Hnd. destruct (keys_assign_prefix b a) as [e He].
  apply (assign_extends_id a _ e He). now apply NoDup_keys_assign.
Qed.

Lemma set_lookup_id (o : obj) (k : string) (v : value) :
  lookup_prop o k = Some v -> set o k v = o.
Proof.
  induction o as [|[k0 v0] o IH]; cbn [lookup_prop set]; [discriminate|].
  destruct (String.eqb_spec k0 k) as [->|Hne].
  - now intros [= ->].
  - intros Hl. now rewrite IH.
Qed.

Lemma get_set_lookup (o : obj) (k : string) (v : value) :
  lookup_prop (set o k v) k = Some v.
Proof.
  induction o as [|[k0 v0] o IH]; cbn [set lookup_prop].
  - now rewrite String.eqb_refl.
  - destruct (String.eqb k0 k) eqn:E; cbn [lookup_prop].
    + now rewrite String.eqb_refl.
    + now rewrite E.
Qed.

Lemma set_set_same (o : obj) (k : string) (v : value) : set (set o k v) k v = set o k v.
Proof. apply set_lookup_id, get_set_lookup. Qed.

Lemma spread_over_absorb (base : obj) (x : value) :
  List.NoDup (keys base) ->
  spread_over base (VObj (spread_over base x)) = spread_over base x.
Proof.
  intros Hnd. unfold spread_over at 1. cbn [nullish_or is_nullish own_props].
  unfold spread_over. now apply assign_absorb.
Qed.

Section Merging.

Context `{Externals}.

Lemma codeStyle_absorb (x : value) :
  VObj (set (spread_over DEFAULT_codeStyle
               (VObj (set (spread_over DEFAULT_codeStyle x) "modernize"
                        (VObj (spread_over DEFAULT_modernize (opt_member x "modernize"))))))
          "modernize"
          (VObj (spread_over DEFAULT_modernize
                   (opt_member
                      (VObj (set (spread_over DEFAULT_codeStyle x) "modernize"
                               (VObj (spread_over DEFAULT_modernize
                                        (opt_member x "modernize")))))
                      "modernize"))))
  = VObj (set (spread_over DEFAULT_codeStyle x) "modernize"
            (VObj (spread_over DEFAULT_modernize (opt_member x "modernize")))).
Proof.
  set (inner := VObj (spread_over DEFAULT_modernize (opt_member x "modernize"))).
  set (style := set (spread_over DEFAULT_codeStyle x) "modernize" inner).
  assert (Hinner : opt_member (VObj style) "modernize" = inner).
  { subst style. cbn [opt_member get_member]. apply get_set_same. }
  rewrite Hinner. subst inner.
  rewrite spread_over_absorb by (apply distinct_NoDup; reflexivity).
  set (inner := VObj (spread_over DEFAULT_modernize (opt_member x "modernize"))) in *.
  assert (Hsame : spread_over DEFAULT_codeStyle (VObj style) = style).
  { unfold spread_over at 1. cbn [nullish_or is_nullish own_props].
    destruct (keys_assign_prefix (own_props (nullish_or x (VObj []))) DEFAULT_codeStyle)
      as [e He].
    apply (assign_extends_id _ _ e).
    - subst style. unfold spread_over. rewrite keys_set_present; [exact He|].
      now apply hasOwn_assign.
    - subst style. unfold spread_over.
      apply NoDup_keys_set, NoDup_keys_assign, distinct_NoDup. reflexivity. }
  rewrite Hsame. subst style. now rewrite set_set_same.
Qed.

(** Merging with the defaults is idempotent: a document that has been
    merged is left as it is by a second merge, whatever the first
    document held, sections that are not objects included. *)
Theorem mergeWithDefaults_idempotent (partial : obj) :
  mergeWithDefaults (mergeWithDefaults partial) = mergeWithDefaults partial.
Proof.
  set (features := VObj (spread_over DEFAULT_features (get partial "features"))).
  set (codeStyle :=
         VObj (set (spread_over DEFAULT_codeStyle (get partial "codeStyle")) "modernize"
                 (VObj (spread_over DEFAULT_modernize
                          (opt_member (get partial "codeStyle") "modernize"))))).
  set (libraries :=
         VObj (spread_over DEFAULT_preferredLibraries (get partial "preferredLibraries"))).
  set (monorepo := VObj (spread_over DEFAULT_monorepo (get partial "monorepo"))).
  set (rules := VObj (spread_over DEFAULT_customRules (get partial "customRules"))).
  set (ignored := nullish_or (get partial "ignoreDependencies") DEFAULT_ignoreDependencies).
  assert (Hshape : mergeWithDefaults partial
                   = set (set (set (set (set (set (assign DEFAULT_CONFIG partial)
                                                "features" features)
                                           "codeStyle" codeStyle)
                                      "preferredLibraries" libraries)
                                 "monorepo" monorepo)
                            "customRules" rules)
                       "ignoreDependencies" ignored) by reflexivity.
  set (r := mergeWithDefaults partial) in *.
  assert (Hlookup :
            lookup_prop r "features" = Some features
            /\ lookup_prop r "codeStyle" = Some codeStyle
            /\ lookup_prop r "preferredLibraries" = Some libraries
            /\ lookup_prop r "monorepo" = Some monorepo
            /\ lookup_prop r "customRules" = Some rules
            /\ lookup_prop r "ignoreDependencies" = Some ignored).
  { rewrite Hshape.
    repeat split;
      repeat (rewrite lookup_set_other by discriminate); apply get_set_lookup. }
  destruct Hlookup as (Hf & Hc & Hl & Hm & Hr & Hi).
  assert (Hkeys : keys r = keys (assign DEFAULT_CONFIG partial)).
  { rewrite Hshape.
    repeat (rewrite keys_set_present;
            [|repeat (rewrite hasOwn_set; apply orb_true_iff; right);
              apply hasOwn_assign; reflexivity]).
    reflexivity. }
  assert (Hassign : assign DEFAULT_CONFIG r = r).
  { destruct (keys_assign_prefix partial DEFAULT_CONFIG) as [e He].
    apply (assign_extends_id _ _ e); rewrite Hkeys; [exact He|].
    apply NoDup_keys_assign, distinct_NoDup. reflexivity. }
  unfold mergeWithDefaults at 1. cbv zeta.
  rewrite Hassign.
  rewrite (lookup_get _ _ _ Hf), (lookup_get _ _ _ Hc), (lookup_get _ _ _ Hl),
    (lookup_get _ _ _ Hm), (lookup_get _ _ _ Hr), (lookup_get _ _ _ Hi).
  subst features libraries monorepo rules.
  rewrite !spread_over_absorb by (apply distinct_NoDup; reflexivity).
  subst codeStyle. rewrite codeStyle_absorb.
  assert (Hignored : nullish_or ignored DEFAULT_ignoreDependencies = ignored).
  { subst ignored. unfold nullish_or.
    now destruct (get partial "ignoreDependencies"). }
  rewrite Hignored.
  rewrite (set_lookup_id _ _ _ Hf), (set_lookup_id _ _ _ Hc), (set_lookup_id _ _ _ Hl),
    (set_lookup_id _ _ _ Hm), (set_lookup_id _ _ _ Hr).
  exact (set_lookup_id _ _ _ Hi).
Qed.

Lemma hasOwn_assign_or (b a : obj) (k : string) :
  hasOwn (assign a b) k = hasOwn a k || hasOwn b k.
Proof.
  revert a. induction b as [|[k0 v0] b IH]; intros a.
  - cbn. now rewrite orb_false_r.
  - rewrite assign_cons, IH, hasOwn_set. unfold hasOwn at 4. cbn [lookup_prop].
    destruct (String.eqb k0 k); cbn [orb].
    + now rewrite orb_true_r.
    + reflexivity.
Qed.

(** Whatever the document holds, the merge with the defaults has every
    key of the default document and every key of the document; the five
    sections and [codeStyle.modernize] are objects that have every key of
    their defaults (a section that is [null], a number or any other
    non-object in the document is replaced); and [ignoreDependencies] is
    neither [null] nor [undefined]. *)
Theorem mergeWithDefaults_sections (partial : obj) :
  (forall k, hasOwn (mergeWithDefaults partial) k
             = hasOwn DEFAULT_CONFIG k || hasOwn partial k)
  /\ (forall section base,
        In (section, base)
          [ ("features", DEFAULT_features); ("codeStyle", DEFAULT_codeStyle);
            ("preferredLibraries", DEFAULT_preferredLibraries);
            ("monorepo", DEFAULT_monorepo); ("customRules", DEFAULT_customRules) ] ->
        exists o,
          get (mergeWithDefaults partial) section = VObj o
          /\ forall k, hasOwn base k = true -> hasOwn o k = true)
  /\ (exists m,
        opt_member (get (mergeWithDefaults partial) "codeStyle") "modernize" = VObj m
        /\ forall k, hasOwn DEFAULT_modernize k = true -> hasOwn m k = true)
  /\ is_nullish (get (mergeWithDefaults partial) "ignoreDependencies") = false.
Proof.
  split; [|split; [|split]].
  - intros k. unfold mergeWithDefaults. cbv zeta. rewrite !hasOwn_set, hasOwn_assign_or.
    destruct (hasOwn DEFAULT_CONFIG k) eqn:Hd; [now rewrite !orb_true_r|].
    cbn [orb].
    repeat match goal with
           | |- context [String.eqb ?a k] =>
               destruct (String.eqb_spec a k) as [<-|_]; [discriminate Hd|]
           end.
    reflexivity.
  - intros section base Hin. unfold mergeWithDefaults. cbv zeta.
    cbn [In] in Hin.
    destruct Hin as [Heq|[Heq|[Heq|[Heq|[Heq|[]]]]]]; injection Heq as <- <-;
      rewrite !get_set; cbn [String.eqb Ascii.eqb Bool.eqb];
      eexists; (split; [reflexivity|]); intros k Hk.
    + now apply hasOwn_assign.
    + rewrite hasOwn_set. apply orb_true_iff. right. now apply hasOwn_assign.
    + now apply hasOwn_assign.
    + now apply hasOwn_assign.
    + now apply hasOwn_assign.
  - unfold mergeWithDefaults. cbv zeta. rewrite !get_set. cbn [String.eqb Ascii.eqb Bool.eqb].
    cbn [opt_member get_member]. rewrite get_set_same.
    eexists. split; [reflexivity|]. intros k Hk. now apply hasOwn_assign.
  - unfold mergeWithDefaults. cbv zeta. rewrite get_set_same. unfold nullish_or.
    now destruct (get partial "ignoreDependencies").
Qed.

End Merging.

(** ** More on deepMerge *)

Lemma lookup_In (o : obj) (k : string) (v : value) : lookup_prop o k = Some v -> In (k, v) o.
Proof.
  induction o as [|[k0 v0] o IH]; cbn [lookup_prop]; [discriminate|].
  destruct (String.eqb_spec k0 k) as [->|Hne].
  - intros [= ->]. now left.
  - intros Hl. right. now apply IH.
Qed.

Lemma get_deepMerge (t s : obj) (k : string) :
  json_value (VObj s) = true ->
  get (deepMerge t s) k
  = match lookup_prop s k with
    | Some v => merged_value (get t k) v
    | None => get t k
    end.
Proof.
  intros Hs. destruct (json_object _ Hs) as (Hnd & _ & Hvals).
  rewrite deepMerge_unfold, merge_loop_get by exact Hnd.
  destruct (lookup_prop s k) as [v|] eqn:Hv; [|reflexivity].
  now rewrite (json_defined _ (Hvals _ _ Hv)).
Qed.

Lemma keys_deepMerge_again (t s : obj) :
  json_value (VObj s) = true -> keys (deepMerge (deepMerge t s) s) = keys (deepMerge t s).
Proof.
  intros Hs. destruct (json_object _ Hs) as (_ & Hdef & _).
  rewrite (keys_deepMerge (deepMerge t s)) by exact Hdef.
  apply keys_assign_within. intros k Hk.
  apply hasOwn_In. rewrite keys_deepMerge by exact Hdef.
  apply hasOwn_In. rewrite hasOwn_assign_or. apply orb_true_iff. right.
  now apply hasOwn_In.
Qed.

(** Merging an object into itself, and merging the same update a second
    time, change nothing. *)
Lemma deepMerge_again (s : value) :
  forall o, s = VObj o -> json_value s = true ->
    deepMerge o o = o
    /\ forall t, json_value (VObj t) = true ->
         deepMerge (deepMerge t o) o = deepMerge t o.
Proof.
  induction s as [| |b|n|str|l _|o IH] using value_nested_ind;
    intros o' Heq Hs; try discriminate.
  injection Heq as <-. rewrite List.Forall_forall in IH.
  destruct (json_object _ Hs) as (Hnd & Hdef & Hvals).
  assert (Hstep : forall k v tk,
             lookup_prop o k = Some v ->
             (forall tv, tk = VObj tv -> json_value tk = true) ->
             merged_value (merged_value tk v) v = merged_value tk v
             /\ merged_value v v = v).
  { intros k v tk Hv Htk. pose proof (Hvals _ _ Hv) as Hjv.
    destruct v as [| | | | | |sv]; try (now split).
    destruct (IH _ (lookup_In _ _ _ Hv) sv eq_refl Hjv) as [Hself Htwice].
    cbn [snd] in Hself, Htwice. cbn [merged_value]. split.
    - destruct tk as [| | | | | |tv]; cbn [merged_value]; try now rewrite Hself.
      now rewrite Htwice by (apply (Htk tv); reflexivity).
    - now rewrite Hself. }
  split.
  - apply obj_ext.
    + rewrite keys_deepMerge by exact Hdef. apply keys_assign_within.
      intros k Hk. now apply hasOwn_In.
    + rewrite keys_deepMerge by exact Hdef. now apply NoDup_keys_assign.
    + intros k. rewrite get_deepMerge by exact Hs.
      destruct (lookup_prop o k) as [v|] eqn:Hv; [|reflexivity].
      rewrite (lookup_get _ _ _ Hv).
      apply (proj2 (Hstep k v VUndefined Hv ltac:(discriminate))).
  - intros t Ht. destruct (json_object _ Ht) as (Hndt & _ & Hvalst).
    apply obj_ext.
    + now apply keys_deepMerge_again.
    + rewrite keys_deepMerge_again, keys_deepMerge by assumption.
      now apply NoDup_keys_assign.
    + intros k. rewrite !get_deepMerge by exact Hs.
      destruct (lookup_prop o k) as [v|] eqn:Hv; [|reflexivity].
      apply (proj1 (Hstep k v (get t k) Hv
                      ltac:(intros tv Htv; unfold get in Htv |- *;
                            destruct (lookup_prop t k) eqn:Hl; [|discriminate];
                            exact (Hvalst _ _ Hl)))).
Qed.

(** Applying an update twice is applying it once: for parsed documents
    (no [undefined], distinct keys), [deepMerge(deepMerge(t, s), s)]
    equals [deepMerge(t, s)]; and merging a document into itself gives
    the document. *)
Theorem deepMerge_idempotent (t s : obj) :
  json_value (VObj t) = true ->
  json_value (VObj s) = true ->
  deepMerge (deepMerge t s) s = deepMerge t s /\ deepMerge s s = s.
Proof.
  intros Ht Hs. destruct (deepMerge_again (VObj s) s eq_refl Hs) as [Hself Htwice].
  split; [now apply Htwice | exact Hself].
Qed.

(** The witness: the example of the specification, merged twice. *)
Lemma deepMerge_idempotent_witness :
  deepMerge
    (deepMerge [("a", VObj [("b", VNum 1); ("c", VNum 2)]); ("d", VNum 3)]
               [("a", VObj [("b", VNum 5)])])
    [("a", VObj [("b", VNum 5)])]
  = deepMerge [("a", VObj [("b", VNum 1); ("c", VNum 2)]); ("d", VNum 3)]
              [("a", VObj [("b", VNum 5)])]
  /\ deepMerge [("a", VObj [("b", VNum 5)])] [("a", VObj [("b", VNum 5)])]
     = [("a", VObj [("b", VNum 5)])].
Proof.
  exact (deepMerge_idempotent
           [("a", VObj [("b", VNum 1); ("c", VNum 2)]); ("d", VNum 3)]
           [("a", VObj [("b", VNum 5)])] eq_refl eq_refl).
Defined.

(** ** A candidate without any declared property *)

(** A candidate that has none of the declared properties, the empty
    object in particular, comes back as the default document itself when
    the default has them all, and [changedKeys] is empty: the fields
    that are taken from the default because they were missing are not
    reported as changes.  No declared property is supposed to be named
    like a member objects inherit: such a property is never missing,
    [propName in userConfig] holding of every object. *)
Theorem fixLineByLine_nothing_declared (u d : obj)
    (props : list (string * TSchema)) (req : list string) (addl : bool) :
  (forall p, In p (map fst props) -> is_inherited p = false) ->
  (forall p, In p (map fst props) -> lookup_prop u p = None) ->
  (forall p, In p (map fst props) -> hasOwn d p = true) ->
  fixLineByLine (VObj u) (VObj d) (TObject props req addl) = Some (VObj d, []).
Proof.
  intros _ Hmissing Hdefault. rewrite fixLineByLine_object.
  cbn [is_object_like typeof negb andb].
  change (String.eqb "object" "object") with true.
  cbn [negb andb nullish_or is_nullish own_props].
  induction props as [|[p sub] rest IH]; [reflexivity|].
  cbn [fix_props]. unfold fix_prop. cbn [get_member has_member].
  assert (Hu : lookup_prop u p = None) by (apply Hmissing; now left).
  unfold get at 1, hasOwn at 1. rewrite Hu. cbn [is_undefined negb andb app].
  assert (Hd : lookup_prop d p = Some (get d p)).
  { specialize (Hdefault p (or_introl eq_refl)). unfold hasOwn, get in *.
    now destruct (lookup_prop d p). }
  rewrite (set_lookup_id _ _ _ Hd). apply IH.
  - intros q Hq. apply Hmissing. now right.
  - intros q Hq. apply Hdefault. now right.
Qed.

(** The witness: a candidate that only holds a key the schema does not
    declare. *)
Lemma fixLineByLine_nothing_declared_witness :
  fixLineByLine (VObj [("legacy", VBool true)]) sample_default sample_schema
  = Some (sample_default, []).
Proof.
  refine (fixLineByLine_nothing_declared [("legacy", VBool true)]
            [ ("projectName", VStr "unknown");
              ("customUserFocusedRepos", VArr []);
              ("codeStyle", VObj [("lineWidth", VNum 80); ("quoteMark", VStr "double")]);
              ("ignoreDependencies", VArr []) ]
            sample_properties sample_required false _ _ _);
    intros p [<-|[<-|[<-|[<-|[]]]]]; reflexivity.
Defined.

(** ** What changedKeys can name *)

Lemma fix_props_no_change (userConfig defaultConfig : value)
    (props : list (string * TSchema)) :
  (forall p sub v c, In (p, sub) props ->
     fix_prop userConfig defaultConfig p sub = Some (v, c) -> c = []) ->
  forall result changedKeys fixed changed,
    fix_props userConfig defaultConfig props result changedKeys = Some (fixed, changed) ->
    changed = changedKeys.
Proof.
  induction props as [|[p sub] rest IH]; intros Hquiet result changedKeys fixed changed.
  - cbn [fix_props]. now intros [= _ <-].
  - cbn [fix_props].
    destruct (fix_prop userConfig defaultConfig p sub) as [[v c]|] eqn:Hstep; [|discriminate].
    rewrite (Hquiet p sub v c (or_introl eq_refl) Hstep), app_nil_r.
    apply IH. intros q sq vq cq Hin. apply Hquiet. now right.
Qed.

(** The value of a parsed document under a declared property validates
    when the document does. *)
Lemma Check_object_json (props : list (string * TSchema)) (req : list string) (addl : bool)
    (o : obj) (p : string) (sub : TSchema) (v : value) :
  json_value (VObj o) = true ->
  Check (TObject props req addl) (VObj o) = true ->
  In (p, sub) props ->
  lookup_prop o p = Some v ->
  Check sub v = true /\ json_value v = true.
Proof.
  intros Hjson Hvalid Hin Hv. destruct (json_object _ Hjson) as (_ & _ & Hvals).
  pose proof (Hvals _ _ Hv) as Hjv. split; [|exact Hjv].
  rewrite <- (lookup_get _ _ _ Hv).
  apply (Check_object_prop _ _ _ _ _ _ Hvalid Hin).
  rewrite (lookup_get _ _ _ Hv). now apply json_defined.
Qed.

(** A pass over a parsed document that validates records no change,
    at any depth. *)
Lemma fixLineByLine_valid_quiet (schema : TSchema) :
  forall u d fixed changed,
    json_value u = true -> Check schema u = true ->
    fixLineByLine u d schema = Some (fixed, changed) ->
    changed = [].
Proof.
  induction schema as [schema Hleaf|props req addl IH] using schema_nested_ind;
    intros u d fixed changed Hjson Hvalid.
  - rewrite fixLineByLine_leaf by assumption. unfold fix_whole. rewrite Hvalid.
    now intros [= _ <-].
  - destruct (Check_object_inv _ _ _ _ Hvalid) as [o ->].
    rewrite fixLineByLine_object. cbn [is_object_like typeof negb andb].
    change (String.eqb "object" "object") with true. cbn [negb andb].
    apply fix_props_no_change. intros p sub v c Hin.
    unfold fix_prop. cbn [get_member has_member].
    destruct (get_member d p) as [dv|]; [|discriminate].
    unfold get, hasOwn. destruct (lookup_prop o p) as [uv|] eqn:Huv; cbn [is_undefined].
    2:{ cbn [negb andb]. now intros [= _ <-]. }
    destruct (Check_object_json _ _ _ _ _ _ _ Hjson Hvalid Hin Huv) as [Hcheck Hjuv].
    cbn [negb]. rewrite andb_false_r.
    destruct (is_repo_prop p && is_array uv).
    { destruct (clean_repos (own_elems uv)); [now intros [= _ <-] | discriminate]. }
    rewrite Check_single, Hcheck. cbn [negb].
    destruct (has_object_type sub).
    + destruct (fixLineByLine uv dv sub) as [[f n]|] eqn:Hrec; [|discriminate].
      rewrite List.Forall_forall in IH.
      rewrite (IH _ Hin uv dv f n Hjuv Hcheck Hrec). now intros [= _ <-].
    + unfold fixSingleProperty. rewrite Check_single, Hcheck, value_eqb_refl.
      cbn [negb]. rewrite andb_false_r. now intros [= _ <-].
Qed.

(** For a parsed document (no [undefined], distinct keys) and a schema
    none of whose properties is named like a member objects inherit, the
    repair reports top-level properties only: every entry of
    [changedKeys] is the name of a declared top-level property that the
    candidate holds with a value that does not validate. No dotted path
    ever appears, and the second validation of a leaf never finds a
    difference. (This speaks of [changedKeys] only: a nested object that
    validates is rebuilt all the same, without a record.) *)
Theorem fixLineByLine_top_level_only (u : obj) (defaultConfig : value)
    (props : list (string * TSchema)) (req : list string) (addl : bool)
    (fixedConfig : value) (changedKeys : list string) (x : string) :
  json_value (VObj u) = true ->
  own_names (TObject props req addl) = true ->
  List.NoDup (map fst props) ->
  fixLineByLine (VObj u) defaultConfig (TObject props req addl)
  = Some (fixedConfig, changedKeys) ->
  In x changedKeys ->
  exists sub v, In (x, sub) props /\ lookup_prop u x = Some v /\ Check sub v = false.
Proof.
  intros Hjson _ Hnd Hrun Hx. destruct (json_object _ Hjson) as (_ & _ & Hvals).
  rewrite fixLineByLine_object in Hrun. cbn [is_object_like typeof negb andb] in Hrun.
  change (String.eqb "object" "object") with true in Hrun. cbn [negb andb] in Hrun.
  destruct (fix_props_spec _ _ _ _ _ _ _ Hnd Hrun) as (r & -> & _ & _ & Hfrom & _).
  destruct (Hfrom x Hx) as [[]|(p & sub & v & c & Hin & Hstep & Hc)].
  unfold fix_prop in Hstep. cbn [get_member has_member] in Hstep.
  destruct (get_member defaultConfig p) as [dv|]; [|discriminate].
  unfold get, hasOwn in Hstep.
  destruct (lookup_prop u p) as [uv|] eqn:Huv; cbn [is_undefined] in Hstep.
  2:{ cbn [negb andb] in Hstep. injection Hstep as _ <-. destruct Hc. }
  cbn [negb] in Hstep. rewrite andb_false_r in Hstep.
  destruct (is_repo_prop p && is_array uv).
  { destruct (clean_repos (own_elems uv)); [|discriminate].
    injection Hstep as _ <-. destruct Hc. }
  rewrite Check_single in Hstep.
  destruct (Check sub uv) eqn:Hcheck; cbn [negb] in Hstep.
  - exfalso. destruct (has_object_type sub).
    + destruct (fixLineByLine uv dv sub) as [[f n]|] eqn:Hrec; [|discriminate].
      rewrite (fixLineByLine_valid_quiet sub uv dv f n (Hvals _ _ Huv) Hcheck Hrec) in Hstep.
      injection Hstep as _ <-. destruct Hc.
    + unfold fixSingleProperty in Hstep.
      rewrite Check_single, Hcheck, value_eqb_refl in Hstep.
      cbn [negb] in Hstep. rewrite andb_false_r in Hstep.
      injection Hstep as _ <-. destruct Hc.
  - injection Hstep as _ <-. destruct Hc as [<-|[]]. now exists sub, uv.
Qed.

(** The witness: the sample candidate, whose code style has one invalid
    field; [changedKeys] names the section, not the field. *)
Lemma fixLineByLine_top_level_only_witness :
  exists sub v,
    In ("codeStyle", sub) sample_properties
    /\ lookup_prop sample_candidate "codeStyle" = Some v
    /\ Check sub v = false.
Proof.
  exact (fixLineByLine_top_level_only sample_candidate sample_default
           sample_properties sample_required false _ _ "codeStyle"
           eq_refl eq_refl sample_schema_props_NoDup sample_repair_run
           (or_intror (or_introl eq_refl))).
Defined.

(** ** What injectSectionComments keeps *)

Lemma Subseq_refl (a : string) : Subseq a a.
Proof. induction a; constructor; assumption. Qed.

Lemma Subseq_trans (a b c : string) : Subseq a b -> Subseq b c -> Subseq a c.
Proof.
  intros Hab Hbc. revert a Hab.
  induction Hbc as [c|x b c Hbc IH|x b c Hbc IH]; intros a Hab.
  - inversion Hab. constructor.
  - inversion Hab as [|y a' b' Hab'|y a' b' Hab']; subst.
    + constructor.
    + constructor. now apply IH.
    + apply Subseq_skip. now apply IH.
  - apply Subseq_skip. now apply IH.
Qed.

Lemma Subseq_app (a b c d : string) :
  Subseq a b -> Subseq c d -> Subseq (a +:+ c) (b +:+ d).
Proof.
  intros Hab Hcd. induction Hab as [b|x a b Hab IH|x a b Hab IH].
  - induction b as [|y b IHb]; [exact Hcd|].
    rewrite append_cons. now apply Subseq_skip.
  - rewrite !append_cons. now constructor.
  - rewrite append_cons. now apply Subseq_skip.
Qed.

Lemma Subseq_app_r (x a : string) : Subseq a (x +:+ a).
Proof.
  induction x as [|c x IH]; [apply Subseq_refl|].
  rewrite append_cons. now apply Subseq_skip.
Qed.

Lemma non_ws_app (a b : string) : non_ws (a +:+ b) = non_ws a +:+ non_ws b.
Proof.
  induction a as [|c a IH]; [reflexivity|].
  rewrite append_cons. cbn [non_ws]. destruct (is_ws c); [exact IH|].
  now rewrite append_cons, IH.
Qed.

Lemma non_ws_trim_start (s : string) : non_ws (trim_start s) = non_ws s.
Proof.
  induction s as [|c s IH]; [reflexivity|]. cbn [trim_start non_ws].
  destruct (is_ws c) eqn:Hc; [exact IH|]. cbn [non_ws]. now rewrite Hc.
Qed.

Lemma non_ws_rev (s : string) :
  forall acc, non_ws (rev_string acc s) = rev_string (non_ws acc) (non_ws s).
Proof.
  induction s as [|c s IH]; intros acc; [reflexivity|].
  cbn [rev_string non_ws]. rewrite IH. cbn [non_ws].
  now destruct (is_ws c).
Qed.

Lemma non_ws_js_trim (s : string) : non_ws (js_trim s) = non_ws s.
Proof.
  unfold js_trim, trim_end.
  rewrite non_ws_rev, non_ws_trim_start, non_ws_rev. cbn [non_ws].
  now rewrite rev_string_involutive, non_ws_trim_start.
Qed.

Lemma drop_chars_zero (s : string) : drop_chars 0 s = s.
Proof. now destruct s. Qed.

Lemma drop_chars_add (a b : nat) (s : string) :
  drop_chars (a + b) s = drop_chars b (drop_chars a s).
Proof.
  revert s. induction a as [|a IH]; intros s.
  - now rewrite drop_chars_zero.
  - destruct s as [|c s]; cbn [Nat.add drop_chars]; [now destruct b | apply IH].
Qed.

Lemma skip_ws_drop (s : string) : skip_ws s = drop_chars (count_ws s) s.
Proof.
  induction s as [|c s IH]; [reflexivity|]. cbn [skip_ws count_ws].
  destruct (is_ws c); [exact IH | reflexivity].
Qed.

Lemma non_ws_skip_ws (s : string) : non_ws (skip_ws s) = non_ws s.
Proof.
  induction s as [|c s IH]; [reflexivity|]. cbn [skip_ws non_ws].
  destruct (is_ws c) eqn:Hc; [exact IH|]. cbn [non_ws]. now rewrite Hc.
Qed.

(** Replacing white space and a pattern by a text that holds the
    pattern keeps the content. *)
Lemma replace_ws_then_content (pat repl : string) :
  Subseq (non_ws pat) (non_ws repl) ->
  forall s skip,
    Subseq (non_ws (drop_chars skip s)) (non_ws (replace_ws_then pat repl skip s)).
Proof.
  intros Hpat. induction s as [|c s IH]; intros skip.
  - destruct skip; constructor.
  - cbn [replace_ws_then]. destruct skip as [|k]; [|apply IH].
    rewrite drop_chars_zero. unfold starts_with.
    destruct (is_ws c) eqn:Hc; cbn [andb].
    + destruct (strip_prefix false pat (skip_ws s)) as [tail|] eqn:Hm.
      * apply strip_prefix_exact in Hm.
        cbn [non_ws]. rewrite Hc, non_ws_app.
        rewrite <- (non_ws_skip_ws s), Hm, non_ws_app.
        apply Subseq_app; [exact Hpat|].
        specialize (IH (count_ws s + String.length pat)).
        now rewrite drop_chars_add, <- skip_ws_drop, Hm, drop_chars_app in IH.
      * cbn [non_ws]. rewrite Hc. specialize (IH 0). now rewrite drop_chars_zero in IH.
    + cbn [non_ws]. rewrite Hc. constructor.
      specialize (IH 0). now rewrite drop_chars_zero in IH.
Qed.

(** Replacing a pattern by a text with the same content keeps the
    content. *)
Lemma replace_all_content (a : ascii) (pat repl : string) :
  non_ws repl = non_ws (String a pat) ->
  forall s skip,
    non_ws (replace_all (String a pat) repl skip s) = non_ws (drop_chars skip s).
Proof.
  intros Hpat. induction s as [|c s IH]; intros skip.
  - now destruct skip.
  - cbn [replace_all]. destruct skip as [|k]; [|apply IH].
    rewrite drop_chars_zero. unfold starts_with.
    destruct (strip_prefix false (String a pat) (String c s)) as [tail|] eqn:Hm.
    + apply strip_prefix_exact in Hm. rewrite append_cons in Hm.
      injection Hm as -> ->.
      rewrite non_ws_app, IH, Hpat. cbn [String.length].
      replace (S (String.length pat) - 1) with (String.length pat) by lia.
      rewrite drop_chars_app.
      change (String a (pat +:+ tail)) with (String a pat +:+ tail).
      now rewrite non_ws_app.
    + cbn [non_ws]. rewrite (IH 0), drop_chars_zero. reflexivity.
Qed.

Lemma collapse_blank_lines_content (s : string) :
  forall seen, non_ws (collapse_blank_lines seen s) = non_ws s.
Proof.
  induction s as [|c s IH]; intros seen; [reflexivity|].
  cbn [collapse_blank_lines].
  destruct (Ascii.eqb_spec c char_lf) as [->|Hne].
  - destruct (Nat.leb 2 seen); cbn [non_ws];
      change (is_ws char_lf) with true; cbn iota; apply IH.
  - cbn [non_ws]. now rewrite IH.
Qed.

Section Content.

Context `{Externals}.

Lemma inject_section_content (fileContent : string) (entry : string * list string) :
  Subseq (non_ws fileContent) (non_ws (inject_section fileContent entry)).
Proof.
  destruct entry as [section lines]. unfold inject_section.
  destruct lines as [|line others]; [apply Subseq_refl|].
  pose proof (replace_ws_then_content
                (str_quote +:+ section +:+ str_quote +:+ ":")
                (str_lf +:+ str_lf +:+ "  " +:+ combinedComments (line :: others) +:+ str_lf
                 +:+ "  " +:+ str_quote +:+ section +:+ str_quote +:+ ":")) as Hkeep.
  specialize (Hkeep ltac:(rewrite !non_ws_app;
                          repeat (apply Subseq_app_r || rewrite <- append_assoc))).
  specialize (Hkeep fileContent 0). now rewrite drop_chars_zero in Hkeep.
Qed.

(** Comment injection keeps the content of the text: every character of
    the input that is not white space is in the output, in the same
    order. What the function adds is inserted between them, and what it
    removes is white space only. This holds for every text, whatever the
    configured names in the comments. *)
Theorem injectSectionComments_keeps_content (fileContent : string) :
  Subseq (non_ws fileContent) (non_ws (injectSectionComments fileContent)).
Proof.
  unfold injectSectionComments. cbv zeta.
  rewrite non_ws_app, non_ws_js_trim.
  change (non_ws str_lf) with "". rewrite append_nil_r.
  rewrite (replace_all_content "010"%char (str_lf +:+ "}") (str_lf +:+ "}"))
    by reflexivity.
  rewrite drop_chars_zero.
  rewrite (replace_all_content "{"%char (str_lf +:+ str_lf) ("{" +:+ str_lf))
    by reflexivity.
  rewrite drop_chars_zero, collapse_blank_lines_content.
  generalize commentSections as sections. intros sections. revert fileContent.
  induction sections as [|entry sections IH]; intros fileContent; [apply Subseq_refl|].
  cbn [fold_left].
  exact (Subseq_trans _ _ _ (inject_section_content fileContent entry)
           (IH (inject_section fileContent entry))).
Qed.

End Content.

(** ** A migration that goes through *)

Section MigrationRun.

Context `{Externals}.

(** On a disk without failures, a migration whose external document
    parses to an object, and whose listed fields merge into the
    project's document to a valid one, leaves the annotated
    serialization of that merge at the project's primary path and
    deletes the external document. (The external document is supposed
    not to be the project's file itself.) *)
Theorem migrateReliverseConfig_merges (externalPath projectPath content : string)
    (parsedDoc : value) (existing : obj) (fs : gmap string string) :
  fs !! externalPath = Some content ->
  parseJSONC content = Some parsedDoc ->
  truthy parsedDoc && String.eqb (typeof parsedDoc) "object" = true ->
  externalPath <> path_join projectPath cliConfigJsonc ->
  existing_config fs (path_join projectPath cliConfigJsonc) = Some existing ->
  Check reliverseConfigSchema (VObj (deepMerge existing (pick_migrated parsedDoc))) = true ->
  exists fs',
    migrateReliverseConfig externalPath projectPath (mkWorld fs [])
    = (Returned tt, mkWorld fs' [])
    /\ fs' !! externalPath = None
    /\ fs' !! path_join projectPath cliConfigJsonc
       = Some (injectSectionComments
                 (text_of (VObj (deepMerge existing (pick_migrated parsedDoc))))).
Proof.
  intros Hfile Hparse Hobject Hne Hexisting Hvalid.
  apply andb_true_iff in Hobject as [Htruthy Htype].
  unfold migrateReliverseConfig, try_catch, bind.
  rewrite readFile_idle, Hfile, Hparse, Htruthy, Htype. cbn [negb orb].
  rewrite updateReliverseConfig_idle, Hexisting, Hvalid, remove_idle.
  eexists. split; [reflexivity|]. split.
  - apply lookup_delete_eq.
  - unfold written. rewrite lookup_delete_ne by exact Hne. apply lookup_insert_eq.
Qed.

End MigrationRun.

(** The witness: the version of the external document goes into the
    project's file, its unlisted field does not, and the external
    document is gone. *)
Lemma migrateReliverseConfig_merges_witness :
  exists fs',
    @migrateReliverseConfig strict_externals "reliverse-tmp.jsonc" "project"
      (mkWorld full_migration_files [])
    = (Returned tt, mkWorld fs' [])
    /\ fs' !! "reliverse-tmp.jsonc" = None
    /\ fs' !! "project/reliverse.jsonc"
       = Some (@injectSectionComments strict_externals
                 (text_of (VObj [("projectName", VStr "old"); ("version", VStr "2.0.0")]))).
Proof.
  refine (@migrateReliverseConfig_merges strict_externals "reliverse-tmp.jsonc" "project"
            migration_text
            (VObj [("version", VStr "2.0.0"); ("unknownField", VNum 1)])
            [("projectName", VStr "old")] full_migration_files
            eq_refl eq_refl eq_refl _ eq_refl eq_refl).
  discriminate.
Defined.
(** ** Round trip: what the text replacements do to a JSONC text *)

Lemma append_nil_l (s : string) : "" +:+ s = s.
Proof. reflexivity. Qed.

Ltac str_norm :=
  repeat (rewrite append_assoc || rewrite append_cons || rewrite append_nil_l).

Lemma starts_with_cons (a b : ascii) (p s : string) :
  starts_with (String a p) (String b s) = Ascii.eqb a b && starts_with p s.
Proof. unfold starts_with. cbn [strip_prefix]. now destruct (Ascii.eqb a b). Qed.

Lemma starts_with_nil_r (a : ascii) (p : string) : starts_with (String a p) "" = false.
Proof. reflexivity. Qed.

Lemma starts_with_app (p s : string) : starts_with p (p +:+ s) = true.
Proof.
  induction p as [|a p IH]; [reflexivity|].
  now rewrite append_cons, starts_with_cons, Ascii.eqb_refl.
Qed.

Lemma starts_with_exact (p s : string) :
  starts_with p s = true -> s = p +:+ drop_chars (String.length p) s.
Proof.
  unfold starts_with. destruct (strip_prefix false p s) as [tail|] eqn:Hp; [|discriminate].
  intros _. apply strip_prefix_exact in Hp. subst s. now rewrite drop_chars_app.
Qed.

Lemma all_ws_skip (w x : string) : all_ws w = true -> skip_ws (w +:+ x) = skip_ws x.
Proof.
  induction w as [|c w IH]; [reflexivity|]. cbn [all_ws]. intros Hw.
  apply andb_true_iff in Hw as [Hc Hw]. rewrite append_cons. cbn [skip_ws].
  rewrite Hc. now apply IH.
Qed.

Lemma all_ws_count (w x : string) :
  all_ws w = true -> count_ws (w +:+ x) = String.length w + count_ws x.
Proof.
  induction w as [|c w IH]; [reflexivity|]. cbn [all_ws]. intros Hw.
  apply andb_true_iff in Hw as [Hc Hw]. rewrite append_cons. cbn [count_ws String.length].
  rewrite Hc. now rewrite IH.
Qed.

Lemma sym_char_inv (c : ascii) :
  sym_char c = true ->
  is_ws c = false /\ Ascii.eqb c char_quote = false
  /\ Ascii.eqb c char_slash = false /\ Ascii.eqb c char_bs = false.
Proof.
  unfold sym_char. intros Hc. apply negb_true_iff in Hc.
  apply orb_false_iff in Hc as [Hc H4]. apply orb_false_iff in Hc as [Hc H3].
  apply orb_false_iff in Hc as [H1 H2]. now repeat split.
Qed.

Lemma tight_skip (x : string) : tight x -> skip_ws x = x /\ count_ws x = 0.
Proof. destruct x as [|c x]; [easy|]. cbn [tight skip_ws count_ws]. now intros ->. Qed.

Lemma skip_ws_head (g x : string) :
  all_ws g = false -> contains char_quote g = false ->
  exists c rest, skip_ws (g +:+ x) = String c rest /\ Ascii.eqb c char_quote = false.
Proof.
  induction g as [|c g IH]; [discriminate|]. cbn [all_ws contains]. intros Hw Hq.
  apply orb_false_iff in Hq as [Hc Hq]. rewrite append_cons. cbn [skip_ws].
  destruct (is_ws c) eqn:Hws.
  - cbn [andb] in Hw. now apply IH.
  - now exists c, (g +:+ x).
Qed.

Section ReplaceAfterSpace.

Variables pat' repl : string.
Let pat := String char_quote pat'.

Lemma replace_ws_then_skip (a : string) :
  forall k b,
    replace_ws_then pat repl (String.length a + k) (a +:+ b) = replace_ws_then pat repl k b.
Proof.
  induction a as [|c a IH]; intros k b; [reflexivity|].
  rewrite append_cons. cbn [String.length Nat.add replace_ws_then]. apply IH.
Qed.

Lemma replace_ws_then_tight (c : ascii) (s : string) :
  is_ws c = false ->
  replace_ws_then pat repl 0 (String c s) = String c (replace_ws_then pat repl 0 s).
Proof. intros Hc. cbn [replace_ws_then]. now rewrite Hc. Qed.

Lemma replace_ws_then_symbol (a s : string) :
  all_chars sym_char a = true ->
  replace_ws_then pat repl 0 (a +:+ s) = a +:+ replace_ws_then pat repl 0 s.
Proof.
  induction a as [|c a IH]; [reflexivity|]. cbn [all_chars]. intros Ha.
  apply andb_true_iff in Ha as [Hc Ha]. rewrite !append_cons.
  rewrite replace_ws_then_tight by apply (sym_char_inv _ Hc).
  now rewrite IH.
Qed.

Lemma replace_ws_then_match (x : string) :
  starts_with pat x = true ->
  replace_ws_then pat repl (String.length pat) x
  = replace_ws_then pat repl 0 (drop_chars (String.length pat) x).
Proof.
  intros Hx. rewrite (starts_with_exact _ _ Hx) at 1.
  rewrite <- (Nat.add_0_r (String.length pat)) at 1. apply replace_ws_then_skip.
Qed.

Lemma all_ws_ends (c : ascii) (g : string) :
  is_ws c = true -> all_ws g = true -> ends_ws (String c g) = true.
Proof.
  revert c. induction g as [|d g IH]; intros c Hc Hg; [exact Hc|].
  cbn [all_ws] in Hg. apply andb_true_iff in Hg as [Hd Hg].
  change (ends_ws (String c (String d g))) with (ends_ws (String d g)). now apply IH.
Qed.

Lemma ends_ws_cons (c : ascii) (g : string) :
  all_ws g = false -> ends_ws (String c g) = ends_ws g.
Proof. destruct g; [discriminate | reflexivity]. Qed.

(** A stretch without quotes, then a text that does not start with white
    space: the only match is the white space that ends the stretch,
    followed by the pattern. *)
Lemma replace_ws_then_gap (g : string) :
  forall x,
    contains char_quote g = false -> tight x ->
    replace_ws_then pat repl 0 (g +:+ x)
    = if ends_ws g && starts_with pat x
      then drop_trailing_ws g +:+ repl
           +:+ replace_ws_then pat repl 0 (drop_chars (String.length pat) x)
      else g +:+ replace_ws_then pat repl 0 x.
Proof.
  induction g as [|c g IH]; intros x Hq Hx; [reflexivity|].
  cbn [contains] in Hq. apply orb_false_iff in Hq as [Hc Hq].
  rewrite append_cons. cbn [drop_trailing_ws].
  destruct (is_ws c) eqn:Hws.
  - cbn [replace_ws_then]. rewrite Hws. cbn [andb].
    destruct (all_ws g) eqn:Hg.
    + destruct (tight_skip x Hx) as [Hskip Hcount].
      rewrite all_ws_skip, all_ws_count, Hskip, Hcount, Nat.add_0_r by assumption.
      rewrite all_ws_ends by assumption. cbn [andb].
      destruct (starts_with pat x) eqn:Hm.
      * rewrite append_nil_l. f_equal.
        rewrite <- (replace_ws_then_match x Hm). apply replace_ws_then_skip.
      * rewrite IH by assumption. rewrite Hm, andb_false_r. reflexivity.
    + destruct (skip_ws_head g x Hg Hq) as (d & rest & -> & Hd).
      unfold pat at 1. rewrite starts_with_cons.
      rewrite Ascii.eqb_sym, Hd. cbn [andb].
      rewrite IH, ends_ws_cons by assumption.
      destruct (ends_ws g && starts_with pat x); [now rewrite !append_cons | reflexivity].
  - rewrite replace_ws_then_tight by assumption.
    rewrite IH by assumption. cbn [andb].
    destruct g as [|d g]; [cbn [ends_ws]; now rewrite Hws|].
    change (ends_ws (String c (String d g))) with (ends_ws (String d g)).
    destruct (ends_ws (String d g) && starts_with pat x);
      [now rewrite !append_cons | reflexivity].
Qed.

Lemma replace_ws_then_step (c : ascii) (s : string) :
  starts_with pat (skip_ws s) = false ->
  replace_ws_then pat repl 0 (String c s) = String c (replace_ws_then pat repl 0 s).
Proof. intros Hs. cbn [replace_ws_then]. now rewrite Hs, andb_false_r. Qed.

(** Inside a string literal no white space is followed by the pattern,
    unless the text after the closing quote completes it. *)
Lemma escaped_lookahead (b r : string) :
  Escaped b -> starts_with pat (String char_quote r) = false ->
  starts_with pat (skip_ws (b +:+ String char_quote r)) = false.
Proof.
  intros Hb Hr. induction Hb as [|c s Hc Hs IH|e s He Hs IH].
  - exact Hr.
  - rewrite append_cons. cbn [skip_ws]. destruct (is_ws c); [exact IH|].
    unfold pat. rewrite starts_with_cons.
    unfold plain_char in Hc. apply negb_true_iff in Hc.
    apply orb_false_iff in Hc as [Hc _]. apply orb_false_iff in Hc as [Hc _].
    now rewrite Ascii.eqb_sym, Hc.
  - reflexivity.
Qed.

Lemma replace_ws_then_body (b r : string) :
  Escaped b -> starts_with pat (String char_quote r) = false ->
  replace_ws_then pat repl 0 (b +:+ String char_quote r)
  = b +:+ String char_quote (replace_ws_then pat repl 0 r).
Proof.
  intros Hb Hr. induction Hb as [|c s Hc Hs IH|e s He Hs IH].
  - now apply replace_ws_then_tight.
  - rewrite !append_cons, replace_ws_then_step, IH; [reflexivity|].
    now apply escaped_lookahead.
  - rewrite !append_cons, replace_ws_then_tight by reflexivity.
    rewrite replace_ws_then_step, IH; [reflexivity|].
    now apply escaped_lookahead.
Qed.

End ReplaceAfterSpace.

(** ** Gaps *)

Lemma json_ws_is_ws (c : ascii) : json_ws c = true -> is_ws c = true.
Proof.
  unfold json_ws, is_ws. cbv zeta. intros Hc.
  repeat (apply orb_true_iff in Hc as [Hc|Hc]); apply Nat.eqb_eq in Hc; now rewrite Hc.
Qed.

Lemma json_ws_not_quote (c : ascii) : json_ws c = true -> Ascii.eqb c char_quote = false.
Proof. intros Hc. apply is_ws_not_quote. now apply json_ws_is_ws. Qed.

Lemma comment_char_inv (c : ascii) :
  comment_char c = true ->
  Ascii.eqb c char_lf = false /\ Ascii.eqb c char_cr = false
  /\ Ascii.eqb c char_quote = false.
Proof.
  unfold comment_char. intros Hc. apply negb_true_iff in Hc.
  apply orb_false_iff in Hc as [Hc H3]. apply orb_false_iff in Hc as [H1 H2].
  now repeat split.
Qed.

Lemma contains_comment (body : string) :
  all_chars comment_char body = true -> contains char_quote body = false.
Proof.
  induction body as [|c body IH]; [reflexivity|]. cbn [all_chars contains]. intros Hb.
  apply andb_true_iff in Hb as [Hc Hb]. destruct (comment_char_inv _ Hc) as (_ & _ & Hq).
  now rewrite Hq, IH.
Qed.

Lemma Gap_no_quote (g : string) : Gap g -> contains char_quote g = false.
Proof.
  induction 1 as [|c g Hc Hg IH|body g Hb Hg IH]; [reflexivity| |].
  - cbn [contains]. now rewrite (json_ws_not_quote _ Hc), IH.
  - rewrite !contains_app, (contains_comment _ Hb), IH. reflexivity.
Qed.

(** A gap starts with white space or with a slash. *)
Lemma Gap_head (c : ascii) (g : string) :
  Gap (String c g) -> json_ws c = true \/ c = char_slash.
Proof.
  intros Hg. inversion Hg as [|c' g' Hc Hg' Heq|body g' Hb Hg' Heq]; [now left | now right].
Qed.

Lemma Gap_app (g h : string) : Gap g -> Gap h -> Gap (g +:+ h).
Proof.
  induction 1 as [|c g Hc Hg IH|body g Hb Hg IH]; intros Hh; [exact Hh| |].
  - rewrite append_cons. now apply Gap_ws, IH.
  - rewrite !append_assoc. now apply Gap_comment, IH.
Qed.

Lemma all_ws_app (a b : string) : all_ws (a +:+ b) = all_ws a && all_ws b.
Proof.
  induction a as [|c a IH]; [reflexivity|]. rewrite append_cons. cbn [all_ws].
  now rewrite IH, andb_assoc.
Qed.

Lemma drop_trailing_ws_app (a b : string) :
  drop_trailing_ws (a +:+ b)
  = if all_ws b then drop_trailing_ws a else a +:+ drop_trailing_ws b.
Proof.
  induction a as [|c a IH].
  - rewrite !append_nil_l. destruct (all_ws b) eqn:Hb; [|reflexivity].
    destruct b as [|d b]; [reflexivity|]. cbn [all_ws] in Hb.
    apply andb_true_iff in Hb as [Hd Hb]. cbn [drop_trailing_ws]. now rewrite Hd, Hb.
  - rewrite append_cons. cbn [drop_trailing_ws]. rewrite all_ws_app, IH.
    destruct (all_ws b); [now rewrite andb_true_r|]. now rewrite !andb_false_r.
Qed.

Lemma all_chars_drop_trailing (f : ascii -> bool) (s : string) :
  all_chars f s = true -> all_chars f (drop_trailing_ws s) = true.
Proof.
  induction s as [|c s IH]; [reflexivity|]. cbn [all_chars drop_trailing_ws]. intros Hs.
  apply andb_true_iff in Hs as [Hc Hs].
  destruct (is_ws c && all_ws s); [reflexivity|]. cbn [all_chars]. now rewrite Hc, IH.
Qed.

Lemma json_ws_lf : json_ws char_lf = true.
Proof. reflexivity. Qed.

(** The white space that ends a gap can give way to a gap that starts
    with a line feed: a comment left open is closed by it. *)
Lemma Gap_drop_trailing (g h : string) :
  Gap g -> Gap h -> Gap (drop_trailing_ws g +:+ String char_lf h).
Proof.
  intros Hg Hh. induction Hg as [|c g Hc Hg IH|body g Hb Hg IH].
  - now apply Gap_ws.
  - cbn [drop_trailing_ws]. rewrite (json_ws_is_ws _ Hc). cbn [andb].
    destruct (all_ws g); [now apply Gap_ws|].
    rewrite append_cons. now apply Gap_ws.
  - change ("//" +:+ body +:+ str_lf +:+ g)
      with (String "/" (String "/" (body +:+ String char_lf g))).
    cbn [drop_trailing_ws].
    change (is_ws "/") with false. cbn [andb].
    rewrite drop_trailing_ws_app. cbn [all_ws]. change (is_ws char_lf) with true.
    cbn [andb]. destruct (all_ws g) eqn:Hws.
    + rewrite !append_cons.
      apply (Gap_comment (drop_trailing_ws body) h); [|exact Hh].
      now apply all_chars_drop_trailing.
    + cbn [drop_trailing_ws]. change (is_ws char_lf) with true. rewrite Hws. cbn [andb].
      rewrite !append_cons, append_assoc, append_cons.
      now apply (Gap_comment body).
Qed.

(** ** String literals *)

Lemma Escaped_app (a b : string) : Escaped a -> Escaped b -> Escaped (a +:+ b).
Proof.
  induction 1 as [|c s Hc Hs IH|e s He Hs IH]; intros Hb; [exact Hb| |].
  - rewrite append_cons. now apply Escaped_plain, IH.
  - rewrite !append_cons. now apply Escaped_pair, IH.
Qed.

Lemma Escaped_escape_char (c : ascii) : Escaped (escape_char c).
Proof.
  destruct c as [[] [] [] [] [] [] [] []]; vm_compute;
    repeat first [ apply Escaped_nil
                 | apply Escaped_pair; [reflexivity|]
                 | apply Escaped_plain; [reflexivity|] ].
Qed.

Lemma Escaped_escape_string (s : string) : Escaped (escape_string s).
Proof.
  induction s as [|c s IH]; [constructor|]. cbn [escape_string].
  apply Escaped_app; [apply Escaped_escape_char | exact IH].
Qed.

Lemma quote_json_text (s r : string) :
  quote_json s +:+ r = String char_quote (escape_string s +:+ String char_quote r).
Proof. unfold quote_json, str_quote. now rewrite !append_assoc, !append_cons. Qed.

(** ** The text as tokens and gaps *)

Lemma good_tokens_tail (t : token) (toks : list token) :
  good_tokens (t :: toks) -> good_sym t = true /\ good_tokens toks.
Proof.
  intros [Hsym Hdel]. cbn [forallb] in Hsym. apply andb_true_iff in Hsym as [Ht Hsym].
  split; [exact Ht|]. split; [exact Hsym|].
  destruct t as [a|s]; [exact Hdel|]. cbn [delimited] in Hdel.
  destruct toks as [|[a|s'] toks]; [reflexivity| |discriminate].
  now apply andb_true_iff in Hdel as [_ Hdel].
Qed.

Lemma good_sym_inv (a : string) :
  good_sym (TSym a) = true ->
  all_chars sym_char a = true /\ exists c a', a = String c a' /\ sym_char c = true.
Proof.
  cbn [good_sym]. intros Ha. apply andb_true_iff in Ha as [Hne Ha]. split; [exact Ha|].
  destruct a as [|c a']; [discriminate|]. cbn [all_chars] in Ha.
  apply andb_true_iff in Ha as [Hc _]. now exists c, a'.
Qed.

Lemma name_char_sym (c : ascii) : name_char c = true -> sym_char c = true.
Proof. unfold name_char. intros Hc. now apply andb_true_iff in Hc as [Hc _]. Qed.

(** Where a string literal is followed by a delimiter or by nothing, the
    text after the literal does not start like a section name. *)
Lemma after_literal_render (s : string) (ts : list (string * token)) :
  Forall (fun gt => Gap (fst gt)) ts ->
  delimited (TStr s :: map snd ts) = true ->
  after_literal (render ts).
Proof.
  intros Hgaps Hdel. destruct ts as [|[g t] rest]; [exact I|].
  apply Forall_inv in Hgaps. cbn [fst] in Hgaps. cbn [render].
  destruct g as [|c g].
  - rewrite append_nil_l. cbn [map snd delimited] in Hdel.
    destruct t as [a|s']; [|discriminate]. apply andb_true_iff in Hdel as [Ha _].
    cbn [token_text]. destruct a as [|c a]; [discriminate|]. rewrite append_cons.
    cbn [after_literal is_delimiter] in *. unfold name_char. rewrite Ha.
    apply andb_false_r.
  - rewrite append_cons. cbn [after_literal].
    destruct (name_char c) eqn:Hn; [|reflexivity]. exfalso.
    apply name_char_sym, sym_char_inv in Hn as (Hws & _ & Hslash & _).
    destruct (Gap_head _ _ Hgaps) as [Hc| ->].
    + apply json_ws_is_ws in Hc. congruence.
    + discriminate.
Qed.

Section InjectOne.

Variables sec R : string.

Hypothesis sec_name : all_chars name_char sec = true.
Hypothesis sec_not_empty : sec <> EmptyString.
Hypothesis R_gap : exists h, R = String char_lf h /\ Gap h.

Let key := sec +:+ str_quote +:+ ":".
Let pat := String char_quote key.
Let repl := R +:+ pat.

Lemma starts_with_key (b r : string) :
  Escaped b ->
  starts_with key (b +:+ String char_quote r) = true ->
  b = sec /\ exists r', r = String ":" r'.
Proof.
  unfold key. clear sec_not_empty. revert b.
  induction sec as [|c s IH]; intros b Hb Hm.
  - rewrite append_nil_l in Hm. unfold str_quote in Hm. rewrite append_cons, append_nil_l in Hm.
    destruct Hb as [|d b Hd Hb|e b He Hb].
    + split; [reflexivity|]. rewrite append_nil_l, starts_with_cons in Hm.
      apply andb_true_iff in Hm as [_ Hm]. destruct r as [|x r]; [discriminate|].
      rewrite starts_with_cons in Hm. apply andb_true_iff in Hm as [Hx _].
      apply Ascii.eqb_eq in Hx. subst x. now exists r.
    + exfalso. rewrite append_cons, starts_with_cons in Hm.
      apply andb_true_iff in Hm as [Hq _]. unfold plain_char in Hd.
      apply negb_true_iff in Hd. apply orb_false_iff in Hd as [Hd _].
      apply orb_false_iff in Hd as [Hd _]. rewrite Ascii.eqb_sym in Hq. congruence.
    + exfalso. rewrite append_cons, starts_with_cons in Hm.
      now apply andb_true_iff in Hm as [Hq _].
  - cbn [all_chars] in sec_name. apply andb_true_iff in sec_name as [Hc Hs].
    destruct (sym_char_inv _ (name_char_sym _ Hc)) as (_ & Hq & _ & Hbs).
    rewrite append_cons in Hm.
    destruct Hb as [|d b Hd Hb|e b He Hb].
    + exfalso. rewrite append_nil_l, starts_with_cons in Hm.
      apply andb_true_iff in Hm as [Hx _]. congruence.
    + rewrite append_cons, starts_with_cons in Hm. apply andb_true_iff in Hm as [Hx Hm].
      apply Ascii.eqb_eq in Hx. subst d.
      destruct (IH Hs b Hb Hm) as [-> Hr]. now split.
    + exfalso. rewrite append_cons, starts_with_cons in Hm.
      apply andb_true_iff in Hm as [Hx _]. congruence.
Qed.

Lemma starts_with_after_literal (x : string) :
  after_literal x -> starts_with pat (String char_quote x) = false.
Proof.
  intros Hx. unfold pat. rewrite starts_with_cons, Ascii.eqb_refl. cbn [andb].
  unfold key. destruct sec as [|c s]; [contradiction|].
  cbn [all_chars] in sec_name. apply andb_true_iff in sec_name as [Hc _].
  rewrite append_cons. destruct x as [|d x]; [reflexivity|].
  rewrite starts_with_cons. cbn [after_literal] in Hx.
  destruct (Ascii.eqb_spec c d) as [->|]; [congruence | reflexivity].
Qed.

Lemma pat_text (s x : string) :
  escape_string s = sec -> quote_json s +:+ String ":" x = pat +:+ x.
Proof.
  intros Hs. unfold quote_json, pat, key, str_quote. rewrite Hs. now str_norm.
Qed.

(** One turn of the loop of [injectSectionComments] on a rendering: the
    tokens stay, and the gap before a key named like the section, when
    it ends with white space, ends with the comments instead. *)
Lemma inject_one_render (n : nat) :
  forall ts,
    length ts <= n ->
    Forall (fun gt => Gap (fst gt)) ts ->
    good_tokens (map snd ts) ->
    exists ts',
      map snd ts' = map snd ts
      /\ Forall (fun gt => Gap (fst gt)) ts'
      /\ replace_ws_then pat repl 0 (render ts) = render ts'
      /\ (first_gap ts = "" -> first_gap ts' = "").
Proof.
  induction n as [|n IH]; intros ts Hlen Hgaps Hgood.
  { destruct ts; [|cbn in Hlen; lia]. now exists []. }
  destruct ts as [|[g t] rest]; [now exists []|].
  cbn [length] in Hlen. cbn [map snd] in Hgood.
  destruct (good_tokens_tail _ _ Hgood) as [Ht Hgood'].
  pose proof (Forall_inv Hgaps) as Hg. cbn [fst] in Hg.
  pose proof (Forall_inv_tail Hgaps) as Hgaps'.
  pose proof (Gap_no_quote _ Hg) as Hq.
  cbn [render]. unfold pat in *.
  destruct t as [a|s]; cbn [token_text].
  - destruct (good_sym_inv _ Ht) as (Ha & c & a' & -> & Hc).
    destruct (sym_char_inv _ Hc) as (Hws & Hcq & _ & _).
    destruct (IH rest ltac:(lia) Hgaps' Hgood') as (rest' & Htoks & Hgaps'' & Heq & _).
    exists ((g, TSym (String c a')) :: rest'). split; [cbn [map snd]; now rewrite Htoks|].
    split; [now constructor|]. split; [|now intros].
    rewrite replace_ws_then_gap by (try assumption; rewrite append_cons; exact Hws).
    replace (starts_with (String char_quote key) (String c a' +:+ render rest)) with false
      by (now rewrite append_cons, starts_with_cons, Ascii.eqb_sym, Hcq).
    rewrite andb_false_r, replace_ws_then_symbol, Heq by assumption. reflexivity.
  - rewrite replace_ws_then_gap
      by (try assumption; rewrite quote_json_text; reflexivity).
    destruct (ends_ws g && starts_with (String char_quote key)
                              (quote_json s +:+ render rest)) eqn:Hm.
    + apply andb_true_iff in Hm as [Hends Hstart].
      rewrite quote_json_text in Hstart.
      rewrite starts_with_cons in Hstart. apply andb_true_iff in Hstart as [_ Hstart].
      destruct (starts_with_key _ _ (Escaped_escape_string s) Hstart) as [Hs [r' Hr]].
      destruct rest as [|[g2 t2] rest2]; [discriminate|].
      pose proof (Forall_inv Hgaps') as Hg2. cbn [fst] in Hg2.
      pose proof (Forall_inv_tail Hgaps') as Hgaps2.
      cbn [render] in Hr.
      assert (Hg2e : g2 = "").
      { destruct g2 as [|d g2]; [reflexivity|]. exfalso.
        rewrite append_cons in Hr. injection Hr as -> _.
        destruct (Gap_head _ _ Hg2) as [Hd|Hd]; discriminate. }
      subst g2. rewrite append_nil_l in Hr.
      destruct (good_tokens_tail _ _ Hgood') as [Ht2 Hgood2].
      destruct t2 as [a2|s2]; [|now destruct Hgood as [_ Hdel]].
      destruct (good_sym_inv _ Ht2) as (Ha2 & c2 & a2' & -> & Hc2).
      cbn [token_text] in Hr. rewrite append_cons in Hr. injection Hr as -> _.
      cbn [all_chars] in Ha2. apply andb_true_iff in Ha2 as [_ Ha2'].
      cbn [length] in Hlen.
      destruct (IH rest2 ltac:(lia) Hgaps2 Hgood2) as (rest2' & Htoks & Hgaps2' & Heq & _).
      destruct R_gap as (h & HR & Hh).
      exists ((drop_trailing_ws g +:+ R, TStr s) :: ("", TSym (String ":" a2')) :: rest2').
      split; [cbn [map snd]; now rewrite Htoks|].
      split; [constructor; [cbn [fst]; rewrite HR; now apply Gap_drop_trailing|];
              constructor; [constructor | assumption]|].
      split.
      * cbn [render token_text]. rewrite append_nil_l, !append_cons.
        rewrite (pat_text s _ Hs). unfold pat.
        rewrite drop_chars_app, replace_ws_then_symbol, Heq by assumption.
        rewrite append_nil_l, (pat_text s _ Hs). unfold repl. now rewrite !append_assoc.
      * intros Hfirst. cbn [first_gap] in Hfirst. subst g. discriminate.
    + destruct (IH rest ltac:(lia) Hgaps' Hgood') as (rest' & Htoks & Hgaps'' & Heq & _).
      exists ((g, TStr s) :: rest'). split; [cbn [map snd]; now rewrite Htoks|].
      split; [now constructor|]. split; [|now intros].
      cbn [render token_text]. rewrite !quote_json_text.
      rewrite replace_ws_then_tight by reflexivity.
      rewrite replace_ws_then_body, Heq; [reflexivity | apply Escaped_escape_string |].
      apply starts_with_after_literal.
      apply (after_literal_render s); [assumption | now destruct Hgood].
Qed.

End InjectOne.

(** ** The comments of a section *)

Lemma join_cons (sep x y : string) (l : list string) :
  join sep (x :: y :: l) = x +:+ sep +:+ join sep (y :: l).
Proof.
  unfold join. cbn [fold_left]. revert x y.
  induction l as [|z l IH]; intros x y; cbn [fold_left]; [reflexivity|].
  rewrite IH, (IH y z). now rewrite !append_assoc.
Qed.

Lemma Gap_all_ws (w g : string) : all_chars json_ws w = true -> Gap g -> Gap (w +:+ g).
Proof.
  induction w as [|c w IH]; [easy|]. cbn [all_chars]. intros Hw Hg.
  apply andb_true_iff in Hw as [Hc Hw]. rewrite append_cons. now apply Gap_ws, IH.
Qed.

Lemma Gap_join_lines (ls : list string) :
  forall l g, Forall comment_line (l :: ls) -> Gap g ->
              Gap (join str_lf (l :: ls) +:+ String char_lf g).
Proof.
  induction ls as [|l2 ls IH]; intros l g Hall Hg.
  - apply Forall_inv in Hall as (w & body & -> & Hw & Hb).
    cbn [join fold_left]. rewrite !append_assoc. apply Gap_all_ws; [exact Hw|].
    now apply Gap_comment.
  - pose proof (Forall_inv Hall) as (w & body & -> & Hw & Hb).
    apply Forall_inv_tail in Hall. rewrite join_cons, !append_assoc.
    apply Gap_all_ws; [exact Hw|]. apply (Gap_comment body); [exact Hb|].
    now apply IH.
Qed.

Lemma comment_line_indent (l : string) : comment_line l -> comment_line ("  " +:+ l).
Proof.
  intros (w & body & -> & Hw & Hb). exists ("  " +:+ w), body.
  split; [now rewrite !append_assoc|]. split; [|exact Hb].
  rewrite !append_cons, append_nil_l. cbn [all_chars]. now rewrite Hw.
Qed.

Lemma Gap_combinedComments (l : string) (ls : list string) (g : string) :
  Forall comment_line (l :: ls) -> Gap g ->
  Gap (combinedComments (l :: ls) +:+ String char_lf g).
Proof.
  intros Hall Hg. cbn [combinedComments]. apply Gap_join_lines; [|exact Hg].
  constructor; [exact (Forall_inv Hall)|]. apply Forall_inv_tail in Hall.
  induction Hall as [|x xs Hx Hxs IH]; constructor; [now apply comment_line_indent | exact IH].
Qed.

(** The whole loop of [injectSectionComments] on a rendering. *)
Lemma inject_sections_render (entries : list (string * list string)) :
  Forall good_entry entries ->
  forall ts,
    Forall (fun gt => Gap (fst gt)) ts ->
    good_tokens (map snd ts) ->
    exists ts',
      map snd ts' = map snd ts
      /\ Forall (fun gt => Gap (fst gt)) ts'
      /\ fold_left inject_section entries (render ts) = render ts'
      /\ (first_gap ts = "" -> first_gap ts' = "").
Proof.
  induction 1 as [|[sec lines] entries (Hname & Hne & Hlines) Hentries IH];
    intros ts Hgaps Hgood.
  - now exists ts.
  - cbn [fold_left inject_section]. cbn [fst snd] in *.
    destruct lines as [|l ls].
    + now apply IH.
    + destruct (inject_one_render sec
                  (str_lf +:+ str_lf +:+ "  " +:+ combinedComments (l :: ls)
                   +:+ str_lf +:+ "  ")
                  Hname Hne) with (n := length ts) (ts := ts)
        as (ts1 & Htoks1 & Hgaps1 & Heq1 & Hfirst1); try assumption; try lia.
      { eexists. split; [unfold str_lf at 1; rewrite append_cons, append_nil_l; reflexivity|].
        unfold str_lf at 1. rewrite append_cons, append_nil_l.
        apply Gap_ws; [reflexivity|]. rewrite !append_cons, append_nil_l.
        do 2 (apply Gap_ws; [reflexivity|]).
        unfold str_lf. rewrite append_cons, append_nil_l.
        apply Gap_combinedComments; [exact Hlines|].
        do 2 (apply Gap_ws; [reflexivity|]). constructor. }
      destruct (IH ts1 Hgaps1) as (ts' & Htoks & Hgaps' & Heq & Hfirst).
      { now rewrite Htoks1. }
      exists ts'. split; [congruence|]. split; [assumption|]. split; [|tauto].
      rewrite <- Heq, <- Heq1. f_equal. unfold str_quote. now str_norm.
Qed.

(** ** Collapsing blank lines *)

Lemma sym_no_lf (a : string) : all_chars sym_char a = true -> contains char_lf a = false.
Proof.
  induction a as [|c a IH]; [reflexivity|]. cbn [all_chars contains]. intros Ha.
  apply andb_true_iff in Ha as [Hc Ha]. rewrite (IH Ha), orb_false_r.
  destruct (Ascii.eqb_spec c char_lf) as [->|]; [discriminate | reflexivity].
Qed.

Lemma Escaped_no_lf (b : string) : Escaped b -> contains char_lf b = false.
Proof.
  induction 1 as [|c s Hc Hs IH|e s He Hs IH]; [reflexivity| |].
  - cbn [contains]. rewrite IH, orb_false_r. unfold plain_char in Hc.
    apply negb_true_iff in Hc. now apply orb_false_iff in Hc as [_ Hc].
  - cbn [contains]. now rewrite He, IH.
Qed.

(** The text of a token holds no line feed and is not empty. *)
Lemma token_text_line (t : token) :
  good_sym t = true ->
  contains char_lf (token_text t) = false
  /\ exists c x, token_text t = String c x.
Proof.
  destruct t as [a|s]; intros Ht.
  - destruct (good_sym_inv _ Ht) as (Ha & c & a' & -> & _).
    split; [now apply sym_no_lf | now exists c, a'].
  - cbn [token_text]. rewrite <- (append_nil_r (quote_json s)), quote_json_text.
    split; [|now eexists _, _]. cbn [contains].
    rewrite contains_app, (Escaped_no_lf _ (Escaped_escape_string s)). reflexivity.
Qed.

Lemma collapse_blank_lines_text (x : string) :
  forall n r,
    contains char_lf x = false ->
    collapse_blank_lines n (x +:+ r)
    = x +:+ collapse_blank_lines (match x with EmptyString => n | _ => 0 end) r.
Proof.
  induction x as [|c x IH]; intros n r Hx; [reflexivity|].
  cbn [contains] in Hx. apply orb_false_iff in Hx as [Hc Hx].
  rewrite !append_cons. cbn [collapse_blank_lines]. rewrite Hc, IH by assumption.
  now destruct x.
Qed.

Lemma comment_no_lf (body : string) :
  all_chars comment_char body = true -> contains char_lf ("//" +:+ body) = false.
Proof.
  intros Hb. rewrite !append_cons, append_nil_l. cbn [contains].
  change (Ascii.eqb "/" char_lf) with false. cbn [orb].
  induction body as [|c body IH]; [reflexivity|].
  cbn [all_chars contains] in *. apply andb_true_iff in Hb as [Hc Hb].
  destruct (comment_char_inv _ Hc) as (Hlf & _). now rewrite Hlf, IH.
Qed.

Lemma collapse_blank_lines_gap (g : string) :
  Gap g ->
  forall n, exists g' m,
    Gap g'
    /\ (forall r, collapse_blank_lines n (g +:+ r) = g' +:+ collapse_blank_lines m r)
    /\ (g = "" -> g' = "").
Proof.
  induction 1 as [|c g Hc Hg IH|body g Hb Hg IH]; intros n.
  - exists "", n. split; [constructor|]. now split.
  - destruct (Ascii.eqb c char_lf) eqn:Hlf.
    + destruct (IH (S n)) as (g' & m & Hg' & Heq & _).
      destruct (Nat.leb 2 n) eqn:Hn.
      * exists g', m. split; [exact Hg'|]. split; [|discriminate].
        intros r. rewrite append_cons. cbn [collapse_blank_lines]. now rewrite Hlf, Hn.
      * exists (String c g'), m. split; [now apply Gap_ws|]. split; [|discriminate].
        intros r. rewrite !append_cons. cbn [collapse_blank_lines].
        now rewrite Hlf, Hn, Heq.
    + destruct (IH 0) as (g' & m & Hg' & Heq & _).
      exists (String c g'), m. split; [now apply Gap_ws|]. split; [|discriminate].
      intros r. rewrite !append_cons. cbn [collapse_blank_lines]. now rewrite Hlf, Heq.
  - destruct (IH 1) as (g' & m & Hg' & Heq & _).
    exists ("//" +:+ body +:+ str_lf +:+ g'), m. split; [now apply Gap_comment|].
    split; [|discriminate]. intros r.
    pose proof (comment_no_lf body Hb) as Hline.
    replace (("//" +:+ body +:+ str_lf +:+ g) +:+ r)
      with (("//" +:+ body) +:+ String char_lf (g +:+ r))
      by (unfold str_lf; now str_norm).
    rewrite collapse_blank_lines_text by assumption.
    rewrite append_cons. cbn [collapse_blank_lines]. rewrite Ascii.eqb_refl.
    cbn [Nat.leb]. rewrite Heq. unfold str_lf. now str_norm.
Qed.

Lemma collapse_blank_lines_render (ts : list (string * token)) :
  Forall (fun gt => Gap (fst gt)) ts ->
  good_tokens (map snd ts) ->
  forall n, exists ts',
    map snd ts' = map snd ts
    /\ Forall (fun gt => Gap (fst gt)) ts'
    /\ collapse_blank_lines n (render ts) = render ts'
    /\ (first_gap ts = "" -> first_gap ts' = "").
Proof.
  induction ts as [|[g t] rest IH]; intros Hgaps Hgood n; [now exists []|].
  cbn [map snd] in Hgood. destruct (good_tokens_tail _ _ Hgood) as [Ht Hgood'].
  pose proof (Forall_inv Hgaps) as Hg. cbn [fst] in Hg.
  destruct (IH (Forall_inv_tail Hgaps) Hgood' 0) as (rest' & Htoks & Hgaps' & Heq & _).
  destruct (collapse_blank_lines_gap g Hg n) as (g' & m & Hg' & Hgeq & Hempty).
  destruct (token_text_line t Ht) as (Hline & c & x & Htext).
  exists ((g', t) :: rest'). split; [cbn [map snd]; now rewrite Htoks|].
  split; [now constructor|]. split; [|exact Hempty].
  cbn [render]. rewrite Hgeq, collapse_blank_lines_text by assumption.
  rewrite Htext at 2. now rewrite Heq.
Qed.

(** ** Replacing a literal pattern *)

Lemma replace_all_skip (pat repl a : string) :
  forall k b,
    replace_all pat repl (String.length a + k) (a +:+ b) = replace_all pat repl k b.
Proof.
  induction a as [|c a IH]; intros k b; [reflexivity|].
  rewrite append_cons. cbn [String.length Nat.add replace_all]. apply IH.
Qed.

Lemma replace_all_step (pat repl : string) (c : ascii) (s : string) :
  starts_with pat (String c s) = false ->
  replace_all pat repl 0 (String c s) = String c (replace_all pat repl 0 s).
Proof. intros Hs. cbn [replace_all]. now rewrite Hs. Qed.

Lemma replace_all_match (p : ascii) (pat1 repl b : string) :
  replace_all (String p pat1) repl 0 (String p pat1 +:+ b)
  = repl +:+ replace_all (String p pat1) repl 0 b.
Proof.
  rewrite append_cons. cbn [replace_all]. rewrite <- append_cons, starts_with_app.
  cbn [String.length]. rewrite Nat.sub_succ, Nat.sub_0_r.
  rewrite <- (Nat.add_0_r (String.length pat1)). f_equal. apply replace_all_skip.
Qed.

Lemma Gap_lf_inv (g : string) : Gap (String char_lf g) -> Gap g.
Proof.
  intros Hg. inversion Hg as [|c' g' Hc Hg' Heq|body g' Hb Hg' Heq]; assumption || discriminate.
Qed.

(** *** The line feed after an opening brace *)

Lemma brace_step (c : ascii) (s : string) :
  Ascii.eqb c "{" = false ->
  replace_all brace_pat brace_repl 0 (String c s)
  = String c (replace_all brace_pat brace_repl 0 s).
Proof.
  intros Hc. apply replace_all_step. change brace_pat with (String "{" (str_lf +:+ str_lf)).
  now rewrite starts_with_cons, Ascii.eqb_sym, Hc.
Qed.

Lemma brace_text (x : string) :
  forall r,
    contains char_lf x = false ->
    replace_all brace_pat brace_repl 0 (x +:+ r)
    = x +:+ replace_all brace_pat brace_repl 0
              (if ends_with_char "{" x && starts_with (str_lf +:+ str_lf) r
               then drop_chars 1 r else r).
Proof.
  induction x as [|c x IH]; intros r Hx; [reflexivity|].
  cbn [contains] in Hx. apply orb_false_iff in Hx as [Hc Hx].
  destruct x as [|d x].
  - rewrite !append_cons, !append_nil_l. cbn [ends_with_char].
    destruct (Ascii.eqb c "{") eqn:Hbrace; [|now apply brace_step].
    apply Ascii.eqb_eq in Hbrace. subst c. cbn [andb].
    destruct (starts_with (str_lf +:+ str_lf) r) eqn:Hr.
    + rewrite (starts_with_exact _ _ Hr). set (r' := drop_chars _ r).
      change (String "{" ((str_lf +:+ str_lf) +:+ r'))
        with (String "{" (str_lf +:+ str_lf) +:+ r').
      change brace_pat with (String "{" (str_lf +:+ str_lf)).
      rewrite replace_all_match.
      change ((str_lf +:+ str_lf) +:+ r') with (String char_lf (String char_lf r')).
      cbn [drop_chars].
      change (String "{" (str_lf +:+ str_lf)) with brace_pat.
      rewrite brace_step by reflexivity. reflexivity.
    + apply replace_all_step. change brace_pat with (String "{" (str_lf +:+ str_lf)).
      now rewrite starts_with_cons, Hr, andb_false_r.
  - cbn [contains] in Hx. apply orb_false_iff in Hx as [Hd Hx'].
    rewrite append_cons. rewrite replace_all_step.
    + rewrite IH by (cbn [contains]; now rewrite Hd, Hx'). reflexivity.
    + change brace_pat with (String "{" (String char_lf str_lf)).
      rewrite append_cons, !starts_with_cons. rewrite (Ascii.eqb_sym char_lf d), Hd.
      now rewrite andb_false_r.
Qed.

Lemma tight_lf_starts (g r : string) :
  no_lf_head r -> starts_with (str_lf +:+ str_lf) (String char_lf (g +:+ r)) = true ->
  exists g', g = String char_lf g'.
Proof.
  intros Hr Hm. change (str_lf +:+ str_lf) with (String char_lf str_lf) in Hm.
  rewrite starts_with_cons in Hm. apply andb_true_iff in Hm as [_ Hm].
  destruct g as [|c g].
  - rewrite append_nil_l in Hm. destruct r as [|c r]; [discriminate|].
    unfold str_lf in Hm. rewrite starts_with_cons in Hm. cbn [no_lf_head] in Hr.
    rewrite Ascii.eqb_sym, Hr in Hm. discriminate.
  - rewrite append_cons in Hm. unfold str_lf in Hm. rewrite starts_with_cons in Hm.
    apply andb_true_iff in Hm as [Hc _]. apply Ascii.eqb_eq in Hc. subst c. now exists g.
Qed.

Lemma brace_gap (g : string) :
  Gap g ->
  forall r, no_lf_head r ->
    exists g',
      Gap g'
      /\ replace_all brace_pat brace_repl 0 (g +:+ r)
         = g' +:+ replace_all brace_pat brace_repl 0 r
      /\ (g = "" -> g' = "")
      /\ (forall g0, g = String char_lf g0 -> exists g0', g' = String char_lf g0').
Proof.
  induction 1 as [|c g Hc Hg IH|body g Hb Hg IH]; intros r Hr.
  - exists "". split; [constructor|]. split; [reflexivity|]. split; [reflexivity|].
    discriminate.
  - destruct (IH r Hr) as (g' & Hg' & Heq & _).
    exists (String c g'). split; [now apply Gap_ws|]. split; [|split; [discriminate|]].
    + rewrite !append_cons, brace_step, Heq; [reflexivity|].
      destruct (Ascii.eqb_spec c "{") as [->|]; [discriminate | reflexivity].
    + intros g0 [= -> _]. now exists g'.
  - destruct (IH r Hr) as (g' & Hg' & Heq & _ & Hhead).
    replace (("//" +:+ body +:+ str_lf +:+ g) +:+ r)
      with (("//" +:+ body) +:+ String char_lf (g +:+ r))
      by (unfold str_lf; now str_norm).
    rewrite brace_text by now apply comment_no_lf.
    destruct (ends_with_char "{" ("//" +:+ body)
              && starts_with (str_lf +:+ str_lf) (String char_lf (g +:+ r))) eqn:Hm.
    + apply andb_true_iff in Hm as [_ Hm].
      destruct (tight_lf_starts _ _ Hr Hm) as [g0 ->].
      destruct (Hhead g0 eq_refl) as [g0' ->].
      cbn [drop_chars]. rewrite Heq.
      exists ("//" +:+ body +:+ str_lf +:+ g0').
      split; [apply Gap_comment; [assumption | now apply Gap_lf_inv]|].
      split; [unfold str_lf; now str_norm|]. split; discriminate.
    + rewrite brace_step by reflexivity. rewrite Heq.
      exists ("//" +:+ body +:+ str_lf +:+ g').
      split; [now apply Gap_comment|].
      split; [unfold str_lf; now str_norm|]. split; discriminate.
Qed.

Lemma no_lf_head_text (t : token) (r : string) :
  good_sym t = true -> no_lf_head (token_text t +:+ r).
Proof.
  intros Ht. destruct (token_text_line t Ht) as (Hline & c & x & Htext).
  rewrite Htext in *. rewrite append_cons. cbn [no_lf_head contains] in *.
  now apply orb_false_iff in Hline as [Hc _].
Qed.

(** A rendering that starts with a line feed starts with a gap that
    does. *)
Lemma render_lf_head (ts : list (string * token)) (x : string) :
  Forall (fun gt => Gap (fst gt)) ts ->
  good_tokens (map snd ts) ->
  render ts = String char_lf x ->
  exists g t rest,
    ts = (String char_lf g, t) :: rest /\ Gap g /\ x = render ((g, t) :: rest).
Proof.
  intros Hgaps Hgood Hts. destruct ts as [|[g t] rest]; [discriminate|].
  cbn [map snd] in Hgood. destruct (good_tokens_tail _ _ Hgood) as [Ht _].
  pose proof (Forall_inv Hgaps) as Hg. cbn [fst] in Hg. cbn [render] in Hts.
  destruct g as [|c g].
  - exfalso. rewrite append_nil_l in Hts.
    pose proof (no_lf_head_text t (render rest) Ht) as Hhead.
    rewrite Hts in Hhead. cbn [no_lf_head] in Hhead.
    now rewrite Ascii.eqb_refl in Hhead.
  - rewrite append_cons in Hts. injection Hts as -> <-.
    exists g, t, rest. split; [reflexivity|]. split; [now apply Gap_lf_inv | reflexivity].
Qed.

Lemma brace_render (n : nat) :
  forall ts,
    length ts <= n ->
    Forall (fun gt => Gap (fst gt)) ts ->
    good_tokens (map snd ts) ->
    exists ts',
      map snd ts' = map snd ts
      /\ Forall (fun gt => Gap (fst gt)) ts'
      /\ replace_all brace_pat brace_repl 0 (render ts) = render ts'
      /\ (first_gap ts = "" -> first_gap ts' = "").
Proof.
  induction n as [|n IH]; intros ts Hlen Hgaps Hgood.
  { destruct ts; [|cbn in Hlen; lia]. now exists []. }
  destruct ts as [|[g t] rest]; [now exists []|].
  cbn [length] in Hlen. cbn [map snd] in Hgood.
  destruct (good_tokens_tail _ _ Hgood) as [Ht Hgood'].
  pose proof (Forall_inv Hgaps) as Hg. cbn [fst] in Hg.
  pose proof (Forall_inv_tail Hgaps) as Hgaps'.
  destruct (token_text_line t Ht) as (Hline & _).
  destruct (brace_gap g Hg (token_text t +:+ render rest) (no_lf_head_text t _ Ht))
    as (g' & Hg' & Hgeq & Hempty & _).
  cbn [render]. rewrite Hgeq, brace_text by assumption.
  destruct (ends_with_char "{" (token_text t)
            && starts_with (str_lf +:+ str_lf) (render rest)) eqn:Hm.
  - apply andb_true_iff in Hm as [_ Hm].
    change (str_lf +:+ str_lf) with (String char_lf str_lf) in Hm.
    destruct (render rest) as [|c x] eqn:Hrest; [discriminate|].
    rewrite starts_with_cons in Hm. apply andb_true_iff in Hm as [Hc _].
    apply Ascii.eqb_eq in Hc. subst c.
    destruct (render_lf_head rest x Hgaps' Hgood' Hrest) as (g2 & t2 & rest2 & -> & Hg2 & ->).
    cbn [drop_chars].
    destruct (IH ((g2, t2) :: rest2)) as (ts1 & Htoks & Hgaps1 & Heq & _).
    + cbn [length] in *. lia.
    + constructor; [exact Hg2 | exact (Forall_inv_tail Hgaps')].
    + exact Hgood'.
    + exists ((g', t) :: ts1). split; [cbn [map snd] in *; now rewrite Htoks|].
      split; [now constructor|]. split; [|exact Hempty].
      cbn [render] in *. now rewrite Heq.
  - destruct (IH rest ltac:(lia) Hgaps' Hgood') as (rest' & Htoks & Hgaps'' & Heq & _).
    exists ((g', t) :: rest'). split; [cbn [map snd]; now rewrite Htoks|].
    split; [now constructor|]. split; [|exact Hempty].
    cbn [render]. now rewrite Heq.
Qed.

(** *** The line feed before a closing brace *)

Lemma close_step (c : ascii) (s : string) :
  Ascii.eqb c char_lf = false ->
  replace_all close_pat close_repl 0 (String c s)
  = String c (replace_all close_pat close_repl 0 s).
Proof.
  intros Hc. apply replace_all_step.
  change close_pat with (String char_lf (str_lf +:+ "}")).
  now rewrite starts_with_cons, Ascii.eqb_sym, Hc.
Qed.

Lemma close_text (x : string) :
  forall r,
    contains char_lf x = false ->
    replace_all close_pat close_repl 0 (x +:+ r)
    = x +:+ replace_all close_pat close_repl 0 r.
Proof.
  induction x as [|c x IH]; intros r Hx; [reflexivity|].
  cbn [contains] in Hx. apply orb_false_iff in Hx as [Hc Hx].
  rewrite !append_cons, close_step, IH by assumption. reflexivity.
Qed.

(** A line feed, then a gap: the line feed stays, unless one more line
    feed and the closing brace follow, and then that second one goes. *)
Lemma close_lf (g r : string) :
  Gap g -> no_lf_head r ->
  (exists g', Gap g'
     /\ replace_all close_pat close_repl 0 (g +:+ r)
        = g' +:+ replace_all close_pat close_repl 0 r) ->
  exists g', Gap g'
    /\ replace_all close_pat close_repl 0 (String char_lf (g +:+ r))
       = String char_lf (g' +:+ replace_all close_pat close_repl 0 r).
Proof.
  intros Hg Hr (g1 & Hg1 & Heq).
  destruct (starts_with close_pat (String char_lf (g +:+ r))) eqn:Hm.
  - change close_pat with (String char_lf (String char_lf "}")) in Hm.
    rewrite starts_with_cons in Hm. apply andb_true_iff in Hm as [_ Hm].
    destruct g as [|c g].
    { exfalso. rewrite append_nil_l in Hm. destruct r as [|c r]; [discriminate|].
      rewrite starts_with_cons in Hm. cbn [no_lf_head] in Hr.
      rewrite Ascii.eqb_sym, Hr in Hm. discriminate. }
    rewrite append_cons, starts_with_cons in Hm. apply andb_true_iff in Hm as [Hc Hm].
    apply Ascii.eqb_eq in Hc. subst c.
    destruct g as [|d g].
    + rewrite append_nil_l in Hm. destruct r as [|d r]; [discriminate|].
      rewrite starts_with_cons in Hm. apply andb_true_iff in Hm as [Hd _].
      apply Ascii.eqb_eq in Hd. subst d.
      exists "". split; [constructor|].
      change (String char_lf ((String char_lf "") +:+ String "}" r))
        with (String char_lf (String char_lf "}") +:+ r).
      change close_pat with (String char_lf (String char_lf "}")).
      rewrite replace_all_match.
      change (String char_lf (String char_lf "}")) with close_pat.
      rewrite append_nil_l, close_step by reflexivity. reflexivity.
    + exfalso. rewrite append_cons, starts_with_cons in Hm.
      apply andb_true_iff in Hm as [Hd _]. apply Ascii.eqb_eq in Hd. subst d.
      apply Gap_lf_inv in Hg. destruct (Gap_head _ _ Hg) as [Hd|Hd]; discriminate.
  - exists g1. split; [exact Hg1|]. rewrite replace_all_step by exact Hm. now rewrite Heq.
Qed.

Lemma close_gap (g : string) :
  Gap g ->
  forall r, no_lf_head r ->
    exists g',
      Gap g'
      /\ replace_all close_pat close_repl 0 (g +:+ r)
         = g' +:+ replace_all close_pat close_repl 0 r
      /\ (g = "" -> g' = "").
Proof.
  induction 1 as [|c g Hc Hg IH|body g Hb Hg IH]; intros r Hr.
  - exists "". split; [constructor|]. now split.
  - destruct (IH r Hr) as (g' & Hg' & Heq & _).
    destruct (Ascii.eqb c char_lf) eqn:Hlf.
    + apply Ascii.eqb_eq in Hlf. subst c.
      destruct (close_lf g r Hg Hr) as (g2 & Hg2 & Heq2); [now exists g'|].
      exists (String char_lf g2). split; [now apply Gap_ws|]. split; [|discriminate].
      now rewrite !append_cons.
    + exists (String c g'). split; [now apply Gap_ws|]. split; [|discriminate].
      rewrite !append_cons, close_step, Heq by assumption. reflexivity.
  - destruct (IH r Hr) as (g' & Hg' & Heq & _).
    destruct (close_lf g r Hg Hr) as (g2 & Hg2 & Heq2); [now exists g'|].
    exists ("//" +:+ body +:+ str_lf +:+ g2). split; [now apply Gap_comment|].
    split; [|discriminate].
    replace (("//" +:+ body +:+ str_lf +:+ g) +:+ r)
      with (("//" +:+ body) +:+ String char_lf (g +:+ r))
      by (unfold str_lf; now str_norm).
    rewrite close_text by now apply comment_no_lf.
    rewrite Heq2. unfold str_lf. now str_norm.
Qed.

Lemma close_render (ts : list (string * token)) :
  Forall (fun gt => Gap (fst gt)) ts ->
  good_tokens (map snd ts) ->
  exists ts',
    map snd ts' = map snd ts
    /\ Forall (fun gt => Gap (fst gt)) ts'
    /\ replace_all close_pat close_repl 0 (render ts) = render ts'
    /\ (first_gap ts = "" -> first_gap ts' = "").
Proof.
  induction ts as [|[g t] rest IH]; intros Hgaps Hgood; [now exists []|].
  cbn [map snd] in Hgood. destruct (good_tokens_tail _ _ Hgood) as [Ht Hgood'].
  pose proof (Forall_inv Hgaps) as Hg. cbn [fst] in Hg.
  destruct (IH (Forall_inv_tail Hgaps) Hgood') as (rest' & Htoks & Hgaps' & Heq & _).
  destruct (close_gap g Hg (token_text t +:+ render rest) (no_lf_head_text t _ Ht))
    as (g' & Hg' & Hgeq & Hempty).
  destruct (token_text_line t Ht) as (Hline & _).
  exists ((g', t) :: rest'). split; [cbn [map snd]; now rewrite Htoks|].
  split; [now constructor|]. split; [|exact Hempty].
  cbn [render]. now rewrite Hgeq, close_text, Heq.
Qed.

(** ** Trimming *)

Lemma token_text_last (t : token) :
  good_sym t = true -> exists y c, token_text t = y +:+ String c "" /\ is_ws c = false.
Proof.
  destruct t as [a|s]; intros Ht.
  - destruct (good_sym_inv _ Ht) as (Ha & c & a' & -> & _). clear Ht.
    revert c Ha. induction a' as [|d a' IH]; intros c Ha.
    + exists "", c. split; [reflexivity|]. cbn [all_chars] in Ha.
      apply andb_true_iff in Ha as [Hc _]. apply (sym_char_inv _ Hc).
    + cbn [all_chars] in Ha. apply andb_true_iff in Ha as [_ Ha].
      destruct (IH d Ha) as (y & e & Heq & He). exists (String c y), e.
      split; [cbn [token_text] in *; now rewrite Heq | exact He].
  - exists (str_quote +:+ escape_string s), char_quote. split; [|reflexivity].
    cbn [token_text]. unfold quote_json, str_quote. now rewrite !append_assoc.
Qed.

Lemma render_last (ts : list (string * token)) :
  ts <> [] -> forallb good_sym (map snd ts) = true ->
  exists y c, render ts = y +:+ String c "" /\ is_ws c = false.
Proof.
  induction ts as [|[g t] rest IH]; intros Hne Hgood; [contradiction|].
  cbn [map snd forallb] in Hgood. apply andb_true_iff in Hgood as [Ht Hgood].
  cbn [render]. destruct rest as [|p rest].
  - destruct (token_text_last t Ht) as (y & c & -> & Hc). exists (g +:+ y), c.
    split; [cbn [render]; now rewrite append_nil_r, append_assoc | exact Hc].
  - destruct (IH ltac:(discriminate) Hgood) as (y & c & -> & Hc).
    exists (g +:+ token_text t +:+ y), c. split; [now rewrite !append_assoc | exact Hc].
Qed.

Lemma trim_end_tight_last (y : string) (c : ascii) :
  is_ws c = false -> trim_end (y +:+ String c "") = y +:+ String c "".
Proof.
  intros Hc. unfold trim_end. rewrite rev_string_append. cbn [rev_string].
  rewrite append_cons, append_nil_l. cbn [trim_start]. rewrite Hc.
  change (String c (rev_string "" y)) with (rev_string "" (String c "") +:+ rev_string "" y).
  now rewrite <- rev_string_append, rev_string_involutive.
Qed.

Lemma trim_end_lf (x : string) : trim_end (x +:+ str_lf) = trim_end x.
Proof.
  unfold trim_end. rewrite rev_string_append.
  change (rev_string "" str_lf +:+ rev_string "" x) with (String char_lf (rev_string "" x)).
  reflexivity.
Qed.

(** A text that starts and ends with something else than white space is
    its own trimming, also with a line feed after it. *)
Lemma js_trim_tight (c d : ascii) (x y : string) :
  is_ws c = false -> is_ws d = false ->
  String c x = y +:+ String d "" ->
  js_trim (String c x) = String c x /\ js_trim (String c x +:+ str_lf) = String c x.
Proof.
  intros Hc Hd Heq. unfold js_trim. rewrite append_cons. cbn [trim_start]. rewrite Hc.
  rewrite <- append_cons, trim_end_lf, Heq. now rewrite trim_end_tight_last.
Qed.

(** ** The comment sections *)

Lemma all_chars_app (f : ascii -> bool) (a b : string) :
  all_chars f (a +:+ b) = all_chars f a && all_chars f b.
Proof.
  induction a as [|c a IH]; [reflexivity|]. rewrite append_cons. cbn [all_chars].
  now rewrite IH, andb_assoc.
Qed.

Lemma comment_safe_chars (s : string) :
  comment_safe s = true -> all_chars comment_char s = true.
Proof.
  unfold comment_safe. induction s as [|c s IH]; [reflexivity|]. cbn [all_chars].
  intros Hs. apply andb_true_iff in Hs as [Hc Hs]. apply andb_true_iff in Hc as [Hc _].
  now rewrite Hc, IH.
Qed.

Lemma comment_line_text (text : string) :
  all_chars comment_char text = true -> comment_line ("// " +:+ text).
Proof.
  intros Ht. exists "", (" " +:+ text). split; [reflexivity|]. split; [reflexivity|].
  rewrite append_cons, append_nil_l. cbn [all_chars]. now rewrite Ht.
Qed.

Section Sections.

Context `{Externals}.

Lemma commentSections_good :
  comment_safe cliDomainDocs = true -> comment_safe cliName = true ->
  Forall good_entry commentSections.
Proof.
  intros Hdocs Hname. apply comment_safe_chars in Hdocs, Hname.
  unfold commentSections.
  repeat (constructor; [split; [reflexivity|]; split; [discriminate|]|]);
    try (cbn [snd]; repeat constructor);
    try (apply comment_line_text; reflexivity).
  - change (comment ("RELIVERSE CONFIG (" +:+ cliDomainDocs +:+ ")"))
      with ("// " +:+ ("RELIVERSE CONFIG (" +:+ cliDomainDocs +:+ ")")).
    apply comment_line_text. rewrite !all_chars_app, Hdocs. reflexivity.
  - change (comment ("This jsonc file is generated by " +:+ cliName))
      with ("// " +:+ ("This jsonc file is generated by " +:+ cliName)).
    apply comment_line_text. rewrite !all_chars_app, Hname. reflexivity.
Qed.

(** [injectSectionComments] on a rendering that starts with a token:
    the tokens stay, the gaps change. *)
Lemma injectSectionComments_render (ts : list (string * token)) :
  comment_safe cliDomainDocs = true -> comment_safe cliName = true ->
  ts <> [] -> first_gap ts = "" ->
  Forall (fun gt => Gap (fst gt)) ts ->
  good_tokens (map snd ts) ->
  exists ts',
    map snd ts' = map snd ts
    /\ Forall (fun gt => Gap (fst gt)) ts'
    /\ injectSectionComments (render ts) = render ts' +:+ str_lf
    /\ js_trim (render ts' +:+ str_lf) = render ts'.
Proof.
  intros Hdocs Hname Hne Hfirst Hgaps Hgood.
  destruct (inject_sections_render commentSections (commentSections_good Hdocs Hname)
              ts Hgaps Hgood) as (ts0 & Htoks0 & Hgaps0 & Heq0 & Hfirst0).
  rewrite <- Htoks0 in Hgood.
  destruct (collapse_blank_lines_render ts0 Hgaps0 Hgood 0)
    as (ts1 & Htoks1 & Hgaps1 & Heq1 & Hfirst1).
  rewrite <- Htoks1 in Hgood.
  destruct (brace_render (length ts1) ts1 (le_n _) Hgaps1 Hgood)
    as (ts2 & Htoks2 & Hgaps2 & Heq2 & Hfirst2).
  rewrite <- Htoks2 in Hgood.
  destruct (close_render ts2 Hgaps2 Hgood) as (ts3 & Htoks3 & Hgaps3 & Heq3 & Hfirst3).
  rewrite <- Htoks3 in Hgood.
  assert (Hfirst' : first_gap ts3 = "") by tauto.
  assert (Hne' : ts3 <> []).
  { intros ->. destruct ts as [|p ts]; [contradiction|].
    assert (Hlen : length (map snd (@nil (string * token))) = length (map snd (p :: ts)))
      by congruence.
    discriminate Hlen. }
  destruct (render_last ts3 Hne' (proj1 Hgood)) as (y & d & Hlast & Hd).
  destruct ts3 as [|[g t] rest]; [contradiction|]. cbn [first_gap] in Hfirst'. subst g.
  destruct (good_tokens_tail _ _ Hgood) as [Ht _].
  assert (Hhead : exists c x, render (("", t) :: rest) = String c x /\ is_ws c = false).
  { cbn [render]. rewrite append_nil_l. destruct t as [a|s].
    - destruct (good_sym_inv _ Ht) as (_ & c & a' & -> & Hc). exists c, (a' +:+ render rest).
      split; [reflexivity | apply (sym_char_inv _ Hc)].
    - cbn [token_text]. rewrite quote_json_text. now eexists _, _. }
  destruct Hhead as (c & x & Hhead & Hc). rewrite Hhead in Hlast.
  destruct (js_trim_tight c d x y Hc Hd Hlast) as [Htrim Htrim'].
  exists (("", t) :: rest). split; [congruence|]. split; [assumption|].
  rewrite Hhead. split; [|exact Htrim'].
  unfold injectSectionComments. cbv zeta.
  rewrite Heq0, Heq1.
  change ("{" +:+ str_lf +:+ str_lf) with brace_pat.
  change ("{" +:+ str_lf) with brace_repl.
  change (str_lf +:+ str_lf +:+ "}") with close_pat.
  change (str_lf +:+ "}") with close_repl.
  now rewrite Heq2, Heq3, Hhead, Htrim.
Qed.

End Sections.

(** ** The serializer writes the tokens of the value *)

Lemma render_app (a b : list (string * token)) :
  render (a ++ b) = render a +:+ render b.
Proof.
  induction a as [|[g t] a IH]; [reflexivity|].
  rewrite <- app_comm_cons. cbn [render]. rewrite IH. now rewrite !append_assoc.
Qed.

Lemma Gap_ws_string (w : string) : all_chars json_ws w = true -> Gap w.
Proof.
  intros Hw. rewrite <- (append_nil_r w). apply Gap_all_ws; [exact Hw | constructor].
Qed.

Lemma join_cons_more (sep x : string) (l : list string) :
  l <> [] -> join sep (x :: l) = x +:+ sep +:+ join sep l.
Proof. destruct l as [|y l]; [contradiction|]. intros _. apply join_cons. Qed.

Lemma stringify_defined (indent : string) (v : value) :
  json_value v = true -> exists t, stringify indent v = Some t.
Proof. destruct v; cbn [json_value stringify]; intros Hv; try discriminate; now eexists. Qed.

Lemma items_render (indent : string) (l : list value) :
  Forall (fun v => forall indent g,
            json_value v = true -> all_chars json_ws indent = true -> Gap g ->
            exists text ts,
              stringify indent v = Some text
              /\ map snd ts = tokens_of v
              /\ Forall (fun gt => Gap (fst gt)) ts
              /\ render ts = g +:+ text
              /\ first_gap ts = g) l ->
  forallb json_value l = true -> all_chars json_ws indent = true -> l <> [] ->
  forall g, Gap g ->
  exists ts,
    map snd ts = tl (tokens_of (VArr l))
    /\ Forall (fun gt => Gap (fst gt)) ts
    /\ render ts
       = g +:+ join ("," +:+ str_lf +:+ indent +:+ "  ")
                 (map (fun e => match stringify (indent +:+ "  ") e with
                                | Some t => t
                                | None => "null"
                                end) l)
           +:+ str_lf +:+ indent +:+ "]".
Proof.
  intros HF. induction HF as [|e rest He _ IH]; intros Hjs Hind Hne g Hg; [contradiction|].
  cbn [forallb] in Hjs. apply andb_true_iff in Hjs as [Hje Hjs].
  assert (Hinner : all_chars json_ws (indent +:+ "  ") = true)
    by (rewrite all_chars_app, Hind; reflexivity).
  destruct (He (indent +:+ "  ") g Hje Hinner Hg) as (t & ts_e & Hs & Htok & Hgaps & Hr & _).
  destruct rest as [|e' rest'].
  - exists (ts_e ++ [(str_lf +:+ indent, TSym "]")]). split; [|split].
    + rewrite map_app, Htok. reflexivity.
    + apply Forall_app. split; [exact Hgaps|]. constructor; [|constructor].
      cbn [fst]. apply Gap_ws_string. rewrite all_chars_app, Hind. reflexivity.
    + rewrite render_app, Hr. cbn [map join fold_left render token_text]. rewrite Hs.
      now rewrite append_nil_r, !append_assoc.
  - assert (Hsep : Gap (str_lf +:+ indent +:+ "  ")).
    { apply Gap_ws_string. rewrite all_chars_app, Hinner. reflexivity. }
    destruct (IH Hjs Hind ltac:(discriminate) _ Hsep) as (ts_r & Htok_r & Hgaps_r & Hr_r).
    exists (ts_e ++ ("", TSym ",") :: ts_r). split; [|split].
    + rewrite map_app, Htok. cbn [map snd]. rewrite Htok_r. reflexivity.
    + apply Forall_app. split; [exact Hgaps|]. constructor; [constructor | exact Hgaps_r].
    + rewrite render_app, Hr. cbn [render token_text]. rewrite Hr_r.
      cbn [map]. rewrite join_cons, Hs. cbn [map]. now rewrite append_nil_l, !append_assoc.
Qed.

Lemma members_render (indent : string) (o : obj) :
  Forall (fun kv => forall indent g,
            json_value (snd kv) = true -> all_chars json_ws indent = true -> Gap g ->
            exists text ts,
              stringify indent (snd kv) = Some text
              /\ map snd ts = tokens_of (snd kv)
              /\ Forall (fun gt => Gap (fst gt)) ts
              /\ render ts = g +:+ text
              /\ first_gap ts = g) o ->
  forallb (fun kv => json_value (snd kv)) o = true ->
  all_chars json_ws indent = true -> o <> [] ->
  forall g, Gap g ->
  members_of indent o <> []
  /\ exists ts,
       map snd ts = tl (tokens_of (VObj o))
       /\ Forall (fun gt => Gap (fst gt)) ts
       /\ render ts
          = g +:+ join ("," +:+ str_lf +:+ indent +:+ "  ") (members_of indent o)
              +:+ str_lf +:+ indent +:+ "}".
Proof.
  intros HF. induction HF as [|[k x] rest Hx _ IH]; intros Hjs Hind Hne g Hg; [contradiction|].
  cbn [forallb snd] in Hjs, Hx. apply andb_true_iff in Hjs as [Hjx Hjs].
  assert (Hinner : all_chars json_ws (indent +:+ "  ") = true)
    by (rewrite all_chars_app, Hind; reflexivity).
  assert (Hsp : Gap " ") by (apply Gap_ws_string; reflexivity).
  destruct (Hx (indent +:+ "  ") " " Hjx Hinner Hsp) as (t & ts_x & Hs & Htok & Hgaps & Hr & _).
  cbn [members_of]. rewrite Hs. split; [discriminate|].
  destruct rest as [|e' rest'].
  - exists ((g, TStr k) :: ("", TSym ":") :: ts_x ++ [(str_lf +:+ indent, TSym "}")]).
    split; [|split].
    + cbn [map snd]. rewrite map_app, Htok. reflexivity.
    + constructor; [exact Hg|]. constructor; [constructor|].
      apply Forall_app. split; [exact Hgaps|]. constructor; [|constructor].
      cbn [fst]. apply Gap_ws_string. rewrite all_chars_app, Hind. reflexivity.
    + cbn [render token_text]. rewrite render_app, Hr.
      cbn [members_of join fold_left render token_text].
      now rewrite append_nil_r, append_nil_l, !append_assoc.
  - assert (Hsep : Gap (str_lf +:+ indent +:+ "  ")).
    { apply Gap_ws_string. rewrite all_chars_app, Hinner. reflexivity. }
    destruct (IH Hjs Hind ltac:(discriminate) _ Hsep)
      as (Hmore & ts_r & Htok_r & Hgaps_r & Hr_r).
    exists ((g, TStr k) :: ("", TSym ":") :: ts_x ++ ("", TSym ",") :: ts_r).
    split; [|split].
    + cbn [map snd]. rewrite map_app, Htok. cbn [map snd]. rewrite Htok_r.
      destruct e' as [k' x']. reflexivity.
    + constructor; [exact Hg|]. constructor; [constructor|].
      apply Forall_app. split; [exact Hgaps|]. constructor; [constructor | exact Hgaps_r].
    + cbn [render token_text]. rewrite render_app, Hr. cbn [render token_text]. rewrite Hr_r.
      rewrite (join_cons_more _ _ _ Hmore). now rewrite !append_nil_l, !append_assoc.
Qed.

(** [JSON.stringify] writes the tokens of the value, with white space
    between them. *)
Lemma stringify_render (v : value) :
  forall indent g,
    json_value v = true -> all_chars json_ws indent = true -> Gap g ->
    exists text ts,
      stringify indent v = Some text
      /\ map snd ts = tokens_of v
      /\ Forall (fun gt => Gap (fst gt)) ts
      /\ render ts = g +:+ text
      /\ first_gap ts = g.
Proof.
  induction v as [| |b|n|s|l IHl|o IHo] using value_nested_ind; intros indent g Hjs Hind Hg.
  - discriminate.
  - exists "null", [(g, TSym "null")]. repeat split; try (now repeat constructor).
    all: cbn [render token_text]; now rewrite append_nil_r.
  - exists (if b then "true" else "false"), [(g, TSym (if b then "true" else "false"))].
    repeat split; try (now repeat constructor).
    all: cbn [render token_text]; now rewrite append_nil_r.
  - exists (decimal n), [(g, TSym (decimal n))]. repeat split; try (now repeat constructor).
    all: cbn [render token_text]; now rewrite append_nil_r.
  - exists (quote_json s), [(g, TStr s)]. repeat split; try (now repeat constructor).
    all: cbn [render token_text]; now rewrite append_nil_r.
  - cbn [json_value] in Hjs. cbn [stringify]. destruct l as [|e rest].
    + exists ("[" +:+ "]"), [(g, TSym "["); ("", TSym "]")].
      repeat split; try (now repeat constructor).
      all: cbn [render token_text]; now rewrite append_nil_r, append_nil_l.
    + assert (Hsep : Gap (str_lf +:+ indent +:+ "  ")).
      { apply Gap_ws_string. rewrite !all_chars_app, Hind. reflexivity. }
      destruct (items_render indent (e :: rest) IHl Hjs Hind ltac:(discriminate) _ Hsep)
        as (ts & Htok & Hgaps & Hr).
      eexists _, ((g, TSym "[") :: ts). split; [reflexivity|]. split; [|split; [|split]].
      * cbn [map snd]. rewrite Htok. reflexivity.
      * constructor; [exact Hg | exact Hgaps].
      * cbn [render token_text]. rewrite Hr. unfold bracketed. cbv zeta. cbn [map].
        now rewrite !append_assoc.
      * reflexivity.
  - cbn [json_value] in Hjs. apply andb_true_iff in Hjs as [_ Hjs].
    rewrite stringify_object. destruct o as [|e rest].
    + exists ("{" +:+ "}"), [(g, TSym "{"); ("", TSym "}")].
      repeat split; try (now repeat constructor).
      all: cbn [render token_text]; now rewrite append_nil_r, append_nil_l.
    + assert (Hsep : Gap (str_lf +:+ indent +:+ "  ")).
      { apply Gap_ws_string. rewrite !all_chars_app, Hind. reflexivity. }
      destruct (members_render indent (e :: rest) IHo Hjs Hind ltac:(discriminate) _ Hsep)
        as (Hmore & ts & Htok & Hgaps & Hr).
      eexists _, ((g, TSym "{") :: ts). split; [reflexivity|]. split; [|split; [|split]].
      * cbn [map snd]. rewrite Htok. reflexivity.
      * constructor; [exact Hg | exact Hgaps].
      * cbn [render token_text]. rewrite Hr. unfold bracketed. cbv zeta.
        destruct (members_of indent (e :: rest)) as [|y ys]; [contradiction|].
        now rewrite !append_assoc.
      * reflexivity.
Qed.

(** ** The tokens of a value are well formed *)

Lemma digits_sym (d : Decimal.uint) :
  all_chars sym_char (NilEmpty.string_of_uint d) = true.
Proof. induction d; cbn [NilEmpty.string_of_uint all_chars]; [reflexivity | now rewrite IHd ..]. Qed.

Lemma digits_not_empty (p : positive) :
  exists c rest, NilEmpty.string_of_uint (Pos.to_uint p) = String c rest.
Proof.
  pose proof (DecimalPos.Unsigned.to_uint_nonnil p) as Hne.
  destruct (Pos.to_uint p); [contradiction | now eexists _, _ ..].
Qed.

Lemma decimal_sym (n : Z) : good_sym (TSym (decimal n)) = true.
Proof.
  unfold decimal, good_sym. destruct n as [|p|p]; cbn [Z.to_int NilEmpty.string_of_int].
  - reflexivity.
  - rewrite digits_sym. now destruct (digits_not_empty p) as (c & rest & ->).
  - cbn [all_chars]. now rewrite digits_sym.
Qed.

Lemma tokens_good_sym (v : value) : forallb good_sym (tokens_of v) = true.
Proof.
  induction v as [| |b|n|s|l IHl|o IHo] using value_nested_ind; try reflexivity.
  - now destruct b.
  - cbn [tokens_of forallb]. now rewrite decimal_sym.
  - change (forallb good_sym (tl (tokens_of (VArr l))) = true).
    induction IHl as [|e rest He _ IH]; [reflexivity|].
    change (tl (tokens_of (VArr (e :: rest))))
      with (tokens_of e ++ match rest with
                           | [] => tl (tokens_of (VArr rest))
                           | _ :: _ => TSym "," :: tl (tokens_of (VArr rest))
                           end).
    rewrite forallb_app, He. now destruct rest.
  - change (forallb good_sym (tl (tokens_of (VObj o))) = true).
    induction IHo as [|[k x] rest Hx _ IH]; [reflexivity|].
    change (tl (tokens_of (VObj ((k, x) :: rest))))
      with (TStr k :: TSym ":" :: tokens_of x
              ++ match rest with
                 | [] => tl (tokens_of (VObj rest))
                 | _ :: _ => TSym "," :: tl (tokens_of (VObj rest))
                 end).
    cbn [forallb good_sym snd] in Hx |- *. rewrite forallb_app, Hx. now destruct rest.
Qed.

Lemma delimited_app (a b : list token) :
  delimited a = true -> delimited b = true ->
  match b with
  | TSym s :: _ => is_delimiter s = true
  | _ => False
  end ->
  delimited (a ++ b) = true.
Proof.
  intros Ha Hb Hhead. induction a as [|t a IH]; [exact Hb|].
  rewrite <- app_comm_cons. destruct t as [s|s].
  - cbn [delimited] in Ha |- *. now apply IH.
  - cbn [delimited] in Ha |- *. destruct a as [|[s'|s'] a].
    + cbn [app]. destruct b as [|[s'|s'] b]; try contradiction.
      now rewrite Hhead, Hb.
    + apply andb_true_iff in Ha as [Hs' Ha]. rewrite <- app_comm_cons, Hs'.
      cbn [andb]. now apply IH.
    + discriminate.
Qed.

Lemma tokens_delimited (v : value) : delimited (tokens_of v) = true.
Proof.
  induction v as [| |b|n|s|l IHl|o IHo] using value_nested_ind; try reflexivity.
  - change (delimited (tl (tokens_of (VArr l))) = true).
    induction IHl as [|e rest He _ IH]; [reflexivity|].
    change (tl (tokens_of (VArr (e :: rest))))
      with (tokens_of e ++ match rest with
                           | [] => tl (tokens_of (VArr rest))
                           | _ :: _ => TSym "," :: tl (tokens_of (VArr rest))
                           end).
    apply delimited_app; [exact He | now destruct rest | now destruct rest].
  - change (delimited (tl (tokens_of (VObj o))) = true).
    induction IHo as [|[k x] rest Hx _ IH]; [reflexivity|].
    change (tl (tokens_of (VObj ((k, x) :: rest))))
      with (TStr k :: TSym ":" :: tokens_of x
              ++ match rest with
                 | [] => tl (tokens_of (VObj rest))
                 | _ :: _ => TSym "," :: tl (tokens_of (VObj rest))
                 end).
    cbn [snd] in Hx. cbn [delimited is_delimiter Ascii.eqb]. cbn.
    apply delimited_app; [exact Hx | now destruct rest | now destruct rest].
Qed.

Lemma tokens_good (v : value) : good_tokens (tokens_of v).
Proof. split; [apply tokens_good_sym | apply tokens_delimited]. Qed.

(** ** The reference reader: comments *)

Lemma nat_of_ascii_eqb (c : ascii) (n : nat) :
  n < 256 -> Nat.eqb (nat_of_ascii c) n = Ascii.eqb c (ascii_of_nat n).
Proof.
  intros Hn. destruct (Ascii.eqb_spec c (ascii_of_nat n)) as [->|Hne].
  - rewrite nat_ascii_embedding by exact Hn. apply Nat.eqb_refl.
  - apply Nat.eqb_neq. intros Heq. apply Hne. rewrite <- Heq. now rewrite ascii_nat_embedding.
Qed.

Lemma strip_line (body y : string) :
  all_chars comment_char body = true ->
  strip_comments InLine (body +:+ str_lf +:+ y) = String char_lf (strip_comments InCode y).
Proof.
  induction body as [|c body IH]; cbn [all_chars]; intros Hb; [reflexivity|].
  apply andb_true_iff in Hb as [Hc Hb]. rewrite append_cons. cbn [strip_comments].
  destruct (comment_char_inv c Hc) as (Hlf & _).
  rewrite (nat_of_ascii_eqb c 10) by lia. change (ascii_of_nat 10) with char_lf.
  rewrite Hlf. now apply IH.
Qed.

Lemma json_ws_code (c : ascii) :
  json_ws c = true ->
  Nat.eqb (nat_of_ascii c) 34 = false /\ Nat.eqb (nat_of_ascii c) 47 = false.
Proof.
  unfold json_ws. cbv zeta. intros Hc.
  repeat (apply orb_true_iff in Hc as [Hc|Hc]); apply Nat.eqb_eq in Hc; now rewrite Hc.
Qed.

Lemma strip_gap (g x : string) :
  Gap g ->
  exists w, all_ws w = true
            /\ strip_comments InCode (g +:+ x) = w +:+ strip_comments InCode x.
Proof.
  induction 1 as [|c g Hc Hg (w & Hw & IH)|body g Hb Hg (w & Hw & IH)].
  - now exists "".
  - exists (String c w). split; [cbn [all_ws]; now rewrite (json_ws_is_ws c Hc), Hw|].
    rewrite !append_cons. cbn [strip_comments].
    destruct (json_ws_code c Hc) as [-> ->]. now rewrite IH.
  - exists (String char_lf w). split; [exact Hw|].
    rewrite !append_assoc.
    change (strip_comments InCode ("//" +:+ body +:+ str_lf +:+ g +:+ x))
      with (strip_comments InLine (body +:+ str_lf +:+ g +:+ x)).
    rewrite (strip_line body _ Hb), IH. now rewrite append_cons.
Qed.

Lemma strip_sym (a x : string) :
  all_chars sym_char a = true ->
  strip_comments InCode (a +:+ x) = a +:+ strip_comments InCode x.
Proof.
  induction a as [|c a IH]; cbn [all_chars]; intros Ha; [reflexivity|].
  apply andb_true_iff in Ha as [Hc Ha]. rewrite !append_cons. cbn [strip_comments].
  destruct (sym_char_inv c Hc) as (_ & Hq & Hs & _).
  rewrite (nat_of_ascii_eqb c 34), (nat_of_ascii_eqb c 47) by lia.
  change (ascii_of_nat 34) with char_quote. change (ascii_of_nat 47) with char_slash.
  now rewrite Hq, Hs, IH.
Qed.

Lemma strip_escaped (e x : string) :
  Escaped e ->
  strip_comments InString (e +:+ String char_quote x)
  = e +:+ String char_quote (strip_comments InCode x).
Proof.
  induction 1 as [|c s Hc Hs IH|c s Hc Hs IH].
  - reflexivity.
  - rewrite !append_cons. cbn [strip_comments].
    unfold plain_char in Hc. apply negb_true_iff in Hc.
    apply orb_false_iff in Hc as [Hc _]. apply orb_false_iff in Hc as [Hq Hb].
    rewrite (nat_of_ascii_eqb c 34), (nat_of_ascii_eqb c 92) by lia.
    change (ascii_of_nat 34) with char_quote. change (ascii_of_nat 92) with char_bs.
    now rewrite Hq, Hb, IH.
  - rewrite !append_cons.
    change (strip_comments InString (String char_bs (String c (s +:+ String char_quote x))))
      with (String char_bs (String c (strip_comments InString (s +:+ String char_quote x)))).
    now rewrite IH.
Qed.

Lemma strip_token (t : token) (x : string) :
  good_sym t = true ->
  strip_comments InCode (token_text t +:+ x) = token_text t +:+ strip_comments InCode x.
Proof.
  destruct t as [a|s]; intros Ht.
  - destruct (good_sym_inv _ Ht) as [Ha _]. now apply strip_sym.
  - cbn [token_text]. rewrite !quote_json_text.
    change (strip_comments InCode (String char_quote (escape_string s +:+ String char_quote x)))
      with (String char_quote
              (strip_comments InString (escape_string s +:+ String char_quote x))).
    now rewrite (strip_escaped _ _ (Escaped_escape_string s)).
Qed.

(** Without its comments, a rendering is a rendering of the same tokens
    with white space between them. *)
Lemma strip_render (ts : list (string * token)) (x : string) :
  Forall (fun gt => Gap (fst gt)) ts ->
  forallb good_sym (map snd ts) = true ->
  exists ts',
    map snd ts' = map snd ts
    /\ Forall (fun gt => all_ws (fst gt) = true) ts'
    /\ strip_comments InCode (render ts +:+ x) = render ts' +:+ strip_comments InCode x.
Proof.
  induction ts as [|[g t] ts IH]; intros Hgaps Hgood.
  - now exists [].
  - cbn [map snd forallb] in Hgood. apply andb_true_iff in Hgood as [Ht Hgood].
    destruct (IH (Forall_inv_tail Hgaps) Hgood) as (ts' & Htoks & Hws & Heq).
    destruct (strip_gap g (token_text t +:+ render ts +:+ x) (Forall_inv Hgaps))
      as (w & Hw & Hg).
    exists ((w, t) :: ts'). split; [cbn [map snd]; now rewrite Htoks|].
    split; [now constructor|].
    cbn [render]. now rewrite !append_assoc, Hg, (strip_token t _ Ht), Heq.
Qed.

(** ** The reference reader: numbers, strings and literals *)

Lemma length_app (a b : string) :
  String.length (a +:+ b) = String.length a + String.length b.
Proof.
  induction a as [|c a IH]; [reflexivity|].
  rewrite append_cons. cbn [String.length]. now rewrite IH.
Qed.

Ltac code_tests :=
  repeat match goal with
         | |- context [Nat.eqb ?a ?b] => destruct (Nat.eqb_spec a b); try lia
         | |- context [Nat.leb ?a ?b] => destruct (Nat.leb_spec a b); try lia
         end.

Lemma is_digit_code (c : ascii) :
  is_digit c = true -> 48 <= nat_of_ascii c <= 57.
Proof.
  unfold is_digit. cbv zeta. intros Hc. apply andb_true_iff in Hc as [H1 H2].
  apply Nat.leb_le in H1, H2. lia.
Qed.

Lemma is_ws_not_digit (c : ascii) : is_ws c = true -> is_digit c = false.
Proof.
  unfold is_ws, is_digit. cbv zeta. intros Hc.
  destruct (Nat.leb 48 (nat_of_ascii c) && Nat.leb (nat_of_ascii c) 57) eqn:Hd;
    [|reflexivity].
  apply andb_true_iff in Hd as [H1 H2]. apply Nat.leb_le in H1, H2.
  revert Hc. code_tests; try discriminate.
Qed.

Lemma read_digits_end (acc : Z) (r : string) :
  no_digit_head r -> read_digits acc true r = Some (acc, r).
Proof.
  destruct r as [|c r]; [reflexivity|]. cbn [no_digit_head read_digits].
  unfold is_digit. cbv zeta. now intros ->.
Qed.

Ltac digit_step :=
  rewrite append_cons;
  match goal with
  | |- read_digits ?z ?any (String ?c ?x) = _ =>
      let k := eval vm_compute in (Z.of_nat (nat_of_ascii c - 48)) in
      change (read_digits z any (String c x)) with (read_digits (10 * z + k) true x)
  end.

Lemma read_digits_acc (d : Decimal.uint) (r : string) :
  no_digit_head r ->
  forall a : positive,
    read_digits (Z.pos a) true (NilEmpty.string_of_uint d +:+ r)
    = Some (Z.pos (Pos.of_uint_acc d a), r).
Proof.
  intros Hr. induction d as [|d IH|d IH|d IH|d IH|d IH|d IH|d IH|d IH|d IH|d IH];
    intros a; cbn [NilEmpty.string_of_uint Pos.of_uint_acc];
    [now apply read_digits_end|..];
    digit_step; rewrite <- IH; f_equal; lia.
Qed.

Lemma read_digits_uint (d : Decimal.uint) (r : string) :
  no_digit_head r ->
  forall any : bool,
    any = true \/ d <> Decimal.Nil ->
    read_digits 0 any (NilEmpty.string_of_uint d +:+ r) = Some (Z.of_N (Pos.of_uint d), r).
Proof.
  intros Hr. induction d as [|d IH|d IH|d IH|d IH|d IH|d IH|d IH|d IH|d IH|d IH];
    intros any Hany; cbn [NilEmpty.string_of_uint Pos.of_uint].
  - destruct Hany as [->|Hne]; [now apply read_digits_end | contradiction].
  - digit_step. apply IH. now left.
  - digit_step. exact (read_digits_acc d r Hr 1).
  - digit_step. exact (read_digits_acc d r Hr 2).
  - digit_step. exact (read_digits_acc d r Hr 3).
  - digit_step. exact (read_digits_acc d r Hr 4).
  - digit_step. exact (read_digits_acc d r Hr 5).
  - digit_step. exact (read_digits_acc d r Hr 6).
  - digit_step. exact (read_digits_acc d r Hr 7).
  - digit_step. exact (read_digits_acc d r Hr 8).
  - digit_step. exact (read_digits_acc d r Hr 9).
Qed.

Lemma digits_head (d : Decimal.uint) :
  d <> Decimal.Nil ->
  exists c x, NilEmpty.string_of_uint d = String c x /\ is_digit c = true.
Proof. destruct d; [contradiction | now eexists _, _ ..]. Qed.

Lemma read_token_digit (read : string -> option (value * string)) (budget : nat)
    (c : ascii) (x : string) :
  is_digit c = true ->
  read_token read budget (String c x)
  = match read_digits 0 false (String c x) with
    | Some (z, r) => Some (VNum z, r)
    | None => None
    end.
Proof.
  intros Hc. pose proof (is_digit_code c Hc) as Hcode.
  unfold is_digit in Hc. cbv zeta in Hc.
  cbn [read_token]. cbv zeta. rewrite Hc.
  destruct (Nat.eqb_spec (nat_of_ascii c) 123); [lia|].
  destruct (Nat.eqb_spec (nat_of_ascii c) 91); [lia|].
  destruct (Nat.eqb_spec (nat_of_ascii c) 34); [lia|].
  destruct (Nat.eqb_spec (nat_of_ascii c) 45); [lia|].
  reflexivity.
Qed.

Lemma read_token_decimal (read : string -> option (value * string)) (budget : nat)
    (n : Z) (r : string) :
  no_digit_head r -> read_token read budget (decimal n +:+ r) = Some (VNum n, r).
Proof.
  intros Hr. unfold decimal. destruct n as [|p|p]; cbn [Z.to_int NilEmpty.string_of_int].
  - change (read_token read budget (String "0" r) = Some (VNum 0, r)).
    rewrite read_token_digit by reflexivity.
    change (String "0" r) with (NilEmpty.string_of_uint (Decimal.D0 Decimal.Nil) +:+ r).
    rewrite (read_digits_uint _ r Hr false) by (right; discriminate). reflexivity.
  - destruct (digits_head _ (DecimalPos.Unsigned.to_uint_nonnil p)) as (c & x & Heq & Hc).
    rewrite Heq, append_cons, (read_token_digit read budget c _ Hc), <- append_cons, <- Heq.
    rewrite (read_digits_uint _ r Hr false)
      by (right; apply DecimalPos.Unsigned.to_uint_nonnil).
    now rewrite DecimalPos.Unsigned.of_to.
  - rewrite append_cons.
    change (read_token read budget
              (String "-" (NilEmpty.string_of_uint (Pos.to_uint p) +:+ r)))
      with (match read_digits 0 false (NilEmpty.string_of_uint (Pos.to_uint p) +:+ r) with
            | Some (z, r) => Some (VNum (- z), r)
            | None => None
            end).
    rewrite (read_digits_uint _ r Hr false)
      by (right; apply DecimalPos.Unsigned.to_uint_nonnil).
    now rewrite DecimalPos.Unsigned.of_to.
Qed.

Lemma read_string_escape_char (c : ascii) (x t r : string) :
  read_string x = Some (t, r) ->
  read_string (escape_char c +:+ x) = Some (String c t, r).
Proof.
  intros Hx.
  destruct c as [[] [] [] [] [] [] [] []];
    cbv -[read_string]; cbn; rewrite Hx; reflexivity.
Qed.

Lemma read_string_escape (s r : string) :
  read_string (escape_string s +:+ String char_quote r) = Some (s, r).
Proof.
  induction s as [|c s IH]; [reflexivity|].
  cbn [escape_string]. rewrite append_assoc. now apply read_string_escape_char.
Qed.

Lemma read_token_string (read : string -> option (value * string)) (budget : nat)
    (s r : string) :
  read_token read budget (quote_json s +:+ r) = Some (VStr s, r).
Proof.
  rewrite quote_json_text.
  change (read_token read budget (String char_quote (escape_string s +:+ String char_quote r)))
    with (match read_string (escape_string s +:+ String char_quote r) with
          | Some (t, r) => Some (VStr t, r)
          | None => None
          end).
  now rewrite read_string_escape.
Qed.

(** ** The reference reader: values *)

Lemma token_head (t : token) :
  good_sym t = true -> exists c x, token_text t = String c x /\ is_ws c = false.
Proof.
  destruct t as [a|s]; intros Ht.
  - destruct (good_sym_inv _ Ht) as (_ & c & a' & -> & Hc). exists c, a'.
    split; [reflexivity | apply (sym_char_inv _ Hc)].
  - now exists char_quote, (escape_string s +:+ str_quote).
Qed.

Lemma no_digit_gap (g x : string) :
  all_ws g = true -> no_digit_head x -> no_digit_head (g +:+ x).
Proof.
  destruct g as [|c g]; [easy|]. cbn [all_ws]. intros Hg _.
  apply andb_true_iff in Hg as [Hc _]. rewrite append_cons. now apply is_ws_not_digit.
Qed.

Lemma read_items_skip (read : string -> option (value * string)) (b : nat)
    (acc : list value) (g x : string) :
  all_ws g = true -> read_items read b acc (g +:+ x) = read_items read b acc x.
Proof. intros Hg. destruct b; [reflexivity|]. cbn [read_items]. now rewrite all_ws_skip. Qed.

Lemma read_members_skip (read : string -> option (value * string)) (b : nat)
    (acc : obj) (g x : string) :
  all_ws g = true -> read_members read b acc (g +:+ x) = read_members read b acc x.
Proof. intros Hg. destruct b; [reflexivity|]. cbn [read_members]. now rewrite all_ws_skip. Qed.

Lemma read_items_value (read : string -> option (value * string)) (b : nat)
    (acc : list value) (c : ascii) (x : string) :
  is_ws c = false ->
  Nat.eqb (nat_of_ascii c) 93 = false -> Nat.eqb (nat_of_ascii c) 44 = false ->
  read_items read (S b) acc (String c x)
  = match read (String c x) with
    | Some (v, r) => read_items read b (v :: acc) r
    | None => None
    end.
Proof. intros Hw H1 H2. cbn [read_items skip_ws]. now rewrite Hw, H1, H2. Qed.

Lemma read_members_quote (read : string -> option (value * string)) (b : nat)
    (acc : obj) (x : string) :
  read_members read (S b) acc (String char_quote x)
  = match read_string x with
    | Some (k, r) =>
        match skip_ws r with
        | String colon r' =>
            if Nat.eqb (nat_of_ascii colon) 58
            then match read r' with
                 | Some (v, r'') => read_members read b (set acc k v) r''
                 | None => None
                 end
            else None
        | EmptyString => None
        end
    | None => None
    end.
Proof. reflexivity. Qed.

Lemma read_members_key (read : string -> option (value * string)) (b : nat)
    (acc : obj) (k g r' : string) :
  all_ws g = true ->
  read_members read (S b) acc (quote_json k +:+ g +:+ String ":" r')
  = match read r' with
    | Some (v, r'') => read_members read b (set acc k v) r''
    | None => None
    end.
Proof.
  intros Hg. rewrite quote_json_text, read_members_quote, read_string_escape.
  rewrite (all_ws_skip g _ Hg). reflexivity.
Qed.

Lemma value_head (v : value) :
  exists t toks,
    tokens_of v = t :: toks
    /\ exists c x,
         token_text t = String c x /\ is_ws c = false
         /\ Nat.eqb (nat_of_ascii c) 93 = false /\ Nat.eqb (nat_of_ascii c) 44 = false.
Proof.
  destruct v as [| |b|n|s|l|o]; try (eexists _, _; split; [reflexivity|]; now eexists _, _).
  - destruct b; eexists _, _; (split; [reflexivity|]); now eexists _, _.
  - eexists _, _. split; [reflexivity|]. cbn [token_text]. unfold decimal.
    destruct n as [|p|p]; cbn [Z.to_int NilEmpty.string_of_int]; try (now eexists _, _).
    destruct (digits_head _ (DecimalPos.Unsigned.to_uint_nonnil p)) as (c & x & -> & Hc).
    exists c, x. split; [reflexivity|]. pose proof (is_digit_code c Hc) as Hcode.
    split; [|split; apply Nat.eqb_neq; lia].
    destruct (is_ws c) eqn:Hw; [|reflexivity].
    apply is_ws_not_digit in Hw. congruence.
Qed.

Lemma set_fresh (acc : obj) (k : string) (v : value) :
  ~ In k (map fst acc) -> set acc k v = acc ++ [(k, v)].
Proof.
  induction acc as [|[k' v'] acc IH]; intros Hk; [reflexivity|].
  cbn [set]. destruct (String.eqb_spec k' k) as [->|_]; [exfalso; apply Hk; now left|].
  rewrite IH; [reflexivity|]. intros Hin. apply Hk. now right.
Qed.

Lemma read_items_tokens (fuel : nat) (l : list value) :
  Forall reads_tokens l -> forallb json_value l = true ->
  forall budget acc ts r,
    map snd ts = tl (tokens_of (VArr l)) ->
    Forall (fun gt => all_ws (fst gt) = true) ts ->
    String.length (render ts +:+ r) < budget ->
    String.length (render ts +:+ r) <= fuel ->
    read_items (read_value fuel) budget acc (render ts +:+ r)
    = Some (VArr (rev acc ++ l), r).
Proof.
  intros HF. induction HF as [|e rest He _ IH]; intros Hjs budget acc ts r Htok Hws Hb Hf.
  - destruct ts as [|[g t] [|p ts]]; try discriminate. injection Htok as ->.
    apply Forall_inv in Hws. cbn [fst] in Hws.
    destruct budget as [|b]; [lia|].
    cbn [render token_text]. rewrite !append_assoc, (read_items_skip _ _ _ g _ Hws).
    now rewrite app_nil_r.
  - cbn [forallb] in Hjs. apply andb_true_iff in Hjs as [Hje Hjs].
    change (tl (tokens_of (VArr (e :: rest))))
      with (tokens_of e ++ match rest with
                           | [] => tl (tokens_of (VArr rest))
                           | _ :: _ => TSym "," :: tl (tokens_of (VArr rest))
                           end) in Htok.
    apply map_eq_app in Htok as (ts_e & ts_t & -> & Hte & Htt).
    destruct (value_head e) as (t1 & toks & Hhead & c & x & Htext & Hc & H93 & H44).
    rewrite Hhead in Hte. destruct ts_e as [|[g1 t] ts_e]; [discriminate|].
    cbn [map snd] in Hte. injection Hte as -> Hte.
    apply Forall_app in Hws as [Hws_e Hws_t].
    pose proof (Forall_inv Hws_e) as Hg1. cbn [fst] in Hg1.
    apply Forall_inv_tail in Hws_e.
    rewrite render_app in Hb, Hf |- *. cbn [render] in Hb, Hf |- *.
    rewrite !append_assoc in Hb, Hf |- *. rewrite !length_app in Hb, Hf.
    rewrite Htext in Hb, Hf |- *. cbn [String.length] in Hb, Hf.
    destruct budget as [|b]; [lia|].
    rewrite (read_items_skip _ _ _ g1 _ Hg1), append_cons.
    rewrite (read_items_value _ _ _ c _ Hc H93 H44).
    assert (Htail : no_digit_head (render ts_t +:+ r)
                    /\ read_items (read_value fuel) b (e :: acc) (render ts_t +:+ r)
                       = Some (VArr (rev acc ++ e :: rest), r)).
    { destruct rest as [|e' rest'].
      - destruct ts_t as [|[g t] [|p ts]]; try discriminate. injection Htt as ->.
        pose proof (Forall_inv Hws_t) as Hg. cbn [fst] in Hg.
        cbn [render token_text] in Hb, Hf |- *.
        rewrite !append_assoc. rewrite !length_app in Hb, Hf.
        cbn [String.length] in Hb, Hf. split.
        + now apply no_digit_gap.
        + pose proof (IH Hjs b (e :: acc) [(g, TSym "]")] r eq_refl Hws_t) as Hx.
          cbn [render token_text rev] in Hx.
          rewrite !append_assoc, !length_app, <- app_assoc in Hx.
          cbn [String.length app] in Hx. apply Hx; lia.
      - destruct ts_t as [|[g t] ts_t]; [discriminate|]. cbn [map snd] in Htt.
        injection Htt as -> Htt.
        pose proof (Forall_inv Hws_t) as Hg. cbn [fst] in Hg.
        apply Forall_inv_tail in Hws_t.
        cbn [render token_text] in Hb, Hf |- *.
        rewrite !append_assoc. rewrite !length_app in Hb, Hf.
        cbn [String.length] in Hb, Hf. split.
        + now apply no_digit_gap.
        + destruct b as [|b]; [lia|].
          rewrite (read_items_skip _ _ _ g _ Hg).
          change (read_items (read_value fuel) (S b) (e :: acc)
                    ("," +:+ render ts_t +:+ r))
            with (read_items (read_value fuel) b (e :: acc) (render ts_t +:+ r)).
          rewrite (IH Hjs b (e :: acc) ts_t r Htt Hws_t).
          * cbn [rev]. now rewrite <- app_assoc.
          * rewrite length_app. lia.
          * rewrite length_app. lia. }
    destruct Htail as [Hdigit Hrest].
    assert (Hread : read_value fuel (String c (x +:+ render ts_e +:+ render ts_t +:+ r))
                    = Some (e, render ts_t +:+ r)).
    { specialize (He fuel (("", t1) :: ts_e) (render ts_t +:+ r) Hje).
      cbn [render map snd] in He. rewrite Htext, append_nil_l, !append_assoc in He.
      rewrite append_cons in He. apply He.
      - now rewrite Hhead, Hte.
      - now constructor.
      - cbn [String.length]. rewrite !length_app. lia.
      - exact Hdigit. }
    now rewrite Hread.
Qed.

Lemma read_members_tokens (fuel : nat) (o : obj) :
  Forall (fun kv => reads_tokens (snd kv)) o ->
  forallb (fun kv => json_value (snd kv)) o = true ->
  forall budget acc ts r,
    List.NoDup (map fst (acc ++ o)) ->
    map snd ts = tl (tokens_of (VObj o)) ->
    Forall (fun gt => all_ws (fst gt) = true) ts ->
    String.length (render ts +:+ r) < budget ->
    String.length (render ts +:+ r) <= fuel ->
    read_members (read_value fuel) budget acc (render ts +:+ r)
    = Some (VObj (acc ++ o), r).
Proof.
  intros HF. induction HF as [|[k x] rest Hx _ IH];
    intros Hjs budget acc ts r Hnd Htok Hws Hb Hf.
  - destruct ts as [|[g t] [|p ts]]; try discriminate. injection Htok as ->.
    apply Forall_inv in Hws. cbn [fst] in Hws.
    destruct budget as [|b]; [lia|].
    cbn [render token_text]. rewrite !append_assoc, (read_members_skip _ _ _ g _ Hws).
    now rewrite app_nil_r.
  - cbn [forallb snd] in Hjs, Hx. apply andb_true_iff in Hjs as [Hjx Hjs].
    change (tl (tokens_of (VObj ((k, x) :: rest))))
      with (TStr k :: TSym ":" :: tokens_of x
              ++ match rest with
                 | [] => tl (tokens_of (VObj rest))
                 | _ :: _ => TSym "," :: tl (tokens_of (VObj rest))
                 end) in Htok.
    destruct ts as [|[g1 t1] [|[g2 t2] ts]]; try discriminate.
    cbn [map snd] in Htok. injection Htok as -> -> Htok.
    apply map_eq_app in Htok as (ts_x & ts_t & -> & Htx & Htt).
    pose proof (Forall_inv Hws) as Hg1. apply Forall_inv_tail in Hws.
    pose proof (Forall_inv Hws) as Hg2. apply Forall_inv_tail in Hws.
    cbn [fst] in Hg1, Hg2. apply Forall_app in Hws as [Hws_x Hws_t].
    assert (Hfresh : ~ In k (map fst acc)).
    { rewrite map_app in Hnd. cbn [map fst] in Hnd. apply NoDup_remove_2 in Hnd.
      intros Hin. apply Hnd. apply in_or_app. now left. }
    cbn [render token_text] in Hb, Hf |- *. rewrite render_app in Hb, Hf |- *.
    rewrite !append_assoc in Hb, Hf |- *. rewrite !length_app in Hb, Hf.
    cbn [String.length] in Hb, Hf.
    destruct budget as [|b]; [lia|].
    rewrite (read_members_skip _ _ _ g1 _ Hg1).
    change (":" +:+ render ts_x +:+ render ts_t +:+ r)
      with (String ":" (render ts_x +:+ render ts_t +:+ r)).
    rewrite (read_members_key _ _ _ k g2 _ Hg2).
    assert (Htail : no_digit_head (render ts_t +:+ r)
                    /\ read_members (read_value fuel) b (acc ++ [(k, x)]) (render ts_t +:+ r)
                       = Some (VObj (acc ++ (k, x) :: rest), r)).
    { assert (Hnd' : List.NoDup (map fst ((acc ++ [(k, x)]) ++ rest)))
        by now rewrite <- app_assoc.
      destruct rest as [|e' rest'].
      - destruct ts_t as [|[g t] [|p ts]]; try discriminate. injection Htt as ->.
        pose proof (Forall_inv Hws_t) as Hg. cbn [fst] in Hg.
        cbn [render token_text] in Hb, Hf |- *.
        rewrite !append_assoc. rewrite !length_app in Hb, Hf.
        cbn [String.length] in Hb, Hf. split.
        + now apply no_digit_gap.
        + pose proof (IH Hjs b (acc ++ [(k, x)]) [(g, TSym "}")] r Hnd' eq_refl Hws_t) as Hy.
          cbn [render token_text] in Hy.
          rewrite !append_assoc, !length_app, <- app_assoc in Hy.
          cbn [String.length app] in Hy. apply Hy; lia.
      - destruct ts_t as [|[g t] ts_t]; [discriminate|]. cbn [map snd] in Htt.
        injection Htt as -> Htt.
        pose proof (Forall_inv Hws_t) as Hg. cbn [fst] in Hg.
        apply Forall_inv_tail in Hws_t.
        cbn [render token_text] in Hb, Hf |- *.
        rewrite !append_assoc. rewrite !length_app in Hb, Hf.
        cbn [String.length] in Hb, Hf. split.
        + now apply no_digit_gap.
        + destruct b as [|b]; [lia|].
          rewrite (read_members_skip _ _ _ g _ Hg).
          change (read_members (read_value fuel) (S b) (acc ++ [(k, x)])
                    ("," +:+ render ts_t +:+ r))
            with (read_members (read_value fuel) b (acc ++ [(k, x)]) (render ts_t +:+ r)).
          rewrite (IH Hjs b (acc ++ [(k, x)]) ts_t r Hnd' Htt Hws_t).
          * now rewrite <- app_assoc.
          * rewrite length_app. lia.
          * rewrite length_app. lia. }
    destruct Htail as [Hdigit Hrest].
    rewrite (Hx fuel ts_x (render ts_t +:+ r) Hjx Htx Hws_x).
    + now rewrite (set_fresh _ _ _ Hfresh).
    + rewrite !length_app. lia.
    + exact Hdigit.
Qed.

Lemma read_value_leaf (fuel : nat) (g : string) (t : token) (r : string) (v : value) :
  all_ws g = true -> good_sym t = true ->
  String.length (g +:+ token_text t +:+ r) <= fuel ->
  (forall read budget, read_token read budget (token_text t +:+ r) = Some (v, r)) ->
  read_value fuel (g +:+ token_text t +:+ r) = Some (v, r).
Proof.
  intros Hg Ht Hlen Hread. destruct (token_head t Ht) as (c & x & Htext & Hc).
  rewrite !length_app, Htext in Hlen. cbn [String.length] in Hlen.
  destruct fuel as [|fuel]; [lia|]. cbn [read_value].
  rewrite (all_ws_skip g _ Hg).
  assert (Hskip : skip_ws (token_text t +:+ r) = token_text t +:+ r).
  { rewrite Htext, append_cons. cbn [skip_ws]. now rewrite Hc. }
  rewrite Hskip. apply Hread.
Qed.

(** The reader reads a value from its tokens. *)
Lemma read_value_tokens (v : value) : reads_tokens v.
Proof.
  induction v as [| |b|n|s|l IHl|o IHo] using value_nested_ind;
    intros fuel ts r Hjs Htok Hws Hlen Hr.
  - discriminate.
  - destruct ts as [|[g t] [|p ts]]; try discriminate. injection Htok as ->.
    apply Forall_inv in Hws. cbn [render] in Hlen |- *.
    rewrite append_nil_r in Hlen |- *. rewrite append_assoc in Hlen |- *.
    now apply read_value_leaf.
  - destruct ts as [|[g t] [|p ts]]; try discriminate. injection Htok as ->.
    apply Forall_inv in Hws. cbn [render] in Hlen |- *.
    rewrite append_nil_r in Hlen |- *. rewrite append_assoc in Hlen |- *.
    apply read_value_leaf; try assumption; now destruct b.
  - destruct ts as [|[g t] [|p ts]]; try discriminate. injection Htok as ->.
    apply Forall_inv in Hws. cbn [render] in Hlen |- *.
    rewrite append_nil_r in Hlen |- *. rewrite append_assoc in Hlen |- *.
    apply read_value_leaf; try assumption; [apply decimal_sym|].
    intros read budget. now apply read_token_decimal.
  - destruct ts as [|[g t] [|p ts]]; try discriminate. injection Htok as ->.
    apply Forall_inv in Hws. cbn [render] in Hlen |- *.
    rewrite append_nil_r in Hlen |- *. rewrite append_assoc in Hlen |- *.
    apply read_value_leaf; [exact Hws | reflexivity | exact Hlen |].
    intros read budget. apply read_token_string.
  - destruct ts as [|[g t] ts]; [discriminate|]. cbn [map snd] in Htok.
    injection Htok as -> Htok.
    pose proof (Forall_inv Hws) as Hg. apply Forall_inv_tail in Hws. cbn [fst] in Hg.
    cbn [json_value] in Hjs.
    cbn [render token_text] in Hlen |- *. rewrite !append_assoc in Hlen |- *.
    pose proof Hlen as Hlen'. rewrite !length_app in Hlen'. cbn [String.length] in Hlen'.
    destruct fuel as [|fuel]; [lia|]. cbn [read_value].
    rewrite (all_ws_skip g _ Hg).
    change (read_token (read_value fuel)
              (String.length (g +:+ "[" +:+ render ts +:+ r))
              (skip_ws ("[" +:+ render ts +:+ r)))
      with (read_items (read_value fuel)
              (String.length (g +:+ "[" +:+ render ts +:+ r)) [] (render ts +:+ r)).
    rewrite (read_items_tokens fuel l IHl Hjs _ [] ts r Htok Hws); [reflexivity| |].
    + rewrite !length_app. cbn [String.length]. lia.
    + rewrite length_app. lia.
  - destruct ts as [|[g t] ts]; [discriminate|]. cbn [map snd] in Htok.
    injection Htok as -> Htok.
    pose proof (Forall_inv Hws) as Hg. apply Forall_inv_tail in Hws. cbn [fst] in Hg.
    cbn [json_value] in Hjs. apply andb_true_iff in Hjs as [Hd Hjs].
    cbn [render token_text] in Hlen |- *. rewrite !append_assoc in Hlen |- *.
    pose proof Hlen as Hlen'. rewrite !length_app in Hlen'. cbn [String.length] in Hlen'.
    destruct fuel as [|fuel]; [lia|]. cbn [read_value].
    rewrite (all_ws_skip g _ Hg).
    change (read_token (read_value fuel)
              (String.length (g +:+ "{" +:+ render ts +:+ r))
              (skip_ws ("{" +:+ render ts +:+ r)))
      with (read_members (read_value fuel)
              (String.length (g +:+ "{" +:+ render ts +:+ r)) [] (render ts +:+ r)).
    rewrite (read_members_tokens fuel o IHo Hjs _ [] ts r (distinct_NoDup _ Hd) Htok Hws);
      [reflexivity| |].
    + rewrite !length_app. cbn [String.length]. lia.
    + rewrite length_app. lia.
Qed.

(** The reference reader reads every JSONC text of a value as the
    value. *)
Lemma jsonc_read_Jsonc (v : value) (text : string) :
  Jsonc v text -> jsonc_read text = Some v.
Proof.
  intros (Hjs & body & tail & (ts & Htoks & Hgaps & ->) & Htail & ->).
  assert (Hgood : forallb good_sym (map snd ts) = true)
    by (rewrite Htoks; apply tokens_good_sym).
  destruct (strip_render ts tail Hgaps Hgood) as (ts' & Htoks' & Hws & Hcode).
  destruct (strip_gap tail "" Htail) as (w & Hw & Hstrip).
  rewrite append_nil_r in Hstrip. cbn [strip_comments] in Hstrip.
  rewrite append_nil_r in Hstrip. rewrite Hstrip in Hcode. clear Hstrip.
  assert (Hdigit : no_digit_head w).
  { rewrite <- (append_nil_r w). now apply no_digit_gap. }
  rewrite Htoks in Htoks'.
  pose proof (read_value_tokens v (String.length (render ts' +:+ w)) ts' w
                Hjs Htoks' Hws (le_n _) Hdigit) as Hread.
  unfold jsonc_read. cbv zeta. rewrite Hcode, Hread.
  assert (Hrest : skip_ws w = "").
  { rewrite <- (append_nil_r w). now rewrite (all_ws_skip w "" Hw). }
  rewrite Hrest.
  destruct (value_head v) as (t & toks & Hhead & c & x & Htext & Hc & _).
  rewrite Hhead in Htoks'. destruct ts' as [|[g t'] ts']; [discriminate|].
  cbn [map snd] in Htoks'. injection Htoks' as -> _.
  apply Forall_inv in Hws. cbn [fst] in Hws.
  cbn [render]. rewrite !append_assoc, (all_ws_skip g _ Hws), Htext, append_cons.
  cbn [skip_ws]. now rewrite Hc.
Qed.

Section RoundTrip.

Context `{Externals}.

Lemma inject_section_keeps (fileContent : string) (entry : string * list string) :
  contains char_quote fileContent = true ->
  contains char_quote (inject_section fileContent entry) = true.
Proof.
  intros Hq. destruct entry as [section [|line lines]]; [exact Hq|].
  cbn [inject_section]. apply replace_ws_then_keeps; [|exact Hq].
  rewrite !contains_app. cbn. now rewrite !orb_true_r.
Qed.

Lemma injectSectionComments_keeps (text : string) :
  contains char_quote text = true ->
  contains char_quote (js_trim (injectSectionComments text)) = true.
Proof.
  intros Hq. unfold injectSectionComments. cbv zeta.
  rewrite js_trim_keeps, contains_app, js_trim_keeps.
  apply orb_true_iff. left.
  apply (replace_all_keeps0 char_lf (str_lf +:+ "}")); [reflexivity|].
  apply (replace_all_keeps0 "{"%char (str_lf +:+ str_lf)); [reflexivity|].
  apply collapse_blank_lines_keeps.
  generalize commentSections as sections. intros sections. revert text Hq.
  induction sections as [|entry sections IH]; intros text Hq; [exact Hq|].
  cbn [fold_left]. apply IH. now apply inject_section_keeps.
Qed.

(** The file that [writeReliverseConfig] stores is, once trimmed, a
    JSONC text of the document. *)
Lemma written_Jsonc (doc : obj) :
  comment_safe cliName = true -> comment_safe cliDomainDocs = true ->
  json_value (VObj doc) = true ->
  Jsonc (VObj doc) (js_trim (injectSectionComments (text_of (VObj doc)))).
Proof.
  intros Hname Hdocs Hjs.
  destruct (stringify_render (VObj doc) "" "" Hjs eq_refl Gap_nil)
    as (text & ts & Htext & Htoks & Hgaps & Hrender & Hfirst).
  rewrite append_nil_l in Hrender.
  unfold text_of, JSON_stringify. rewrite Htext, <- Hrender.
  assert (Hne : ts <> []) by (intros ->; discriminate).
  assert (Hgood : good_tokens (map snd ts)) by (rewrite Htoks; apply tokens_good).
  destruct (injectSectionComments_render ts Hdocs Hname Hne Hfirst Hgaps Hgood)
    as (ts' & Htoks' & Hgaps' & -> & ->).
  split; [exact Hjs|]. exists (render ts'), "". split; [|split].
  - exists ts'. split; [congruence|]. now split.
  - constructor.
  - now rewrite append_nil_r.
Qed.


End RoundTrip.


(** ** Worked examples *)

Example cleanGitHubUrl_examples :
  cleanGitHubUrl " git+https://GitHub.com/blefnk/relivator.git " = "blefnk/relivator"
  /\ cleanGitHubUrl "https://www.gitlab.com/a/b" = "a/b"
  /\ cleanGitHubUrl "bitbucket.com/x.GIT" = "x"
  /\ cleanGitHubUrl "https://wwwgithub.com/a" = "https://wwwgithub.com/a"
  /\ cleanGitHubUrl "git+git+x" = "git+x".
Proof. repeat split; reflexivity. Qed.

(** [String] on the values of a parsed document: an array is joined, an
    object prints through the [toString] it inherits, and an own
    [toString] key makes the conversion raise. *)
Example js_String_examples :
  js_String (VArr [VNum 1; VNull; VStr "a"; VArr [VBool true; VUndefined]])
  = Some "1,,a,true,"
  /\ js_String (VObj [("valueOf", VNum 1)]) = Some "[object Object]"
  /\ js_String (VObj [("toString", VNum 0)]) = None
  /\ js_String (VArr [VStr "a"; VObj [("toString", VNull)]]) = None.
Proof. repeat split; reflexivity. Qed.

(** A second pass can still rewrite a repository list, and reports
    nothing: [cleanGitHubUrl] strips one [.git] at a time. *)
Example fixLineByLine_second_pass_rewrites :
  fixLineByLine (VObj [("customUserFocusedRepos", VArr [VStr "a/b.git.git"])])
    sample_default sample_schema
  = Some (VObj [ ("projectName", VStr "unknown");
                 ("customUserFocusedRepos", VArr [VStr "a/b.git"]);
                 ("codeStyle", VObj [("lineWidth", VNum 80); ("quoteMark", VStr "double")]);
                 ("ignoreDependencies", VArr []) ], [])
  /\ fixLineByLine
       (VObj [ ("projectName", VStr "unknown");
               ("customUserFocusedRepos", VArr [VStr "a/b.git"]);
               ("codeStyle", VObj [("lineWidth", VNum 80); ("quoteMark", VStr "double")]);
               ("ignoreDependencies", VArr []) ])
       sample_default sample_schema
     = Some (VObj [ ("projectName", VStr "unknown");
                    ("customUserFocusedRepos", VArr [VStr "a/b"]);
                    ("codeStyle",
                      VObj [("lineWidth", VNum 80); ("quoteMark", VStr "double")]);
                    ("ignoreDependencies", VArr []) ], []).
Proof. split; reflexivity. Qed.

Example jsonc_read_example :
  jsonc_read migration_text
  = Some (VObj [("version", VStr "2.0.0"); ("unknownField", VNum 1)]).
Proof. reflexivity. Qed.

Example annotated_text_example :
  @injectSectionComments strict_externals
    (text_of (VObj [("projectName", VStr "demo"); ("features", VObj [])]))
  = "{" +:+ str_lf
    +:+ "  // General project information" +:+ str_lf
    +:+ "  " +:+ quote_json "projectName" +:+ ": " +:+ quote_json "demo" +:+ "," +:+ str_lf
    +:+ str_lf
    +:+ "  // Project features" +:+ str_lf
    +:+ "  " +:+ quote_json "features" +:+ ": {}" +:+ str_lf
    +:+ "}" +:+ str_lf.
Proof. reflexivity. Qed.


(** What the round trip leaves out.  A member whose value is
    [undefined] validates but is not written: the document read back
    lacks it. *)
Example write_read_undefined_member :
  Check (@reliverseConfigSchema strict_externals)
    (VObj [("projectName", VStr "demo"); ("legacy", VUndefined)]) = true
  /\ fst (@readReliverseConfig strict_externals "reliverse.jsonc"
            (mkWorld (@written strict_externals ∅ "reliverse.jsonc"
                        (text_of (VObj [("projectName", VStr "demo");
                                        ("legacy", VUndefined)]))) []))
     = Returned (Some (VObj [("projectName", VStr "demo")])).
Proof. split; reflexivity. Qed.

(** A line break in the name of the tool ends the comment that quotes
    it: the rest of the name stands in the file as code, and the reader
    rejects the file. *)
Example write_read_two_line_name :
  Check (@reliverseConfigSchema two_line_externals)
    (VObj [("$schema", VStr "s"); ("projectName", VStr "demo")]) = true
  /\ fst (@readReliverseConfig two_line_externals "reliverse.jsonc"
            (mkWorld (@written two_line_externals ∅ "reliverse.jsonc"
                        (text_of (VObj [("$schema", VStr "s");
                                        ("projectName", VStr "demo")]))) []))
     = Returned None.
Proof. split; reflexivity. Qed.
